(** * BlockDrop: the falling-block engine (Grid, Tetrimino, Orb, GameEngine)

    A shallow embedding of the Kotlin sources
    [core/model/Tetrimino.kt], [core/model/Orb.kt], [core/model/Grid.kt]
    and [core/engine/GameEngine.kt], followed by the properties of the
    engine that the specification states.

    Conventions of the embedding.
    - A Kotlin [Int] is a [Z] kept in the signed 32-bit range; every
      arithmetic operation of the source is followed by [wrap32]. A [Long]
      is treated the same way with [wrap64].
    - A Kotlin [Float] is an IEEE-754 binary32 value, a [spec_float] of the
      standard library with precision 24 and maximal exponent 128.
    - [kotlin.random.Random] and [System.currentTimeMillis] are read from an
      explicit [World]: two infinite feeds with a cursor each.
    - Arrays are lists; an access outside the array raises in Kotlin and is
      the fault [IndexOutOfBounds] here. A [while] loop is a recursion on a
      fuel; running out of it is the fault [OutOfFuel]. *)

From Stdlib Require Import ZArith Lia Bool List.
From Stdlib Require Import Floats.SpecFloat.
From stdpp Require Import base option list.
Import ListNotations.

Local Open Scope Z_scope.

(** ** Results of fallible code *)

Inductive fault : Type :=
| IndexOutOfBounds
| OutOfFuel.

Inductive res (A : Type) : Type :=
| Ok (a : A)
| Err (f : fault).

Arguments Ok {A} a.
Arguments Err {A} f.

Definition res_bind {A B : Type} (c : res A) (k : A -> res B) : res B :=
  match c with
  | Ok a => k a
  | Err f => Err f
  end.

Notation "'let*' x ':=' c 'in' k" := (res_bind c (fun x => k))
  (at level 10, x pattern, c at level 100, k at level 200).

(** ** Kotlin [Int] and [Long] *)

Module Int32.

Definition min_value : Z := - 2 ^ 31.
Definition max_value : Z := 2 ^ 31 - 1.

Definition wrap32 (z : Z) : Z := (z + 2 ^ 31) mod 2 ^ 32 - 2 ^ 31.

Definition in_range (z : Z) : Prop := min_value <= z <= max_value.

Definition add (a b : Z) : Z := wrap32 (a + b).
Definition sub (a b : Z) : Z := wrap32 (a - b).
Definition mul (a b : Z) : Z := wrap32 (a * b).
(** [a / b] of Kotlin truncates towards zero. *)
Definition div (a b : Z) : Z := wrap32 (Z.quot a b).
(** [a % b] of Kotlin has the sign of [a]. *)
Definition rem (a b : Z) : Z := Z.rem a b.

End Int32.

Module Int64.

Definition wrap64 (z : Z) : Z := (z + 2 ^ 63) mod 2 ^ 64 - 2 ^ 63.
Definition add (a b : Z) : Z := wrap64 (a + b).
Definition sub (a b : Z) : Z := wrap64 (a - b).

End Int64.

(** ** Kotlin [Float] *)

Module Float32.

Definition prec : Z := 24.
Definition emax : Z := 128.

Definition float : Type := spec_float.

(** [Int.toFloat()]: the nearest binary32 value. *)
Definition ofInt (n : Z) : float := binary_normalize prec emax n 0 false.

Definition add (a b : float) : float := SFadd prec emax a b.
Definition mul (a b : float) : float := SFmul prec emax a b.
Definition div (a b : float) : float := SFdiv prec emax a b.
Definition ltb (a b : float) : bool := SFltb a b.

(** A decimal literal [n / 10^k f] denotes the binary32 value nearest to
    the quotient; the correctly rounded division computes it. *)
Definition literal (num den : Z) : float := div (ofInt num) (ofInt den).

(** [Float.coerceAtMost(maximumValue)]:
    [if (this > maximumValue) maximumValue else this]. *)
Definition coerceAtMost (a maximumValue : float) : float :=
  if ltb maximumValue a then maximumValue else a.

(** [Int * Float] converts the integer first. *)
Definition mulInt (n : Z) (a : float) : float := mul (ofInt n) a.

(** [Float.coerceIn(minimumValue, maximumValue)], for bounds in order:
    [if (this < minimumValue) minimumValue
     else if (this > maximumValue) maximumValue else this]. *)
Definition coerceIn (a minimumValue maximumValue : float) : float :=
  if ltb a minimumValue then minimumValue
  else if ltb maximumValue a then maximumValue
  else a.

End Float32.

(** ** The outside world: random numbers and the clock *)

Record World : Type := mkWorld {
  random_feed : nat -> Z;
  random_cursor : nat;
  clock_feed : nat -> Z;
  clock_cursor : nat
}.

Module Random.

(** The next raw value of the generator. *)
Definition next (w : World) : Z * World :=
  (random_feed w (random_cursor w),
   mkWorld (random_feed w) (S (random_cursor w))
           (clock_feed w) (clock_cursor w)).

(** [Random.nextInt(until)]: some value of [0 until until]. *)
Definition nextInt (until : Z) (w : World) : Z * World :=
  let '(raw, w') := next w in (raw mod until, w').

(** [Random.nextFloat()] is [nextBits(24) / (1 shl 24).toFloat()]. *)
Definition nextBits24 (w : World) : Z * World :=
  let '(raw, w') := next w in (raw mod 2 ^ 24, w').

Definition floatOfBits24 (k : Z) : Float32.float :=
  Float32.div (Float32.ofInt k) (Float32.ofInt (2 ^ 24)).

Definition nextFloat (w : World) : Float32.float * World :=
  let '(k, w') := nextBits24 w in (floatOfBits24 k, w').

End Random.

Module System.

Definition currentTimeMillis (w : World) : Z * World :=
  (Int64.wrap64 (clock_feed w (clock_cursor w)),
   mkWorld (random_feed w) (random_cursor w)
           (clock_feed w) (S (clock_cursor w))).

End System.

(** ** Tetrimino.kt *)

Record Position : Type := mkPosition { pos_x : Z; pos_y : Z }.

Definition Position_eqb (p q : Position) : bool :=
  (pos_x p =? pos_x q) && (pos_y p =? pos_y q).

(** [androidx.compose.ui.graphics.Color], by its ARGB value. *)
Definition Color : Type := Z.

Module Theme.
Definition NeonPink : Color := 0xFFFF4081.
Definition NeonBlue : Color := 0xFF3F51B5.
Definition NeonGreen : Color := 0xFF4CAF50.
Definition IBlockColor : Color := NeonBlue.
Definition OBlockColor : Color := NeonGreen.
Definition TBlockColor : Color := NeonPink.
Definition LBlockColor : Color := 0xFFFF9800.
Definition JBlockColor : Color := 0xFF2196F3.
Definition SBlockColor : Color := 0xFF8BC34A.
Definition ZBlockColor : Color := 0xFFF44336.
End Theme.

Module TetriminoType.

(** The enum entries [I, O, T, L, J, S, Z], in declaration order. *)
Inductive t : Type := I | O | T | L | J | S | Z.

Definition values : list t := [I; O; T; L; J; S; Z].

Definition color (ty : t) : Color :=
  match ty with
  | I => Theme.IBlockColor
  | O => Theme.OBlockColor
  | T => Theme.TBlockColor
  | L => Theme.LBlockColor
  | J => Theme.JBlockColor
  | S => Theme.SBlockColor
  | Z => Theme.ZBlockColor
  end.

Definition getShape (ty : t) (rotation : BinNums.Z) : list (list BinNums.Z) :=
  match ty with
  | I =>
      if Int32.rem rotation 2 =? 0 then
        [ [0; 0; 0; 0];
          [1; 1; 1; 1];
          [0; 0; 0; 0];
          [0; 0; 0; 0] ]
      else
        [ [0; 0; 1; 0];
          [0; 0; 1; 0];
          [0; 0; 1; 0];
          [0; 0; 1; 0] ]
  | O =>
      [ [1; 1];
        [1; 1] ]
  | T =>
      if rotation =? 0 then
        [ [0; 1; 0];
          [1; 1; 1];
          [0; 0; 0] ]
      else if rotation =? 1 then
        [ [0; 1; 0];
          [0; 1; 1];
          [0; 1; 0] ]
      else if rotation =? 2 then
        [ [0; 0; 0];
          [1; 1; 1];
          [0; 1; 0] ]
      else
        [ [0; 1; 0];
          [1; 1; 0];
          [0; 1; 0] ]
  | L =>
      if rotation =? 0 then
        [ [0; 0; 1];
          [1; 1; 1];
          [0; 0; 0] ]
      else if rotation =? 1 then
        [ [0; 1; 0];
          [0; 1; 0];
          [0; 1; 1] ]
      else if rotation =? 2 then
        [ [0; 0; 0];
          [1; 1; 1];
          [1; 0; 0] ]
      else
        [ [1; 1; 0];
          [0; 1; 0];
          [0; 1; 0] ]
  | J =>
      if rotation =? 0 then
        [ [1; 0; 0];
          [1; 1; 1];
          [0; 0; 0] ]
      else if rotation =? 1 then
        [ [0; 1; 1];
          [0; 1; 0];
          [0; 1; 0] ]
      else if rotation =? 2 then
        [ [0; 0; 0];
          [1; 1; 1];
          [0; 0; 1] ]
      else
        [ [0; 1; 0];
          [0; 1; 0];
          [1; 1; 0] ]
  | S =>
      if Int32.rem rotation 2 =? 0 then
        [ [0; 1; 1];
          [1; 1; 0];
          [0; 0; 0] ]
      else
        [ [0; 1; 0];
          [0; 1; 1];
          [0; 0; 1] ]
  | Z =>
      if Int32.rem rotation 2 =? 0 then
        [ [1; 1; 0];
          [0; 1; 1];
          [0; 0; 0] ]
      else
        [ [0; 0; 1];
          [0; 1; 1];
          [0; 1; 0] ]
  end.

End TetriminoType.

Module PowerUpType.

Inductive t : Type := BOMB | LINE_CLEAR | GHOST.

Definition values : list t := [BOMB; LINE_CLEAR; GHOST].

Definition eqb (a b : t) : bool :=
  match a, b with
  | BOMB, BOMB | LINE_CLEAR, LINE_CLEAR | GHOST, GHOST => true
  | _, _ => false
  end.

(** [values()[Random.nextInt(values().size)]] *)
Definition random (w : World) : t * World :=
  let '(i, w') := Random.nextInt (Z.of_nat (length values)) w in
  (nth (Z.to_nat i) values BOMB, w').

Definition baseChance : Float32.float := Float32.literal 5 100.
Definition levelStep : Float32.float := Float32.literal 1 100.
Definition maxChance : Float32.float := Float32.literal 15 100.

(** The threshold of [shouldGeneratePowerUp]:
    [(baseChance + level * 0.01f).coerceAtMost(0.15f)]. *)
Definition chance (level : Z) : Float32.float :=
  let levelBonus := Float32.mulInt level levelStep in
  Float32.coerceAtMost (Float32.add baseChance levelBonus) maxChance.

Definition shouldGeneratePowerUp (level : Z) (w : World) : bool * World :=
  let '(r, w') := Random.nextFloat w in
  (Float32.ltb r (chance level), w').

End PowerUpType.

Module Tetrimino.

Record t : Type := mk {
  type : TetriminoType.t;
  position : Position;
  rotation : Z;
  powerUp : option PowerUpType.t
}.

(** [Tetrimino(type, powerUp = powerUp)]: the default position and
    rotation. *)
Definition spawn (ty : TetriminoType.t) (pu : option PowerUpType.t) : t :=
  mk ty (mkPosition 4 0) 0 pu.

Definition shape (p : t) : list (list Z) :=
  TetriminoType.getShape (type p) (rotation p).

Definition color (p : t) : Color := TetriminoType.color (type p).

(** An array with its indices, as [for (i in a.indices)] visits it. *)
Definition indexed {A : Type} (a : list A) : list (Z * A) :=
  imap (fun i v => (Z.of_nat i, v)) a.

Definition getBlocks (p : t) : list Position :=
  flat_map
    (fun '(y, row) =>
       flat_map
         (fun '(x, c) =>
            if c =? 1
            then [mkPosition (Int32.add (pos_x (position p)) x)
                             (Int32.add (pos_y (position p)) y)]
            else [])
         (indexed row))
    (indexed (shape p)).

Definition moveLeft (p : t) : t :=
  mk (type p)
     (mkPosition (Int32.sub (pos_x (position p)) 1) (pos_y (position p)))
     (rotation p) (powerUp p).

Definition moveRight (p : t) : t :=
  mk (type p)
     (mkPosition (Int32.add (pos_x (position p)) 1) (pos_y (position p)))
     (rotation p) (powerUp p).

Definition moveDown (p : t) : t :=
  mk (type p)
     (mkPosition (pos_x (position p)) (Int32.add (pos_y (position p)) 1))
     (rotation p) (powerUp p).

Definition rotate (p : t) : t :=
  let newRotation := Int32.rem (Int32.add (rotation p) 1) 4 in
  mk (type p) (position p) newRotation (powerUp p).

End Tetrimino.

(** ** Orb.kt *)

Module OrbType.

Inductive t : Type := SMALL | MEDIUM | LARGE.

Definition multiplier (ty : t) : Z :=
  match ty with
  | SMALL => 2
  | MEDIUM => 3
  | LARGE => 5
  end.

Definition color (ty : t) : Color :=
  match ty with
  | SMALL => Theme.NeonBlue
  | MEDIUM => Theme.NeonGreen
  | LARGE => Theme.NeonPink
  end.

Definition eqb (a b : t) : bool :=
  match a, b with
  | SMALL, SMALL | MEDIUM, MEDIUM | LARGE, LARGE => true
  | _, _ => false
  end.

End OrbType.

Module Orb.

Record t : Type := mk {
  position : Position;
  multiplier : Z;
  type : OrbType.t
}.

(** Equality of the data class: all three components. *)
Definition eqb (a b : t) : bool :=
  Position_eqb (position a) (position b)
  && (multiplier a =? multiplier b)
  && OrbType.eqb (type a) (type b).

Definition createRandom (p : Position) (w : World) : t * World :=
  let '(random, w') := Random.nextFloat w in
  let ty :=
    if Float32.ltb random (Float32.literal 6 10) then OrbType.SMALL
    else if Float32.ltb random (Float32.literal 9 10) then OrbType.MEDIUM
    else OrbType.LARGE in
  (mk p (OrbType.multiplier ty) ty, w').

End Orb.

(** ** Arrays and [for] loops *)

Definition aget {A : Type} (a : list A) (i : Z) : res A :=
  if i <? 0 then Err IndexOutOfBounds
  else match a !! Z.to_nat i with
       | Some v => Ok v
       | None => Err IndexOutOfBounds
       end.

Definition aset {A : Type} (a : list A) (i : Z) (v : A) : res (list A) :=
  if (0 <=? i) && (i <? Z.of_nat (length a))
  then Ok (<[Z.to_nat i := v]> a)
  else Err IndexOutOfBounds.

(** [lo until hi] and [hi downTo lo]. Loop counters stay between the bounds
    of small arrays and are left unwrapped. *)
Definition until (lo hi : Z) : list Z :=
  map (fun k => lo + Z.of_nat k) (seq 0 (Z.to_nat (hi - lo))).

Definition downTo (hi lo : Z) : list Z := rev (until lo (hi + 1)).

Fixpoint forEach {A S : Type} (l : list A) (body : A -> S -> res S) (s : S)
  : res S :=
  match l with
  | [] => Ok s
  | a :: l' => let* s' := body a s in forEach l' body s'
  end.

(** ** Grid.kt *)

Module Grid.

Record t : Type := mk {
  width : Z;
  height : Z;
  cells : list (list Z);
  colorMap : list (Z * Color);
  nextColorIndex : Z;
  orbs : list Orb.t
}.

Definition maxOrbs : Z := 4.

(** The constructor: [Array(height) { IntArray(width) { 0 } }]. *)
Definition create (w h : Z) : t :=
  mk w h (replicate (Z.to_nat h) (replicate (Z.to_nat w) 0)) [] 1 [].

Definition with_cells (g : t) (c : list (list Z)) : t :=
  mk (width g) (height g) c (colorMap g) (nextColorIndex g) (orbs g).

Definition with_orbs (g : t) (o : list Orb.t) : t :=
  mk (width g) (height g) (cells g) (colorMap g) (nextColorIndex g) o.

Definition isInBounds (g : t) (p : Position) : bool :=
  (0 <=? pos_x p) && (pos_x p <? width g)
  && (0 <=? pos_y p) && (pos_y p <? height g).

(** [cells[y][x]] *)
Definition cell (g : t) (x y : Z) : res Z :=
  let* row := aget (cells g) y in aget row x.

(** [cells[y][x] = v] *)
Definition setCell (g : t) (x y v : Z) : res t :=
  let* row := aget (cells g) y in
  let* row' := aset row x v in
  let* c := aset (cells g) y row' in
  Ok (with_cells g c).

(** The read is guarded by [isInBounds]; it cannot raise on a grid whose
    arrays have the dimensions [height] and [width]. *)
Definition isEmpty (g : t) (p : Position) : bool :=
  if isInBounds g p then
    match cell g (pos_x p) (pos_y p) with
    | Ok v => v =? 0
    | Err _ => false
    end
  else false.

Definition canPlace (g : t) (p : Tetrimino.t) : bool :=
  forallb (isEmpty g) (Tetrimino.getBlocks p).

(** [colorMap[index] = color] on the insertion-ordered map. *)
Fixpoint put (m : list (Z * Color)) (index : Z) (color : Color)
  : list (Z * Color) :=
  match m with
  | [] => [(index, color)]
  | (k, c) :: m' =>
      if k =? index then (k, color) :: m' else (k, c) :: put m' index color
  end.

Definition getColorIndex (g : t) (color : Color) : Z * t :=
  match find (fun e => snd e =? color) (colorMap g) with
  | Some e => (fst e, g)
  | None =>
      let index := nextColorIndex g in
      (index,
       mk (width g) (height g) (cells g)
          (put (colorMap g) index color)
          (Int32.add index 1) (orbs g))
  end.

Definition place (g : t) (p : Tetrimino.t) : res t :=
  let '(colorIndex, g1) := getColorIndex g (Tetrimino.color p) in
  forEach (Tetrimino.getBlocks p)
    (fun position g' =>
       if isInBounds g' position
       then setCell g' (pos_x position) (pos_y position) colorIndex
       else Ok g')
    g1.

Definition isLineComplete (g : t) (y : Z) : res bool :=
  let* row := aget (cells g) y in
  Ok (forallb (fun c => 0 <? c) row).

Definition clearLine (g : t) (y : Z) : res t :=
  forEach (until 0 (width g)) (fun x g' => setCell g' x y 0) g.

Definition clearCell (g : t) (p : Position) : res t :=
  if isInBounds g p then setCell g (pos_x p) (pos_y p) 0 else Ok g.

(** [orbs.indexOf(orb)]: the first equal element, or -1. *)
Fixpoint indexOf (o : Orb.t) (l : list Orb.t) : Z :=
  match l with
  | [] => -1
  | o' :: l' =>
      if Orb.eqb o' o then 0
      else let i := indexOf o l' in if i <? 0 then -1 else i + 1
  end.

(** The body of [orbs.forEach { orb -> ... }] in [shiftOrbsDown] writes
    into the list it walks: the element at position [i] is read from the
    current list. *)
Fixpoint shiftOrbsDown_from (n i : nat) (clearedY : Z) (l : list Orb.t)
  : res (list Orb.t) :=
  match n with
  | O => Ok l
  | S n' =>
      match l !! i with
      | None => Ok l
      | Some orb =>
          let* l' :=
            if pos_y (Orb.position orb) <? clearedY then
              let newPosition :=
                mkPosition (pos_x (Orb.position orb))
                           (Int32.add (pos_y (Orb.position orb)) 1) in
              let index := indexOf orb l in
              aset l index
                   (Orb.mk newPosition (Orb.multiplier orb) (Orb.type orb))
            else Ok l in
          shiftOrbsDown_from n' (S i) clearedY l'
      end
  end.

Definition shiftOrbsDown (g : t) (clearedY : Z) : res t :=
  let* l := shiftOrbsDown_from (length (orbs g)) 0 clearedY (orbs g) in
  Ok (with_orbs g l).

Definition shiftLinesDown (g : t) (clearedY : Z) : res t :=
  let* g1 :=
    forEach (downTo clearedY 1)
      (fun y g' =>
         let* row := aget (cells g') (y - 1) in
         let* c := aset (cells g') y row in
         Ok (with_cells g' c))
      g in
  let* g2 := clearLine g1 0 in
  shiftOrbsDown g2 clearedY.

Definition reset (g : t) : res t :=
  let* g1 :=
    forEach (until 0 (height g))
      (fun y g' =>
         forEach (until 0 (width g')) (fun x g'' => setCell g'' x y 0) g')
      g in
  Ok (mk (width g1) (height g1) (cells g1) [] 1 []).

Definition isOrbAt (g : t) (p : Position) : bool :=
  existsb
    (fun o => (pos_x (Orb.position o) =? pos_x p)
              && (pos_y (Orb.position o) =? pos_y p))
    (orbs g).

(** The empty, orb-free cells below the top four rows, in the order of
    the two nested loops of [trySpawnOrb]. *)
Definition spawnCandidates (g : t) : list Position :=
  flat_map
    (fun y =>
       flat_map
         (fun x =>
            let position := mkPosition x y in
            if isEmpty g position && negb (isOrbAt g position)
            then [position] else [])
         (until 0 (width g)))
    (until 4 (height g)).

(** [list[Random.nextInt(list.size)]] *)
Definition pick (l : list Position) (w : World) : res (Position * World) :=
  let '(i, w') := Random.nextInt (Z.of_nat (length l)) w in
  let* p := aget l i in
  Ok (p, w').

Definition trySpawnOrb (g : t) (w : World) : res (t * World) :=
  if maxOrbs <=? Z.of_nat (length (orbs g)) then Ok (g, w)
  else
    let midpoint := Int32.div (Int32.add (height g) 4) 2 in
    let upperHalfPositions :=
      List.filter (fun p => pos_y p <? midpoint) (spawnCandidates g) in
    let lowerHalfPositions :=
      List.filter (fun p => negb (pos_y p <? midpoint))
                  (spawnCandidates g) in
    let* (position, w1) :=
      match lowerHalfPositions, upperHalfPositions with
      | [], [] => Ok (None, w)
      | [], _ =>
          let* (p, w') := pick upperHalfPositions w in Ok (Some p, w')
      | _, [] =>
          let* (p, w') := pick lowerHalfPositions w in Ok (Some p, w')
      | _, _ =>
          let '(r, w') := Random.nextFloat w in
          if Float32.ltb r (Float32.literal 75 100)
          then let* (p, w'') := pick lowerHalfPositions w' in
               Ok (Some p, w'')
          else let* (p, w'') := pick upperHalfPositions w' in
               Ok (Some p, w'')
      end in
    match position with
    | None => Ok (g, w1)
    | Some it =>
        let '(orb, w2) := Orb.createRandom it w1 in
        Ok (with_orbs g (orbs g ++ [orb]), w2)
    end.

(** The state of the scan of [clearLines]: the grid, [linesCleared],
    [totalMultiplier] and [orbsToRemove]. *)
Record scan : Type := mkScan {
  sc_grid : t;
  sc_linesCleared : Z;
  sc_totalMultiplier : Z;
  sc_orbsToRemove : list Orb.t
}.

(** [while (y >= 0) { ... }] *)
Fixpoint clearLines_loop (fuel : nat) (y : Z) (s : scan) : res scan :=
  match fuel with
  | O => Err OutOfFuel
  | S fuel' =>
      if 0 <=? y then
        let g := sc_grid s in
        let* complete := isLineComplete g y in
        if complete then
          let hit :=
            List.filter (fun o => pos_y (Orb.position o) =? y) (orbs g) in
          let totalMultiplier :=
            fold_left (fun m o => Int32.mul m (Orb.multiplier o))
                      hit (sc_totalMultiplier s) in
          let orbsToRemove := sc_orbsToRemove s ++ hit in
          let* g1 := clearLine g y in
          let* g2 := shiftLinesDown g1 y in
          clearLines_loop fuel' y
            (mkScan g2 (Int32.add (sc_linesCleared s) 1)
                    totalMultiplier orbsToRemove)
        else clearLines_loop fuel' (y - 1) s
      else Ok s
  end.

(** Every pass of the loop either lowers [y] or removes a complete row,
    so twice the height, plus the last test, is enough on a grid with at
    least one column. *)
Definition clearLines_fuel (g : t) : nat := S (2 * Z.to_nat (height g)).

(** [orbs.removeAll(orbsToRemove)] *)
Definition removeAll (l toRemove : list Orb.t) : list Orb.t :=
  List.filter (fun o => negb (existsb (Orb.eqb o) toRemove)) l.

Definition clearLines (g : t) (w : World) : res (Z * Z * t * World) :=
  let* s :=
    clearLines_loop (clearLines_fuel g) (height g - 1)
                    (mkScan g 0 1 []) in
  let g1 := sc_grid s in
  let orbsToRemove := sc_orbsToRemove s in
  let hadFourOrbs := Z.of_nat (length (orbs g1)) =? maxOrbs in
  let willHaveLessThanMax :=
    Z.of_nat (length (orbs g1)) - Z.of_nat (length orbsToRemove)
    <? maxOrbs in
  let g2 := with_orbs g1 (removeAll (orbs g1) orbsToRemove) in
  let* (g3, w') :=
    if Z.of_nat (length (orbs g2)) <? maxOrbs then
      let spawnChance :=
        if hadFourOrbs && willHaveLessThanMax
        then Float32.literal 5 10 else Float32.literal 3 10 in
      let '(r, w1) := Random.nextFloat w in
      if Float32.ltb r spawnChance then trySpawnOrb g2 w1 else Ok (g2, w1)
    else Ok (g2, w) in
  Ok (sc_linesCleared s, sc_totalMultiplier s, g3, w').

(** [colorMap[colorIndex]] *)
Definition colorOf (m : list (Z * Color)) (colorIndex : Z) : option Color :=
  match find (fun e => fst e =? colorIndex) m with
  | Some e => Some (snd e)
  | None => None
  end.

Definition getColorAt (g : t) (p : Position) : res (option Color) :=
  if negb (isInBounds g p) then Ok None
  else
    let* colorIndex := cell g (pos_x p) (pos_y p) in
    Ok (if 0 <? colorIndex then colorOf (colorMap g) colorIndex else None).

(** [cells[0].any { it > 0 }] *)
Definition isGameOver (g : t) : res bool :=
  let* row := aget (cells g) 0 in
  Ok (existsb (fun c => 0 <? c) row).

Definition getOrbAt (g : t) (p : Position) : option Orb.t :=
  find
    (fun o => (pos_x (Orb.position o) =? pos_x p)
              && (pos_y (Orb.position o) =? pos_y p))
    (orbs g).

End Grid.

(** ** GameEngine.kt *)

Module GameState.
Inductive t : Type := NotStarted | Running | Paused | GameOver.
End GameState.

(** [Iterable<Int>.average().toInt()]: the sum and the quotient are computed
    in [Double] and the quotient is truncated towards zero. A piece has four
    blocks, the sum of four coordinates and its quarter are exact in
    [Double], so the result is the truncated integer quotient. The empty list
    has no average ([NaN], converted to 0). *)
Definition averageToInt (l : list Z) : Z :=
  match l with
  | [] => 0
  | _ => Z.quot (fold_left Z.add l 0) (Z.of_nat (length l))
  end.

(** [Iterable<Int>.distinct()]: the first occurrence of each value, in the
    order of the list. *)
Fixpoint distinct_from (seen l : list Z) : list Z :=
  match l with
  | [] => []
  | a :: l' =>
      if existsb (Z.eqb a) seen then distinct_from seen l'
      else a :: distinct_from (a :: seen) l'
  end.

Definition distinct (l : list Z) : list Z := distinct_from [] l.

Module GameEngine.

Record t : Type := mk {
  grid : Grid.t;
  currentTetrimino : option Tetrimino.t;
  nextTetrimino : option Tetrimino.t;
  gameState : GameState.t;
  score : Z;
  multiplier : Z;
  level : Z;
  multiplierEndTime : Z;
  ghostPosition : option Position
}.

Definition multiplierDuration : Z := 10000.

(** The engine as constructed: an empty 10x20 grid, nothing spawned. *)
Definition create : t :=
  mk (Grid.create 10 20) None None GameState.NotStarted 0 1 1 0 None.

Definition with_grid (e : t) (g : Grid.t) : t :=
  mk g (currentTetrimino e) (nextTetrimino e) (gameState e) (score e)
     (multiplier e) (level e) (multiplierEndTime e) (ghostPosition e).

Definition with_current (e : t) (c : option Tetrimino.t) : t :=
  mk (grid e) c (nextTetrimino e) (gameState e) (score e)
     (multiplier e) (level e) (multiplierEndTime e) (ghostPosition e).

Definition with_next (e : t) (n : option Tetrimino.t) : t :=
  mk (grid e) (currentTetrimino e) n (gameState e) (score e)
     (multiplier e) (level e) (multiplierEndTime e) (ghostPosition e).

Definition with_gameState (e : t) (s : GameState.t) : t :=
  mk (grid e) (currentTetrimino e) (nextTetrimino e) s (score e)
     (multiplier e) (level e) (multiplierEndTime e) (ghostPosition e).

Definition with_score (e : t) (s : Z) : t :=
  mk (grid e) (currentTetrimino e) (nextTetrimino e) (gameState e) s
     (multiplier e) (level e) (multiplierEndTime e) (ghostPosition e).

Definition with_multiplier (e : t) (m endTime : Z) : t :=
  mk (grid e) (currentTetrimino e) (nextTetrimino e) (gameState e)
     (score e) m (level e) endTime (ghostPosition e).

Definition with_level (e : t) (l : Z) : t :=
  mk (grid e) (currentTetrimino e) (nextTetrimino e) (gameState e)
     (score e) (multiplier e) l (multiplierEndTime e) (ghostPosition e).

Definition with_ghost (e : t) (p : option Position) : t :=
  mk (grid e) (currentTetrimino e) (nextTetrimino e) (gameState e)
     (score e) (multiplier e) (level e) (multiplierEndTime e) p.

Definition isValidMove (g : Grid.t) (p : Tetrimino.t) : bool :=
  match Tetrimino.powerUp p with
  | Some PowerUpType.GHOST =>
      forallb
        (fun position =>
           (pos_y position <? Grid.height g)
           && (0 <=? pos_x position) && (pos_x position <? Grid.width g))
        (Tetrimino.getBlocks p)
  | _ =>
      forallb
        (fun position =>
           (pos_y position <? Grid.height g)
           && (0 <=? pos_x position) && (pos_x position <? Grid.width g)
           && ((pos_y position <? 0) || Grid.isEmpty g position))
        (Tetrimino.getBlocks p)
  end.

(** [while (isValidMove(p.moveDown())) { p = p.moveDown() }], the loop of
    [updateGhostPosition] and of [hardDrop]. *)
Fixpoint descend (fuel : nat) (g : Grid.t) (p : Tetrimino.t)
  : res Tetrimino.t :=
  match fuel with
  | O => Err OutOfFuel
  | S fuel' =>
      if isValidMove g (Tetrimino.moveDown p)
      then descend fuel' g (Tetrimino.moveDown p)
      else Ok p
  end.

(** A valid piece has its anchor above the bottom row, so the loop runs
    at most [height - y] times before its last test. *)
Definition descend_fuel (g : Grid.t) (p : Tetrimino.t) : nat :=
  S (Z.to_nat (Grid.height g - pos_y (Tetrimino.position p))).

Definition updateGhostPosition (e : t) : res t :=
  match currentTetrimino e with
  | Some tetrimino =>
      let* ghost := descend (descend_fuel (grid e) tetrimino)
                            (grid e) tetrimino in
      Ok (with_ghost e (Some (Tetrimino.position ghost)))
  | None => Ok (with_ghost e None)
  end.

Definition generateRandomTetrimino (e : t) (w : World)
  : Tetrimino.t * World :=
  let types := TetriminoType.values in
  let '(i, w1) := Random.nextInt (Z.of_nat (length types)) w in
  let randomType := nth (Z.to_nat i) types TetriminoType.I in
  let '(should, w2) := PowerUpType.shouldGeneratePowerUp (level e) w1 in
  let '(powerUp, w3) :=
    if should
    then let '(pu, w') := PowerUpType.random w2 in (Some pu, w')
    else (None, w2) in
  (Tetrimino.spawn randomType powerUp, w3).

Definition spawnTetrimino (e : t) (w : World) : res (t * World) :=
  let '(current, w1) :=
    match nextTetrimino e with
    | Some n => (n, w)
    | None => generateRandomTetrimino e w
    end in
  let e1 := with_current e (Some current) in
  let '(next, w2) := generateRandomTetrimino e1 w1 in
  let e2 := with_next e1 (Some next) in
  let* e3 := updateGhostPosition e2 in
  if negb (Grid.canPlace (grid e3) current)
  then Ok (with_gameState e3 GameState.GameOver, w2)
  else Ok (e3, w2).

Definition applyBombEffect (e : t) (tetrimino : Tetrimino.t) : res t :=
  let blocks := Tetrimino.getBlocks tetrimino in
  match blocks with
  | [] => Ok e
  | _ =>
      let centerX := averageToInt (map pos_x blocks) in
      let centerY := averageToInt (map pos_y blocks) in
      let radius := 1 in
      let* g :=
        forEach (until (Int32.sub centerY radius)
                       (Int32.add centerY radius + 1))
          (fun y g' =>
             forEach (until (Int32.sub centerX radius)
                            (Int32.add centerX radius + 1))
               (fun x g'' =>
                  let position := mkPosition x y in
                  if Grid.isInBounds g'' position
                  then Grid.clearCell g'' position
                  else Ok g'')
               g')
          (grid e) in
      Ok (with_score (with_grid e g)
            (Int32.add (score e) (Int32.mul 500 (multiplier e))))
  end.

Definition applyLineClearEffect (e : t) (tetrimino : Tetrimino.t) : res t :=
  let rows := distinct (map pos_y (Tetrimino.getBlocks tetrimino)) in
  let* g :=
    forEach rows
      (fun y g' =>
         if (0 <=? y) && (y <? Grid.height g') then
           let* g1 := Grid.clearLine g' y in
           Grid.shiftLinesDown g1 y
         else Ok g')
      (grid e) in
  Ok (with_score (with_grid e g)
        (Int32.add (score e)
           (Int32.mul (Int32.mul (Z.of_nat (length rows)) 200)
                      (multiplier e)))).

Definition checkMultiplierExpiration (e : t) (w : World) : t * World :=
  if 0 <? multiplierEndTime e then
    let '(now, w') := System.currentTimeMillis w in
    if multiplierEndTime e <? now
    then (with_multiplier e 1 0, w')
    else (e, w')
  else (e, w).

(** The [when] of [updateScore]. *)
Definition basePoints (linesCleared : Z) : Z :=
  if linesCleared =? 1 then 100
  else if linesCleared =? 2 then 300
  else if linesCleared =? 3 then 500
  else if linesCleared =? 4 then 800
  else 0.

Definition updateScore (e : t) (linesCleared : Z) (w : World) : t * World :=
  let points := Int32.mul (basePoints linesCleared) (multiplier e) in
  let e1 := with_score e (Int32.add (score e) points) in
  checkMultiplierExpiration e1 w.

Definition checkLevelUp (e : t) : t :=
  let newLevel := Int32.add (Int32.div (score e) 2000) 1 in
  if level e <? newLevel then with_level e newLevel else e.

Definition applyMultiplier (e : t) (orbMultiplier : Z) (w : World)
  : t * World :=
  let '(now, w') := System.currentTimeMillis w in
  (with_multiplier e (Int32.mul (multiplier e) orbMultiplier)
                   (Int64.add now multiplierDuration), w').

Definition lockTetrimino (e : t) (w : World) : res (t * World) :=
  match currentTetrimino e with
  | None => Ok (e, w)
  | Some tetrimino =>
      let* e1 :=
        match Tetrimino.powerUp tetrimino with
        | Some PowerUpType.BOMB => applyBombEffect e tetrimino
        | Some PowerUpType.LINE_CLEAR => applyLineClearEffect e tetrimino
        | _ =>
            let* g := Grid.place (grid e) tetrimino in Ok (with_grid e g)
        end in
      let* (linesCleared, orbMultiplier, g, w1) :=
        Grid.clearLines (grid e1) w in
      let e2 := with_grid e1 g in
      let '(e3, w2) :=
        if (0 <? linesCleared) && (1 <? orbMultiplier)
        then applyMultiplier e2 orbMultiplier w1
        else (e2, w1) in
      let '(e4, w3) := updateScore e3 linesCleared w2 in
      let e5 := checkLevelUp e4 in
      spawnTetrimino e5 w3
  end.

Definition startGame (e : t) (w : World) : res (t * World) :=
  let* g := Grid.reset (grid e) in
  let e1 :=
    mk g (currentTetrimino e) (nextTetrimino e) (gameState e)
       0 1 1 0 (ghostPosition e) in
  let* (e2, w') := spawnTetrimino e1 w in
  Ok (with_gameState e2 GameState.Running, w').

(** [moveLeft], [moveRight] and [rotate] share their body: transform,
    test, and commit with a new ghost position. *)
Definition tryMove (transform : Tetrimino.t -> Tetrimino.t) (e : t)
  : res t :=
  match currentTetrimino e with
  | Some tetrimino =>
      let moved := transform tetrimino in
      if isValidMove (grid e) moved
      then updateGhostPosition (with_current e (Some moved))
      else Ok e
  | None => Ok e
  end.

Definition moveLeft (e : t) : res t := tryMove Tetrimino.moveLeft e.
Definition moveRight (e : t) : res t := tryMove Tetrimino.moveRight e.
Definition rotate (e : t) : res t := tryMove Tetrimino.rotate e.

Definition moveDown (e : t) (w : World) : res (bool * t * World) :=
  match currentTetrimino e with
  | Some tetrimino =>
      let movedTetrimino := Tetrimino.moveDown tetrimino in
      if isValidMove (grid e) movedTetrimino
      then Ok (true, with_current e (Some movedTetrimino), w)
      else let* (e', w') := lockTetrimino e w in Ok (false, e', w')
  | None => Ok (false, e, w)
  end.

Definition hardDrop (e : t) (w : World) : res (t * World) :=
  match currentTetrimino e with
  | Some tetrimino =>
      let* movedTetrimino :=
        descend (descend_fuel (grid e) tetrimino) (grid e) tetrimino in
      lockTetrimino (with_current e (Some movedTetrimino)) w
  | None => Ok (e, w)
  end.

Definition pauseGame (e : t) : t :=
  match gameState e with
  | GameState.Running => with_gameState e GameState.Paused
  | _ => e
  end.

Definition resumeGame (e : t) : t :=
  match gameState e with
  | GameState.Paused => with_gameState e GameState.Running
  | _ => e
  end.

Definition getMultiplierTimeRemaining (e : t) (w : World) : Z * World :=
  if multiplierEndTime e <=? 0 then (0, w)
  else
    let '(now, w') := System.currentTimeMillis w in
    let remaining := Int64.sub (multiplierEndTime e) now in
    (if 0 <? remaining then remaining else 0, w').

(** The commands of the engine, and one call of each. *)
Inductive command : Type :=
| StartGame | PauseGame | ResumeGame
| MoveLeft | MoveRight | MoveDown | Rotate | HardDrop.

Definition run (c : command) (e : t) (w : World) : res (t * World) :=
  match c with
  | StartGame => startGame e w
  | PauseGame => Ok (pauseGame e, w)
  | ResumeGame => Ok (resumeGame e, w)
  | MoveLeft => let* e' := moveLeft e in Ok (e', w)
  | MoveRight => let* e' := moveRight e in Ok (e', w)
  | Rotate => let* e' := rotate e in Ok (e', w)
  | MoveDown => let* (_, e', w') := moveDown e w in Ok (e', w')
  | HardDrop => hardDrop e w
  end.

Fixpoint runAll (cs : list command) (e : t) (w : World) : res (t * World) :=
  match cs with
  | [] => Ok (e, w)
  | c :: cs' => let* (e', w') := run c e w in runAll cs' e' w'
  end.

(** The states a session can be in: those some sequence of commands
    reaches from the engine as constructed, in some world. *)
Inductive reachable : t -> Prop :=
| reachable_create : reachable create
| reachable_run (c : command) (e e' : t) (w w' : World) :
    reachable e -> run c e w = Ok (e', w') -> reachable e'.

End GameEngine.

(** ** GameViewModel.kt

    The commands of the view-model and its drop interval. Of the mirrors
    of the engine state that [updateUIState] refreshes, the one that reads
    the clock is kept; the copies of the grid, the pieces and the orbs,
    the coroutines and the sound and particle effects are left out. *)

Module GameViewModel.

Record t : Type := mk {
  gameEngine : GameEngine.t;
  multiplierTimeRemaining : Z;
  dropSpeed : Z
}.

Definition create : t := mk GameEngine.create 0 800.

Definition with_engine (vm : t) (e : GameEngine.t) : t :=
  mk e (multiplierTimeRemaining vm) (dropSpeed vm).

Definition startGame (vm : t) (w : World) : res (t * World) :=
  let* (e, w') := GameEngine.startGame (gameEngine vm) w in
  Ok (with_engine vm e, w').

Definition pauseGame (vm : t) : t :=
  with_engine vm (GameEngine.pauseGame (gameEngine vm)).

Definition resumeGame (vm : t) : t :=
  with_engine vm (GameEngine.resumeGame (gameEngine vm)).

Definition updateUIState (vm : t) (w : World) : t * World :=
  let '(remaining, w') :=
    GameEngine.getMultiplierTimeRemaining (gameEngine vm) w in
  (mk (gameEngine vm) remaining (dropSpeed vm), w').

(** [if (gameState.value == GameState.Running) { ...; updateUIState() }],
    the body of every move of the view-model. *)
Definition whenRunning (vm : t) (w : World)
    (body : GameEngine.t -> World -> res (GameEngine.t * World))
  : res (t * World) :=
  match GameEngine.gameState (gameEngine vm) with
  | GameState.Running =>
      let* (e, w') := body (gameEngine vm) w in
      Ok (updateUIState (with_engine vm e) w')
  | _ => Ok (vm, w)
  end.

Definition moveLeft (vm : t) (w : World) : res (t * World) :=
  whenRunning vm w
    (fun e w0 => let* e' := GameEngine.moveLeft e in Ok (e', w0)).

Definition moveRight (vm : t) (w : World) : res (t * World) :=
  whenRunning vm w
    (fun e w0 => let* e' := GameEngine.moveRight e in Ok (e', w0)).

Definition softDrop (vm : t) (w : World) : res (t * World) :=
  whenRunning vm w
    (fun e w0 =>
       let* (_, e', w') := GameEngine.moveDown e w0 in Ok (e', w')).

Definition hardDrop (vm : t) (w : World) : res (t * World) :=
  whenRunning vm w GameEngine.hardDrop.

Definition rotate (vm : t) (w : World) : res (t * World) :=
  whenRunning vm w
    (fun e w0 => let* e' := GameEngine.rotate e in Ok (e', w0)).

(** One turn of the game loop, after its [delay(dropSpeed)]. *)
Definition tick (vm : t) (w : World) : res (t * World) :=
  whenRunning vm w
    (fun e w0 =>
       let* (_, e', w') := GameEngine.moveDown e w0 in Ok (e', w')).

Definition setDropSpeed (vm : t) (speed : Z) : t :=
  mk (gameEngine vm) (multiplierTimeRemaining vm) speed.

(** [(800 - (level.value - 1) * 50).coerceAtLeast(200).toLong()] *)
Definition speedForLevel (level : Z) : Z :=
  let speed := Int32.sub 800 (Int32.mul (Int32.sub level 1) 50) in
  if speed <? 200 then 200 else speed.

Definition adjustDropSpeedForLevel (vm : t) : t :=
  let newSpeed := speedForLevel (GameEngine.level (gameEngine vm)) in
  if negb (newSpeed =? dropSpeed vm) then setDropSpeed vm newSpeed else vm.

(** The inputs of the player and the turn of the game loop, and one call
    of each. *)
Inductive input : Type :=
| MoveLeft | MoveRight | SoftDrop | HardDrop | Rotate | Tick.

Definition handle (i : input) (vm : t) (w : World) : res (t * World) :=
  match i with
  | MoveLeft => moveLeft vm w
  | MoveRight => moveRight vm w
  | SoftDrop => softDrop vm w
  | HardDrop => hardDrop vm w
  | Rotate => rotate vm w
  | Tick => tick vm w
  end.

Fixpoint handleAll (inputs : list input) (vm : t) (w : World)
  : res (t * World) :=
  match inputs with
  | [] => Ok (vm, w)
  | i :: rest => let* (vm', w') := handle i vm w in handleAll rest vm' w'
  end.

End GameViewModel.

(** ** SoundManager.kt: the settings *)

Module SoundManager.

Record t : Type := mk {
  soundEnabled : bool;
  musicEnabled : bool;
  soundVolume : Float32.float;
  musicVolume : Float32.float
}.

Definition create : t :=
  mk true true (Float32.literal 7 10) (Float32.literal 5 10).

Definition setSoundVolume (s : t) (volume : Float32.float) : t :=
  mk (soundEnabled s) (musicEnabled s)
     (Float32.coerceIn volume (Float32.ofInt 0) (Float32.ofInt 1))
     (musicVolume s).

Definition setMusicVolume (s : t) (volume : Float32.float) : t :=
  mk (soundEnabled s) (musicEnabled s) (soundVolume s)
     (Float32.coerceIn volume (Float32.ofInt 0) (Float32.ofInt 1)).

End SoundManager.

(** ** Vocabulary of the properties *)

(** The block of a piece at the offset [d] of its bounding box. *)
Definition blockAt (p : Tetrimino.t) (d : Z * Z) : Position :=
  mkPosition (Int32.add (pos_x (Tetrimino.position p)) (fst d))
             (Int32.add (pos_y (Tetrimino.position p)) (snd d)).

Definition inBox (d : Z * Z) : Prop := 0 <= fst d <= 3 /\ 0 <= snd d <= 3.

(** The number of rows of the shape table of a piece. *)
Definition shapeHeight (p : Tetrimino.t) : Z :=
  Z.of_nat (length (Tetrimino.shape p)).

(** Concrete inputs used by the examples below. *)
Definition emptyGrid : Grid.t := Grid.create 10 20.

Definition ghostPiece : Tetrimino.t :=
  Tetrimino.spawn TetriminoType.I (Some PowerUpType.GHOST).

(** The scoring table in the words of the specification:
    [{0,100,300,500,800}[linesCleared]], and 0 beyond it. *)
Definition lineClearTable (linesCleared : Z) : Z :=
  match linesCleared with
  | 0 => 0
  | 1 => 100
  | 2 => 300
  | 3 => 500
  | 4 => 800
  | _ => 0
  end.

(** The commands that test a transformed piece and are rejected when the
    test fails, with their transform. *)
Definition transformOf (c : GameEngine.command)
  : option (Tetrimino.t -> Tetrimino.t) :=
  match c with
  | GameEngine.MoveLeft => Some Tetrimino.moveLeft
  | GameEngine.MoveRight => Some Tetrimino.moveRight
  | GameEngine.Rotate => Some Tetrimino.rotate
  | _ => None
  end.

(** A world for the examples: its random feed and clock are read from two
    lists, and are constant beyond them. *)
Definition worldOf (randoms clocks : list Z) : World :=
  mkWorld (fun n => nth n randoms 16777215) 0 (fun n => nth n clocks 1000) 0.

(** An engine whose current piece, a horizontal I, has its leftmost block
    in column 0 of the empty grid. *)
Definition atLeftWall : GameEngine.t :=
  GameEngine.mk emptyGrid
    (Some (Tetrimino.mk TetriminoType.I (mkPosition 0 0) 0 None))
    (Some (Tetrimino.spawn TetriminoType.O None))
    GameState.Running 0 1 1 0 (Some (mkPosition 0 18)).

(** The same piece in the middle of the empty grid. *)
Definition inTheMiddle : GameEngine.t :=
  GameEngine.mk emptyGrid
    (Some (Tetrimino.mk TetriminoType.I (mkPosition 4 0) 0 None))
    (Some (Tetrimino.spawn TetriminoType.O None))
    GameState.Running 0 1 1 0 (Some (mkPosition 4 18)).

(** A row is complete when every cell of it is filled. *)
Definition rowComplete (row : list Z) : bool := forallb (fun c => 0 <? c) row.

(** The arrays of a grid have the dimensions the constructor gave them, and
    the grid has at least one column. *)
Definition wellFormed (g : Grid.t) : Prop :=
  0 < Grid.width g /\ 0 <= Grid.height g
  /\ length (Grid.cells g) = Z.to_nat (Grid.height g)
  /\ Forall (fun row => length row = Z.to_nat (Grid.width g)) (Grid.cells g).

Definition noCompleteRow (g : Grid.t) : Prop :=
  Forall (fun row => rowComplete row = false) (Grid.cells g).

Definition emptyRow (g : Grid.t) : list Z :=
  replicate (Z.to_nat (Grid.width g)) 0.

(** The cell array after row [y] is removed, the rows above it moved down
    by one and an empty row entered at the top. *)
Definition dropRow (g : Grid.t) (y : Z) (c : list (list Z)) : list (list Z) :=
  emptyRow g :: delete (Z.to_nat y) c.

(** What [shiftOrbsDown] does to one orb. *)
Definition shiftOrb (clearedY : Z) (o : Orb.t) : Orb.t :=
  if pos_y (Orb.position o) <? clearedY
  then Orb.mk (mkPosition (pos_x (Orb.position o))
                          (Int32.add (pos_y (Orb.position o)) 1))
              (Orb.multiplier o) (Orb.type o)
  else o.

Definition completeRows (c : list (list Z)) : nat :=
  length (List.filter rowComplete c).

(** One clearing pass of the scan of [clearLines] at row [y]: the orbs of
    the row are counted and scheduled for removal, the row is removed and
    the rows and orbs above it move down. The order of the orbs in the list
    is left open. *)
Definition afterClear (y : Z) (s s' : Grid.scan) : Prop :=
  let g := Grid.sc_grid s in
  let hit := List.filter (fun o => pos_y (Orb.position o) =? y) (Grid.orbs g) in
  exists l',
    l' ≡ₚ map (shiftOrb y) (Grid.orbs g)
    /\ s' = Grid.mkScan
              (Grid.mk (Grid.width g) (Grid.height g)
                       (dropRow g y (Grid.cells g))
                       (Grid.colorMap g) (Grid.nextColorIndex g) l')
              (Int32.add (Grid.sc_linesCleared s) 1)
              (fold_left (fun m o => Int32.mul m (Orb.multiplier o))
                         hit (Grid.sc_totalMultiplier s))
              (Grid.sc_orbsToRemove s ++ hit).

(** The grid after the replacement orb of [clearLines] was tried: as it
    was, or with one more orb, on a cell that was empty and orb-free. *)
Definition spawned (g g' : Grid.t) : Prop :=
  g' = g
  \/ exists orb,
       g' = Grid.with_orbs g (Grid.orbs g ++ [orb])
       /\ In (Orb.position orb) (Grid.spawnCandidates g)
       /\ Z.of_nat (length (Grid.orbs g)) < Grid.maxOrbs.

(** A grid whose two bottom rows are complete. *)
Definition twoFullRows : Grid.t :=
  Grid.mk 10 20
    (replicate 18 (replicate 10 0) ++ [replicate 10 1; replicate 10 1])
    [(1, Theme.IBlockColor)] 2 [].

(** A piece as the engine holds one: its anchor within the height of the
    grid, and every block on the grid. *)
Definition pieceOk (g : Grid.t) (p : Tetrimino.t) : Prop :=
  0 <= pos_y (Tetrimino.position p) <= Grid.height g
  /\ Int32.in_range (pos_x (Tetrimino.position p))
  /\ Forall (fun b => Grid.isInBounds g b = true) (Tetrimino.getBlocks p).

(** A piece as [generateRandomTetrimino] makes it. *)
Definition atSpawn (p : Tetrimino.t) : Prop :=
  Tetrimino.position p = mkPosition 4 0 /\ Tetrimino.rotation p = 0.

(** The steps of [lockTetrimino] that follow the power-up effect or the
    placement. *)
Definition lockTail (e1 : GameEngine.t) (w : World)
  : res (GameEngine.t * World) :=
  let* (linesCleared, orbMultiplier, g, w1) :=
    Grid.clearLines (GameEngine.grid e1) w in
  let e2 := GameEngine.with_grid e1 g in
  let '(e3, w2) :=
    if (0 <? linesCleared) && (1 <? orbMultiplier)
    then GameEngine.applyMultiplier e2 orbMultiplier w1
    else (e2, w1) in
  let '(e4, w3) := GameEngine.updateScore e3 linesCleared w2 in
  let e5 := GameEngine.checkLevelUp e4 in
  GameEngine.spawnTetrimino e5 w3.

(** The 3x3 region around [(cx, cy)]. *)
Definition inBlast (cx cy x y : Z) : bool :=
  (cy - 1 <=? y) && (y <=? cy + 1) && (cx - 1 <=? x) && (x <=? cx + 1).

(** Every orb lies on the grid, below the top four rows. *)
Definition orbsBelowTop (g : Grid.t) : Prop :=
  Forall (fun o => 0 <= pos_x (Orb.position o) < Grid.width g
                   /\ 4 <= pos_y (Orb.position o) < Grid.height g)
         (Grid.orbs g).

(** What holds of the engine in every state of a session (see
    [reachable_engineOk]): the grid is the 10x20 grid of the constructor,
    no row of it is complete, its orbs lie below the top four rows, the
    current piece is on the grid and the next piece is as generated. *)
Definition engineOk (e : GameEngine.t) : Prop :=
  wellFormed (GameEngine.grid e)
  /\ Grid.width (GameEngine.grid e) = 10
  /\ Grid.height (GameEngine.grid e) = 20
  /\ noCompleteRow (GameEngine.grid e)
  /\ orbsBelowTop (GameEngine.grid e)
  /\ (forall p, GameEngine.currentTetrimino e = Some p ->
                pieceOk (GameEngine.grid e) p)
  /\ (forall n, GameEngine.nextTetrimino e = Some n -> atSpawn n).

(** A well of filled cells around the cells (5..6, 10..11), and an O piece
    with the BOMB power-up resting in it: its blocks average to (5, 10). *)
Definition wellGrid : Grid.t :=
  Grid.mk 10 20
    (replicate 10 (replicate 10 0)
     ++ [ [0; 0; 0; 0; 1; 0; 0; 1; 0; 0];
          [0; 0; 0; 1; 1; 0; 0; 1; 1; 0];
          [0; 0; 0; 1; 1; 1; 1; 1; 1; 0] ]
     ++ replicate 7 [1; 1; 1; 1; 1; 1; 1; 1; 1; 0])
    [(1, Theme.IBlockColor)] 2 [].

Definition bombInWell : GameEngine.t :=
  GameEngine.mk wellGrid
    (Some (Tetrimino.mk TetriminoType.O (mkPosition 5 10) 0
                        (Some PowerUpType.BOMB)))
    (Some (Tetrimino.spawn TetriminoType.T None))
    GameState.Running 0 1 1 0 (Some (mkPosition 5 10)).

(** The inner loop of [applyBombEffect], over the columns of one row. *)
Definition clearRectBody (x0 x1 : Z) (y : Z) (g' : Grid.t) : res Grid.t :=
  forEach (until x0 x1)
    (fun x g'' =>
       let position := mkPosition x y in
       if Grid.isInBounds g'' position
       then Grid.clearCell g'' position
       else Ok g'')
    g'.

(** Case analysis on the integer comparisons of a goal. *)
Ltac cases_Z :=
  repeat match goal with
         | |- context [?a <=? ?b] => destruct (Z.leb_spec a b)
         | |- context [?a <? ?b] => destruct (Z.ltb_spec a b)
         | |- context [?a =? ?b] => destruct (Z.eqb_spec a b)
         end;
  cbn [andb orb negb]; try reflexivity; try lia.

(** No two orbs on one cell. *)
Definition orbsDistinct (g : Grid.t) : Prop :=
  NoDup (map Orb.position (Grid.orbs g)).

(** Every orb on an empty cell. *)
Definition orbsOnEmptyCells (g : Grid.t) : Prop :=
  Forall (fun o => Grid.isEmpty g (Orb.position o) = true) (Grid.orbs g).

(** The public operations of [Grid] that change it. *)
Inductive gridOp : Type :=
| Place (p : Tetrimino.t)
| ClearLines
| ClearCell (position : Position)
| ClearLine (y : Z)
| ShiftLinesDown (clearedY : Z)
| Reset.

Definition runGridOp (op : gridOp) (g : Grid.t) (w : World)
  : res (Grid.t * World) :=
  match op with
  | Place p => let* g' := Grid.place g p in Ok (g', w)
  | ClearLines =>
      let* (_, _, g', w') := Grid.clearLines g w in Ok (g', w')
  | ClearCell position => let* g' := Grid.clearCell g position in Ok (g', w)
  | ClearLine y => let* g' := Grid.clearLine g y in Ok (g', w)
  | ShiftLinesDown clearedY =>
      let* g' := Grid.shiftLinesDown g clearedY in Ok (g', w)
  | Reset => let* g' := Grid.reset g in Ok (g', w)
  end.

(** What [shiftOrbsDown] does to the position of an orb. *)
Definition shiftPosition (clearedY : Z) (p : Position) : Position :=
  if pos_y p <? clearedY then mkPosition (pos_x p) (Int32.add (pos_y p) 1)
  else p.

(** Two short sessions. In both, a vertical I piece is dropped in column 0
    and a T piece at the spawn column, and an orb is spawned after the
    first lock. In [coveredOrbRandoms] the orb is spawned on the empty cell
    (5, 19), where the T piece then lands. In [ledgeRandoms] orbs are
    spawned on (8, 17) and on (8, 16), and the third piece is a horizontal
    I with the LINE_CLEAR power-up, which comes to rest in row 17. *)
Definition twoDrops : list GameEngine.command :=
  [GameEngine.StartGame; GameEngine.Rotate]
  ++ repeat GameEngine.MoveLeft 6
  ++ [GameEngine.HardDrop; GameEngine.HardDrop].

Definition coveredOrbRandoms : list Z :=
  [0; 16777215; 2; 16777215;
   0; 0; 71; 0;
   0; 16777215;
   16777215;
   0; 16777215].

Definition ledgeRandoms : list Z :=
  [0; 16777215; 2; 16777215;
   0; 0; 56; 0;
   0; 0; 1;
   0; 0; 47; 0;
   0; 16777215;
   16777215;
   0; 16777215].

(** The state of the second session before the LINE_CLEAR piece is
    dropped, and the same state with the piece at its resting place. *)
Definition ledgeState : GameEngine.t :=
  Eval vm_compute in
    match GameEngine.runAll twoDrops GameEngine.create
                            (worldOf ledgeRandoms []) with
    | Ok (e, _) => e
    | Err _ => GameEngine.create
    end.

Definition ledgeWorld : World :=
  mkWorld (random_feed (worldOf ledgeRandoms [])) 17
          (clock_feed (worldOf ledgeRandoms [])) 0.

Definition ledgePiece : Tetrimino.t :=
  Tetrimino.mk TetriminoType.I (mkPosition 4 16) 0
               (Some PowerUpType.LINE_CLEAR).

Definition ledgeResting : GameEngine.t :=
  GameEngine.with_current ledgeState (Some ledgePiece).

(** The state the first session ends in. *)
Definition coveredOrbState : GameEngine.t :=
  Eval vm_compute in
    match GameEngine.runAll twoDrops GameEngine.create
                            (worldOf coveredOrbRandoms []) with
    | Ok (e, _) => e
    | Err _ => GameEngine.create
    end.

Definition coveredOrbWorld : World :=
  mkWorld (random_feed (worldOf coveredOrbRandoms [])) 13
          (clock_feed (worldOf coveredOrbRandoms [])) 0.

(** The state of the second session after the LINE_CLEAR piece is dropped. *)
Definition ledgeCleared : GameEngine.t :=
  Eval vm_compute in
    match GameEngine.hardDrop ledgeState ledgeWorld with
    | Ok (e, _) => e
    | Err _ => GameEngine.create
    end.

Definition ledgeClearedWorld : World :=
  mkWorld (random_feed ledgeWorld) 20 (clock_feed ledgeWorld) 0.

(** The level [checkLevelUp] computes from a score. *)
Definition newLevel (score : Z) : Z := Int32.add (Int32.div score 2000) 1.

(** The states of a session reached without the score ever having gone
    down between two commands. *)
Inductive reachableUp : GameEngine.t -> Prop :=
| reachableUp_create : reachableUp GameEngine.create
| reachableUp_run (c : GameEngine.command) (e e' : GameEngine.t)
                  (w w' : World) :
    reachableUp e -> GameEngine.run c e w = Ok (e', w') ->
    c = GameEngine.StartGame \/ GameEngine.score e <= GameEngine.score e' ->
    reachableUp e'.

(** Rotate, move to column [c] and drop: a vertical I piece in column [c]. *)
Definition dropInColumn (c : Z) : list GameEngine.command :=
  [GameEngine.Rotate]
  ++ (if c <? 6 then repeat GameEngine.MoveLeft (Z.to_nat (6 - c))
      else repeat GameEngine.MoveRight (Z.to_nat (c - 6)))
  ++ [GameEngine.HardDrop].

(** A session of ten vertical I pieces, one per column from left to right.
    After the first four locks an orb is spawned, on the empty cells
    (5, 19), (6, 19), (7, 16) and (8, 16); the first three are LARGE, the
    last is SMALL. The tenth piece completes the four bottom rows. *)
Definition tenColumns : list GameEngine.command :=
  [GameEngine.StartGame]
  ++ flat_map dropInColumn [0; 1; 2; 3; 4; 5; 6; 7; 8; 9].

Definition tenColumnsRandoms : list Z :=
  [0; 16777215; 0; 16777215;
   0; 0; 71; 16777215;  0; 16777215;
   0; 0; 67; 16777215;  0; 16777215;
   0; 0; 44; 16777215;  0; 16777215;
   0; 0; 43; 0;         0; 16777215;
   0; 16777215;  0; 16777215;  0; 16777215;  0; 16777215;  0; 16777215;
   16777215;  0; 16777215].

Definition tenColumnsState : GameEngine.t :=
  Eval vm_compute in
    match GameEngine.runAll tenColumns GameEngine.create
                            (worldOf tenColumnsRandoms []) with
    | Ok (e, _) => e
    | Err _ => GameEngine.create
    end.

Definition tenColumnsWorld : World :=
  mkWorld (random_feed (worldOf tenColumnsRandoms [])) 41
          (clock_feed (worldOf tenColumnsRandoms [])) 2.

(** [x] is plus infinity, or a positive float of at most 24 digits whose
    leading bit has weight [2^(t-1)] at least. *)
Definition atLeast (t : Z) (x : Float32.float) : bool :=
  match x with
  | S754_infinity false => true
  | S754_finite false m e =>
      (Z.pos (digits2_pos m) <=? 24) && (t <=? Z.pos (digits2_pos m) + e)
  | _ => false
  end.

(** The 24 bits [Random.nextFloat] draws next. *)
Definition sampleOf (w : World) : Z :=
  random_feed w (random_cursor w) mod 2 ^ 24.

(** [k / 2^24 < min(0.05 + 0.01 * level, 0.15)] over the rationals, both
    sides multiplied by [100 * 2^24]. *)
Definition belowExactChance (k level : Z) : bool :=
  100 * k <? Z.min (5 + level) 15 * 2 ^ 24.

(** [runAll], refusing a command other than [StartGame] that lowers the
    score. *)
Fixpoint runAllUp (cs : list GameEngine.command) (e : GameEngine.t)
         (w : World) : option (GameEngine.t * World) :=
  match cs with
  | [] => Some (e, w)
  | c :: cs' =>
      match GameEngine.run c e w with
      | Ok (e1, w1) =>
          if match c with GameEngine.StartGame => true | _ => false end
             || (GameEngine.score e <=? GameEngine.score e1)
          then runAllUp cs' e1 w1
          else None
      | Err _ => None
      end
  end.

(** The session [tenColumns] with one SMALL orb, on (5, 19). *)
Definition oneOrbRandoms : list Z :=
  [0; 16777215; 0; 16777215;
   0; 0; 71; 0;  0; 16777215;
   16777215; 0; 16777215;  16777215; 0; 16777215;  16777215; 0; 16777215;
   16777215; 0; 16777215;  16777215; 0; 16777215;  16777215; 0; 16777215;
   16777215; 0; 16777215;  16777215; 0; 16777215;
   16777215; 0; 16777215].

Definition oneOrbState : GameEngine.t :=
  Eval vm_compute in
    match runAllUp tenColumns GameEngine.create (worldOf oneOrbRandoms []) with
    | Some (e, _) => e
    | None => GameEngine.create
    end.

Definition oneOrbWorld : World :=
  mkWorld (random_feed (worldOf oneOrbRandoms [])) 37
          (clock_feed (worldOf oneOrbRandoms [])) 2.

(** The rotation index of a piece is one of the four of the shape table. *)
Definition rotationOk (p : Tetrimino.t) : Prop :=
  0 <= Tetrimino.rotation p <= 3.

Definition verticalI : Tetrimino.t :=
  Tetrimino.mk TetriminoType.I (mkPosition 4 0) 1 None.

(** The type of the orb [Orb.createRandom] makes from the 24-bit sample
    [k]: SMALL below 0.6f, MEDIUM below 0.9f, LARGE otherwise. *)
Definition orbTypeOf (k : Z) : OrbType.t :=
  if k <? 10066330 then OrbType.SMALL
  else if k <? 15099494 then OrbType.MEDIUM
  else OrbType.LARGE.

(** A filled 2x2 grid with a colour and an orb. *)
Definition smallGrid : Grid.t :=
  Grid.mk 2 2 [ [1; 0]; [1; 1] ] [(1, Theme.IBlockColor)] 2
          [Orb.mk (mkPosition 0 1) 2 OrbType.SMALL].

(** The piece has a block on the cell [(x, y)]. *)
Definition covers (p : Tetrimino.t) (x y : Z) : bool :=
  existsb (Position_eqb (mkPosition x y)) (Tetrimino.getBlocks p).

(** The body of the loop of [place]. *)
Definition placeBlock (colorIndex : Z) (position : Position) (g' : Grid.t)
  : res Grid.t :=
  if Grid.isInBounds g' position
  then Grid.setCell g' (pos_x position) (pos_y position) colorIndex
  else Ok g'.

(** The colours of the seven tetrimino types. *)
Definition pieceColors : list Color :=
  map TetriminoType.color TetriminoType.values.

(** The colour map as [getColorIndex] builds it: the indices 1, 2, ... in
    the order of first use, each for another tetrimino colour; and no cell
    holds an index that is not in the map. *)
Definition colorMapOk (g : Grid.t) : Prop :=
  map fst (Grid.colorMap g)
  = map Z.of_nat (seq 1 (length (Grid.colorMap g)))
  /\ Grid.nextColorIndex g = Z.of_nat (length (Grid.colorMap g)) + 1
  /\ NoDup (map snd (Grid.colorMap g))
  /\ Forall (fun c => In c pieceColors) (map snd (Grid.colorMap g))
  /\ Forall (Forall (fun v => 0 <= v < Grid.nextColorIndex g)) (Grid.cells g).

(** The rows of a cell array that are not complete, in their order. *)
Definition incompleteRows (c : list (list Z)) : list (list Z) :=
  List.filter (fun row => negb (rowComplete row)) c.

(** The scan of [clearLines], seen from the grid it started on: below the
    scan position are the incomplete rows already passed, above it the rows
    still to be looked at, under as many empty rows as rows were cleared. *)
Definition scanned (g : Grid.t) (n : nat) (s : Grid.scan) : Prop :=
  Grid.width (Grid.sc_grid s) = Grid.width g
  /\ Grid.height (Grid.sc_grid s) = Grid.height g
  /\ Grid.colorMap (Grid.sc_grid s) = Grid.colorMap g
  /\ Grid.nextColorIndex (Grid.sc_grid s) = Grid.nextColorIndex g
  /\ exists top0 bot0,
       Grid.cells g = top0 ++ bot0
       /\ Grid.cells (Grid.sc_grid s)
          = replicate (completeRows bot0) (emptyRow g)
            ++ top0 ++ incompleteRows bot0
       /\ Grid.sc_linesCleared s = Z.of_nat (completeRows bot0)
       /\ (n <= completeRows bot0 + length top0)%nat
       /\ ((n < completeRows bot0 + length top0)%nat -> top0 = []).

(** The engine after [spawnTetrimino] made [c] the current piece and [n]
    the next one, with the ghost at [ghost]. *)
Definition spawnedEngine (e : GameEngine.t) (c n : Tetrimino.t)
           (ghost : Position) : GameEngine.t :=
  GameEngine.mk (GameEngine.grid e) (Some c) (Some n)
    (if Grid.canPlace (GameEngine.grid e) c then GameEngine.gameState e
     else GameState.GameOver)
    (GameEngine.score e) (GameEngine.multiplier e) (GameEngine.level e)
    (GameEngine.multiplierEndTime e) (Some ghost).

(** Where the descent loop of the engine leaves a piece. *)
Definition landing (g : Grid.t) (p : Tetrimino.t) : res Tetrimino.t :=
  GameEngine.descend (GameEngine.descend_fuel g p) g p.

(** The states in which a command changes nothing. *)
Definition idle (c : GameEngine.command) (e : GameEngine.t) : Prop :=
  match c with
  | GameEngine.StartGame => False
  | GameEngine.PauseGame => GameEngine.gameState e <> GameState.Running
  | GameEngine.ResumeGame => GameEngine.gameState e <> GameState.Paused
  | GameEngine.MoveDown | GameEngine.HardDrop =>
      GameEngine.currentTetrimino e = None
  | _ =>
      forall f p,
        transformOf c = Some f -> GameEngine.currentTetrimino e = Some p ->
        GameEngine.isValidMove (GameEngine.grid e) (f p) = false
  end.

(** What a command of the engine does, case by case: nothing; a change of
    the game state; an accepted move; a soft drop; a lock, which ends with a
    spawn; a start, which resets and spawns. *)
Inductive runs : GameEngine.command -> GameEngine.t -> World
                 -> GameEngine.t -> World -> Prop :=
| runs_nothing (c : GameEngine.command) (e : GameEngine.t) (w : World) :
    idle c e -> runs c e w e w
| runs_pause (e : GameEngine.t) (w : World) :
    GameEngine.gameState e = GameState.Running ->
    runs GameEngine.PauseGame e w
         (GameEngine.with_gameState e GameState.Paused) w
| runs_resume (e : GameEngine.t) (w : World) :
    GameEngine.gameState e = GameState.Paused ->
    runs GameEngine.ResumeGame e w
         (GameEngine.with_gameState e GameState.Running) w
| runs_move (c : GameEngine.command) (f : Tetrimino.t -> Tetrimino.t)
            (e : GameEngine.t) (w : World) (p ghost : Tetrimino.t) :
    transformOf c = Some f ->
    GameEngine.currentTetrimino e = Some p ->
    GameEngine.isValidMove (GameEngine.grid e) (f p) = true ->
    landing (GameEngine.grid e) (f p) = Ok ghost ->
    runs c e w
         (GameEngine.with_ghost (GameEngine.with_current e (Some (f p)))
                                (Some (Tetrimino.position ghost))) w
| runs_softDrop (e : GameEngine.t) (w : World) (p : Tetrimino.t) :
    GameEngine.currentTetrimino e = Some p ->
    GameEngine.isValidMove (GameEngine.grid e) (Tetrimino.moveDown p) = true ->
    runs GameEngine.MoveDown e w
         (GameEngine.with_current e (Some (Tetrimino.moveDown p))) w
| runs_lock (c : GameEngine.command) (e e5 e' : GameEngine.t)
            (w w3 w' : World) (p q : Tetrimino.t) :
    GameEngine.currentTetrimino e = Some p ->
    (c = GameEngine.MoveDown /\ q = p
     /\ GameEngine.isValidMove (GameEngine.grid e) (Tetrimino.moveDown p)
        = false)
    \/ (c = GameEngine.HardDrop /\ landing (GameEngine.grid e) p = Ok q) ->
    GameEngine.lockTetrimino (GameEngine.with_current e (Some q)) w
    = Ok (e', w') ->
    GameEngine.spawnTetrimino e5 w3 = Ok (e', w') ->
    GameEngine.nextTetrimino e5 = GameEngine.nextTetrimino e ->
    GameEngine.gameState e5 = GameEngine.gameState e ->
    runs c e w e' w'
| runs_start (e e2 : GameEngine.t) (w w' : World) (g0 : Grid.t) :
    Grid.reset (GameEngine.grid e) = Ok g0 ->
    GameEngine.spawnTetrimino
      (GameEngine.mk g0 (GameEngine.currentTetrimino e)
                     (GameEngine.nextTetrimino e) (GameEngine.gameState e)
                     0 1 1 0 (GameEngine.ghostPosition e)) w
    = Ok (e2, w') ->
    runs GameEngine.StartGame e w
         (GameEngine.with_gameState e2 GameState.Running) w'.

(** The ghost position is where the descent loop leaves the current
    piece. *)
Definition ghostAccurate (e : GameEngine.t) : Prop :=
  match GameEngine.currentTetrimino e with
  | Some p =>
      exists q, landing (GameEngine.grid e) p = Ok q
                /\ GameEngine.ghostPosition e = Some (Tetrimino.position q)
  | None => GameEngine.ghostPosition e = None
  end.

(** What holds of the pieces of the engine in every state of a session:
    before the first start there is no piece, no ghost and the state is
    [NotStarted]; from then on there are a current piece, with a rotation
    index of the shape table, and a next piece, as generated, the state is
    not [NotStarted], and the ghost position is accurate. *)
Definition piecesOk (e : GameEngine.t) : Prop :=
  ghostAccurate e
  /\ match GameEngine.currentTetrimino e with
     | Some p =>
         rotationOk p
         /\ (exists n, GameEngine.nextTetrimino e = Some n /\ atSpawn n)
         /\ GameEngine.gameState e <> GameState.NotStarted
     | None =>
         GameEngine.nextTetrimino e = None
         /\ GameEngine.gameState e = GameState.NotStarted
     end.

Ltac simpl_engine :=
  cbn [GameEngine.currentTetrimino GameEngine.nextTetrimino
       GameEngine.gameState GameEngine.ghostPosition GameEngine.grid
       GameEngine.with_current GameEngine.with_ghost
       GameEngine.with_gameState] in *.

(** What a session keeps of the orbs and the colours of its grid: never
    more orbs than [MAX_ORBS], and a colour map as [getColorIndex] builds
    it. *)
Definition gridOk (g : Grid.t) : Prop :=
  Z.of_nat (length (Grid.orbs g)) <= Grid.maxOrbs /\ colorMapOk g.

(** A world whose clock reads 5000 and then 12000. *)
Definition twoReadings : World := worldOf [] [5000; 12000].

(** The engine command an input of the view-model passes on. *)
Definition commandOf (i : GameViewModel.input) : GameEngine.command :=
  match i with
  | GameViewModel.MoveLeft => GameEngine.MoveLeft
  | GameViewModel.MoveRight => GameEngine.MoveRight
  | GameViewModel.SoftDrop | GameViewModel.Tick => GameEngine.MoveDown
  | GameViewModel.HardDrop => GameEngine.HardDrop
  | GameViewModel.Rotate => GameEngine.Rotate
  end.

(** A view-model whose game has been started. *)
Definition startedViewModel : GameViewModel.t :=
  GameViewModel.mk ledgeState 0 800.

(** [val midpoint = (height + 4) / 2] of [trySpawnOrb]. *)
Definition midpointOf (g : Grid.t) : Z :=
  Int32.div (Int32.add (Grid.height g) 4) 2.

(** One of the blocks of the piece lies in the top row of the grid. *)
Definition reachesTop (g : Grid.t) (p : Tetrimino.t) : bool :=
  existsb (fun b => (pos_y b =? 0) && (0 <=? pos_x b)
                    && (pos_x b <? Grid.width g))
          (Tetrimino.getBlocks p).

(** * Properties *)

(** ** Machine integers *)

Module Int32Facts.

Lemma wrap32_id (z : Z) : Int32.in_range z -> Int32.wrap32 z = z.
Proof.
  unfold Int32.in_range, Int32.min_value, Int32.max_value, Int32.wrap32.
  intros H. rewrite Z.mod_small; lia.
Qed.

Lemma wrap32_in_range (z : Z) : Int32.in_range (Int32.wrap32 z).
Proof.
  unfold Int32.in_range, Int32.min_value, Int32.max_value, Int32.wrap32.
  pose proof (Z.mod_pos_bound (z + 2 ^ 31) (2 ^ 32) ltac:(lia)). lia.
Qed.

Lemma add_small (a b : Z) : Int32.in_range (a + b) -> Int32.add a b = a + b.
Proof. apply wrap32_id. Qed.

Lemma sub_small (a b : Z) : Int32.in_range (a - b) -> Int32.sub a b = a - b.
Proof. apply wrap32_id. Qed.

Lemma add_zero_r (a : Z) : Int32.in_range a -> Int32.add a 0 = a.
Proof. intros H. unfold Int32.add. rewrite Z.add_0_r. now apply wrap32_id. Qed.

Lemma mul_zero_l (a : Z) : Int32.mul 0 a = 0.
Proof. reflexivity. Qed.

Lemma add_sub_cancel (a : Z) :
  Int32.in_range a -> Int32.add (Int32.sub a 1) 1 = a.
Proof.
  intros H. unfold Int32.add, Int32.sub.
  unfold Int32.in_range, Int32.min_value, Int32.max_value in H.
  unfold Int32.wrap32.
  replace ((a - 1 + 2 ^ 31) mod 2 ^ 32 - 2 ^ 31 + 1 + 2 ^ 31)
    with ((a - 1 + 2 ^ 31) mod 2 ^ 32 + 1) by lia.
  rewrite Zplus_mod_idemp_l.
  rewrite Z.mod_small; lia.
Qed.

End Int32Facts.

(** ** Shapes *)

Module ShapeFacts.

(** Every shape of the table has exactly four filled cells, all within a
    4x4 box, whatever the rotation index. *)
Lemma getBlocks_four (p : Tetrimino.t) :
  exists d1 d2 d3 d4,
    Tetrimino.getBlocks p = map (blockAt p) [d1; d2; d3; d4]
    /\ Forall inBox [d1; d2; d3; d4].
Proof.
  destruct p as [ty [px py] rot pu].
  unfold Tetrimino.getBlocks, Tetrimino.shape, blockAt; cbn [Tetrimino.type
    Tetrimino.rotation Tetrimino.position pos_x pos_y].
  destruct ty; cbn [TetriminoType.getShape];
    repeat match goal with
           | |- context [if ?b then _ else _] => destruct b
           end;
    cbn;
    match goal with
    | |- exists d1 d2 d3 d4, [mkPosition (Int32.add _ ?a1) (Int32.add _ ?b1);
                              mkPosition (Int32.add _ ?a2) (Int32.add _ ?b2);
                              mkPosition (Int32.add _ ?a3) (Int32.add _ ?b3);
                              mkPosition (Int32.add _ ?a4) (Int32.add _ ?b4)]
                             = _ /\ _ =>
        exists (a1, b1), (a2, b2), (a3, b3), (a4, b4)
    end;
    (split; [reflexivity | repeat constructor; cbn; lia]).
Qed.

Lemma getBlocks_nonempty (p : Tetrimino.t) : Tetrimino.getBlocks p <> [].
Proof.
  destruct (getBlocks_four p) as (d1 & d2 & d3 & d4 & E & _).
  rewrite E. discriminate.
Qed.

Lemma getBlocks_length (p : Tetrimino.t) :
  length (Tetrimino.getBlocks p) = 4%nat.
Proof.
  destruct (getBlocks_four p) as (d1 & d2 & d3 & d4 & E & _).
  now rewrite E.
Qed.

End ShapeFacts.

(** ** Validity of a move and the descent loop *)

Module DescentFacts.

Import GameEngine.

Lemma isValidMove_blocks (g : Grid.t) (p : Tetrimino.t) (b : Position) :
  isValidMove g p = true -> In b (Tetrimino.getBlocks p) ->
  pos_y b < Grid.height g /\ 0 <= pos_x b < Grid.width g.
Proof.
  unfold isValidMove. intros V Hb.
  assert (forallb
            (fun position =>
               (pos_y position <? Grid.height g)
               && (0 <=? pos_x position) && (pos_x position <? Grid.width g))
            (Tetrimino.getBlocks p) = true) as V'.
  { destruct (Tetrimino.powerUp p) as [[ | | ] | ]; try exact V;
      rewrite forallb_forall in *; intros x Hx; specialize (V x Hx);
      apply andb_prop in V; tauto. }
  rewrite forallb_forall in V'. specialize (V' b Hb).
  apply andb_prop in V' as [V1 V3]. apply andb_prop in V1 as [V1 V2].
  lia.
Qed.

(** A valid piece whose anchor is no wrapped-around coordinate lies with
    its anchor strictly above the bottom edge. *)
Lemma isValidMove_anchor (g : Grid.t) (p : Tetrimino.t) :
  Int32.min_value <= pos_y (Tetrimino.position p) ->
  pos_y (Tetrimino.position p) + 3 <= Int32.max_value ->
  isValidMove g p = true ->
  pos_y (Tetrimino.position p) < Grid.height g.
Proof.
  intros Hlo Hhi V.
  destruct (ShapeFacts.getBlocks_four p) as (d1 & d2 & d3 & d4 & E & B).
  assert (In (blockAt p d1) (Tetrimino.getBlocks p)) as Hin
      by (rewrite E; left; reflexivity).
  destruct (isValidMove_blocks g p _ V Hin) as [Hy _].
  inversion B as [ | ? ? [_ B1] _ ]; subst.
  unfold blockAt in Hy; cbn in Hy.
  rewrite Int32Facts.add_small in Hy; [lia | ].
  unfold Int32.in_range, Int32.min_value, Int32.max_value in *. lia.
Qed.

Lemma moveDown_y (p : Tetrimino.t) :
  Int32.min_value <= pos_y (Tetrimino.position p) ->
  pos_y (Tetrimino.position p) < Int32.max_value ->
  pos_y (Tetrimino.position (Tetrimino.moveDown p))
  = pos_y (Tetrimino.position p) + 1.
Proof.
  intros Hlo Hhi. cbn. apply Int32Facts.add_small.
  unfold Int32.in_range, Int32.min_value, Int32.max_value in *. lia.
Qed.

(** The loop stops after at most [height - 1 - y] moves when it has more
    fuel than [height - y], on a piece that cannot wrap around. *)
Lemma descend_stops (n : nat) :
  forall (g : Grid.t) (p : Tetrimino.t),
    Int32.min_value <= pos_y (Tetrimino.position p) ->
    pos_y (Tetrimino.position p) + 4 <= Int32.max_value ->
    Grid.height g + 4 <= Int32.max_value ->
    (Z.to_nat (Grid.height g - pos_y (Tetrimino.position p)) < n)%nat ->
    exists (k : nat) (p' : Tetrimino.t),
      descend n g p = Ok p'
      /\ p' = Nat.iter k Tetrimino.moveDown p
      /\ Z.of_nat k
         <= Z.max 0 (Grid.height g - 1 - pos_y (Tetrimino.position p))
      /\ isValidMove g (Tetrimino.moveDown p') = false.
Proof.
  induction n as [ | n IH]; intros g p Hlo Hhi Hg Hfuel; [lia | ].
  cbn [descend].
  destruct (isValidMove g (Tetrimino.moveDown p)) eqn:V.
  - pose proof (moveDown_y p Hlo ltac:(lia)) as Ey.
    assert (pos_y (Tetrimino.position p) + 1 < Grid.height g) as Hlt.
    { rewrite <- Ey. apply isValidMove_anchor; [lia | lia | exact V]. }
    destruct (IH g (Tetrimino.moveDown p)) as (k & p' & D & I & K & F);
      try lia.
    exists (S k), p'. split; [exact D | ]. split.
    + rewrite I. symmetry. apply Nat.iter_succ_r.
    + split; [lia | exact F].
  - exists 0%nat, p. cbn. repeat split; [lia | exact V].
Qed.

End DescentFacts.

Lemma shapeHeight_bounds (p : Tetrimino.t) : 2 <= shapeHeight p <= 4.
Proof.
  destruct p as [ty pos rot pu]. unfold shapeHeight, Tetrimino.shape.
  cbn [Tetrimino.type Tetrimino.rotation].
  destruct ty; cbn [TetriminoType.getShape];
    repeat match goal with
           | |- context [if ?b then _ else _] => destruct b
           end; cbn; lia.
Qed.

(** C10. The descent loop of [hardDrop] and [updateGhostPosition] terminates
    for every piece, GHOST pieces included: every shape has a filled cell,
    a move down raises [y] by one, a valid piece has every block above the
    bottom edge, and so the loop, run with the fuel the engine gives it,
    returns after at most [height - 1 - y] moves; for a piece whose anchor
    is at most one shape height above the grid that is at most
    [height + shape height] moves. (The anchor is assumed not to be within
    four of the ends of the [Int] range, where coordinates wrap around.) *)
Theorem descent_loops_terminate (g : Grid.t) (p : Tetrimino.t) :
  0 <= Grid.height g -> Grid.height g + 4 <= Int32.max_value ->
  Int32.min_value <= pos_y (Tetrimino.position p) ->
  pos_y (Tetrimino.position p) + 4 <= Int32.max_value ->
  Tetrimino.getBlocks p <> []
  /\ pos_y (Tetrimino.position (Tetrimino.moveDown p))
     = pos_y (Tetrimino.position p) + 1
  /\ (forall q b, GameEngine.isValidMove g q = true ->
                  In b (Tetrimino.getBlocks q) -> pos_y b < Grid.height g)
  /\ exists (k : nat) (p' : Tetrimino.t),
       GameEngine.descend (GameEngine.descend_fuel g p) g p = Ok p'
       /\ p' = Nat.iter k Tetrimino.moveDown p
       /\ GameEngine.isValidMove g (Tetrimino.moveDown p') = false
       /\ Z.of_nat k
          <= Z.max 0 (Grid.height g - 1 - pos_y (Tetrimino.position p))
       /\ (- shapeHeight p <= pos_y (Tetrimino.position p) ->
           Z.of_nat k <= Grid.height g + shapeHeight p).
Proof.
  intros Hh Hg Hlo Hhi.
  split; [apply ShapeFacts.getBlocks_nonempty | ].
  split; [apply DescentFacts.moveDown_y; lia | ].
  split.
  { intros q b V Hb. now destruct (DescentFacts.isValidMove_blocks g q b V Hb). }
  destruct (DescentFacts.descend_stops (GameEngine.descend_fuel g p) g p)
    as (k & p' & D & I & K & F); try assumption.
  { unfold GameEngine.descend_fuel. lia. }
  exists k, p'. repeat split; try assumption.
  intros Hs. pose proof (shapeHeight_bounds p). lia.
Qed.

Lemma descent_loops_terminate_witness :
  exists (k : nat) (p' : Tetrimino.t),
    GameEngine.descend (GameEngine.descend_fuel emptyGrid ghostPiece)
                       emptyGrid ghostPiece = Ok p'
    /\ p' = Nat.iter k Tetrimino.moveDown ghostPiece
    /\ Z.of_nat k <= 20 + 4.
Proof.
  destruct (descent_loops_terminate emptyGrid ghostPiece)
    as (_ & _ & _ & k & p' & D & I & _ & _ & B).
  1-4: vm_compute; intro; discriminate.
  exists k, p'. split; [exact D | ]. split; [exact I | ].
  apply B. vm_compute. discriminate.
Defined.

(** ** Scoring *)

(** C3. [updateScore] adds to the score the table value of the number of
    cleared lines times the current multiplier (in [Int] arithmetic); the
    table of the code is the table of the specification, and above four
    lines it gives 0. *)
Theorem line_clear_score (e : GameEngine.t) (linesCleared : Z) (w : World) :
  GameEngine.score (fst (GameEngine.updateScore e linesCleared w))
  = Int32.add (GameEngine.score e)
      (Int32.mul (lineClearTable linesCleared) (GameEngine.multiplier e))
  /\ GameEngine.basePoints linesCleared = lineClearTable linesCleared
  /\ (forall n, 4 < n ->
        GameEngine.basePoints n = 0
        /\ Int32.mul (GameEngine.basePoints n) (GameEngine.multiplier e) = 0).
Proof.
  assert (forall n, GameEngine.basePoints n = lineClearTable n) as T.
  { intros n. unfold GameEngine.basePoints, lineClearTable.
    destruct (n =? 1) eqn:E1; [apply Z.eqb_eq in E1; now subst | ].
    destruct (n =? 2) eqn:E2; [apply Z.eqb_eq in E2; now subst | ].
    destruct (n =? 3) eqn:E3; [apply Z.eqb_eq in E3; now subst | ].
    destruct (n =? 4) eqn:E4; [apply Z.eqb_eq in E4; now subst | ].
    apply Z.eqb_neq in E1, E2, E3, E4.
    destruct n as [ | [[[ | | ] | [ | | ] | ] | [[ | | ] | [ | | ] | ] | ] | ];
      try reflexivity; lia. }
  split; [ | split; [apply T | ] ].
  - unfold GameEngine.updateScore, GameEngine.checkMultiplierExpiration.
    rewrite T.
    destruct (0 <? _); [ | reflexivity].
    destruct (System.currentTimeMillis w) as [now w'].
    destruct (_ <? now); reflexivity.
  - intros n Hn.
    assert (GameEngine.basePoints n = 0) as Z0.
    { unfold GameEngine.basePoints.
      repeat match goal with
             | |- context [?a =? ?b] =>
                 destruct (Z.eqb_spec a b); [lia | ]
             end.
      reflexivity. }
    split; [exact Z0 | now rewrite Z0].
Qed.

(** ** Rejected commands and the left-right round trip *)

(** C7. When the transformed piece of [moveLeft], [moveRight] or [rotate]
    fails [isValidMove], the command returns the engine state it was given,
    every field of it, and reads nothing from the world. *)
Theorem rejected_command_is_noop
    (c : GameEngine.command) (f : Tetrimino.t -> Tetrimino.t)
    (e : GameEngine.t) (w : World) (p : Tetrimino.t) :
  transformOf c = Some f ->
  GameEngine.currentTetrimino e = Some p ->
  GameEngine.isValidMove (GameEngine.grid e) (f p) = false ->
  GameEngine.run c e w = Ok (e, w).
Proof.
  intros Hc Hp Hv.
  destruct c; cbn in Hc; try discriminate; injection Hc as <-;
    cbn [GameEngine.run];
    unfold GameEngine.moveLeft, GameEngine.moveRight, GameEngine.rotate,
      GameEngine.tryMove;
    rewrite Hp, Hv; reflexivity.
Qed.

Lemma rejected_command_is_noop_witness :
  GameEngine.run GameEngine.MoveLeft atLeftWall (worldOf [] [])
  = Ok (atLeftWall, worldOf [] []).
Proof.
  apply (rejected_command_is_noop GameEngine.MoveLeft Tetrimino.moveLeft
           atLeftWall (worldOf [] [])
           (Tetrimino.mk TetriminoType.I (mkPosition 0 0) 0 None));
    reflexivity.
Defined.

Module MoveFacts.

Import GameEngine.

Lemma updateGhostPosition_ok (e : t) (p : Tetrimino.t) :
  currentTetrimino e = Some p ->
  Int32.min_value <= pos_y (Tetrimino.position p) ->
  pos_y (Tetrimino.position p) + 4 <= Int32.max_value ->
  Grid.height (grid e) + 4 <= Int32.max_value ->
  exists q, updateGhostPosition e = Ok (with_ghost e (Some q)).
Proof.
  intros Hp Hlo Hhi Hg. unfold updateGhostPosition. rewrite Hp.
  destruct (DescentFacts.descend_stops (descend_fuel (grid e) p) (grid e) p)
    as (k & p' & D & _); try assumption.
  { unfold descend_fuel. lia. }
  rewrite D. cbn. eauto.
Qed.

Lemma moveRight_moveLeft (p : Tetrimino.t) :
  Int32.in_range (pos_x (Tetrimino.position p)) ->
  Tetrimino.moveRight (Tetrimino.moveLeft p) = p.
Proof.
  intros Hx. destruct p as [ty [px py] rot pu].
  unfold Tetrimino.moveRight, Tetrimino.moveLeft; cbn in *.
  now rewrite Int32Facts.add_sub_cancel.
Qed.

End MoveFacts.

(** C8. When the piece and the piece one column to the left both pass
    [isValidMove], [moveLeft] followed by [moveRight] gives back the
    current piece (type, position, rotation and power-up); the grid and
    every other field are unchanged, the ghost position being recomputed.
    (The coordinates are Kotlin [Int]s away from the ends of the range.) *)
Theorem moveLeft_moveRight_roundtrip (e : GameEngine.t) (p : Tetrimino.t) :
  GameEngine.currentTetrimino e = Some p ->
  Int32.in_range (pos_x (Tetrimino.position p)) ->
  Int32.min_value <= pos_y (Tetrimino.position p) ->
  pos_y (Tetrimino.position p) + 4 <= Int32.max_value ->
  Grid.height (GameEngine.grid e) + 4 <= Int32.max_value ->
  GameEngine.isValidMove (GameEngine.grid e) (Tetrimino.moveLeft p) = true ->
  GameEngine.isValidMove (GameEngine.grid e) p = true ->
  exists e1 e2,
    GameEngine.moveLeft e = Ok e1
    /\ GameEngine.moveRight e1 = Ok e2
    /\ GameEngine.currentTetrimino e2 = Some p
    /\ GameEngine.grid e2 = GameEngine.grid e
    /\ e2 = GameEngine.with_ghost e (GameEngine.ghostPosition e2).
Proof.
  intros Hp Hx Hlo Hhi Hg Vl Vo.
  unfold GameEngine.moveLeft, GameEngine.moveRight, GameEngine.tryMove.
  rewrite Hp, Vl.
  destruct (MoveFacts.updateGhostPosition_ok
              (GameEngine.with_current e (Some (Tetrimino.moveLeft p)))
              (Tetrimino.moveLeft p)) as (q1 & E1); try assumption;
    [reflexivity | ].
  rewrite E1.
  set (e1 := GameEngine.with_ghost
               (GameEngine.with_current e (Some (Tetrimino.moveLeft p)))
               (Some q1)).
  destruct (MoveFacts.updateGhostPosition_ok
              (GameEngine.with_current e1 (Some p)) p) as (q2 & E2);
    try assumption; [reflexivity | ].
  exists e1. eexists. split; [reflexivity | ].
  cbn [GameEngine.currentTetrimino GameEngine.with_ghost
         GameEngine.with_current GameEngine.grid e1].
  rewrite MoveFacts.moveRight_moveLeft by assumption. rewrite Vo.
  split; [exact E2 | ]. cbn. repeat split.
  subst e1. destruct e; cbn in Hp; subst; reflexivity.
Qed.

Lemma moveLeft_moveRight_roundtrip_witness :
  exists e1 e2,
    GameEngine.moveLeft inTheMiddle = Ok e1
    /\ GameEngine.moveRight e1 = Ok e2
    /\ GameEngine.currentTetrimino e2
       = Some (Tetrimino.mk TetriminoType.I (mkPosition 4 0) 0 None)
    /\ GameEngine.grid e2 = GameEngine.grid inTheMiddle
    /\ e2 = GameEngine.with_ghost inTheMiddle (GameEngine.ghostPosition e2).
Proof.
  apply (moveLeft_moveRight_roundtrip inTheMiddle
           (Tetrimino.mk TetriminoType.I (mkPosition 4 0) 0 None));
    try reflexivity; vm_compute; try (intro; discriminate).
  split; intro; discriminate.
Defined.

(** ** Arrays, loops and the operations of the grid *)

Module GridFacts.


Lemma aget_ok {A : Type} (a : list A) (i : Z) (v : A) :
  0 <= i -> a !! Z.to_nat i = Some v -> aget a i = Ok v.
Proof.
  intros Hi E. unfold aget. destruct (Z.ltb_spec i 0); [lia | ]. now rewrite E.
Qed.

Lemma aget_inv {A : Type} (a : list A) (i : Z) (v : A) :
  aget a i = Ok v -> 0 <= i /\ a !! Z.to_nat i = Some v.
Proof.
  unfold aget. destruct (Z.ltb_spec i 0); [discriminate | ].
  destruct (a !! Z.to_nat i); [ | discriminate]. intros [= ->]. split; [lia | reflexivity].
Qed.

Lemma aset_ok {A : Type} (a : list A) (i : Z) (v : A) :
  0 <= i < Z.of_nat (length a) -> aset a i v = Ok (<[Z.to_nat i := v]> a).
Proof.
  intros Hi. unfold aset.
  destruct (Z.leb_spec 0 i); [ | lia]. destruct (Z.ltb_spec i (Z.of_nat (length a))); [ | lia].
  reflexivity.
Qed.

Lemma until_nil (lo hi : Z) : hi <= lo -> until lo hi = [].
Proof. intros H. unfold until. replace (Z.to_nat (hi - lo)) with 0%nat by lia. reflexivity. Qed.

Lemma until_cons (lo hi : Z) : lo < hi -> until lo hi = lo :: until (lo + 1) hi.
Proof.
  intros H. unfold until.
  replace (Z.to_nat (hi - lo)) with (S (Z.to_nat (hi - (lo + 1)))) by lia.
  cbn [seq map]. f_equal; [lia | ].
  rewrite <- seq_shift, map_map. apply map_ext. intros k. lia.
Qed.

Lemma until_snoc (lo hi : Z) : lo <= hi -> until lo (hi + 1) = until lo hi ++ [hi].
Proof.
  intros H. unfold until.
  replace (Z.to_nat (hi + 1 - lo)) with (S (Z.to_nat (hi - lo))) by lia.
  rewrite seq_S, map_app. cbn. do 2 f_equal. lia.
Qed.

Lemma in_until (lo hi i : Z) : In i (until lo hi) <-> lo <= i < hi.
Proof.
  unfold until. rewrite in_map_iff. split.
  - intros (k & <- & Hk). apply in_seq in Hk. lia.
  - intros H. exists (Z.to_nat (i - lo)). split; [lia | ]. apply in_seq. lia.
Qed.

Lemma forEach_app {A S : Type} (l1 l2 : list A) (body : A -> S -> res S) (s : S) :
  forEach (l1 ++ l2) body s = let* s' := forEach l1 body s in forEach l2 body s'.
Proof.
  revert s. induction l1 as [ | a l1 IH]; intros s; cbn; [reflexivity | ].
  destruct (body a s); cbn; [apply IH | reflexivity].
Qed.

(** The invariant rule of an ascending [for] loop. *)
Lemma forEach_until {S : Type} (P : Z -> S -> Prop) (body : Z -> S -> res S) (hi : Z) :
  (forall i s, i < hi -> P i s -> exists s', body i s = Ok s' /\ P (i + 1) s') ->
  forall (n : nat) (lo : Z) (s : S),
    Z.of_nat n = hi - lo -> P lo s ->
    exists s', forEach (until lo hi) body s = Ok s' /\ P hi s'.
Proof.
  intros Step. induction n as [ | n IH]; intros lo s Hn HP.
  - rewrite until_nil by lia. exists s. split; [reflexivity | ]. now replace hi with lo by lia.
  - rewrite until_cons by lia. cbn [forEach].
    destruct (Step lo s ltac:(lia) HP) as (s1 & E1 & P1). rewrite E1. cbn.
    apply IH; [lia | exact P1].
Qed.

(** The invariant rule of a descending [for] loop. *)
Lemma forEach_downTo {S : Type} (P : Z -> S -> Prop) (body : Z -> S -> res S) (lo : Z) :
  (forall i s, lo <= i -> P i s -> exists s', body i s = Ok s' /\ P (i - 1) s') ->
  forall (n : nat) (hi : Z) (s : S),
    Z.of_nat n = hi + 1 - lo -> P hi s ->
    exists s', forEach (downTo hi lo) body s = Ok s' /\ P (lo - 1) s'.
Proof.
  intros Step. induction n as [ | n IH]; intros hi s Hn HP.
  - unfold downTo. rewrite until_nil by lia. exists s. split; [reflexivity | ].
    now replace (lo - 1) with hi by lia.
  - unfold downTo. rewrite until_snoc by lia. rewrite rev_app_distr. cbn [rev app forEach].
    destruct (Step hi s ltac:(lia) HP) as (s1 & E1 & P1). rewrite E1. cbn.
    specialize (IH (hi - 1) s1 ltac:(lia) P1). unfold downTo in IH.
    now replace (hi - 1 + 1) with hi in IH by lia.
Qed.

Lemma with_cells_id (g : Grid.t) : Grid.with_cells g (Grid.cells g) = g.
Proof. now destruct g. Qed.

Lemma wellFormed_with_cells (g : Grid.t) (c : list (list Z)) :
  wellFormed g -> length c = length (Grid.cells g) ->
  Forall (fun row => length row = Z.to_nat (Grid.width g)) c ->
  wellFormed (Grid.with_cells g c).
Proof.
  intros (Hw & Hh & Hl & Hr) Hc Hf. unfold wellFormed; cbn. repeat split; try assumption; congruence.
Qed.

Lemma wellFormed_row (g : Grid.t) (y : Z) :
  wellFormed g -> 0 <= y < Grid.height g ->
  exists row, Grid.cells g !! Z.to_nat y = Some row
              /\ length row = Z.to_nat (Grid.width g).
Proof.
  intros (Hw & Hh & Hl & Hr) Hy.
  destruct (lookup_lt_is_Some_2 (Grid.cells g) (Z.to_nat y)) as [row E]; [lia | ].
  exists row. split; [exact E | ].
  rewrite Forall_forall in Hr. apply Hr. eapply list_elem_of_lookup_2; eauto.
Qed.

Lemma setCell_ok (g : Grid.t) (x y v : Z) (row : list Z) :
  Grid.cells g !! Z.to_nat y = Some row ->
  0 <= y -> 0 <= x < Z.of_nat (length row) ->
  Grid.setCell g x y v
  = Ok (Grid.with_cells g
          (<[Z.to_nat y := <[Z.to_nat x := v]> row]> (Grid.cells g))).
Proof.
  intros E Hy Hx. unfold Grid.setCell.
  rewrite (aget_ok _ _ _ Hy E). cbn.
  rewrite aset_ok by lia. cbn.
  rewrite aset_ok; [reflexivity | ].
  apply lookup_lt_Some in E. lia.
Qed.

Lemma insert_zero_prefix (row : list Z) (k : nat) :
  (k < length row)%nat ->
  <[k := 0]> (replicate k 0 ++ drop k row)
  = replicate (S k) 0 ++ drop (S k) row.
Proof.
  intros Hk.
  destruct (lookup_lt_is_Some_2 row k Hk) as [a Ea].
  rewrite insert_app_r_alt by (rewrite length_replicate; lia).
  rewrite length_replicate, Nat.sub_diag.
  rewrite (drop_S _ _ _ Ea). cbn [insert list_insert].
  change (0 :: drop (S k) row) with ([0] ++ drop (S k) row).
  rewrite app_assoc. f_equal.
  change [0] with (replicate 1 0). rewrite <- replicate_add.
  f_equal. lia.
Qed.

Lemma clearLine_ok (g : Grid.t) (y : Z) :
  wellFormed g -> 0 <= y < Grid.height g ->
  Grid.clearLine g y
  = Ok (Grid.with_cells g (<[Z.to_nat y := emptyRow g]> (Grid.cells g))).
Proof.
  intros WF Hy.
  destruct (wellFormed_row g y WF Hy) as (row & Erow & Lrow).
  destruct WF as (Hw & Hh & Hl & Hr).
  unfold Grid.clearLine.
  destruct (forEach_until
              (fun k g' =>
                 0 <= k <= Grid.width g
                 /\ g' = Grid.with_cells g
                           (<[Z.to_nat y :=
                                replicate (Z.to_nat k) 0 ++ drop (Z.to_nat k) row]>
                              (Grid.cells g)))
              (fun x g' => Grid.setCell g' x y 0) (Grid.width g))
    with (n := Z.to_nat (Grid.width g)) (lo := 0) (s := g)
    as (g' & E & _ & ->).
  - intros k g' Hk (Hk0 & ->).
    eexists. split.
    + apply setCell_ok with (row := replicate (Z.to_nat k) 0 ++ drop (Z.to_nat k) row).
      * cbn. apply list_lookup_insert_eq. lia.
      * lia.
      * rewrite length_app, length_replicate, length_drop. lia.
    + split; [lia | ]. unfold Grid.with_cells; cbn. f_equal.
      rewrite list_insert_insert_eq. f_equal.
      rewrite insert_zero_prefix by lia. do 2 f_equal; lia.
  - lia.
  - split; [lia | ]. cbn. rewrite drop_0. rewrite list_insert_id by exact Erow.
    symmetry. apply with_cells_id.
  - rewrite E. do 3 f_equal. unfold emptyRow.
    rewrite drop_ge by lia. apply app_nil_r.
Qed.


Lemma delete_insert_same {A : Type} (l : list A) (i : nat) (x : A) :
  delete i (<[i := x]> l) = delete i l.
Proof.
  rewrite !delete_take_drop.
  rewrite take_insert_ge by lia. rewrite drop_insert_lt by lia. reflexivity.
Qed.

Lemma shiftRows_ok (g : Grid.t) (c : Z) :
  wellFormed g -> 0 <= c < Grid.height g ->
  exists c',
    forEach (downTo c 1)
      (fun y g' =>
         let* row := aget (Grid.cells g') (y - 1) in
         let* cs := aset (Grid.cells g') y row in
         Ok (Grid.with_cells g' cs))
      g = Ok (Grid.with_cells g c')
    /\ length c' = length (Grid.cells g)
    /\ forall k : nat,
         c' !! k = if decide (0 < k <= Z.to_nat c)%nat
                   then Grid.cells g !! (k - 1)%nat
                   else Grid.cells g !! k.
Proof.
  intros WF Hc. destruct WF as (Hw & Hh & Hl & Hr).
  destruct (forEach_downTo
              (fun j g' =>
                 0 <= j <= c
                 /\ exists c',
                     g' = Grid.with_cells g c'
                     /\ length c' = length (Grid.cells g)
                     /\ forall k : nat,
                         c' !! k = if decide (Z.to_nat j < k <= Z.to_nat c)%nat
                                   then Grid.cells g !! (k - 1)%nat
                                   else Grid.cells g !! k)
              (fun y g' =>
                 let* row := aget (Grid.cells g') (y - 1) in
                 let* cs := aset (Grid.cells g') y row in
                 Ok (Grid.with_cells g' cs)) 1)
    with (n := Z.to_nat c) (hi := c) (s := g)
    as (g' & E & _ & c' & -> & L & K).
  - intros i g' Hi (Hj & c' & -> & L & K).
    destruct (lookup_lt_is_Some_2 (Grid.cells g) (Z.to_nat (i - 1))) as [row Erow]; [lia | ].
    exists (Grid.with_cells g (<[Z.to_nat i := row]> c')). split.
    + cbn. rewrite (aget_ok _ _ row); [ | lia | ].
      * cbn. rewrite aset_ok by lia. reflexivity.
      * rewrite K. destruct (decide _); [lia | exact Erow].
    + split; [lia | ]. eexists. split; [reflexivity | ].
      split; [now rewrite length_insert | ].
      intros k. destruct (decide (k = Z.to_nat i)) as [-> | Hne].
      * rewrite list_lookup_insert_eq by lia.
        destruct (decide _); [ | lia].
        rewrite <- Erow. f_equal. lia.
      * rewrite list_lookup_insert_ne by lia. rewrite K.
        repeat case_decide; try reflexivity; lia.
  - lia.
  - split; [lia | ]. exists (Grid.cells g). split; [symmetry; apply with_cells_id | ].
    split; [reflexivity | ]. intros k. destruct (decide _); [lia | reflexivity].
  - exists c'. split; [exact E | ]. split; [exact L | ].
    intros k. rewrite K. repeat case_decide; try reflexivity; lia.
Qed.

Lemma Orb_eqb_eq (a b : Orb.t) : Orb.eqb a b = true <-> a = b.
Proof.
  destruct a as [[ax ay] am aty], b as [[bx by_] bm bty].
  unfold Orb.eqb, Position_eqb; cbn. split.
  - intros H. rewrite !andb_true_iff in H. destruct H as [[[Hx Hy] Hm] Ht].
    apply Z.eqb_eq in Hx, Hy, Hm.
    destruct aty, bty; try discriminate; now subst.
  - intros [= -> -> -> ->]. rewrite !Z.eqb_refl. now destruct bty.
Qed.

Lemma indexOf_lookup (o : Orb.t) (l : list Orb.t) (i : nat) :
  l !! i = Some o ->
  exists j : nat, Grid.indexOf o l = Z.of_nat j /\ (j <= i)%nat /\ l !! j = Some o.
Proof.
  revert i. induction l as [ | a l IH]; intros i E; [discriminate | ].
  cbn [Grid.indexOf]. destruct (Orb.eqb a o) eqn:Eq.
  - apply Orb_eqb_eq in Eq as ->. exists 0%nat. repeat split. lia.
  - destruct i as [ | i].
    + cbn in E. injection E as ->.
      assert (Orb.eqb o o = true) by now apply Orb_eqb_eq. congruence.
    + cbn in E. destruct (IH i E) as (j & Ej & Hj & Lj).
      rewrite Ej. destruct (Z.ltb_spec (Z.of_nat j) 0); [lia | ].
      exists (S j). repeat split; [lia | lia | exact Lj].
Qed.

Lemma insert_Permutation_snoc {A : Type} (l : list A) (j : nat) (a b : A) :
  (l ++ [a]) !! j = Some a -> <[j := b]> (l ++ [a]) ≡ₚ l ++ [b].
Proof.
  intros E.
  assert (j < length (l ++ [a]))%nat as Hj by (eapply lookup_lt_Some; eauto).
  pose proof (delete_Permutation (l ++ [a]) j a E) as P1.
  pose proof (delete_Permutation (<[j := b]> (l ++ [a])) j b
                (list_lookup_insert_eq _ _ _ Hj)) as P2.
  rewrite delete_insert_same in P2.
  rewrite P2. rewrite <- (Permutation_cons_append l b).
  apply Permutation_cons; [reflexivity | ].
  apply (Permutation_cons_inv (a := a)). rewrite <- P1.
  symmetry. apply Permutation_cons_append.
Qed.

Lemma shiftOrbsDown_from_ok (c : Z) (n : nat) :
  forall (i : nat) (l : list Orb.t),
    exists l',
      Grid.shiftOrbsDown_from n i c l = Ok l'
      /\ l' ≡ₚ take i l ++ map (shiftOrb c) (take n (drop i l))
                ++ drop (i + n) l.
Proof.
  induction n as [ | n IH]; intros i l.
  - exists l. split; [reflexivity | ]. rewrite Nat.add_0_r.
    change (take 0 (drop i l)) with (@nil Orb.t). cbn [map app].
    now rewrite take_drop.
  - cbn [Grid.shiftOrbsDown_from].
    destruct (l !! i) as [orb | ] eqn:E.
    + assert (drop i l = orb :: drop (S i) l) as Ed by now apply drop_S.
      assert (take (S i) l = take i l ++ [orb]) as Et by now apply take_S_r.
      destruct (pos_y (Orb.position orb) <? c) eqn:Hlt.
      * destruct (indexOf_lookup orb l i E) as (j & Ej & Hj & Lj).
        rewrite Ej. pose proof (lookup_lt_Some _ _ _ Lj) as Hlen.
        rewrite aset_ok by lia. cbn. rewrite Nat2Z.id.
        set (orb' := Orb.mk _ _ _).
        destruct (IH (S i) (<[j := orb']> l)) as (l' & El & Pl).
        exists l'. split; [exact El | ]. rewrite Pl.
        rewrite drop_insert_lt by lia.
        rewrite (drop_insert_lt l (S i + n)) by lia.
        rewrite take_insert_lt by lia. rewrite Et.
        rewrite insert_Permutation_snoc.
        2:{ rewrite <- Et. rewrite lookup_take_lt by lia. exact Lj. }
        rewrite Ed. cbn [take map].
        replace (shiftOrb c orb) with orb' by (unfold shiftOrb; now rewrite Hlt).
        rewrite <- app_assoc. cbn. now replace (i + S n)%nat with (S i + n)%nat by lia.
      * cbn. destruct (IH (S i) l) as (l' & El & Pl).
        exists l'. split; [exact El | ]. rewrite Pl.
        rewrite Et, Ed. cbn [take map].
        replace (shiftOrb c orb) with orb by (unfold shiftOrb; now rewrite Hlt).
        rewrite <- app_assoc. cbn. now replace (i + S n)%nat with (S i + n)%nat by lia.
    + exists l. split; [reflexivity | ].
      apply lookup_ge_None in E.
      rewrite (drop_ge l i) by lia. rewrite (drop_ge l (i + S n)) by lia.
      cbn. rewrite app_nil_r. now rewrite take_ge by lia.
Qed.

Lemma shiftOrbsDown_ok (g : Grid.t) (c : Z) :
  exists l',
    Grid.shiftOrbsDown g c = Ok (Grid.with_orbs g l')
    /\ l' ≡ₚ map (shiftOrb c) (Grid.orbs g).
Proof.
  unfold Grid.shiftOrbsDown.
  destruct (shiftOrbsDown_from_ok c (length (Grid.orbs g)) 0 (Grid.orbs g))
    as (l' & E & P).
  exists l'. rewrite E. split; [reflexivity | ].
  rewrite P. cbn [take app Nat.add]. rewrite drop_0.
  rewrite firstn_all. rewrite drop_ge by reflexivity. now rewrite app_nil_r.
Qed.


Lemma shiftLinesDown_ok (g : Grid.t) (c : Z) :
  wellFormed g -> 0 <= c < Grid.height g ->
  exists l',
    Grid.shiftLinesDown g c
    = Ok (Grid.mk (Grid.width g) (Grid.height g)
                  (dropRow g c (Grid.cells g))
                  (Grid.colorMap g) (Grid.nextColorIndex g) l')
    /\ l' ≡ₚ map (shiftOrb c) (Grid.orbs g).
Proof.
  intros WF Hc.
  destruct (shiftRows_ok g c WF Hc) as (c' & E & L & K).
  unfold Grid.shiftLinesDown. rewrite E. cbn [res_bind].
  assert (wellFormed (Grid.with_cells g c')) as WF'.
  { apply wellFormed_with_cells; [exact WF | exact L | ].
    destruct WF as (_ & _ & _ & Hr). rewrite Forall_lookup in *.
    intros k row Hk. rewrite K in Hk.
    case_decide; eapply Hr; eauto. }
  rewrite clearLine_ok by (cbn; first [exact WF' | lia]).
  cbn [res_bind].
  destruct (shiftOrbsDown_ok
              (Grid.with_cells (Grid.with_cells g c')
                 (<[Z.to_nat 0 := emptyRow (Grid.with_cells g c')]>
                    (Grid.cells (Grid.with_cells g c')))) c)
    as (l' & Eo & Po).
  exists l'. rewrite Eo. split; [ | exact Po].
  unfold Grid.with_orbs, Grid.with_cells; cbn. do 2 f_equal.
  unfold dropRow, emptyRow. destruct WF as (Hw & Hh & Hl & Hr).
  apply list_eq. intros [ | k].
  - cbn. rewrite list_lookup_insert_eq by lia. reflexivity.
  - rewrite list_lookup_insert_ne by lia. rewrite K.
    rewrite lookup_cons_ne_0 by lia. cbn [pred].
    case_decide.
    + rewrite list_lookup_delete_lt by lia. f_equal. lia.
    + rewrite list_lookup_delete_ge by lia. reflexivity.
Qed.

(** Clearing a row and shifting: the row is removed, an empty row enters at
    the top, and the orbs above the row move down by one. *)
Lemma clear_and_shift (g : Grid.t) (y : Z) :
  wellFormed g -> 0 <= y < Grid.height g ->
  exists l',
    (let* g1 := Grid.clearLine g y in Grid.shiftLinesDown g1 y)
    = Ok (Grid.mk (Grid.width g) (Grid.height g)
                  (dropRow g y (Grid.cells g))
                  (Grid.colorMap g) (Grid.nextColorIndex g) l')
    /\ l' ≡ₚ map (shiftOrb y) (Grid.orbs g).
Proof.
  intros WF Hy. rewrite clearLine_ok by assumption. cbn [res_bind].
  assert (wellFormed (Grid.with_cells g (<[Z.to_nat y := emptyRow g]> (Grid.cells g)))) as WF'.
  { apply wellFormed_with_cells; [exact WF | apply length_insert | ].
    destruct WF as (_ & _ & _ & Hr). apply Forall_insert; [exact Hr | ].
    unfold emptyRow. apply length_replicate. }
  destruct (shiftLinesDown_ok _ y WF' Hy) as (l' & E & P).
  exists l'. rewrite E. split; [ | exact P]. cbn. do 2 f_equal.
  unfold dropRow. f_equal. apply delete_insert_same.
Qed.

Lemma wellFormed_dropRow (g : Grid.t) (y : Z) (l : list Orb.t) :
  wellFormed g -> 0 <= y < Grid.height g ->
  wellFormed (Grid.mk (Grid.width g) (Grid.height g)
                (dropRow g y (Grid.cells g))
                (Grid.colorMap g) (Grid.nextColorIndex g) l).
Proof.
  intros (Hw & Hh & Hl & Hr) Hy. unfold wellFormed, dropRow; cbn.
  repeat split; try assumption.
  - rewrite length_delete by (apply lookup_lt_is_Some_2; lia). lia.
  - constructor; [apply length_replicate | ].
    rewrite Forall_lookup in *. intros k row Hk.
    destruct (decide (k < Z.to_nat y)%nat).
    + rewrite list_lookup_delete_lt in Hk by lia. eauto.
    + rewrite list_lookup_delete_ge in Hk by lia. eauto.
Qed.

Lemma isLineComplete_ok (g : Grid.t) (y : Z) (row : list Z) :
  0 <= y -> Grid.cells g !! Z.to_nat y = Some row ->
  Grid.isLineComplete g y = Ok (rowComplete row).
Proof.
  intros Hy E. unfold Grid.isLineComplete. now rewrite (aget_ok _ _ row).
Qed.

Lemma emptyRow_not_complete (g : Grid.t) :
  0 < Grid.width g -> rowComplete (emptyRow g) = false.
Proof.
  intros Hw. unfold emptyRow.
  destruct (Z.to_nat (Grid.width g)) eqn:E; [lia | reflexivity].
Qed.


Lemma completeRows_snoc (c : list (list Z)) (row : list Z) :
  completeRows (c ++ [row])
  = (completeRows c + if rowComplete row then 1 else 0)%nat.
Proof.
  unfold completeRows. rewrite List.filter_app, length_app. cbn.
  now destruct (rowComplete row).
Qed.

Lemma drop_delete_same {A : Type} (l : list A) (m : nat) :
  drop m (delete m l) = drop (S m) l.
Proof.
  revert l. induction m as [ | m IH]; intros [ | a l]; cbn; try reflexivity.
  apply IH.
Qed.

Lemma take_delete_same {A : Type} (l : list A) (m : nat) :
  take m (delete m l) = take m l.
Proof.
  revert l. induction m as [ | m IH]; intros [ | a l]; cbn; try reflexivity.
  f_equal. apply IH.
Qed.

(** The scan of [clearLines] under an invariant [J] of the caller's: it
    returns, no complete row is left, and [J] holds of the result. *)
Lemma clearLines_loop_inv (J : nat -> Grid.scan -> Prop) :
  (forall n s row,
      J (S n) s -> Grid.cells (Grid.sc_grid s) !! n = Some row ->
      rowComplete row = false -> J n s) ->
  (forall n s s' row,
      J (S n) s -> wellFormed (Grid.sc_grid s) ->
      Grid.cells (Grid.sc_grid s) !! n = Some row ->
      rowComplete row = true ->
      afterClear (Z.of_nat n) s s' -> J (S n) s') ->
  forall (fuel n : nat) (s : Grid.scan),
    wellFormed (Grid.sc_grid s) ->
    (n <= Z.to_nat (Grid.height (Grid.sc_grid s)))%nat ->
    Forall (fun row => rowComplete row = false)
           (drop n (Grid.cells (Grid.sc_grid s))) ->
    J n s ->
    (n + completeRows (take n (Grid.cells (Grid.sc_grid s))) < fuel)%nat ->
    exists s',
      Grid.clearLines_loop fuel (Z.of_nat n - 1) s = Ok s'
      /\ wellFormed (Grid.sc_grid s')
      /\ noCompleteRow (Grid.sc_grid s')
      /\ J 0%nat s'.
Proof.
  intros Hskip Hclear.
  induction fuel as [ | fuel IH]; intros n s WF Hn Habove HJ Hfuel; [lia | ].
  cbn [Grid.clearLines_loop].
  destruct n as [ | m].
  - cbn. exists s. rewrite drop_0 in Habove.
    split; [reflexivity | ]. split; [exact WF | ]. split; assumption.
  - destruct (Z.leb_spec 0 (Z.of_nat (S m) - 1)); [ | lia].
    replace (Z.of_nat (S m) - 1) with (Z.of_nat m) by lia.
    pose proof WF as (Hw & Hh & Hl & Hr).
    destruct (lookup_lt_is_Some_2 (Grid.cells (Grid.sc_grid s)) m) as [row Erow];
      [lia | ].
    rewrite (isLineComplete_ok _ _ row) by (rewrite ?Nat2Z.id; first [lia | exact Erow]).
    cbn [res_bind].
    rewrite (take_S_r _ _ _ Erow), completeRows_snoc in Hfuel.
    destruct (rowComplete row) eqn:Ec.
    + destruct (clear_and_shift (Grid.sc_grid s) (Z.of_nat m) WF ltac:(lia))
        as (l' & E & P).
      destruct (Grid.clearLine (Grid.sc_grid s) (Z.of_nat m)) as [g1 | ];
        [ | discriminate].
      cbn [res_bind] in E |- *. rewrite E. cbn [res_bind].
      match goal with
      | |- exists s', Grid.clearLines_loop fuel _ ?s1 = _ /\ _ =>
          assert (afterClear (Z.of_nat m) s s1) as AC
            by (exists l'; split; [exact P | reflexivity]);
          specialize (IH (S m) s1)
      end.
      replace (Z.of_nat (S m) - 1) with (Z.of_nat m) in IH by lia.
      apply IH; cbn [Grid.sc_grid Grid.cells Grid.height].
      * apply wellFormed_dropRow; [exact WF | lia].
      * exact Hn.
      * unfold dropRow. rewrite Nat2Z.id. cbn [drop].
        rewrite drop_delete_same. exact Habove.
      * eapply Hclear; eauto.
      * unfold dropRow. rewrite Nat2Z.id. cbn [take].
        rewrite take_delete_same.
        unfold completeRows in *. cbn [List.filter].
        rewrite emptyRow_not_complete by exact Hw. lia.
    + apply IH; try assumption.
      * lia.
      * rewrite (drop_S _ _ _ Erow). constructor; assumption.
      * eapply Hskip; eauto.
      * lia.
Qed.


Lemma pick_ok (l : list Position) (w : World) :
  l <> [] -> exists p w', Grid.pick l w = Ok (p, w') /\ In p l.
Proof.
  intros Hl. unfold Grid.pick, Random.nextInt.
  destruct (Random.next w) as [raw w'].
  assert (0 < Z.of_nat (length l)) as Hlen by (destruct l; [congruence | cbn; lia]).
  pose proof (Z.mod_pos_bound raw _ Hlen) as Hi.
  destruct (lookup_lt_is_Some_2 l (Z.to_nat (raw mod Z.of_nat (length l)))) as [p Ep];
    [lia | ].
  exists p, w'. rewrite (aget_ok _ _ p) by (first [lia | exact Ep]).
  split; [reflexivity | ].
  apply list_elem_of_In. eapply list_elem_of_lookup_2; eauto.
Qed.

Lemma trySpawnOrb_ok (g : Grid.t) (w : World) :
  exists g' w', Grid.trySpawnOrb g w = Ok (g', w') /\ spawned g g'.
Proof.
  unfold Grid.trySpawnOrb.
  destruct (Z.leb_spec Grid.maxOrbs (Z.of_nat (length (Grid.orbs g)))) as [Hfull | Hroom].
  { exists g, w. split; [reflexivity | now left]. }
  set (mid := Int32.div _ 2).
  set (upper := List.filter (fun p => pos_y p <? mid) _).
  set (lower := List.filter (fun p => negb (pos_y p <? mid)) _).
  assert (forall p, In p upper -> In p (Grid.spawnCandidates g)) as Hu
      by (intros p Hp; apply List.filter_In in Hp; tauto).
  assert (forall p, In p lower -> In p (Grid.spawnCandidates g)) as Hlo
      by (intros p Hp; apply List.filter_In in Hp; tauto).
  assert (forall l w0,
             l <> [] -> (forall p, In p l -> In p (Grid.spawnCandidates g)) ->
             exists g' w',
               (let* (position, w1) :=
                  (let* (p, w') := Grid.pick l w0 in Ok (Some p, w')) in
                match position with
                | None => Ok (g, w1)
                | Some it =>
                    let '(orb, w2) := Orb.createRandom it w1 in
                    Ok (Grid.with_orbs g (Grid.orbs g ++ [orb]), w2)
                end) = Ok (g', w') /\ spawned g g') as Hpick.
  { intros l w0 Hne Hin. destruct (pick_ok l w0 Hne) as (p & w' & E & Hp).
    rewrite E. cbn [res_bind].
    unfold Orb.createRandom. destruct (Random.nextFloat w') as [r w2].
    eexists. eexists. split; [reflexivity | ].
    right. eexists. split; [reflexivity | ]. split; [ | exact Hroom].
    cbn. now apply Hin. }
  destruct lower as [ | pl lower'] eqn:El, upper as [ | pu upper'] eqn:Eu.
  - exists g, w. split; [reflexivity | now left].
  - apply Hpick; [discriminate | exact Hu].
  - apply Hpick; [discriminate | exact Hlo].
  - destruct (Random.nextFloat w) as [r w1].
    destruct (Float32.ltb r _).
    + apply Hpick; [discriminate | exact Hlo].
    + apply Hpick; [discriminate | exact Hu].
Qed.

Lemma completeRows_le (c : list (list Z)) : (completeRows c <= length c)%nat.
Proof. unfold completeRows. apply List.filter_length_le. Qed.

(** [clearLines] under an invariant of the scan. *)
Lemma clearLines_inv (J : nat -> Grid.scan -> Prop) :
  (forall n s row,
      J (S n) s -> Grid.cells (Grid.sc_grid s) !! n = Some row ->
      rowComplete row = false -> J n s) ->
  (forall n s s' row,
      J (S n) s -> wellFormed (Grid.sc_grid s) ->
      Grid.cells (Grid.sc_grid s) !! n = Some row ->
      rowComplete row = true ->
      afterClear (Z.of_nat n) s s' -> J (S n) s') ->
  forall (g : Grid.t) (w : World),
    wellFormed g ->
    J (Z.to_nat (Grid.height g)) (Grid.mkScan g 0 1 []) ->
    exists s g' w',
      Grid.clearLines g w
      = Ok (Grid.sc_linesCleared s, Grid.sc_totalMultiplier s, g', w')
      /\ wellFormed (Grid.sc_grid s)
      /\ noCompleteRow (Grid.sc_grid s)
      /\ J 0%nat s
      /\ spawned (Grid.with_orbs (Grid.sc_grid s)
                    (Grid.removeAll (Grid.orbs (Grid.sc_grid s))
                                    (Grid.sc_orbsToRemove s))) g'.
Proof.
  intros Hskip Hclear g w WF HJ.
  pose proof WF as (Hw & Hh & Hl & Hr).
  destruct (clearLines_loop_inv J Hskip Hclear (Grid.clearLines_fuel g)
              (Z.to_nat (Grid.height g)) (Grid.mkScan g 0 1 []))
    as (s & E & WFs & NC & Js); cbn [Grid.sc_grid]; try assumption.
  - lia.
  - rewrite drop_ge by lia. constructor.
  - pose proof (completeRows_le (take (Z.to_nat (Grid.height g)) (Grid.cells g))).
    rewrite length_take in H. unfold Grid.clearLines_fuel. lia.
  - unfold Grid.clearLines.
    replace (Z.of_nat (Z.to_nat (Grid.height g)) - 1) with (Grid.height g - 1) in E by lia.
    rewrite E. cbn [res_bind].
    set (g2 := Grid.with_orbs (Grid.sc_grid s) _).
    destruct (Z.of_nat (length (Grid.orbs g2)) <? Grid.maxOrbs).
    + destruct (Random.nextFloat w) as [r w1].
      destruct (Float32.ltb r _).
      * destruct (trySpawnOrb_ok g2 w1) as (g' & w' & Es & Sp).
        rewrite Es. cbn [res_bind]. exists s, g', w'.
        split; [reflexivity | ]. repeat (split; [assumption | ]). exact Sp.
      * cbn [res_bind]. exists s, g2, w1.
        split; [reflexivity | ]. repeat (split; [assumption | ]). now left.
    + cbn [res_bind]. exists s, g2, w.
      split; [reflexivity | ]. repeat (split; [assumption | ]). now left.
Qed.

End GridFacts.

(** ** [clearLines] *)

Module ClearLinesFacts.


Lemma spawned_cells (g g' : Grid.t) :
  spawned g g' ->
  Grid.cells g' = Grid.cells g /\ Grid.width g' = Grid.width g
  /\ Grid.height g' = Grid.height g.
Proof. intros [-> | (orb & -> & _)]; repeat split. Qed.

Lemma noCompleteRow_isLineComplete (g : Grid.t) (y : Z) :
  wellFormed g -> noCompleteRow g -> 0 <= y < Grid.height g ->
  Grid.isLineComplete g y = Ok false.
Proof.
  intros WF NC Hy.
  destruct (GridFacts.wellFormed_row g y WF Hy) as (row & E & _).
  rewrite (GridFacts.isLineComplete_ok g y row) by (first [lia | exact E]).
  f_equal. unfold noCompleteRow in NC. rewrite Forall_lookup in NC. eauto.
Qed.

(** On a grid without a complete row the scan changes nothing. *)
Lemma clearLines_nothing_to_clear (g : Grid.t) (w : World) :
  wellFormed g -> noCompleteRow g ->
  exists g' w',
    Grid.clearLines g w = Ok (0, 1, g', w') /\ spawned g g'.
Proof.
  intros WF NC.
  destruct (GridFacts.clearLines_inv (fun _ s => s = Grid.mkScan g 0 1 []))
    with (g := g) (w := w) as (s & g' & w' & E & _ & _ & -> & Sp).
  - intros; assumption.
  - intros n s s' row -> _ Hrow Hc _. exfalso.
    unfold noCompleteRow in NC. rewrite Forall_lookup in NC.
    cbn in Hrow. specialize (NC _ _ Hrow). congruence.
  - exact WF.
  - reflexivity.
  - exists g', w'. split; [exact E | ].
    cbn in Sp. unfold Grid.removeAll in Sp. cbn in Sp.
    replace (Grid.with_orbs g (List.filter (fun _ => true) (Grid.orbs g))) with g in Sp;
      [exact Sp | ].
    destruct g; unfold Grid.with_orbs; cbn. f_equal.
    symmetry. clear. induction orbs; cbn; congruence.
Qed.

Lemma twoFullRows_wellFormed : wellFormed twoFullRows.
Proof.
  unfold wellFormed. cbn. repeat split; try lia. repeat constructor.
Qed.

End ClearLinesFacts.

(** C1. On every grid whose arrays have the dimensions of its constructor
    (every grid the engine can hold), [clearLines] returns, and in the grid
    it leaves no row is complete: a cleared index is examined again after
    the shift, so cascades are resolved within the call; a second call
    right after it clears zero lines and leaves the cells as they are. *)
Theorem clearLines_leaves_no_complete_row (g : Grid.t) (w : World) :
  wellFormed g ->
  exists linesCleared totalMultiplier g' w',
    Grid.clearLines g w = Ok (linesCleared, totalMultiplier, g', w')
    /\ wellFormed g'
    /\ (forall y, 0 <= y < Grid.height g' ->
                  Grid.isLineComplete g' y = Ok false)
    /\ forall w2, exists g2 w2',
         Grid.clearLines g' w2 = Ok (0, 1, g2, w2')
         /\ Grid.cells g2 = Grid.cells g'.
Proof.
  intros WF.
  destruct (GridFacts.clearLines_inv (fun _ _ => True))
    with (g := g) (w := w) as (s & g' & w' & E & WFs & NC & _ & Sp);
    try (intros; exact I); [exact WF | ].
  destruct (ClearLinesFacts.spawned_cells _ _ Sp) as (Ec & Ew & Eh). cbn in Ec, Ew, Eh.
  assert (wellFormed g') as WF'.
  { unfold wellFormed in *. rewrite Ec, Ew, Eh. exact WFs. }
  assert (noCompleteRow g') as NC' by (unfold noCompleteRow in *; now rewrite Ec).
  exists (Grid.sc_linesCleared s), (Grid.sc_totalMultiplier s), g', w'.
  split; [exact E | ]. split; [exact WF' | ]. split.
  - intros y Hy. now apply ClearLinesFacts.noCompleteRow_isLineComplete.
  - intros w2.
    destruct (ClearLinesFacts.clearLines_nothing_to_clear g' w2 WF' NC') as (g2 & w2' & E2 & Sp2).
    exists g2, w2'. split; [exact E2 | ]. now destruct (ClearLinesFacts.spawned_cells _ _ Sp2).
Qed.

Lemma clearLines_leaves_no_complete_row_witness :
  exists linesCleared totalMultiplier g' w',
    Grid.clearLines twoFullRows (worldOf [] [])
    = Ok (linesCleared, totalMultiplier, g', w')
    /\ (forall y, 0 <= y < Grid.height g' ->
                  Grid.isLineComplete g' y = Ok false).
Proof.
  destruct (clearLines_leaves_no_complete_row twoFullRows (worldOf [] [])
              ClearLinesFacts.twoFullRows_wellFormed)
    as (n & m & g' & w' & E & _ & NC & _).
  exists n, m, g', w'. split; [exact E | exact NC].
Defined.

Import GridFacts.
Import ClearLinesFacts.

(** ** Cells *)

Module CellFacts.

Lemma isInBounds_true (g : Grid.t) (p : Position) :
  Grid.isInBounds g p = true
  <-> 0 <= pos_x p < Grid.width g /\ 0 <= pos_y p < Grid.height g.
Proof.
  unfold Grid.isInBounds. rewrite !andb_true_iff.
  rewrite !Z.leb_le, !Z.ltb_lt. lia.
Qed.

Lemma aget_insert {A : Type} (l : list A) (i j : Z) (v : A) :
  0 <= i < Z.of_nat (length l) ->
  aget (<[Z.to_nat i := v]> l) j = if j =? i then Ok v else aget l j.
Proof.
  intros Hi. unfold aget.
  destruct (Z.ltb_spec j 0); [destruct (Z.eqb_spec j i); [lia | reflexivity] | ].
  destruct (Z.eqb_spec j i) as [-> | Hne].
  - rewrite list_lookup_insert_eq by lia. reflexivity.
  - rewrite list_lookup_insert_ne by lia. reflexivity.
Qed.

Lemma setCell_spec (g : Grid.t) (x0 y0 v : Z) :
  wellFormed g -> 0 <= x0 < Grid.width g -> 0 <= y0 < Grid.height g ->
  exists c',
    Grid.setCell g x0 y0 v = Ok (Grid.with_cells g c')
    /\ wellFormed (Grid.with_cells g c')
    /\ forall x y,
         Grid.cell (Grid.with_cells g c') x y
         = if (x =? x0) && (y =? y0) then Ok v else Grid.cell g x y.
Proof.
  intros WF Hx Hy.
  destruct (wellFormed_row g y0 WF Hy) as (row & Erow & Lrow).
  pose proof WF as (Hw & Hh & Hl & Hr).
  eexists. split; [apply (setCell_ok g x0 y0 v row Erow); lia | ].
  split.
  - apply wellFormed_with_cells; [exact WF | apply length_insert | ].
    apply Forall_insert; [exact Hr | ]. now rewrite length_insert.
  - intros x y. unfold Grid.cell; cbn [Grid.cells Grid.with_cells].
    rewrite aget_insert by lia.
    destruct (Z.eqb_spec y y0) as [-> | Hne].
    + cbn [res_bind]. rewrite (aget_ok _ _ row) by (first [lia | exact Erow]).
      cbn [res_bind]. rewrite aget_insert by lia. now rewrite andb_true_r.
    + now rewrite andb_false_r.
Qed.

Lemma cell_defined (g : Grid.t) (x y : Z) :
  wellFormed g -> 0 <= x < Grid.width g -> 0 <= y < Grid.height g ->
  exists v, Grid.cell g x y = Ok v
            /\ exists row, Grid.cells g !! Z.to_nat y = Some row
                           /\ row !! Z.to_nat x = Some v.
Proof.
  intros WF Hx Hy.
  destruct (wellFormed_row g y WF Hy) as (row & Erow & Lrow).
  destruct (lookup_lt_is_Some_2 row (Z.to_nat x)) as [v Ev]; [lia | ].
  exists v. split; [ | eauto]. unfold Grid.cell.
  rewrite (aget_ok _ _ row) by (first [lia | exact Erow]). cbn.
  apply aget_ok; [lia | exact Ev].
Qed.


Lemma clearRect_row (g : Grid.t) (x0 x1 i : Z) :
  wellFormed g -> x0 <= x1 ->
  exists c',
    clearRectBody x0 x1 i g = Ok (Grid.with_cells g c')
    /\ wellFormed (Grid.with_cells g c')
    /\ forall x y,
         0 <= x < Grid.width g -> 0 <= y < Grid.height g ->
         Grid.cell (Grid.with_cells g c') x y
         = if (y =? i) && (x0 <=? x) && (x <? x1) then Ok 0 else Grid.cell g x y.
Proof.
  intros WF Hx. unfold clearRectBody.
  destruct (forEach_until
              (fun j g'' =>
                 x0 <= j
                 /\ exists c'',
                     g'' = Grid.with_cells g c''
                     /\ wellFormed g''
                     /\ forall x y,
                         0 <= x < Grid.width g -> 0 <= y < Grid.height g ->
                         Grid.cell g'' x y
                         = if (y =? i) && (x0 <=? x) && (x <? j)
                           then Ok 0 else Grid.cell g x y)
              (fun x g'' =>
                 let position := mkPosition x i in
                 if Grid.isInBounds g'' position
                 then Grid.clearCell g'' position
                 else Ok g'') x1)
    with (n := Z.to_nat (x1 - x0)) (lo := x0) (s := g)
    as (g' & E & _ & c' & -> & WF' & K).
  - intros j g'' Hj (Hj0 & c'' & -> & WF'' & K). cbn zeta.
    destruct (Grid.isInBounds (Grid.with_cells g c'') (mkPosition j i)) eqn:B.
    + unfold Grid.clearCell. rewrite B.
      apply isInBounds_true in B. cbn in B.
      destruct (setCell_spec (Grid.with_cells g c'') j i 0 WF'')
        as (c3 & E3 & WF3 & K3); [cbn; lia | cbn; lia | ].
      cbn [pos_x pos_y]. rewrite E3. eexists. split; [reflexivity | ].
      split; [lia | ]. exists c3. split; [reflexivity | ]. split; [exact WF3 | ].
      intros x y Hx' Hy'. cbn in K3. rewrite K3. rewrite K by assumption.
      cases_Z.
    + eexists. split; [reflexivity | ]. split; [lia | ].
      exists c''. split; [reflexivity | ]. split; [exact WF'' | ].
      intros x y Hx' Hy'. rewrite K by assumption.
      apply not_true_iff_false in B. rewrite isInBounds_true in B. cbn in B.
      cases_Z.
  - lia.
  - split; [lia | ]. exists (Grid.cells g). rewrite with_cells_id.
    split; [reflexivity | ]. split; [exact WF | ].
    intros x y _ _. cases_Z.
  - exists c'. split; [exact E | ]. split; [exact WF' | exact K].
Qed.

Lemma clearRect_ok (g : Grid.t) (x0 x1 y0 y1 : Z) :
  wellFormed g -> x0 <= x1 -> y0 <= y1 ->
  exists c',
    forEach (until y0 y1) (clearRectBody x0 x1) g = Ok (Grid.with_cells g c')
    /\ wellFormed (Grid.with_cells g c')
    /\ forall x y,
         0 <= x < Grid.width g -> 0 <= y < Grid.height g ->
         Grid.cell (Grid.with_cells g c') x y
         = if (y0 <=? y) && (y <? y1) && (x0 <=? x) && (x <? x1)
           then Ok 0 else Grid.cell g x y.
Proof.
  intros WF Hx Hy.
  destruct (forEach_until
              (fun i g' =>
                 y0 <= i
                 /\ exists c',
                     g' = Grid.with_cells g c'
                     /\ wellFormed g'
                     /\ forall x y,
                         0 <= x < Grid.width g -> 0 <= y < Grid.height g ->
                         Grid.cell g' x y
                         = if (y0 <=? y) && (y <? i) && (x0 <=? x) && (x <? x1)
                           then Ok 0 else Grid.cell g x y)
              (clearRectBody x0 x1) y1)
    with (n := Z.to_nat (y1 - y0)) (lo := y0) (s := g)
    as (g' & E & _ & c' & -> & WF' & K).
  - intros i g' Hi (Hi0 & c' & -> & WF' & K).
    destruct (clearRect_row (Grid.with_cells g c') x0 x1 i WF' Hx)
      as (c2 & E2 & WF2 & K2).
    eexists. split; [exact E2 | ]. split; [lia | ].
    exists c2. split; [reflexivity | ]. split; [exact WF2 | ].
    intros x y Hx' Hy'. cbn in K2. rewrite K2 by assumption.
    rewrite K by assumption. cases_Z.
  - lia.
  - split; [lia | ]. exists (Grid.cells g). rewrite with_cells_id.
    split; [reflexivity | ]. split; [exact WF | ].
    intros x y _ _. cases_Z.
  - exists c'. split; [exact E | ]. split; [exact WF' | exact K].
Qed.

Lemma forEach_inv {A S : Type} (P : S -> Prop) (l : list A)
      (body : A -> S -> res S) (s : S) :
  P s ->
  (forall a s0, In a l -> P s0 -> exists s', body a s0 = Ok s' /\ P s') ->
  exists s', forEach l body s = Ok s' /\ P s'.
Proof.
  revert s. induction l as [ | a l IH]; intros s HP Step.
  - exists s. split; [reflexivity | exact HP].
  - cbn [forEach].
    destruct (Step a s (or_introl eq_refl) HP) as (s1 & E1 & P1).
    rewrite E1. cbn [res_bind]. apply IH; [exact P1 | ].
    intros b s0 Hb. apply Step. now right.
Qed.

Lemma sum_bounds (l : list Z) (lo hi acc : Z) :
  (forall v, In v l -> lo <= v <= hi) ->
  acc + Z.of_nat (length l) * lo <= fold_left Z.add l acc
  <= acc + Z.of_nat (length l) * hi.
Proof.
  revert acc. induction l as [ | a l IH]; intros acc H; cbn [fold_left length].
  - lia.
  - specialize (IH (acc + a) (fun v Hv => H v (or_intror Hv))).
    pose proof (H a (or_introl eq_refl)). lia.
Qed.

Lemma averageToInt_bounds (l : list Z) (hi : Z) :
  l <> [] -> (forall v, In v l -> 0 <= v <= hi) ->
  0 <= averageToInt l <= hi.
Proof.
  intros Hne H. unfold averageToInt. destruct l as [ | a l]; [congruence | ].
  set (n := Z.of_nat (length (a :: l))).
  assert (0 < n) by (subst n; cbn [length]; lia).
  pose proof (sum_bounds (a :: l) 0 hi 0 H) as B. fold n in B.
  rewrite Z.quot_div_nonneg by lia.
  split; [apply Z.div_pos; lia | ].
  apply Z.div_le_upper_bound; lia.
Qed.

Lemma rowComplete_false (row : list Z) :
  rowComplete row = false <-> exists k v, row !! k = Some v /\ v <= 0.
Proof.
  unfold rowComplete. split.
  - induction row as [ | a row IH]; cbn; [discriminate | ].
    destruct (Z.ltb_spec 0 a); cbn.
    + intros H0. destruct (IH H0) as (k & v & E & Hv). now exists (S k), v.
    + intros _. now exists 0%nat, a.
  - intros (k & v & E & Hv). apply not_true_iff_false. intros F.
    rewrite forallb_forall in F.
    assert (In v row) as Hin
        by (apply list_elem_of_In; eapply list_elem_of_lookup_2; eauto).
    specialize (F v Hin). lia.
Qed.

(** Emptying cells cannot complete a row. *)
Lemma noCompleteRow_emptied (g : Grid.t) (c' : list (list Z)) :
  wellFormed g -> wellFormed (Grid.with_cells g c') ->
  (forall x y v,
      0 <= x < Grid.width g -> 0 <= y < Grid.height g ->
      Grid.cell g x y = Ok v ->
      Grid.cell (Grid.with_cells g c') x y = Ok v
      \/ Grid.cell (Grid.with_cells g c') x y = Ok 0) ->
  noCompleteRow g -> noCompleteRow (Grid.with_cells g c').
Proof.
  intros WF WF' K NC. unfold noCompleteRow in *. rewrite Forall_lookup in *.
  intros i row' Erow'. cbn in Erow'.
  pose proof WF as (Hw & Hh & Hl & Hr). pose proof WF' as (_ & _ & Hl' & Hr').
  cbn in Hl', Hr'.
  assert (i < Z.to_nat (Grid.height g))%nat as Hi
      by (apply lookup_lt_Some in Erow'; lia).
  destruct (lookup_lt_is_Some_2 (Grid.cells g) i) as [row Erow]; [lia | ].
  specialize (NC i row Erow). apply rowComplete_false in NC as (k & v & Ek & Hv).
  assert (k < Z.to_nat (Grid.width g))%nat as Hk.
  { apply lookup_lt_Some in Ek. rewrite Forall_lookup in Hr.
    rewrite (Hr i row Erow) in Ek. lia. }
  assert (Grid.cell g (Z.of_nat k) (Z.of_nat i) = Ok v) as Ec.
  { unfold Grid.cell. rewrite (aget_ok _ _ row) by (rewrite ?Nat2Z.id; first [lia | assumption]).
    cbn. apply aget_ok; [lia | now rewrite Nat2Z.id]. }
  assert (forall u, Grid.cell (Grid.with_cells g c') (Z.of_nat k) (Z.of_nat i) = Ok u ->
                    row' !! k = Some u) as Hread.
  { intros u Hu. unfold Grid.cell in Hu. cbn [Grid.cells Grid.with_cells] in Hu.
    rewrite (aget_ok _ _ row') in Hu by (rewrite ?Nat2Z.id; first [lia | assumption]).
    cbn in Hu. apply aget_inv in Hu as [_ Hu]. now rewrite Nat2Z.id in Hu. }
  apply rowComplete_false.
  destruct (K (Z.of_nat k) (Z.of_nat i) v ltac:(lia) ltac:(lia) Ec) as [E1 | E1].
  - exists k, v. split; [now apply Hread | exact Hv].
  - exists k, 0. split; [now apply Hread | lia].
Qed.

Lemma noCompleteRow_dropRow (g : Grid.t) (y : Z) (l : list Orb.t) :
  0 < Grid.width g -> noCompleteRow g ->
  noCompleteRow (Grid.mk (Grid.width g) (Grid.height g)
                   (dropRow g y (Grid.cells g))
                   (Grid.colorMap g) (Grid.nextColorIndex g) l).
Proof.
  intros Hw NC. unfold noCompleteRow, dropRow in *; cbn.
  constructor; [now apply emptyRow_not_complete | ].
  now apply Forall_delete.
Qed.

End CellFacts.

Import CellFacts.

(** ** The lock sequence and the power-up effects *)

Module EffectFacts.

Lemma lockTetrimino_unfold (e : GameEngine.t) (w : World) (p : Tetrimino.t) :
  GameEngine.currentTetrimino e = Some p ->
  GameEngine.lockTetrimino e w
  = let* e1 :=
      match Tetrimino.powerUp p with
      | Some PowerUpType.BOMB => GameEngine.applyBombEffect e p
      | Some PowerUpType.LINE_CLEAR => GameEngine.applyLineClearEffect e p
      | _ => let* g := Grid.place (GameEngine.grid e) p in
             Ok (GameEngine.with_grid e g)
      end in
    lockTail e1 w.
Proof. intros Hp. unfold GameEngine.lockTetrimino. rewrite Hp. reflexivity. Qed.

Lemma generateRandomTetrimino_atSpawn (e : GameEngine.t) (w : World) :
  atSpawn (fst (GameEngine.generateRandomTetrimino e w)).
Proof.
  unfold GameEngine.generateRandomTetrimino.
  destruct (Random.nextInt _ w) as [i w1].
  destruct (PowerUpType.shouldGeneratePowerUp _ w1) as [[ | ] w2].
  - destruct (PowerUpType.random w2). split; reflexivity.
  - split; reflexivity.
Qed.

Lemma spawnTetrimino_ok (e : GameEngine.t) (w : World) :
  Grid.height (GameEngine.grid e) + 4 <= Int32.max_value ->
  (forall n, GameEngine.nextTetrimino e = Some n -> atSpawn n) ->
  exists e' w' c n,
    GameEngine.spawnTetrimino e w = Ok (e', w')
    /\ GameEngine.grid e' = GameEngine.grid e
    /\ GameEngine.score e' = GameEngine.score e
    /\ GameEngine.multiplier e' = GameEngine.multiplier e
    /\ GameEngine.level e' = GameEngine.level e
    /\ GameEngine.currentTetrimino e' = Some c /\ atSpawn c
    /\ GameEngine.nextTetrimino e' = Some n /\ atSpawn n.
Proof.
  intros Hh Hnext. unfold GameEngine.spawnTetrimino.
  set (cw := match GameEngine.nextTetrimino e with
             | Some n => (n, w)
             | None => GameEngine.generateRandomTetrimino e w
             end).
  assert (atSpawn (fst cw)) as Hc.
  { subst cw. destruct (GameEngine.nextTetrimino e) as [n | ] eqn:En.
    - now apply Hnext.
    - apply generateRandomTetrimino_atSpawn. }
  destruct cw as [current w1]. cbn [fst] in Hc.
  pose proof (generateRandomTetrimino_atSpawn
                (GameEngine.with_current e (Some current)) w1) as Hn.
  destruct (GameEngine.generateRandomTetrimino _ w1) as [next w2].
  cbn [fst] in Hn.
  destruct (MoveFacts.updateGhostPosition_ok
              (GameEngine.with_next (GameEngine.with_current e (Some current))
                                    (Some next)) current)
    as (q & Eq); try reflexivity.
  - destruct Hc as [-> _]. cbn. unfold Int32.min_value. lia.
  - destruct Hc as [-> _]. cbn. unfold Int32.max_value. lia.
  - exact Hh.
  - rewrite Eq. cbn [res_bind].
    destruct (negb _); eexists; eexists; exists current, next;
      (split; [reflexivity | ]); cbn; repeat split; try apply Hc; apply Hn.
Qed.

Lemma updateScore_frame (e : GameEngine.t) (n : Z) (w : World) :
  let e' := fst (GameEngine.updateScore e n w) in
  GameEngine.grid e' = GameEngine.grid e
  /\ GameEngine.nextTetrimino e' = GameEngine.nextTetrimino e
  /\ GameEngine.currentTetrimino e' = GameEngine.currentTetrimino e
  /\ GameEngine.level e' = GameEngine.level e
  /\ GameEngine.score e'
     = Int32.add (GameEngine.score e)
         (Int32.mul (GameEngine.basePoints n) (GameEngine.multiplier e)).
Proof.
  unfold GameEngine.updateScore, GameEngine.checkMultiplierExpiration.
  cbn [GameEngine.multiplierEndTime GameEngine.with_score].
  destruct (0 <? _); [ | cbn; repeat split].
  destruct (System.currentTimeMillis w) as [now w'].
  destruct (_ <? now); cbn; repeat split.
Qed.

Lemma checkLevelUp_frame (e : GameEngine.t) :
  let e' := GameEngine.checkLevelUp e in
  GameEngine.grid e' = GameEngine.grid e
  /\ GameEngine.nextTetrimino e' = GameEngine.nextTetrimino e
  /\ GameEngine.currentTetrimino e' = GameEngine.currentTetrimino e
  /\ GameEngine.score e' = GameEngine.score e
  /\ GameEngine.multiplier e' = GameEngine.multiplier e.
Proof.
  unfold GameEngine.checkLevelUp. destruct (_ <? _); cbn; repeat split.
Qed.

(** The rest of a lock on a grid without a complete row: nothing is
    cleared, no line-clear points are added, and a new piece is spawned. *)
Lemma lockTail_nothing_to_clear (e1 : GameEngine.t) (w : World) :
  wellFormed (GameEngine.grid e1) -> noCompleteRow (GameEngine.grid e1) ->
  Grid.height (GameEngine.grid e1) + 4 <= Int32.max_value ->
  (forall n, GameEngine.nextTetrimino e1 = Some n -> atSpawn n) ->
  exists e' w',
    lockTail e1 w = Ok (e', w')
    /\ spawned (GameEngine.grid e1) (GameEngine.grid e')
    /\ GameEngine.score e' = Int32.wrap32 (GameEngine.score e1)
    /\ (exists c, GameEngine.currentTetrimino e' = Some c /\ atSpawn c)
    /\ (exists n, GameEngine.nextTetrimino e' = Some n /\ atSpawn n).
Proof.
  intros WF NC Hh Hnext. unfold lockTail.
  destruct (ClearLinesFacts.clearLines_nothing_to_clear _ w WF NC)
    as (g' & w1 & E & Sp).
  rewrite E. cbn [res_bind]. cbn [Z.ltb Z.compare andb].
  destruct (ClearLinesFacts.spawned_cells _ _ Sp) as (Ec & Ew & Eh).
  pose proof (updateScore_frame (GameEngine.with_grid e1 g') 0 w1) as U.
  destruct (GameEngine.updateScore (GameEngine.with_grid e1 g') 0 w1) as [e4 w3].
  cbn [fst] in U. destruct U as (Ug & Un & Uc & Ul & Us).
  pose proof (checkLevelUp_frame e4) as (Cg & Cn & Cc & Cs & Cm).
  destruct (spawnTetrimino_ok (GameEngine.checkLevelUp e4) w3)
    as (e' & w' & c & n & Es & Sg & Ss & Sm & Sl & Sc & Hc & Sn & Hn).
  - rewrite Cg, Ug. cbn. now rewrite Eh.
  - intros n. rewrite Cn, Un. cbn. apply Hnext.
  - exists e', w'. split; [exact Es | ]. split.
    + rewrite Sg, Cg, Ug. exact Sp.
    + split; [ | split; eauto]. rewrite Ss, Cs, Us. cbn.
      unfold Int32.add. now rewrite Z.add_0_r.
Qed.

Lemma blocks_coordinates (g : Grid.t) (p : Tetrimino.t) :
  Forall (fun b => Grid.isInBounds g b = true) (Tetrimino.getBlocks p) ->
  (forall v, In v (map pos_x (Tetrimino.getBlocks p)) ->
             0 <= v <= Grid.width g - 1)
  /\ (forall v, In v (map pos_y (Tetrimino.getBlocks p)) ->
                0 <= v <= Grid.height g - 1).
Proof.
  intros B. rewrite Forall_forall in B.
  split; intros v Hv; apply in_map_iff in Hv as (b & <- & Hb);
    apply list_elem_of_In in Hb; specialize (B b Hb);
    apply isInBounds_true in B; lia.
Qed.

(** The effect of a BOMB: the cells of the 3x3 region around the truncated
    centroid are emptied, the others are as they were. *)
Lemma applyBombEffect_ok (e : GameEngine.t) (p : Tetrimino.t) :
  wellFormed (GameEngine.grid e) ->
  Grid.width (GameEngine.grid e) + 4 <= Int32.max_value ->
  Grid.height (GameEngine.grid e) + 4 <= Int32.max_value ->
  Forall (fun b => Grid.isInBounds (GameEngine.grid e) b = true)
         (Tetrimino.getBlocks p) ->
  exists c',
    GameEngine.applyBombEffect e p
    = Ok (GameEngine.with_score
            (GameEngine.with_grid e (Grid.with_cells (GameEngine.grid e) c'))
            (Int32.add (GameEngine.score e)
                       (Int32.mul 500 (GameEngine.multiplier e))))
    /\ wellFormed (Grid.with_cells (GameEngine.grid e) c')
    /\ forall x y,
         0 <= x < Grid.width (GameEngine.grid e) ->
         0 <= y < Grid.height (GameEngine.grid e) ->
         Grid.cell (Grid.with_cells (GameEngine.grid e) c') x y
         = if inBlast (averageToInt (map pos_x (Tetrimino.getBlocks p)))
                      (averageToInt (map pos_y (Tetrimino.getBlocks p))) x y
           then Ok 0 else Grid.cell (GameEngine.grid e) x y.
Proof.
  intros WF Hw Hh B.
  destruct (blocks_coordinates _ _ B) as [Bx By_].
  pose proof (ShapeFacts.getBlocks_nonempty p) as Hne.
  assert (map pos_x (Tetrimino.getBlocks p) <> []) as Hnx
      by (destruct (Tetrimino.getBlocks p); [congruence | discriminate]).
  assert (map pos_y (Tetrimino.getBlocks p) <> []) as Hny
      by (destruct (Tetrimino.getBlocks p); [congruence | discriminate]).
  pose proof (averageToInt_bounds _ _ Hnx Bx) as Cx.
  pose proof (averageToInt_bounds _ _ Hny By_) as Cy.
  unfold GameEngine.applyBombEffect.
  destruct (Tetrimino.getBlocks p) as [ | b0 bs] eqn:Eb; [congruence | ].
  set (cx := averageToInt (map pos_x (b0 :: bs))) in *.
  set (cy := averageToInt (map pos_y (b0 :: bs))) in *.
  cbv zeta.
  rewrite !Int32Facts.sub_small, !Int32Facts.add_small
    by (unfold Int32.in_range, Int32.min_value, Int32.max_value in *; lia).
  destruct (clearRect_ok (GameEngine.grid e) (cx - 1) (cx + 1 + 1)
              (cy - 1) (cy + 1 + 1) WF ltac:(lia) ltac:(lia))
    as (c' & E & WF' & K).
  unfold clearRectBody in E. rewrite E. cbn [res_bind].
  exists c'. split; [reflexivity | ]. split; [exact WF' | ].
  intros x y Hx Hy. rewrite K by assumption. unfold inBlast.
  cases_Z.
Qed.

(** The loop of [applyLineClearEffect] over rows that are all on the grid:
    each row in turn is removed, and any property of the orb list that an
    orb shift keeps is kept. *)
Lemma clearRows_ok (Q : list Orb.t -> Prop) (rows : list Z) :
  (forall y l l', In y rows -> Q l -> l' ≡ₚ map (shiftOrb y) l -> Q l') ->
  forall g : Grid.t,
    wellFormed g ->
    (forall y, In y rows -> 0 <= y < Grid.height g) ->
    Q (Grid.orbs g) ->
    exists l',
      forEach rows
        (fun y g' =>
           if (0 <=? y) && (y <? Grid.height g') then
             let* g1 := Grid.clearLine g' y in Grid.shiftLinesDown g1 y
           else Ok g')
        g
      = Ok (Grid.mk (Grid.width g) (Grid.height g)
              (fold_left (fun c y => dropRow g y c) rows (Grid.cells g))
              (Grid.colorMap g) (Grid.nextColorIndex g) l')
      /\ Q l'.
Proof.
  induction rows as [ | y rows IH]; intros HQ g WF Hin Q0.
  - exists (Grid.orbs g). split; [ | exact Q0]. cbn. now destruct g.
  - cbn [forEach fold_left].
    pose proof (Hin y (or_introl eq_refl)) as Hy.
    destruct (Z.leb_spec 0 y); [ | lia].
    destruct (Z.ltb_spec y (Grid.height g)); [ | lia]. cbn [andb].
    destruct (clear_and_shift g y WF Hy) as (l1 & E1 & P1).
    rewrite E1. cbn [res_bind].
    set (g1 := Grid.mk _ _ _ _ _ l1).
    destruct (IH (fun y0 l l' Hy0 => HQ y0 l l' (or_intror Hy0)) g1)
      as (l' & E & Q').
    + apply wellFormed_dropRow; assumption.
    + intros y0 Hy0. cbn. apply Hin. now right.
    + cbn. eapply HQ; [now left | exact Q0 | exact P1].
    + exists l'. split; [ | exact Q']. rewrite E. reflexivity.
Qed.

Lemma fold_dropRow_below (g : Grid.t) (rows : list Z) :
  forall (c : list (list Z)) (k : nat),
    (forall y, In y rows -> 0 <= y < Z.of_nat k) ->
    fold_left (fun c y => dropRow g y c) rows c !! k = c !! k.
Proof.
  induction rows as [ | y rows IH]; intros c k H; cbn [fold_left];
    [reflexivity | ].
  rewrite IH by (intros; apply H; now right).
  pose proof (H y (or_introl eq_refl)).
  unfold dropRow. rewrite lookup_cons_ne_0 by lia.
  rewrite list_lookup_delete_ge by lia. f_equal. lia.
Qed.

Lemma fold_dropRow_shape (g : Grid.t) (rows : list Z) :
  forall c : list (list Z),
    0 < Grid.width g ->
    (forall y, In y rows -> 0 <= y < Z.of_nat (length c)) ->
    Forall (fun row => length row = Z.to_nat (Grid.width g)) c ->
    Forall (fun row => rowComplete row = false) c ->
    let c' := fold_left (fun c y => dropRow g y c) rows c in
    length c' = length c
    /\ Forall (fun row => length row = Z.to_nat (Grid.width g)) c'
    /\ Forall (fun row => rowComplete row = false) c'.
Proof.
  induction rows as [ | y rows IH]; intros c Hw H L NC; cbn [fold_left];
    [repeat split; assumption | ].
  pose proof (H y (or_introl eq_refl)) as Hy.
  assert (length (dropRow g y c) = length c) as Hl.
  { unfold dropRow. cbn [length].
    rewrite length_delete by (apply lookup_lt_is_Some_2; lia). lia. }
  destruct (IH (dropRow g y c)) as (L1 & L2 & L3); try assumption.
  - intros y0 Hy0. rewrite Hl. apply H. now right.
  - unfold dropRow. constructor; [apply length_replicate | now apply Forall_delete].
  - unfold dropRow. constructor;
      [now apply emptyRow_not_complete | now apply Forall_delete].
  - cbv zeta. repeat split; try assumption. congruence.
Qed.

Lemma distinct_from_In (seen l : list Z) (y : Z) :
  In y (distinct_from seen l) -> In y l.
Proof.
  revert seen. induction l as [ | a l IH]; intros seen; cbn; [tauto | ].
  destruct (existsb (Z.eqb a) seen).
  - intros H. right. eapply IH; eauto.
  - intros [-> | H]; [now left | right; eapply IH; eauto].
Qed.

Lemma occupied_rows_on_grid (g : Grid.t) (p : Tetrimino.t) (y : Z) :
  Forall (fun b => Grid.isInBounds g b = true) (Tetrimino.getBlocks p) ->
  In y (distinct (map pos_y (Tetrimino.getBlocks p))) ->
  0 <= y < Grid.height g.
Proof.
  intros B Hy. apply distinct_from_In in Hy.
  destruct (blocks_coordinates g p B) as [_ H]. specialize (H y Hy). lia.
Qed.

(** The effect of LINE_CLEAR on a piece that lies on the grid. *)
Lemma applyLineClearEffect_ok (Q : list Orb.t -> Prop)
      (e : GameEngine.t) (p : Tetrimino.t) :
  let g := GameEngine.grid e in
  let rows := distinct (map pos_y (Tetrimino.getBlocks p)) in
  (forall y l l', In y rows -> Q l -> l' ≡ₚ map (shiftOrb y) l -> Q l') ->
  wellFormed g ->
  Forall (fun b => Grid.isInBounds g b = true) (Tetrimino.getBlocks p) ->
  Q (Grid.orbs g) ->
  exists l',
    GameEngine.applyLineClearEffect e p
    = Ok (GameEngine.with_score
            (GameEngine.with_grid e
               (Grid.mk (Grid.width g) (Grid.height g)
                  (fold_left (fun c y => dropRow g y c) rows (Grid.cells g))
                  (Grid.colorMap g) (Grid.nextColorIndex g) l'))
            (Int32.add (GameEngine.score e)
               (Int32.mul (Int32.mul (Z.of_nat (length rows)) 200)
                          (GameEngine.multiplier e))))
    /\ Q l'.
Proof.
  intros g rows HQ WF B Q0. unfold GameEngine.applyLineClearEffect.
  destruct (clearRows_ok Q rows HQ g WF) as (l' & E & Q'); [ | exact Q0 | ].
  - intros y Hy. now apply (occupied_rows_on_grid g p).
  - fold g. fold rows. rewrite E. cbn [res_bind]. exists l'. split; [reflexivity | exact Q'].
Qed.

Lemma bombInWell_ok : engineOk bombInWell.
Proof.
  unfold engineOk. cbn.
  split; [unfold wellFormed; cbn; repeat split; try lia; repeat constructor | ].
  split; [reflexivity | ]. split; [reflexivity | ].
  split; [unfold noCompleteRow; cbn; repeat constructor | ].
  split; [constructor | ].
  split.
  - intros p [= <-]. unfold pieceOk. cbn.
    split; [lia | ]. split; [unfold Int32.in_range, Int32.min_value, Int32.max_value; lia | ].
    repeat constructor.
  - intros n [= <-]. split; reflexivity.
Qed.

End EffectFacts.

Import EffectFacts.

(** C5. Locking a piece with the BOMB power-up empties exactly the cells of
    the grid in the 3x3 region around the truncated average of the block
    columns and of the block rows, leaves every other cell as it was (none
    of the blocks of the piece is placed), and adds [500 * multiplier] to
    the score. *)
Theorem bomb_lock_clears_blast_region
    (e : GameEngine.t) (w : World) (p : Tetrimino.t) :
  engineOk e ->
  GameEngine.currentTetrimino e = Some p ->
  Tetrimino.powerUp p = Some PowerUpType.BOMB ->
  exists e' w',
    GameEngine.lockTetrimino e w = Ok (e', w')
    /\ (forall x y,
           0 <= x < Grid.width (GameEngine.grid e) ->
           0 <= y < Grid.height (GameEngine.grid e) ->
           Grid.cell (GameEngine.grid e') x y
           = if inBlast (averageToInt (map pos_x (Tetrimino.getBlocks p)))
                        (averageToInt (map pos_y (Tetrimino.getBlocks p)))
                        x y
             then Ok 0 else Grid.cell (GameEngine.grid e) x y)
    /\ GameEngine.score e'
       = Int32.add (GameEngine.score e)
                   (Int32.mul 500 (GameEngine.multiplier e)).
Proof.
  intros (WF & Ew & Eh & NC & OB & Hcur & Hnext) Hp Hpu.
  destruct (Hcur p Hp) as (_ & _ & B).
  rewrite (lockTetrimino_unfold e w p Hp), Hpu.
  destruct (applyBombEffect_ok e p WF) as (c' & E & WF' & K);
    [rewrite Ew; unfold Int32.max_value; lia
    | rewrite Eh; unfold Int32.max_value; lia | exact B | ].
  rewrite E. cbn [res_bind].
  match goal with
  | |- exists e' w', lockTail ?e1 w = _ /\ _ =>
      destruct (lockTail_nothing_to_clear e1 w) as (e' & w' & El & Sp & Es & _)
  end; cbn [GameEngine.grid GameEngine.with_score GameEngine.with_grid
              GameEngine.nextTetrimino].
  - exact WF'.
  - apply noCompleteRow_emptied; [exact WF | exact WF' | | exact NC].
    intros x y v Hx Hy Ev. rewrite K by assumption.
    destruct (inBlast _ _ x y); [now right | now left].
  - cbn. rewrite Eh. unfold Int32.max_value. lia.
  - exact Hnext.
  - exists e', w'. split; [exact El | ]. split.
    + intros x y Hx Hy. rewrite <- K by assumption.
      destruct (ClearLinesFacts.spawned_cells _ _ Sp) as (Ec & _).
      cbn in Ec. unfold Grid.cell. cbn [Grid.cells Grid.with_cells].
      now rewrite Ec.
    + rewrite Es. cbn. apply Int32Facts.wrap32_id.
      apply Int32Facts.wrap32_in_range.
Qed.

Lemma bomb_lock_clears_blast_region_witness :
  exists e' w',
    GameEngine.lockTetrimino bombInWell (worldOf [] []) = Ok (e', w')
    /\ (forall x y,
           0 <= x < 10 -> 0 <= y < 20 ->
           Grid.cell (GameEngine.grid e') x y
           = if (9 <=? y) && (y <=? 11) && (4 <=? x) && (x <=? 6)
             then Ok 0 else Grid.cell wellGrid x y)
    /\ GameEngine.score e' = 500.
Proof.
  exact (bomb_lock_clears_blast_region bombInWell (worldOf [] [])
           (Tetrimino.mk TetriminoType.O (mkPosition 5 10) 0
                         (Some PowerUpType.BOMB))
           bombInWell_ok eq_refl eq_refl).
Defined.

(** C6, as the code has it. Locking a piece with the LINE_CLEAR power-up
    removes every distinct row the piece occupies, in the order of the
    rows: the rows above a removed row move down by one and an empty row
    enters at the top, the rows below the lowest occupied row stay as they
    are; none of the blocks of the piece is placed, and
    [200 * rows * multiplier] is added to the score. *)
Theorem line_clear_lock_removes_rows
    (e : GameEngine.t) (w : World) (p : Tetrimino.t) :
  engineOk e ->
  GameEngine.currentTetrimino e = Some p ->
  Tetrimino.powerUp p = Some PowerUpType.LINE_CLEAR ->
  exists e' w',
    GameEngine.lockTetrimino e w = Ok (e', w')
    /\ (forall y, In y (distinct (map pos_y (Tetrimino.getBlocks p))) ->
                  0 <= y < Grid.height (GameEngine.grid e))
    /\ Grid.cells (GameEngine.grid e')
       = fold_left (fun c y => dropRow (GameEngine.grid e) y c)
                   (distinct (map pos_y (Tetrimino.getBlocks p)))
                   (Grid.cells (GameEngine.grid e))
    /\ (forall k : nat,
           (forall y, In y (distinct (map pos_y (Tetrimino.getBlocks p))) ->
                      y < Z.of_nat k) ->
           Grid.cells (GameEngine.grid e') !! k
           = Grid.cells (GameEngine.grid e) !! k)
    /\ GameEngine.score e'
       = Int32.add (GameEngine.score e)
           (Int32.mul
              (Int32.mul
                 (Z.of_nat
                    (length (distinct (map pos_y (Tetrimino.getBlocks p)))))
                 200)
              (GameEngine.multiplier e)).
Proof.
  intros (WF & Ew & Eh & NC & OB & Hcur & Hnext) Hp Hpu.
  destruct (Hcur p Hp) as (_ & _ & B).
  pose proof (occupied_rows_on_grid (GameEngine.grid e) p) as Hrows.
  rewrite (lockTetrimino_unfold e w p Hp), Hpu.
  destruct (applyLineClearEffect_ok (fun _ => True) e p) as (l' & E & _);
    try (intros; exact I); [exact WF | exact B | ].
  rewrite E. cbn [res_bind].
  pose proof WF as (Hw & Hh & Hl & Hr).
  destruct (fold_dropRow_shape (GameEngine.grid e)
              (distinct (map pos_y (Tetrimino.getBlocks p)))
              (Grid.cells (GameEngine.grid e)) Hw) as (L1 & L2 & L3);
    [intros y Hy; specialize (Hrows y B Hy); lia | exact Hr | exact NC | ].
  match goal with
  | |- exists e' w', lockTail ?e1 w = _ /\ _ =>
      destruct (lockTail_nothing_to_clear e1 w) as (e' & w' & El & Sp & Es & _)
  end; cbn [GameEngine.grid GameEngine.with_score GameEngine.with_grid
              GameEngine.nextTetrimino].
  - unfold wellFormed; cbn. repeat split; try assumption. congruence.
  - exact L3.
  - cbn. rewrite Eh. unfold Int32.max_value. lia.
  - exact Hnext.
  - destruct (ClearLinesFacts.spawned_cells _ _ Sp) as (Ec & _). cbn in Ec.
    exists e', w'. split; [exact El | ].
    split; [intros y Hy; now apply Hrows | ].
    split; [exact Ec | ]. split.
    + intros k Hk. rewrite Ec. apply fold_dropRow_below.
      intros y Hy. specialize (Hrows y B Hy). specialize (Hk y Hy). lia.
    + rewrite Es. cbn. apply Int32Facts.wrap32_id.
      apply Int32Facts.wrap32_in_range.
Qed.

(** ** The states of a session *)

Module EngineFacts.

(** [place] writes cells only: the dimensions and the orbs stay. *)
Lemma place_ok (g : Grid.t) (p : Tetrimino.t) :
  wellFormed g ->
  exists g',
    Grid.place g p = Ok g'
    /\ wellFormed g'
    /\ Grid.width g' = Grid.width g /\ Grid.height g' = Grid.height g
    /\ Grid.orbs g' = Grid.orbs g.
Proof.
  intros WF. unfold Grid.place.
  destruct (Grid.getColorIndex g (Tetrimino.color p)) as [colorIndex g1] eqn:Ei.
  assert (wellFormed g1 /\ Grid.width g1 = Grid.width g
          /\ Grid.height g1 = Grid.height g /\ Grid.orbs g1 = Grid.orbs g) as H1.
  { unfold Grid.getColorIndex in Ei.
    destruct (find _ _); injection Ei as _ <-; repeat split; try apply WF. }
  apply forEach_inv
    with (P := fun g' => wellFormed g' /\ Grid.width g' = Grid.width g
                         /\ Grid.height g' = Grid.height g
                         /\ Grid.orbs g' = Grid.orbs g); [exact H1 | ].
  intros b g' _ (WF' & Ew & Eh & Eo).
  destruct (Grid.isInBounds g' b) eqn:B.
  - apply isInBounds_true in B.
    destruct (setCell_spec g' (pos_x b) (pos_y b) colorIndex WF')
      as (c' & E & WF2 & _); [lia | lia | ].
    rewrite E. eexists. split; [reflexivity | ].
    split; [exact WF2 | ]. cbn. split; [exact Ew | ]. split; [exact Eh | exact Eo].
  - exists g'. split; [reflexivity | ]. split; [exact WF' | ].
    split; [exact Ew | ]. split; [exact Eh | exact Eo].
Qed.

Lemma spawnCandidates_spec (g : Grid.t) (p : Position) :
  In p (Grid.spawnCandidates g) ->
  0 <= pos_x p < Grid.width g /\ 4 <= pos_y p < Grid.height g
  /\ Grid.isEmpty g p = true /\ Grid.isOrbAt g p = false.
Proof.
  unfold Grid.spawnCandidates. rewrite in_flat_map.
  intros (y & Hy & Hp). apply in_until in Hy.
  rewrite in_flat_map in Hp. destruct Hp as (x & Hx & Hp).
  apply in_until in Hx. cbv zeta in Hp.
  destruct (Grid.isEmpty g (mkPosition x y)) eqn:E1; [ | destruct Hp].
  destruct (Grid.isOrbAt g (mkPosition x y)) eqn:E2; [destruct Hp | ].
  destruct Hp as [<- | []]. cbn. repeat split; try lia; assumption.
Qed.

Lemma orbsBelowTop_shift (g : Grid.t) (y : Z) (l l' : list Orb.t) :
  0 <= y < Grid.height g -> Grid.height g + 4 <= Int32.max_value ->
  Forall (fun o => 0 <= pos_x (Orb.position o) < Grid.width g
                   /\ 4 <= pos_y (Orb.position o) < Grid.height g) l ->
  l' ≡ₚ map (shiftOrb y) l ->
  Forall (fun o => 0 <= pos_x (Orb.position o) < Grid.width g
                   /\ 4 <= pos_y (Orb.position o) < Grid.height g) l'.
Proof.
  intros Hy Hh F P. rewrite P. apply Forall_map.
  eapply Forall_impl; [exact F | ]. intros o (Hx & Ho). cbn beta.
  unfold shiftOrb. destruct (Z.ltb_spec (pos_y (Orb.position o)) y);
    [ | split; assumption].
  cbn. rewrite Int32Facts.add_small
    by (unfold Int32.in_range, Int32.min_value, Int32.max_value in *; lia).
  lia.
Qed.

Lemma atSpawn_pieceOk (g : Grid.t) (p : Tetrimino.t) :
  Grid.width g = 10 -> Grid.height g = 20 -> atSpawn p -> pieceOk g p.
Proof.
  intros Ew Eh [Epos Erot]. destruct p as [ty pos rot pu]. cbn in Epos, Erot.
  subst pos rot. unfold pieceOk; cbn [Tetrimino.position pos_x pos_y].
  split; [lia | ].
  split; [unfold Int32.in_range, Int32.min_value, Int32.max_value; lia | ].
  assert (forall b, In b (Tetrimino.getBlocks (Tetrimino.mk ty (mkPosition 4 0) 0 pu)) ->
                    Grid.isInBounds g b = true) as H.
  { intros b Hb. apply isInBounds_true. rewrite Ew, Eh.
    destruct ty; vm_compute in Hb;
      repeat (destruct Hb as [<- | Hb]; [cbn; lia | ]); destruct Hb. }
  apply Forall_forall. intros b Hb. apply H. now apply list_elem_of_In.
Qed.

(** The rest of a lock on any grid of the engine: the scan returns, no row
    is complete afterwards, the orbs stay below the top four rows, and a
    new piece is spawned. *)
Lemma lockTail_ok (e1 : GameEngine.t) (w : World) :
  wellFormed (GameEngine.grid e1) ->
  Grid.width (GameEngine.grid e1) = 10 ->
  Grid.height (GameEngine.grid e1) = 20 ->
  orbsBelowTop (GameEngine.grid e1) ->
  (forall n, GameEngine.nextTetrimino e1 = Some n -> atSpawn n) ->
  exists e' w', lockTail e1 w = Ok (e', w') /\ engineOk e'.
Proof.
  intros WF Ew Eh OB Hnext. unfold lockTail.
  destruct (clearLines_inv
              (fun _ s =>
                 Grid.width (Grid.sc_grid s) = 10
                 /\ Grid.height (Grid.sc_grid s) = 20
                 /\ orbsBelowTop (Grid.sc_grid s)))
    with (g := GameEngine.grid e1) (w := w)
    as (s & g' & w1 & E & WFs & NC & (Ws & Hs & Os) & Sp).
  - intros; assumption.
  - intros n s s' row (Ws & Hs & Os) WFs Erow _ (l' & Pl & ->).
    cbn. repeat split; try assumption.
    unfold orbsBelowTop in *. cbn [Grid.width Grid.height Grid.orbs].
    apply lookup_lt_Some in Erow. destruct WFs as (_ & _ & Hl & _).
    eapply orbsBelowTop_shift; [ | | exact Os | exact Pl].
    + lia.
    + rewrite Hs. unfold Int32.max_value. lia.
  - exact WF.
  - cbn. now repeat split.
  - rewrite E. cbn [res_bind].
    set (g2 := Grid.with_orbs _ _) in Sp.
    assert (orbsBelowTop g') as OB'.
    { assert (orbsBelowTop g2) as O2.
      { unfold orbsBelowTop in *. cbn. unfold Grid.removeAll.
        apply Forall_forall. intros o Ho. apply list_elem_of_In in Ho.
        apply List.filter_In in Ho as [Ho _].
        rewrite Forall_forall in Os. apply Os. now apply list_elem_of_In. }
      destruct Sp as [-> | (orb & -> & Hin & _)]; [exact O2 | ].
      unfold orbsBelowTop in *. cbn. apply Forall_app. split; [exact O2 | ].
      constructor; [ | constructor].
      apply spawnCandidates_spec in Hin. cbn in Hin. tauto. }
    destruct (ClearLinesFacts.spawned_cells _ _ Sp) as (Ec & Ew' & Eh').
    cbn in Ec, Ew', Eh'.
    set (e2 := GameEngine.with_grid e1 g').
    set (r3 := if (0 <? Grid.sc_linesCleared s) && (1 <? Grid.sc_totalMultiplier s)
               then GameEngine.applyMultiplier e2 (Grid.sc_totalMultiplier s) w1
               else (e2, w1)).
    assert (GameEngine.grid (fst r3) = g'
            /\ GameEngine.nextTetrimino (fst r3) = GameEngine.nextTetrimino e1) as [G3 N3].
    { subst r3. destruct (_ && _); [ | now split].
      unfold GameEngine.applyMultiplier.
      destruct (System.currentTimeMillis w1). now split. }
    destruct r3 as [e3 w2]. cbn [fst] in G3, N3.
    pose proof (updateScore_frame e3 (Grid.sc_linesCleared s) w2) as U.
    destruct (GameEngine.updateScore e3 (Grid.sc_linesCleared s) w2) as [e4 w3].
    cbn [fst] in U. destruct U as (Ug & Un & Uc & Ul & Us).
    pose proof (checkLevelUp_frame e4) as (Cg & Cn & Cc & Cs & Cm).
    destruct (spawnTetrimino_ok (GameEngine.checkLevelUp e4) w3)
      as (e' & w' & c & n & Es & Sg & Ss & Sm & Sl & Sc & Hc & Sn & Hn).
    + rewrite Cg, Ug, G3, Eh', Hs. unfold Int32.max_value. lia.
    + intros n. rewrite Cn, Un, N3. apply Hnext.
    + exists e', w'. split; [exact Es | ].
      assert (GameEngine.grid e' = g') as Eg by (rewrite Sg, Cg, Ug; exact G3).
      unfold engineOk. rewrite Eg.
      assert (wellFormed g') as WF'
          by (unfold wellFormed in *; rewrite Ec, Ew', Eh'; exact WFs).
      split; [exact WF' | ]. split; [congruence | ]. split; [congruence | ].
      split; [unfold noCompleteRow in *; now rewrite Ec | ].
      split; [exact OB' | ]. split.
      * intros q Hq. rewrite Sc in Hq. injection Hq as <-.
        apply atSpawn_pieceOk; [congruence | congruence | exact Hc].
      * intros q Hq. rewrite Sn in Hq. now injection Hq as <-.
Qed.

Lemma lockTetrimino_ok (e : GameEngine.t) (w : World) :
  engineOk e ->
  exists e' w', GameEngine.lockTetrimino e w = Ok (e', w') /\ engineOk e'.
Proof.
  intros OK. pose proof OK as (WF & Ew & Eh & NC & OB & Hcur & Hnext).
  destruct (GameEngine.currentTetrimino e) as [p | ] eqn:Hp.
  2:{ exists e, w. unfold GameEngine.lockTetrimino. rewrite Hp. now split. }
  destruct (Hcur p eq_refl) as (_ & _ & B).
  rewrite (lockTetrimino_unfold e w p Hp).
  assert (Grid.height (GameEngine.grid e) + 4 <= Int32.max_value) as Hmax
      by (rewrite Eh; unfold Int32.max_value; lia).
  assert (exists e1,
             match Tetrimino.powerUp p with
             | Some PowerUpType.BOMB => GameEngine.applyBombEffect e p
             | Some PowerUpType.LINE_CLEAR =>
                 GameEngine.applyLineClearEffect e p
             | _ => let* g := Grid.place (GameEngine.grid e) p in
                    Ok (GameEngine.with_grid e g)
             end = Ok e1
             /\ wellFormed (GameEngine.grid e1)
             /\ Grid.width (GameEngine.grid e1) = 10
             /\ Grid.height (GameEngine.grid e1) = 20
             /\ orbsBelowTop (GameEngine.grid e1)
             /\ GameEngine.nextTetrimino e1 = GameEngine.nextTetrimino e)
    as (e1 & E1 & WF1 & W1 & H1 & O1 & N1).
  { assert (exists e1,
               (let* g := Grid.place (GameEngine.grid e) p in
                Ok (GameEngine.with_grid e g)) = Ok e1
               /\ wellFormed (GameEngine.grid e1)
               /\ Grid.width (GameEngine.grid e1) = 10
               /\ Grid.height (GameEngine.grid e1) = 20
               /\ orbsBelowTop (GameEngine.grid e1)
               /\ GameEngine.nextTetrimino e1 = GameEngine.nextTetrimino e)
      as Hplace.
    { destruct (place_ok (GameEngine.grid e) p WF) as (g' & E & WF' & W' & H' & O').
      rewrite E. cbn [res_bind]. eexists. split; [reflexivity | ]. cbn.
      split; [exact WF' | ]. split; [congruence | ]. split; [congruence | ].
      split; [ | reflexivity].
      unfold orbsBelowTop in *. now rewrite O', W', H'. }
    destruct (Tetrimino.powerUp p) as [[ | | ] | ]; try exact Hplace.
    - destruct (applyBombEffect_ok e p WF) as (c' & E & WF' & _);
        [rewrite Ew; unfold Int32.max_value; lia | exact Hmax | exact B | ].
      rewrite E. eexists. split; [reflexivity | ]. cbn.
      split; [exact WF' | ]. repeat split; assumption.
    - destruct (applyLineClearEffect_ok
                  (Forall (fun o => 0 <= pos_x (Orb.position o)
                                    < Grid.width (GameEngine.grid e)
                                    /\ 4 <= pos_y (Orb.position o)
                                       < Grid.height (GameEngine.grid e)))
                  e p) as (l' & E & Q'); try assumption.
      + intros y l l' Hy Ql Pl.
        eapply orbsBelowTop_shift; [ | exact Hmax | exact Ql | exact Pl].
        now apply (occupied_rows_on_grid _ p).
      + rewrite E. eexists. split; [reflexivity | ]. cbn.
        pose proof WF as (Hw & Hh & Hl & Hr).
        destruct (fold_dropRow_shape (GameEngine.grid e)
                    (distinct (map pos_y (Tetrimino.getBlocks p)))
                    (Grid.cells (GameEngine.grid e)) Hw) as (L1 & L2 & L3);
          [ | exact Hr | exact NC | ].
        * intros y Hy. pose proof (occupied_rows_on_grid _ p y B Hy). lia.
        * split; [unfold wellFormed; cbn; repeat split; try assumption; congruence | ].
          repeat split; assumption. }
  rewrite E1. cbn [res_bind]. apply lockTail_ok; try assumption.
  intros n. rewrite N1. apply Hnext.
Qed.

Lemma valid_pieceOk (g : Grid.t) (p : Tetrimino.t) :
  Grid.height g + 4 <= Int32.max_value ->
  0 <= pos_y (Tetrimino.position p) <= Grid.height g ->
  Int32.in_range (pos_x (Tetrimino.position p)) ->
  GameEngine.isValidMove g p = true -> pieceOk g p.
Proof.
  intros Hh Hy Hx V. split; [exact Hy | ]. split; [exact Hx | ].
  apply Forall_forall. intros b Hb. apply list_elem_of_In in Hb.
  destruct (DescentFacts.isValidMove_blocks g p b V Hb) as [By_ Bx].
  apply isInBounds_true. split; [exact Bx | ]. split; [ | exact By_].
  destruct (ShapeFacts.getBlocks_four p) as (d1 & d2 & d3 & d4 & E & F).
  rewrite E in Hb. apply in_map_iff in Hb as (d & <- & Hd).
  rewrite Forall_forall in F. apply list_elem_of_In in Hd.
  destruct (F d Hd) as [_ Fy]. unfold blockAt; cbn.
  rewrite Int32Facts.add_small
    by (unfold Int32.in_range, Int32.min_value, Int32.max_value in *; lia).
  lia.
Qed.

Lemma moveDown_pieceOk (g : Grid.t) (p : Tetrimino.t) :
  Grid.height g + 4 <= Int32.max_value ->
  pieceOk g p ->
  GameEngine.isValidMove g (Tetrimino.moveDown p) = true ->
  pieceOk g (Tetrimino.moveDown p).
Proof.
  intros Hh (Hy & Hx & _) V.
  assert (pos_y (Tetrimino.position (Tetrimino.moveDown p))
          = pos_y (Tetrimino.position p) + 1) as Ey
      by (apply DescentFacts.moveDown_y; unfold Int32.min_value; lia).
  apply valid_pieceOk; try assumption.
  rewrite Ey. split; [lia | ].
  pose proof (DescentFacts.isValidMove_anchor g (Tetrimino.moveDown p)) as A.
  rewrite Ey in A. specialize (A ltac:(unfold Int32.min_value; lia) ltac:(lia) V).
  lia.
Qed.

Lemma descend_pieceOk (g : Grid.t) (n : nat) :
  Grid.height g + 4 <= Int32.max_value ->
  forall p p',
    pieceOk g p -> GameEngine.descend n g p = Ok p' -> pieceOk g p'.
Proof.
  intros Hh. induction n as [ | n IH]; intros p p' OK E; [discriminate | ].
  cbn [GameEngine.descend] in E.
  destruct (GameEngine.isValidMove g (Tetrimino.moveDown p)) eqn:V.
  - eapply IH; [ | exact E]. now apply moveDown_pieceOk.
  - now injection E as <-.
Qed.

Lemma reset_ok (g : Grid.t) :
  wellFormed g ->
  exists c',
    Grid.reset g = Ok (Grid.mk (Grid.width g) (Grid.height g) c' [] 1 [])
    /\ wellFormed (Grid.mk (Grid.width g) (Grid.height g) c' [] 1 [])
    /\ Forall (fun row => row = emptyRow g) c'.
Proof.
  intros WF. unfold Grid.reset.
  destruct (forEach_until
              (fun i g' =>
                 0 <= i <= Grid.height g
                 /\ exists c',
                     g' = Grid.with_cells g c' /\ wellFormed g'
                     /\ forall k row, (k < Z.to_nat i)%nat ->
                                      c' !! k = Some row -> row = emptyRow g)
              (fun y g' =>
                 forEach (until 0 (Grid.width g'))
                         (fun x g'' => Grid.setCell g'' x y 0) g')
              (Grid.height g))
    with (n := Z.to_nat (Grid.height g)) (lo := 0) (s := g)
    as (g' & E & _ & c' & -> & WF' & K).
  - intros i g' Hi (Hi0 & c' & -> & WF' & K).
    change (forEach (until 0 (Grid.width (Grid.with_cells g c')))
                    (fun x g'' => Grid.setCell g'' x i 0) (Grid.with_cells g c'))
      with (Grid.clearLine (Grid.with_cells g c') i).
    rewrite clearLine_ok by (first [exact WF' | cbn; lia]).
    eexists. split; [reflexivity | ]. split; [lia | ].
    eexists. split; [reflexivity | ]. cbn [Grid.cells Grid.with_cells].
    pose proof WF' as (_ & _ & Hl & Hr). cbn in Hl, Hr.
    split.
    + apply (wellFormed_with_cells (Grid.with_cells g c')); [exact WF' | | ].
      * cbn. apply length_insert.
      * cbn. apply Forall_insert; [exact Hr | ]. apply length_replicate.
    + intros k row Hk Ek.
      destruct (decide (k = Z.to_nat i)) as [-> | Hne].
      * rewrite list_lookup_insert_eq in Ek by lia. now injection Ek as <-.
      * rewrite list_lookup_insert_ne in Ek by lia. apply (K k); [lia | exact Ek].
  - destruct WF as (_ & Hh & _). lia.
  - destruct WF as (Hw & Hh & Hl & Hr). split; [lia | ].
    exists (Grid.cells g). rewrite with_cells_id. split; [reflexivity | ].
    split; [now repeat split | ]. intros k row Hk. cbn in Hk. lia.
  - rewrite E. cbn [res_bind]. exists c'. split; [reflexivity | ].
    split; [exact WF' | ].
    apply Forall_lookup. intros k row Ek. apply (K k); [ | exact Ek].
    apply lookup_lt_Some in Ek. destruct WF' as (_ & _ & Hl & _). cbn in Hl. lia.
Qed.

Lemma startGame_ok (e : GameEngine.t) (w : World) :
  engineOk e ->
  exists e' w', GameEngine.startGame e w = Ok (e', w') /\ engineOk e'
                /\ GameEngine.score e' = 0 /\ GameEngine.level e' = 1.
Proof.
  intros (WF & Ew & Eh & NC & OB & Hcur & Hnext).
  unfold GameEngine.startGame.
  destruct (reset_ok _ WF) as (c' & E & WF' & Z0). rewrite E. cbn [res_bind].
  match goal with
  | |- exists e' w', (let* _ := GameEngine.spawnTetrimino ?e1 w in _) = _ /\ _ =>
      destruct (spawnTetrimino_ok e1 w)
      as (e2 & w' & c & n & Es & Sg & Ss & Sm & Sl & Sc & Hc & Sn & Hn)
  end.
  - cbn. rewrite Eh. unfold Int32.max_value. lia.
  - exact Hnext.
  - rewrite Es. cbn [res_bind]. eexists. eexists. split; [reflexivity | ].
    cbn [GameEngine.score GameEngine.level GameEngine.with_gameState].
    split; [ | split; [rewrite Ss | rewrite Sl]; reflexivity].
    unfold engineOk. cbn [GameEngine.grid GameEngine.with_gameState
                            GameEngine.currentTetrimino GameEngine.nextTetrimino].
    rewrite Sg. cbn [GameEngine.grid Grid.width Grid.height].
    split; [exact WF' | ]. split; [exact Ew | ]. split; [exact Eh | ].
    split.
    { unfold noCompleteRow. cbn. eapply Forall_impl; [exact Z0 | ].
      intros row ->. apply emptyRow_not_complete. apply WF. }
    split; [constructor | ]. split.
    + intros q Hq. rewrite Sc in Hq. injection Hq as <-.
      now apply atSpawn_pieceOk.
    + intros q Hq. rewrite Sn in Hq. now injection Hq as <-.
Qed.

Lemma engineOk_with_current (e : GameEngine.t) (p : Tetrimino.t) :
  engineOk e -> pieceOk (GameEngine.grid e) p ->
  engineOk (GameEngine.with_current e (Some p)).
Proof.
  intros (WF & Ew & Eh & NC & OB & Hcur & Hnext) Hp.
  unfold engineOk; cbn. repeat (split; [assumption | ]).
  split; [ | exact Hnext]. intros q [= <-]. exact Hp.
Qed.

Lemma engineOk_with_ghost (e : GameEngine.t) (q : option Position) :
  engineOk e -> engineOk (GameEngine.with_ghost e q).
Proof. intros OK. exact OK. Qed.

Lemma tryMove_ok (f : Tetrimino.t -> Tetrimino.t) (e : GameEngine.t) :
  (forall p, pos_y (Tetrimino.position (f p)) = pos_y (Tetrimino.position p)
             /\ Int32.in_range (pos_x (Tetrimino.position (f p)))
                \/ f p = Tetrimino.rotate p) ->
  engineOk e ->
  exists e', GameEngine.tryMove f e = Ok e' /\ engineOk e'.
Proof.
  intros Hf OK. pose proof OK as (WF & Ew & Eh & NC & OB & Hcur & Hnext).
  unfold GameEngine.tryMove.
  destruct (GameEngine.currentTetrimino e) as [p | ] eqn:Hp;
    [ | exists e; now split].
  destruct (GameEngine.isValidMove (GameEngine.grid e) (f p)) eqn:V;
    [ | exists e; now split].
  assert (Grid.height (GameEngine.grid e) + 4 <= Int32.max_value) as Hmax
      by (rewrite Eh; unfold Int32.max_value; lia).
  destruct (Hcur p eq_refl) as (Hy & Hx & _).
  assert (pieceOk (GameEngine.grid e) (f p)) as OKp.
  { apply valid_pieceOk; try assumption.
    - destruct (Hf p) as [[-> _] | ->]; [exact Hy | exact Hy].
    - destruct (Hf p) as [[_ H] | ->]; [exact H | exact Hx]. }
  destruct (MoveFacts.updateGhostPosition_ok
              (GameEngine.with_current e (Some (f p))) (f p))
    as (q & Eq); try reflexivity; try exact Hmax.
  - destruct OKp as (H & _). unfold Int32.min_value. lia.
  - destruct OKp as (H & _). cbn in Hmax. lia.
  - rewrite Eq. eexists. split; [reflexivity | ].
    apply engineOk_with_ghost. now apply engineOk_with_current.
Qed.

Lemma run_ok (c : GameEngine.command) (e : GameEngine.t) (w : World) :
  engineOk e ->
  exists e' w', GameEngine.run c e w = Ok (e', w') /\ engineOk e'.
Proof.
  intros OK. pose proof OK as (WF & Ew & Eh & NC & OB & Hcur & Hnext).
  assert (Grid.height (GameEngine.grid e) + 4 <= Int32.max_value) as Hmax
      by (rewrite Eh; unfold Int32.max_value; lia).
  destruct c; cbn [GameEngine.run].
  - destruct (startGame_ok e w OK) as (e' & w' & E & OK' & _). eauto.
  - exists (GameEngine.pauseGame e), w. split; [reflexivity | ].
    unfold GameEngine.pauseGame. destruct (GameEngine.gameState e); exact OK.
  - exists (GameEngine.resumeGame e), w. split; [reflexivity | ].
    unfold GameEngine.resumeGame. destruct (GameEngine.gameState e); exact OK.
  - destruct (tryMove_ok Tetrimino.moveLeft e) as (e' & E & OK'); [ | exact OK | ].
    + intros p. left. split; [reflexivity | apply Int32Facts.wrap32_in_range].
    + unfold GameEngine.moveLeft. rewrite E. eauto.
  - destruct (tryMove_ok Tetrimino.moveRight e) as (e' & E & OK'); [ | exact OK | ].
    + intros p. left. split; [reflexivity | apply Int32Facts.wrap32_in_range].
    + unfold GameEngine.moveRight. rewrite E. eauto.
  - unfold GameEngine.moveDown.
    destruct (GameEngine.currentTetrimino e) as [p | ] eqn:Hp.
    + destruct (GameEngine.isValidMove _ (Tetrimino.moveDown p)) eqn:V.
      * cbn [res_bind]. eexists. eexists. split; [reflexivity | ].
        apply engineOk_with_current; [exact OK | ].
        apply moveDown_pieceOk; [exact Hmax | now apply Hcur | exact V].
      * destruct (lockTetrimino_ok e w OK) as (e' & w' & E & OK').
        rewrite E. cbn [res_bind]. eauto.
    + cbn [res_bind]. eauto.
  - destruct (tryMove_ok Tetrimino.rotate e) as (e' & E & OK'); [ | exact OK | ].
    + intros p. now right.
    + unfold GameEngine.rotate. rewrite E. eauto.
  - unfold GameEngine.hardDrop.
    destruct (GameEngine.currentTetrimino e) as [p | ] eqn:Hp; [ | eauto].
    destruct (Hcur p eq_refl) as (Hy & Hx & B).
    destruct (DescentFacts.descend_stops
                (GameEngine.descend_fuel (GameEngine.grid e) p)
                (GameEngine.grid e) p) as (k & p' & D & _);
      [unfold Int32.min_value; lia | lia | exact Hmax
      | unfold GameEngine.descend_fuel; lia | ].
    rewrite D. cbn [res_bind].
    apply lockTetrimino_ok. apply engineOk_with_current; [exact OK | ].
    eapply descend_pieceOk; [exact Hmax | | exact D]. now apply Hcur.
Qed.

Lemma create_engineOk : engineOk GameEngine.create.
Proof.
  unfold engineOk, GameEngine.create. cbn.
  split; [unfold wellFormed; cbn; repeat split; try lia; repeat constructor | ].
  split; [reflexivity | ]. split; [reflexivity | ].
  split; [unfold noCompleteRow; cbn; repeat constructor | ].
  split; [constructor | ]. split; intros ? [=].
Qed.

(** Every state of a session satisfies [engineOk]. *)
Lemma reachable_engineOk (e : GameEngine.t) :
  GameEngine.reachable e -> engineOk e.
Proof.
  induction 1 as [ | c e e' w w' _ IH E].
  - apply create_engineOk.
  - destruct (run_ok c e w IH) as (e2 & w2 & E2 & OK2).
    rewrite E in E2. now injection E2 as <- <-.
Qed.

(** Every command returns in every state of a session: no array access is
    out of bounds and no loop runs out of fuel. *)
Lemma reachable_run_returns (c : GameEngine.command) (e : GameEngine.t) (w : World) :
  GameEngine.reachable e -> exists e' w', GameEngine.run c e w = Ok (e', w').
Proof.
  intros R. destruct (run_ok c e w (reachable_engineOk e R)) as (e' & w' & E & _).
  eauto.
Qed.

End EngineFacts.

Import EngineFacts.

(** ** Two sessions *)

Module SessionFacts.

Lemma runAll_reachable (cs : list GameEngine.command) :
  forall e w e' w',
    GameEngine.reachable e -> GameEngine.runAll cs e w = Ok (e', w') ->
    GameEngine.reachable e'.
Proof.
  induction cs as [ | c cs IH]; intros e w e' w' R E; cbn in E.
  - now injection E as <- _.
  - destruct (GameEngine.run c e w) as [[e1 w1] | ] eqn:E1; [ | discriminate].
    cbn in E. eapply IH; [ | exact E].
    eapply GameEngine.reachable_run; eauto.
Qed.

Lemma ledgeState_run :
  GameEngine.runAll twoDrops GameEngine.create (worldOf ledgeRandoms [])
  = Ok (ledgeState, ledgeWorld).
Proof. vm_compute. reflexivity. Qed.

Lemma ledgeState_reachable : GameEngine.reachable ledgeState.
Proof.
  eapply runAll_reachable; [apply GameEngine.reachable_create | ].
  apply ledgeState_run.
Qed.

Lemma ledgeResting_ok : engineOk ledgeResting.
Proof.
  apply engineOk_with_current.
  - apply reachable_engineOk, ledgeState_reachable.
  - unfold pieceOk. cbn.
    split; [lia | ].
    split; [unfold Int32.in_range, Int32.min_value, Int32.max_value; lia | ].
    repeat constructor.
Qed.

(** The hard drop of the session brings the piece to rest in row 17. *)
Lemma ledge_hardDrop :
  GameEngine.descend
    (GameEngine.descend_fuel (GameEngine.grid ledgeState)
       (Tetrimino.spawn TetriminoType.I (Some PowerUpType.LINE_CLEAR)))
    (GameEngine.grid ledgeState)
    (Tetrimino.spawn TetriminoType.I (Some PowerUpType.LINE_CLEAR))
  = Ok ledgePiece
  /\ GameEngine.hardDrop ledgeState ledgeWorld
     = GameEngine.lockTetrimino ledgeResting ledgeWorld
  /\ distinct (map pos_y (Tetrimino.getBlocks ledgePiece)) = [17].
Proof. repeat split; vm_compute; reflexivity. Qed.

End SessionFacts.

Import SessionFacts.

Lemma line_clear_lock_removes_rows_witness :
  exists e' w',
    GameEngine.lockTetrimino ledgeResting ledgeWorld = Ok (e', w')
    /\ Grid.cells (GameEngine.grid e')
       = dropRow (GameEngine.grid ledgeResting) 17
                 (Grid.cells (GameEngine.grid ledgeResting))
    /\ GameEngine.score e' = 200.
Proof.
  destruct (line_clear_lock_removes_rows ledgeResting ledgeWorld ledgePiece
              ledgeResting_ok eq_refl eq_refl)
    as (e' & w' & E & _ & Ec & _ & Es).
  exists e', w'. split; [exact E | ]. split; [exact Ec | exact Es].
Defined.

(** C6, the claim as stated fails. In a state of a session a LINE_CLEAR
    piece is locked in row 17. The rows below it, 18 and 19, stay where
    they are: row 19 is not what row 18 was. It is the rows above, 16 and
    15, that move down by one. *)
Lemma line_clear_rows_below_stay :
  GameEngine.reachable ledgeState
  /\ GameEngine.hardDrop ledgeState ledgeWorld
     = Ok (ledgeCleared, ledgeClearedWorld)
  /\ Grid.cells (GameEngine.grid ledgeCleared) !! 19%nat
     = Grid.cells (GameEngine.grid ledgeState) !! 19%nat
  /\ Grid.cells (GameEngine.grid ledgeCleared) !! 18%nat
     = Grid.cells (GameEngine.grid ledgeState) !! 18%nat
  /\ Grid.cells (GameEngine.grid ledgeCleared) !! 19%nat
     <> Grid.cells (GameEngine.grid ledgeState) !! 18%nat
  /\ Grid.cells (GameEngine.grid ledgeCleared) !! 17%nat
     = Grid.cells (GameEngine.grid ledgeState) !! 16%nat
  /\ Grid.cells (GameEngine.grid ledgeCleared) !! 16%nat
     = Grid.cells (GameEngine.grid ledgeState) !! 15%nat
  /\ Grid.cells (GameEngine.grid ledgeCleared) !! 16%nat
     <> Grid.cells (GameEngine.grid ledgeState) !! 16%nat.
Proof.
  split; [apply ledgeState_reachable | ].
  split; [vm_compute; reflexivity | ].
  cbn. repeat split; discriminate.
Qed.

(** ** Orbs *)

Module OrbFacts.

Lemma filter_Permutation_bool {A : Type} (f : A -> bool) (l1 l2 : list A) :
  l1 ≡ₚ l2 -> List.filter f l1 ≡ₚ List.filter f l2.
Proof.
  induction 1 as [ | x l1 l2 _ IH | x y l | l1 l2 l3 _ IH1 _ IH2]; cbn.
  - reflexivity.
  - destruct (f x); [now constructor | exact IH].
  - destruct (f x), (f y); try reflexivity. apply perm_swap.
  - now rewrite IH1.
Qed.

Lemma filter_map_bool {A B : Type} (f : B -> bool) (h : A -> B) (l : list A) :
  List.filter f (map h l) = map h (List.filter (fun a => f (h a)) l).
Proof.
  induction l as [ | a l IH]; cbn; [reflexivity | ].
  destruct (f (h a)); cbn; now rewrite IH.
Qed.

(** A stronger filter keeps a list without duplicates (under [h]) so. *)
Lemma NoDup_filter_stronger {A B : Type} (f g : A -> bool) (h : A -> B)
      (l : list A) :
  (forall a, In a l -> f a = true -> g a = true) ->
  NoDup (map h (List.filter g l)) -> NoDup (map h (List.filter f l)).
Proof.
  induction l as [ | a l IH]; intros Himp ND; cbn; [constructor | ].
  assert (forall a0, In a0 l -> f a0 = true -> g a0 = true) as Himp'
      by (intros; apply Himp; [now right | assumption]).
  cbn in ND. destruct (f a) eqn:Fa.
  - rewrite (Himp a (or_introl eq_refl) Fa) in ND. cbn in ND |- *.
    apply NoDup_cons in ND as [Hnin ND]. apply NoDup_cons. split; [ | now apply IH].
    intros Hin. apply Hnin. apply list_elem_of_In in Hin. apply list_elem_of_In.
    apply in_map_iff in Hin as (b & Eb & Hb). apply in_map_iff. exists b.
    split; [exact Eb | ]. apply List.filter_In in Hb as [Hb Fb].
    apply List.filter_In. split; [exact Hb | now apply Himp'].
  - apply IH; [exact Himp' | ]. destruct (g a); [ | exact ND].
    cbn in ND. now apply NoDup_cons in ND as [_ ND].
Qed.

Lemma position_shiftOrb (y : Z) (o : Orb.t) :
  Orb.position (shiftOrb y o) = shiftPosition y (Orb.position o).
Proof.
  unfold shiftOrb, shiftPosition. now destruct (_ <? _).
Qed.

Lemma existsb_eqb_In (o : Orb.t) (l : list Orb.t) :
  existsb (Orb.eqb o) l = true <-> In o l.
Proof.
  rewrite existsb_exists. split.
  - intros (x & Hx & E). apply GridFacts.Orb_eqb_eq in E. now subst.
  - intros H. exists o. split; [exact H | now apply GridFacts.Orb_eqb_eq].
Qed.

(** One clearing pass keeps the orbs that will survive the call on
    different cells. *)
Lemma survivors_distinct_after_clear (n : Z) (H : Z) (l l' T : list Orb.t) :
  H + 4 <= Int32.max_value ->
  Forall (fun o => 4 <= pos_y (Orb.position o) < H) l ->
  Forall (fun r => n <= pos_y (Orb.position r)) T ->
  NoDup (map Orb.position (Grid.removeAll l T)) ->
  l' ≡ₚ map (shiftOrb n) l ->
  NoDup (map Orb.position
           (Grid.removeAll l'
              (T ++ List.filter (fun o => pos_y (Orb.position o) =? n) l))).
Proof.
  intros Hmax Hrange HT ND P.
  set (T' := T ++ List.filter (fun o => pos_y (Orb.position o) =? n) l).
  unfold Grid.removeAll in *.
  rewrite (Permutation_map Orb.position
             (filter_Permutation_bool _ _ _ P)).
  rewrite filter_map_bool, map_map.
  rewrite (map_ext _ (fun o => shiftPosition n (Orb.position o)))
    by (intros; apply position_shiftOrb).
  rewrite <- (map_map Orb.position (shiftPosition n)).
  set (L := List.filter (fun a => negb (existsb (Orb.eqb (shiftOrb n a)) T')) l).
  assert (forall o, In o L ->
                    In o l /\ pos_y (Orb.position o) <> n
                    /\ negb (existsb (Orb.eqb o) T) = true) as HL.
  { intros o Ho. subst L. apply List.filter_In in Ho as [Ho Hn].
    split; [exact Ho | ].
    apply negb_true_iff in Hn.
    assert (~ In (shiftOrb n o) T') as Hnin
        by (rewrite <- existsb_eqb_In; congruence).
    assert (pos_y (Orb.position o) <> n) as Hy.
    { intros Ey. apply Hnin. subst T'. apply in_or_app. right.
      unfold shiftOrb. destruct (Z.ltb_spec (pos_y (Orb.position o)) n); [lia | ].
      apply List.filter_In. split; [exact Ho | now apply Z.eqb_eq]. }
    split; [exact Hy | ].
    apply negb_true_iff. apply not_true_iff_false. rewrite existsb_eqb_In.
    intros HoT. rewrite Forall_forall in HT. apply list_elem_of_In in HoT.
    pose proof (HT o HoT) as Hge.
    apply Hnin. subst T'. apply in_or_app. left.
    unfold shiftOrb. destruct (Z.ltb_spec (pos_y (Orb.position o)) n); [lia | ].
    now apply list_elem_of_In. }
  apply NoDup_fmap_2_strong.
  - intros p q Hp Hq E.
    apply list_elem_of_In, in_map_iff in Hp as (op & <- & Hop).
    apply list_elem_of_In, in_map_iff in Hq as (oq & <- & Hoq).
    destruct (HL op Hop) as (Hpl & Hpy & _).
    destruct (HL oq Hoq) as (Hql & Hqy & _).
    rewrite Forall_forall in Hrange.
    pose proof (Hrange op ltac:(now apply list_elem_of_In)) as Rp.
    pose proof (Hrange oq ltac:(now apply list_elem_of_In)) as Rq.
    destruct (Orb.position op) as [px py], (Orb.position oq) as [qx qy].
    unfold shiftPosition in E. cbn in *.
    destruct (Z.ltb_spec py n), (Z.ltb_spec qy n); cbn in E;
      rewrite ?Int32Facts.add_small in E
        by (unfold Int32.in_range, Int32.min_value, Int32.max_value in *; lia);
      injection E as -> Ey; f_equal; lia.
  - apply (NoDup_filter_stronger
             (fun a => negb (existsb (Orb.eqb (shiftOrb n a)) T'))
             (fun a => negb (existsb (Orb.eqb a) T))); [ | exact ND].
    intros a Ha Fa.
    assert (In a L) as HaL by (subst L; apply List.filter_In; now split).
    now destruct (HL a HaL) as (_ & _ & ?).
Qed.

Lemma isOrbAt_false (g : Grid.t) (p : Position) :
  Grid.isOrbAt g p = false -> ~ In p (map Orb.position (Grid.orbs g)).
Proof.
  unfold Grid.isOrbAt. intros H Hin. apply in_map_iff in Hin as (o & <- & Ho).
  apply not_true_iff_false in H. apply H. apply existsb_exists.
  exists o. split; [exact Ho | ]. now rewrite !Z.eqb_refl.
Qed.

Lemma removeAll_nil (l : list Orb.t) : Grid.removeAll l [] = l.
Proof.
  unfold Grid.removeAll. cbn. induction l as [ | a l IH]; cbn; congruence.
Qed.

(** [clearLines] keeps the orbs below the top four rows, and on different
    cells when they were. *)
Lemma clearLines_orbs (g : Grid.t) (w : World) :
  wellFormed g -> Grid.height g + 4 <= Int32.max_value -> orbsBelowTop g ->
  exists linesCleared totalMultiplier g' w',
    Grid.clearLines g w = Ok (linesCleared, totalMultiplier, g', w')
    /\ wellFormed g'
    /\ Grid.width g' = Grid.width g /\ Grid.height g' = Grid.height g
    /\ orbsBelowTop g'
    /\ (orbsDistinct g -> orbsDistinct g').
Proof.
  intros WF Hmax OB.
  destruct (clearLines_inv
              (fun n s =>
                 Grid.width (Grid.sc_grid s) = Grid.width g
                 /\ Grid.height (Grid.sc_grid s) = Grid.height g
                 /\ orbsBelowTop (Grid.sc_grid s)
                 /\ Forall (fun r => Z.of_nat n <= pos_y (Orb.position r) + 1)
                           (Grid.sc_orbsToRemove s)
                 /\ (orbsDistinct g ->
                     NoDup (map Orb.position
                              (Grid.removeAll (Grid.orbs (Grid.sc_grid s))
                                              (Grid.sc_orbsToRemove s))))))
    with (g := g) (w := w)
    as (s & g' & w' & E & WFs & NC & (Ws & Hs & Os & _ & Ds) & Sp).
  - intros n s row (Ws & Hs & Os & Ts & Ds) _ _.
    repeat (split; [assumption | ]). split; [ | exact Ds].
    eapply Forall_impl; [exact Ts | ]. intros r Hr. cbn beta in *. lia.
  - intros n s s' row (Ws & Hs & Os & Ts & Ds) WFs Erow _ (l' & Pl & ->).
    cbn [Grid.sc_grid Grid.sc_orbsToRemove Grid.width Grid.height Grid.orbs].
    split; [exact Ws | ]. split; [exact Hs | ].
    apply lookup_lt_Some in Erow. pose proof WFs as (_ & _ & Hl & _).
    assert (orbsBelowTop
              (Grid.mk (Grid.width (Grid.sc_grid s)) (Grid.height (Grid.sc_grid s))
                 (dropRow (Grid.sc_grid s) (Z.of_nat n) (Grid.cells (Grid.sc_grid s)))
                 (Grid.colorMap (Grid.sc_grid s))
                 (Grid.nextColorIndex (Grid.sc_grid s)) l')) as Os'.
    { unfold orbsBelowTop in *. cbn [Grid.width Grid.height Grid.orbs].
      eapply orbsBelowTop_shift; [ | | exact Os | exact Pl]; [lia | ].
      now rewrite Hs. }
    split; [exact Os' | ]. split.
    + apply Forall_app. split.
      * exact Ts.
      * apply Forall_forall. intros r Hr. apply list_elem_of_In in Hr.
        apply List.filter_In in Hr as [_ Hr]. apply Z.eqb_eq in Hr. lia.
    + intros D0. apply (survivors_distinct_after_clear (Z.of_nat n) (Grid.height g));
        [exact Hmax | | | now apply Ds | exact Pl].
      * unfold orbsBelowTop in Os. rewrite Hs in Os.
        eapply Forall_impl; [exact Os | ]. intros o Ho. cbn beta in *. tauto.
      * eapply Forall_impl; [exact Ts | ]. intros r Hr. cbn beta in *. lia.
  - exact WF.
  - cbn. repeat (split; [reflexivity || assumption | ]).
    split; [constructor | ]. intros D0. now rewrite removeAll_nil.
  - destruct (ClearLinesFacts.spawned_cells _ _ Sp) as (Ec & Ew' & Eh').
    cbn in Ec, Ew', Eh'.
    exists (Grid.sc_linesCleared s), (Grid.sc_totalMultiplier s), g', w'.
    split; [exact E | ].
    split; [unfold wellFormed in *; rewrite Ec, Ew', Eh'; exact WFs | ].
    split; [congruence | ]. split; [congruence | ].
    set (g2 := Grid.with_orbs _ _) in Sp.
    assert (orbsBelowTop g2) as O2.
    { unfold orbsBelowTop in *. cbn. unfold Grid.removeAll.
      apply Forall_forall. intros o Ho. apply list_elem_of_In in Ho.
      apply List.filter_In in Ho as [Ho _].
      rewrite Forall_forall in Os. apply Os. now apply list_elem_of_In. }
    destruct Sp as [-> | (orb & -> & Hin & _)].
    + split; [exact O2 | ]. intros D0. unfold orbsDistinct. cbn. now apply Ds.
    + apply spawnCandidates_spec in Hin as (Hx & Hy & _ & Hfree).
      split.
      * unfold orbsBelowTop in *. cbn [Grid.orbs Grid.with_orbs Grid.width Grid.height] in *.
        apply Forall_app. split; [exact O2 | ]. constructor; [ | constructor].
        cbn in Hx, Hy. split; assumption.
      * intros D0. unfold orbsDistinct.
        cbn [Grid.orbs Grid.with_orbs]. rewrite map_app. cbn [map].
        apply NoDup_app. split; [now apply Ds | ]. split.
        -- intros q Hq Hq'. apply list_elem_of_In in Hq'.
           destruct Hq' as [<- | []]. apply isOrbAt_false in Hfree.
           apply Hfree. now apply list_elem_of_In.
        -- apply NoDup_singleton.
Qed.

Lemma setCell_frame (g g' : Grid.t) (x y v : Z) :
  Grid.setCell g x y v = Ok g' -> exists c, g' = Grid.with_cells g c.
Proof.
  unfold Grid.setCell. destruct (aget (Grid.cells g) y) as [row | ]; [ | discriminate].
  cbn. destruct (aset row x v) as [row' | ]; [ | discriminate].
  cbn. destruct (aset (Grid.cells g) y row') as [c | ]; [ | discriminate].
  cbn. intros [= <-]. eauto.
Qed.

Lemma forEach_frame {A : Type} (l : list A) (body : A -> Grid.t -> res Grid.t) :
  (forall a g g', body a g = Ok g' -> exists c, g' = Grid.with_cells g c) ->
  forall g g', forEach l body g = Ok g' -> exists c, g' = Grid.with_cells g c.
Proof.
  intros Hb. induction l as [ | a l IH]; intros g g' E; cbn in E.
  - injection E as <-. exists (Grid.cells g). symmetry. apply with_cells_id.
  - destruct (body a g) as [g1 | ] eqn:E1; [ | discriminate]. cbn in E.
    destruct (Hb a g g1 E1) as (c1 & ->).
    destruct (IH _ _ E) as (c & ->). now exists c.
Qed.

Lemma clearLine_frame (g g' : Grid.t) (y : Z) :
  Grid.clearLine g y = Ok g' -> exists c, g' = Grid.with_cells g c.
Proof.
  unfold Grid.clearLine. apply forEach_frame.
  intros x g0 g1. apply setCell_frame.
Qed.

Lemma downTo_cons (hi lo : Z) : lo <= hi -> downTo hi lo = hi :: downTo (hi - 1) lo.
Proof.
  intros H. unfold downTo. rewrite until_snoc by lia.
  rewrite rev_app_distr. cbn. now replace (hi - 1 + 1) with hi by lia.
Qed.

(** A successful [shiftLinesDown] has its row on the grid, or moves no
    orb at all. *)
Lemma shiftLinesDown_inv (g g' : Grid.t) (c : Z) :
  wellFormed g ->
  Grid.shiftLinesDown g c = Ok g' ->
  Grid.width g' = Grid.width g /\ Grid.height g' = Grid.height g
  /\ Grid.orbs g' ≡ₚ map (shiftOrb c) (Grid.orbs g)
  /\ c < Z.max 1 (Grid.height g).
Proof.
  intros WF E. unfold Grid.shiftLinesDown in E.
  destruct (forEach (downTo c 1) _ g) as [g1 | ] eqn:E1; [ | discriminate].
  cbn [res_bind] in E.
  destruct (Grid.clearLine g1 0) as [g2 | ] eqn:E2; [ | discriminate].
  cbn [res_bind] in E.
  assert (c < Z.max 1 (Grid.height g)) as Hc.
  { destruct (Z.le_gt_cases c 0); [lia | ].
    rewrite downTo_cons in E1 by lia. cbn [forEach] in E1.
    destruct (aget (Grid.cells g) (c - 1)) as [row | ]; [ | discriminate].
    cbn [res_bind] in E1. unfold aset in E1.
    destruct (Z.leb_spec 0 c); [ | lia].
    destruct (Z.ltb_spec c (Z.of_nat (length (Grid.cells g)))); [ | discriminate].
    destruct WF as (_ & _ & Hl & _). lia. }
  apply forEach_frame in E1 as (c1 & ->).
  2:{ intros y g0 g0' Hb.
      destruct (aget (Grid.cells g0) (y - 1)) as [row | ]; [ | discriminate].
      cbn in Hb. destruct (aset (Grid.cells g0) y row) as [cs | ]; [ | discriminate].
      cbn in Hb. injection Hb as <-. eauto. }
  apply clearLine_frame in E2 as (c2 & ->).
  destruct (shiftOrbsDown_ok (Grid.with_cells (Grid.with_cells g c1) c2) c)
    as (l' & Eo & Po).
  rewrite Eo in E. injection E as <-. cbn. repeat split; assumption.
Qed.

(** Every operation of the grid keeps the orbs below the top four rows;
    all but [shiftLinesDown] keep them on different cells. *)
Lemma runGridOp_orbs (op : gridOp) (g g' : Grid.t) (w w' : World) :
  wellFormed g -> Grid.height g + 4 <= Int32.max_value ->
  orbsBelowTop g ->
  runGridOp op g w = Ok (g', w') ->
  orbsBelowTop g'
  /\ ((forall c, op <> ShiftLinesDown c) -> orbsDistinct g -> orbsDistinct g').
Proof.
  intros WF Hmax OB E.
  assert (forall c, g' = Grid.with_cells g c ->
                    orbsBelowTop g' /\ (orbsDistinct g -> orbsDistinct g')) as Hframe
      by (intros c ->; split; [exact OB | tauto]).
  destruct op; cbn [runGridOp] in E.
  - destruct (place_ok g p WF) as (g1 & E1 & _ & W1 & H1 & O1).
    rewrite E1 in E. injection E as <- _.
    unfold orbsBelowTop, orbsDistinct in *. rewrite O1, W1, H1. tauto.
  - destruct (clearLines_orbs g w WF Hmax OB)
      as (n & m & g1 & w1 & E1 & _ & _ & _ & O1 & D1).
    rewrite E1 in E. injection E as <- _. tauto.
  - unfold Grid.clearCell in E. destruct (Grid.isInBounds g position).
    + destruct (Grid.setCell g _ _ 0) as [g1 | ] eqn:E1; [ | discriminate].
      injection E as <- _. apply setCell_frame in E1 as (c & ->). destruct (Hframe c eq_refl). tauto.
    + injection E as <- _. tauto.
  - destruct (Grid.clearLine g y) as [g1 | ] eqn:E1; [ | discriminate].
    injection E as <- _. apply clearLine_frame in E1 as (c & ->).
    destruct (Hframe c eq_refl). tauto.
  - destruct (Grid.shiftLinesDown g clearedY) as [g1 | ] eqn:E1; [ | discriminate].
    injection E as <- _. split; [ | intros Hne; now destruct (Hne clearedY)].
    destruct (shiftLinesDown_inv g g1 clearedY WF E1) as (W1 & H1 & P1 & Hc).
    unfold orbsBelowTop in *. rewrite W1, H1.
    destruct (Z.le_gt_cases 0 clearedY).
    + destruct (Z.lt_ge_cases clearedY (Grid.height g)).
      * eapply orbsBelowTop_shift; [ | exact Hmax | exact OB | exact P1]. lia.
      * rewrite P1. apply Forall_map. eapply Forall_impl; [exact OB | ].
        intros o Ho. cbn beta in *. lia.
    + rewrite P1. apply Forall_map. eapply Forall_impl; [exact OB | ].
      intros o Ho. cbn beta in *. unfold shiftOrb.
      destruct (Z.ltb_spec (pos_y (Orb.position o)) clearedY); [lia | exact Ho].
  - destruct (reset_ok g WF) as (c & E1 & _). rewrite E1 in E.
    injection E as <- _. split; [constructor | intros; constructor].
Qed.

End OrbFacts.

Import OrbFacts.

(** C2, the claim as stated fails: [place] does not look at the orbs. In
    the first session an orb is spawned on the empty cell (5, 19); the T
    piece dropped next is placed over it, and the state reached has an orb
    on a filled cell. *)
Lemma orb_under_a_placed_block :
  GameEngine.runAll twoDrops GameEngine.create (worldOf coveredOrbRandoms [])
  = Ok (coveredOrbState, coveredOrbWorld)
  /\ GameEngine.reachable coveredOrbState
  /\ In (Orb.mk (mkPosition 5 19) 2 OrbType.SMALL)
        (Grid.orbs (GameEngine.grid coveredOrbState))
  /\ Grid.isEmpty (GameEngine.grid coveredOrbState) (mkPosition 5 19) = false
  /\ ~ orbsOnEmptyCells (GameEngine.grid coveredOrbState).
Proof.
  assert (GameEngine.runAll twoDrops GameEngine.create
            (worldOf coveredOrbRandoms [])
          = Ok (coveredOrbState, coveredOrbWorld)) as E
      by (vm_compute; reflexivity).
  split; [exact E | ]. split.
  - eapply runAll_reachable; [apply GameEngine.reachable_create | exact E].
  - split; [left; reflexivity | ]. split; [reflexivity | ].
    intros F. apply Forall_cons in F as [F _]. vm_compute in F. discriminate.
Qed.

(** Nor are the orbs kept apart by [shiftLinesDown] when it is called for a
    LINE_CLEAR piece: the orb of the cleared row stays, and the orb above it
    moves onto it. *)
Lemma two_orbs_on_one_cell :
  orbsDistinct (GameEngine.grid ledgeState)
  /\ GameEngine.run GameEngine.HardDrop ledgeState ledgeWorld
     = Ok (ledgeCleared, ledgeClearedWorld)
  /\ GameEngine.reachable ledgeCleared
  /\ map Orb.position (Grid.orbs (GameEngine.grid ledgeCleared))
     = [mkPosition 8 17; mkPosition 8 17]
  /\ ~ orbsDistinct (GameEngine.grid ledgeCleared).
Proof.
  assert (GameEngine.run GameEngine.HardDrop ledgeState ledgeWorld
          = Ok (ledgeCleared, ledgeClearedWorld)) as E
      by (vm_compute; reflexivity).
  split.
  - unfold orbsDistinct. cbn. apply NoDup_cons. split.
    + intros H. apply list_elem_of_In in H. destruct H as [H | []]. discriminate.
    + apply NoDup_singleton.
  - split; [exact E | ]. split.
    + eapply GameEngine.reachable_run; [apply ledgeState_reachable | exact E].
    + split; [reflexivity | ]. unfold orbsDistinct. cbn. intros ND.
      apply NoDup_cons in ND as [ND _]. apply ND. left.
Qed.

(** C2, as the code has it. In every state of a session the orbs lie on the
    grid below the top four rows, and every operation of the grid keeps
    them there; every operation but [shiftLinesDown] keeps orbs that lie on
    different cells on different cells; and an orb is spawned only on a
    cell that is empty and free of orbs at that moment. (That an orb stays
    on an empty cell is no invariant: a piece is placed over it, and its
    row is completed that way.) *)
Theorem orbs_stay_below_the_top_rows :
  (forall e, GameEngine.reachable e -> orbsBelowTop (GameEngine.grid e))
  /\ (forall op g g' w w',
         wellFormed g -> Grid.height g + 4 <= Int32.max_value ->
         orbsBelowTop g -> runGridOp op g w = Ok (g', w') ->
         orbsBelowTop g'
         /\ ((forall c, op <> ShiftLinesDown c) ->
             orbsDistinct g -> orbsDistinct g'))
  /\ (forall g w g' w',
         Grid.trySpawnOrb g w = Ok (g', w') ->
         g' = g
         \/ exists orb,
              g' = Grid.with_orbs g (Grid.orbs g ++ [orb])
              /\ Grid.isEmpty g (Orb.position orb) = true
              /\ Grid.isOrbAt g (Orb.position orb) = false
              /\ 4 <= pos_y (Orb.position orb)).
Proof.
  split; [ | split].
  - intros e R. apply (reachable_engineOk e R).
  - intros op g g' w w'. apply runGridOp_orbs.
  - intros g w g' w' E.
    destruct (trySpawnOrb_ok g w) as (g1 & w1 & E1 & Sp).
    rewrite E in E1. injection E1 as <- <-.
    destruct Sp as [-> | (orb & -> & Hin & _)]; [now left | right].
    apply spawnCandidates_spec in Hin as (_ & Hy & He & Ho).
    exists orb. repeat split; try assumption. lia.
Qed.

(** ** Score and level *)

Module LevelFacts.

Lemma newLevel_quot (s : Z) :
  Int32.in_range s -> newLevel s = Z.quot s 2000 + 1.
Proof.
  intros H. unfold newLevel, Int32.add, Int32.div.
  unfold Int32.in_range, Int32.min_value, Int32.max_value in H.
  assert (- 2 ^ 31 <= Z.quot s 2000 <= 2 ^ 31 - 1) as Hq.
  { pose proof (Z.quot_le_mono s (2 ^ 31 - 1) 2000 ltac:(lia) ltac:(lia)).
    pose proof (Z.quot_le_mono (- 2 ^ 31) s 2000 ltac:(lia) ltac:(lia)).
    change (Z.quot (2 ^ 31 - 1) 2000) with 1073741 in *.
    change (Z.quot (- 2 ^ 31) 2000) with (-1073741) in *. lia. }
  pose proof (Z.quot_le_mono s (2 ^ 31 - 1) 2000 ltac:(lia) ltac:(lia)) as Hu.
  change (Z.quot (2 ^ 31 - 1) 2000) with 1073741 in Hu.
  rewrite (Int32Facts.wrap32_id (Z.quot s 2000))
    by (unfold Int32.in_range, Int32.min_value, Int32.max_value; lia).
  apply Int32Facts.wrap32_id.
  unfold Int32.in_range, Int32.min_value, Int32.max_value. lia.
Qed.

Lemma newLevel_mono (s s' : Z) :
  Int32.in_range s -> Int32.in_range s' -> s <= s' ->
  newLevel s <= newLevel s'.
Proof.
  intros H H' Hle. rewrite !newLevel_quot by assumption.
  pose proof (Z.quot_le_mono s s' 2000 ltac:(lia) Hle). lia.
Qed.

Lemma checkLevelUp_level (e : GameEngine.t) :
  GameEngine.level (GameEngine.checkLevelUp e)
  = Z.max (GameEngine.level e) (newLevel (GameEngine.score e)).
Proof.
  unfold GameEngine.checkLevelUp. fold (newLevel (GameEngine.score e)).
  destruct (Z.ltb_spec (GameEngine.level e) (newLevel (GameEngine.score e)));
    cbn; lia.
Qed.

Lemma updateGhostPosition_frame (e e' : GameEngine.t) :
  GameEngine.updateGhostPosition e = Ok e' ->
  exists q, e' = GameEngine.with_ghost e q.
Proof.
  unfold GameEngine.updateGhostPosition.
  destruct (GameEngine.currentTetrimino e) as [p | ].
  - destruct (GameEngine.descend _ _ p) as [ghost | ]; [ | discriminate].
    cbn. intros [= <-]. eauto.
  - intros [= <-]. eauto.
Qed.

Lemma spawnTetrimino_frame (e e' : GameEngine.t) (w w' : World) :
  GameEngine.spawnTetrimino e w = Ok (e', w') ->
  GameEngine.score e' = GameEngine.score e
  /\ GameEngine.level e' = GameEngine.level e.
Proof.
  unfold GameEngine.spawnTetrimino.
  destruct (match GameEngine.nextTetrimino e with
            | Some n => (n, w)
            | None => GameEngine.generateRandomTetrimino e w
            end) as [current w1].
  destruct (GameEngine.generateRandomTetrimino _ w1) as [next w2].
  destruct (GameEngine.updateGhostPosition _) as [e3 | ] eqn:E3; [ | discriminate].
  apply updateGhostPosition_frame in E3 as (q & ->). cbn [res_bind].
  destruct (negb _); intros [= <- _]; now split.
Qed.

Lemma tryMove_frame (f : Tetrimino.t -> Tetrimino.t) (e e' : GameEngine.t) :
  GameEngine.tryMove f e = Ok e' ->
  GameEngine.score e' = GameEngine.score e
  /\ GameEngine.level e' = GameEngine.level e.
Proof.
  unfold GameEngine.tryMove.
  destruct (GameEngine.currentTetrimino e) as [p | ]; [ | now intros [= <-]].
  destruct (GameEngine.isValidMove _ _); [ | now intros [= <-]].
  intros E. apply updateGhostPosition_frame in E as (q & ->). now split.
Qed.

Lemma lockTail_level (e1 e' : GameEngine.t) (w w' : World) :
  lockTail e1 w = Ok (e', w') ->
  Int32.in_range (GameEngine.score e')
  /\ GameEngine.level e'
     = Z.max (GameEngine.level e1) (newLevel (GameEngine.score e')).
Proof.
  unfold lockTail.
  destruct (Grid.clearLines _ w) as [[[[lines mult] g] w1] | ]; [ | discriminate].
  cbn [res_bind].
  set (e2 := GameEngine.with_grid e1 g).
  set (r3 := if (0 <? lines) && (1 <? mult)
             then GameEngine.applyMultiplier e2 mult w1 else (e2, w1)).
  assert (GameEngine.level (fst r3) = GameEngine.level e1) as L3.
  { subst r3. destruct (_ && _); [ | reflexivity].
    unfold GameEngine.applyMultiplier. now destruct (System.currentTimeMillis w1). }
  destruct r3 as [e3 w2]. cbn [fst] in L3.
  pose proof (updateScore_frame e3 lines w2) as U.
  destruct (GameEngine.updateScore e3 lines w2) as [e4 w3]. cbn [fst] in U.
  destruct U as (_ & _ & _ & Ul & Us).
  intros E. apply spawnTetrimino_frame in E as (Ss & Sl).
  pose proof (checkLevelUp_frame e4) as (_ & _ & _ & Cs & _).
  rewrite Ss, Sl, Cs, checkLevelUp_level, Ul, L3. split; [ | reflexivity].
  rewrite Us. apply Int32Facts.wrap32_in_range.
Qed.

Lemma lockTetrimino_level (e e' : GameEngine.t) (w w' : World) :
  GameEngine.lockTetrimino e w = Ok (e', w') ->
  e' = e
  \/ (Int32.in_range (GameEngine.score e')
      /\ GameEngine.level e'
         = Z.max (GameEngine.level e) (newLevel (GameEngine.score e'))).
Proof.
  destruct (GameEngine.currentTetrimino e) as [p | ] eqn:Hp.
  2:{ unfold GameEngine.lockTetrimino. rewrite Hp. intros [= <- _]. now left. }
  rewrite (lockTetrimino_unfold e w p Hp). intros E. right.
  assert (forall e1,
             match Tetrimino.powerUp p with
             | Some PowerUpType.BOMB => GameEngine.applyBombEffect e p
             | Some PowerUpType.LINE_CLEAR =>
                 GameEngine.applyLineClearEffect e p
             | _ => let* g := Grid.place (GameEngine.grid e) p in
                    Ok (GameEngine.with_grid e g)
             end = Ok e1 -> GameEngine.level e1 = GameEngine.level e) as Hl.
  { intros e1. destruct (Tetrimino.powerUp p) as [[ | | ] | ].
    - unfold GameEngine.applyBombEffect.
      destruct (Tetrimino.getBlocks p); [now intros [= <-] | ].
      cbv zeta. destruct (forEach _ _ _); [ | discriminate]. now intros [= <-].
    - unfold GameEngine.applyLineClearEffect.
      destruct (forEach _ _ _); [ | discriminate]. now intros [= <-].
    - destruct (Grid.place _ p); [ | discriminate]. now intros [= <-].
    - destruct (Grid.place _ p); [ | discriminate]. now intros [= <-]. }
  destruct (match Tetrimino.powerUp p with
            | Some PowerUpType.BOMB => _ | Some PowerUpType.LINE_CLEAR => _
            | _ => _ end) as [e1 | ]; [ | discriminate].
  cbn [res_bind] in E. rewrite <- (Hl e1 eq_refl). eapply lockTail_level; eauto.
Qed.

Lemma run_level (c : GameEngine.command) (e e' : GameEngine.t) (w w' : World) :
  c <> GameEngine.StartGame ->
  GameEngine.run c e w = Ok (e', w') ->
  (GameEngine.score e' = GameEngine.score e
   /\ GameEngine.level e' = GameEngine.level e)
  \/ (Int32.in_range (GameEngine.score e')
      /\ GameEngine.level e'
         = Z.max (GameEngine.level e) (newLevel (GameEngine.score e'))).
Proof.
  intros Hc E. destruct c; cbn [GameEngine.run] in E; try congruence.
  - injection E as <- _. left. unfold GameEngine.pauseGame.
    destruct (GameEngine.gameState e); now split.
  - injection E as <- _. left. unfold GameEngine.resumeGame.
    destruct (GameEngine.gameState e); now split.
  - unfold GameEngine.moveLeft in E.
    destruct (GameEngine.tryMove _ e) as [e1 | ] eqn:E1; [ | discriminate].
    injection E as <- _. left. eapply tryMove_frame; eauto.
  - unfold GameEngine.moveRight in E.
    destruct (GameEngine.tryMove _ e) as [e1 | ] eqn:E1; [ | discriminate].
    injection E as <- _. left. eapply tryMove_frame; eauto.
  - unfold GameEngine.moveDown in E.
    destruct (GameEngine.currentTetrimino e) as [p | ].
    + destruct (GameEngine.isValidMove _ _).
      * injection E as <- _. left. now split.
      * destruct (GameEngine.lockTetrimino e w) as [[e1 w1] | ] eqn:E1;
          [ | discriminate].
        injection E as <- _.
        destruct (lockTetrimino_level _ _ _ _ E1) as [-> | H];
          [left; now split | now right].
    + injection E as <- _. left. now split.
  - unfold GameEngine.rotate in E.
    destruct (GameEngine.tryMove _ e) as [e1 | ] eqn:E1; [ | discriminate].
    injection E as <- _. left. eapply tryMove_frame; eauto.
  - unfold GameEngine.hardDrop in E.
    destruct (GameEngine.currentTetrimino e) as [p | ].
    + destruct (GameEngine.descend _ _ p) as [p' | ]; [ | discriminate].
      cbn [res_bind] in E.
      destruct (lockTetrimino_level _ _ _ _ E) as [-> | H];
        [left; now split | now right].
    + injection E as <- _. left. now split.
Qed.

Lemma startGame_level (e e' : GameEngine.t) (w w' : World) :
  GameEngine.startGame e w = Ok (e', w') ->
  GameEngine.score e' = 0 /\ GameEngine.level e' = 1.
Proof.
  unfold GameEngine.startGame.
  destruct (Grid.reset _) as [g | ]; [ | discriminate]. cbn [res_bind].
  destruct (GameEngine.spawnTetrimino _ w) as [[e2 w2] | ] eqn:E2; [ | discriminate].
  cbn [res_bind]. intros [= <- _].
  apply spawnTetrimino_frame in E2 as (Ss & Sl). cbn in *. now split.
Qed.

(** In every state of a session the score is an [Int] and the level is at
    least the level of the score. *)
Lemma reachable_level (e : GameEngine.t) :
  GameEngine.reachable e ->
  Int32.in_range (GameEngine.score e)
  /\ newLevel (GameEngine.score e) <= GameEngine.level e.
Proof.
  induction 1 as [ | c e e' w w' _ [IHr IHl] E].
  - cbn. split; [ | vm_compute; discriminate].
    unfold Int32.in_range, Int32.min_value, Int32.max_value. lia.
  - assert (c = GameEngine.StartGame \/ c <> GameEngine.StartGame) as [-> | Hc]
      by (destruct c; (now left) || (right; discriminate)).
    + cbn in E. apply startGame_level in E as (-> & ->).
      split; [ | vm_compute; discriminate].
      unfold Int32.in_range, Int32.min_value, Int32.max_value. lia.
    + destruct (run_level c e e' w w' Hc E) as [(Es & El) | (Hr & El)].
      * rewrite Es, El. now split.
      * split; [exact Hr | ]. rewrite El. lia.
Qed.

Lemma run_level_mono (c : GameEngine.command) (e e' : GameEngine.t)
      (w w' : World) :
  c <> GameEngine.StartGame ->
  GameEngine.run c e w = Ok (e', w') ->
  GameEngine.level e <= GameEngine.level e'.
Proof.
  intros Hc E. destruct (run_level c e e' w w' Hc E) as [(_ & ->) | (_ & ->)]; lia.
Qed.

Lemma reachable_level_positive (e : GameEngine.t) :
  GameEngine.reachable e -> 1 <= GameEngine.level e.
Proof.
  induction 1 as [ | c e e' w w' _ IH E]; [cbn; lia | ].
  assert (c = GameEngine.StartGame \/ c <> GameEngine.StartGame) as [-> | Hc]
    by (destruct c; (now left) || (right; discriminate)).
  - cbn in E. apply startGame_level in E as (_ & ->). lia.
  - pose proof (run_level_mono c e e' w w' Hc E). lia.
Qed.

Lemma reachableUp_level (e : GameEngine.t) :
  reachableUp e ->
  GameEngine.reachable e
  /\ 0 <= GameEngine.score e
  /\ GameEngine.level e = newLevel (GameEngine.score e).
Proof.
  induction 1 as [ | c e e' w w' _ (R & Hs & Hl) E Hup].
  - split; [constructor | ]. split; [cbn; lia | reflexivity].
  - split; [econstructor; eauto | ].
    assert (c = GameEngine.StartGame \/ c <> GameEngine.StartGame) as [-> | Hc]
      by (destruct c; (now left) || (right; discriminate)).
    + cbn in E. apply startGame_level in E as (-> & ->).
      split; [lia | reflexivity].
    + destruct Hup as [-> | Hup]; [congruence | ]. split; [lia | ].
      destruct (run_level c e e' w w' Hc E) as [(Es & El) | (Hr & El)].
      * now rewrite Es, El.
      * rewrite El, Hl.
        pose proof (newLevel_mono _ _ (proj1 (reachable_level e R)) Hr Hup). lia.
Qed.

Lemma runAllUp_reachableUp (cs : list GameEngine.command) :
  forall e w e' w',
    reachableUp e -> runAllUp cs e w = Some (e', w') -> reachableUp e'.
Proof.
  induction cs as [ | c cs IH]; intros e w e' w' R E; cbn [runAllUp] in E.
  - now injection E as <- _.
  - destruct (GameEngine.run c e w) as [[e1 w1] | ] eqn:E1; [ | discriminate].
    destruct (_ || _) eqn:Hup; [ | discriminate].
    eapply IH; [ | exact E]. eapply reachableUp_run; [exact R | exact E1 | ].
    apply orb_true_iff in Hup as [Hc | Hs].
    + left. now destruct c.
    + right. now apply Z.leb_le.
Qed.

End LevelFacts.

Import LevelFacts.

(** C4 (amended): within a session the level never goes down; it is always
    at least one and at least the level of the current score, quotient
    truncated, plus one; it equals floor(score / 2000) + 1, with a score
    that is not negative, in every state reached without the score having
    gone down between two commands; starting a game resets the score to 0
    and the level to 1. *)
Theorem level_is_highest_score_level :
  (forall c e e' w w',
      c <> GameEngine.StartGame ->
      GameEngine.run c e w = Ok (e', w') ->
      GameEngine.level e <= GameEngine.level e')
  /\ (forall e,
         GameEngine.reachable e ->
         1 <= GameEngine.level e
         /\ Z.quot (GameEngine.score e) 2000 + 1 <= GameEngine.level e
         /\ GameEngine.score e / 2000 + 1 <= GameEngine.level e)
  /\ (forall e,
         reachableUp e ->
         0 <= GameEngine.score e
         /\ GameEngine.level e = GameEngine.score e / 2000 + 1)
  /\ (forall e e' w w',
         GameEngine.run GameEngine.StartGame e w = Ok (e', w') ->
         GameEngine.score e' = 0 /\ GameEngine.level e' = 1).
Proof.
  split; [exact run_level_mono | ]. split; [ | split].
  - intros e R. split; [now apply reachable_level_positive | ].
    destruct (reachable_level e R) as (Hr & Hl).
    rewrite newLevel_quot in Hl by exact Hr. split; [exact Hl | ].
    destruct (Z.le_gt_cases 0 (GameEngine.score e)) as [Hs | Hs].
    + rewrite <- Z.quot_div_nonneg by lia. exact Hl.
    + pose proof (reachable_level_positive e R).
      assert (GameEngine.score e / 2000 < 0) by (apply Z.div_lt_upper_bound; lia).
      lia.
  - intros e U. destruct (reachableUp_level e U) as (R & Hs & Hl).
    split; [exact Hs | ].
    rewrite Hl, newLevel_quot by apply (reachable_level e R).
    now rewrite Z.quot_div_nonneg by lia.
  - intros e e' w w' E. cbn in E. eapply startGame_level; eauto.
Qed.

(** C4, counterexample: ten vertical I pieces fill the four bottom rows,
    on which four orbs lie; the orbs of the bottom row are counted again at
    each of the four clears, the multiplier is 3906250, the 800 points
    times the multiplier wrap around to a negative score, and the level
    stays 1. *)
Lemma level_lags_behind_wrapped_score :
  GameEngine.runAll tenColumns GameEngine.create (worldOf tenColumnsRandoms [])
  = Ok (tenColumnsState, tenColumnsWorld)
  /\ GameEngine.reachable tenColumnsState
  /\ GameEngine.multiplier tenColumnsState = 3906250
  /\ GameEngine.score tenColumnsState = Int32.wrap32 (800 * 3906250)
  /\ GameEngine.score tenColumnsState = -1169967296
  /\ GameEngine.level tenColumnsState = 1
  /\ GameEngine.level tenColumnsState
     <> GameEngine.score tenColumnsState / 2000 + 1.
Proof.
  assert (GameEngine.runAll tenColumns GameEngine.create
                            (worldOf tenColumnsRandoms [])
          = Ok (tenColumnsState, tenColumnsWorld)) as E
      by (vm_compute; reflexivity).
  split; [exact E | ].
  split; [exact (runAll_reachable _ _ _ _ _ GameEngine.reachable_create E) | ].
  repeat split; try (vm_compute; reflexivity). vm_compute. discriminate.
Qed.

(** With one SMALL orb on the bottom row, counted at each of the four
    clears, the same ten pieces give 800 * 16 points and level 7. *)
Example level_seven_after_four_rows :
  runAllUp tenColumns GameEngine.create (worldOf oneOrbRandoms [])
  = Some (oneOrbState, oneOrbWorld)
  /\ reachableUp oneOrbState
  /\ GameEngine.score oneOrbState = 12800
  /\ GameEngine.level oneOrbState = 7
  /\ GameEngine.level oneOrbState = GameEngine.score oneOrbState / 2000 + 1.
Proof.
  assert (runAllUp tenColumns GameEngine.create (worldOf oneOrbRandoms [])
          = Some (oneOrbState, oneOrbWorld)) as E by (vm_compute; reflexivity).
  split; [exact E | ].
  split; [exact (runAllUp_reachableUp _ _ _ _ _ reachableUp_create E) | ].
  repeat split; vm_compute; reflexivity.
Qed.

(** ** Binary32 arithmetic and the power-up chance *)

Module Float32Facts.

Lemma digits2_pos_size (p : positive) : digits2_pos p = Pos.size p.
Proof. induction p as [p IH | p IH | ]; cbn; now rewrite ?IH. Qed.

Lemma Zdigits2_log2 (m : Z) : 0 < m -> Zdigits2 m = Z.log2 m + 1.
Proof.
  destruct m as [ | p | p]; try lia. intros _. cbn [Zdigits2].
  rewrite digits2_pos_size. induction p as [p IH | p IH | ]; cbn; lia.
Qed.

Lemma fexp_eq (e : Z) : fexp Float32.prec Float32.emax e = Z.max (e - 24) (-149).
Proof. reflexivity. Qed.

Lemma shr_1_m (mrs : shr_record) :
  0 <= shr_m mrs -> shr_m (shr_1 mrs) = Z.div2 (shr_m mrs).
Proof. destruct mrs as [[ | [p | p | ] | p] r s]; cbn; intros; lia || reflexivity. Qed.

Lemma iter_pos_iter {A : Type} (f : A -> A) (p : positive) (x : A) :
  SpecFloat.iter_pos f p x = Pos.iter f x p.
Proof.
  revert x. induction p as [p IH | p IH | ]; intros x; cbn.
  - rewrite !IH. now rewrite <- !Pos.iter_swap.
  - now rewrite !IH.
  - reflexivity.
Qed.

Lemma iter_shr_1_m (p : positive) (mrs : shr_record) :
  0 <= shr_m mrs ->
  shr_m (SpecFloat.iter_pos shr_1 p mrs) = Z.shiftr (shr_m mrs) (Z.pos p).
Proof.
  intros H. rewrite iter_pos_iter.
  change (Z.shiftr (shr_m mrs) (Z.pos p)) with (Pos.iter Z.div2 (shr_m mrs) p).
  induction p as [ | p IH] using Pos.peano_ind.
  - cbn. now apply shr_1_m.
  - rewrite !Pos.iter_succ, <- IH. apply shr_1_m. rewrite IH.
    change (Pos.iter Z.div2 (shr_m mrs) p) with (Z.shiftr (shr_m mrs) (Z.pos p)).
    now apply Z.shiftr_nonneg.
Qed.

Lemma shr_fexp_spec (m e : Z) (l : location) :
  0 <= m ->
  let n := fexp Float32.prec Float32.emax (Zdigits2 m + e) - e in
  let r := shr_fexp Float32.prec Float32.emax m e l in
  snd r = e + Z.max n 0
  /\ shr_m (fst r) = Z.shiftr m (Z.max n 0)
  /\ (n <= 0 -> fst r = shr_record_of_loc m l).
Proof.
  intros Hm n r. subst r. unfold shr_fexp. fold n.
  assert (shr_m (shr_record_of_loc m l) = m) as Hrec
      by (destruct l as [ | [ | | ]]; reflexivity).
  destruct n as [ | p | p] eqn:En; cbn [shr fst snd].
  - rewrite Z.add_0_r. cbn. rewrite Hrec. repeat split; lia.
  - rewrite iter_shr_1_m by (rewrite Hrec; exact Hm). rewrite Hrec.
    rewrite Z.max_l by lia. repeat split; lia.
  - rewrite Z.max_r by lia. rewrite Z.add_0_r, Z.shiftr_0_r, Hrec.
    repeat split; lia.
Qed.

Lemma round_nearest_even_bounds (m : Z) (l : location) :
  m <= round_nearest_even m l <= m + 1.
Proof.
  destruct l as [ | [ | | ]]; cbn; try lia. destruct (Z.even m); lia.
Qed.

Lemma log2_shiftr_pos (m n : Z) :
  0 < m -> 0 <= n -> n <= Z.log2 m ->
  0 < Z.shiftr m n /\ Z.log2 (Z.shiftr m n) = Z.log2 m - n.
Proof.
  intros Hm Hn Hl. split.
  - destruct (Z.eq_dec (Z.shiftr m n) 0) as [E | E].
    + apply Z.shiftr_eq_0_iff in E. lia.
    + pose proof (Z.shiftr_nonneg m n). lia.
  - rewrite Z.log2_shiftr by exact Hm. lia.
Qed.

(** Rounding a positive number [m * 2^e] whose leading bit is not below
    the least subnormal gives a positive float, or infinity, whose leading
    bit is not lower. *)
Lemma binary_round_aux_atLeast (m : positive) (e t : Z) :
  -148 <= t -> t <= Z.log2 (Z.pos m) + 1 + e ->
  atLeast t (binary_round_aux Float32.prec Float32.emax false (Z.pos m) e
                              loc_Exact) = true.
Proof.
  intros Ht Hmag. unfold binary_round_aux.
  pose proof (shr_fexp_spec (Z.pos m) e loc_Exact ltac:(lia)) as (E1 & M1 & X1).
  destruct (shr_fexp _ _ (Z.pos m) e loc_Exact) as [mrs1 e1].
  cbn [fst snd] in E1, M1, X1.
  rewrite Zdigits2_log2, fexp_eq in E1, M1, X1 by lia.
  set (D := Z.log2 (Z.pos m) + 1) in *.
  assert (0 <= Z.log2 (Z.pos m)) as HD by apply Z.log2_nonneg.
  set (n := Z.max (D + e - 24) (-149) - e) in *.
  assert (0 <= Z.max n 0 <= Z.log2 (Z.pos m)) as HN by lia.
  destruct (log2_shiftr_pos (Z.pos m) (Z.max n 0) ltac:(lia) ltac:(lia)
                            ltac:(lia)) as (P1 & L1).
  rewrite <- M1 in P1, L1.
  set (m2 := round_nearest_even (shr_m mrs1) (loc_of_shr_record mrs1)).
  pose proof (round_nearest_even_bounds (shr_m mrs1) (loc_of_shr_record mrs1))
    as B2. fold m2 in B2.
  assert (n <= 0 -> m2 = shr_m mrs1) as X2.
  { intros Hn. subst m2. rewrite (X1 Hn). reflexivity. }
  pose proof (Z.log2_le_mono (shr_m mrs1) m2 ltac:(lia)) as L2a.
  pose proof (Z.log2_le_mono m2 (Z.succ (shr_m mrs1)) ltac:(lia)) as L2b.
  pose proof (Z.log2_succ_le (shr_m mrs1)) as L2c.
  pose proof (shr_fexp_spec m2 e1 loc_Exact ltac:(lia)) as (E3 & M3 & _).
  destruct (shr_fexp _ _ m2 e1 loc_Exact) as [mrs3 e3].
  cbn [fst snd] in E3, M3.
  rewrite Zdigits2_log2, fexp_eq in E3, M3 by lia.
  set (n2 := Z.max (Z.log2 m2 + 1 + e1 - 24) (-149) - e1) in *.
  assert (Z.log2 m2 = Z.log2 (shr_m mrs1) \/ (0 < n /\ Z.log2 m2 <= Z.log2 (shr_m mrs1) + 1)) as C2.
  { destruct (Z.le_gt_cases n 0) as [Hn | Hn].
    - left. now rewrite (X2 Hn).
    - right. lia. }
  assert (0 <= Z.max n2 0 <= Z.log2 m2) as HN2 by lia.
  destruct (log2_shiftr_pos m2 (Z.max n2 0) ltac:(lia) ltac:(lia) ltac:(lia))
    as (P3 & L3).
  rewrite <- M3 in P3, L3.
  destruct (shr_m mrs3) as [ | p3 | p3] eqn:E; try lia.
  destruct (Z.leb_spec e3 (Float32.emax - Float32.prec)); [ | reflexivity].
  cbn [atLeast].
  change (Z.pos (digits2_pos p3)) with (Zdigits2 (Z.pos p3)).
  rewrite Zdigits2_log2 by lia.
  apply andb_true_iff. split; apply Z.leb_le; lia.
Qed.

Lemma log2_iter_xO (m d : positive) :
  Z.log2 (Z.pos (Pos.iter xO m d)) = Z.log2 (Z.pos m) + Z.pos d.
Proof.
  induction d as [ | d IH] using Pos.peano_ind.
  - cbn [Pos.iter]. change (Z.pos m~0) with (2 * Z.pos m).
    rewrite Z.log2_double by lia. lia.
  - rewrite Pos.iter_succ.
    change (Z.pos (Pos.iter xO m d)~0) with (2 * Z.pos (Pos.iter xO m d)).
    rewrite Z.log2_double by lia. lia.
Qed.

Lemma shl_align_spec (mx : positive) (ex ex' : Z) :
  Z.log2 (Z.pos (fst (shl_align mx ex ex'))) + snd (shl_align mx ex ex')
  = Z.log2 (Z.pos mx) + ex
  /\ (ex' <= ex -> snd (shl_align mx ex ex') = ex').
Proof.
  unfold shl_align. destruct (ex' - ex) as [ | d | d] eqn:E; cbn [fst snd].
  - split; lia.
  - split; lia.
  - rewrite log2_iter_xO. split; lia.
Qed.

Lemma binary_round_atLeast (m : positive) (e t : Z) :
  -148 <= t -> t <= Z.log2 (Z.pos m) + 1 + e ->
  atLeast t (binary_round Float32.prec Float32.emax false m e) = true.
Proof.
  intros Ht Hmag. unfold binary_round.
  pose proof (shl_align_spec m e
                (fexp Float32.prec Float32.emax (Z.pos (digits2_pos m) + e)))
    as (A & _).
  destruct (shl_align m e _) as [mz ez]. cbn [fst snd] in A.
  apply binary_round_aux_atLeast; lia.
Qed.

Lemma ofInt_atLeast (n t : Z) :
  0 < n -> -148 <= t -> t <= Z.log2 n + 1 ->
  atLeast t (Float32.ofInt n) = true.
Proof.
  intros Hn Ht Hl. destruct n as [ | p | p]; try lia.
  apply binary_round_atLeast; lia.
Qed.

Lemma mul_atLeast (x : Float32.float) (t : Z) (m : positive) (e : Z) :
  atLeast t x = true -> -148 <= t + Z.log2 (Z.pos m) + e ->
  atLeast (t + Z.log2 (Z.pos m) + e)
          (Float32.mul x (S754_finite false m e)) = true.
Proof.
  destruct x as [ | [ | ] | | [ | ] mx ex]; try discriminate.
  - reflexivity.
  - cbn [atLeast]. intros H Ht. apply andb_true_iff in H as (_ & H).
    apply Z.leb_le in H.
    change (Z.pos (digits2_pos mx)) with (Zdigits2 (Z.pos mx)) in H.
    rewrite Zdigits2_log2 in H by lia.
    unfold Float32.mul, SFmul. cbn [xorb].
    apply binary_round_aux_atLeast; [exact Ht | ].
    pose proof (Z.log2_mul_below (Z.pos mx) (Z.pos m) ltac:(lia) ltac:(lia)).
    change (Z.pos (mx * m)) with (Z.pos mx * Z.pos m). lia.
Qed.

Lemma add_atLeast (x : Float32.float) (t : Z) (m : positive) (e : Z) :
  atLeast t x = true -> -148 <= t ->
  atLeast t (Float32.add (S754_finite false m e) x) = true.
Proof.
  destruct x as [ | [ | ] | | [ | ] mx ex]; try discriminate.
  - reflexivity.
  - cbn [atLeast]. intros H Ht. apply andb_true_iff in H as (_ & H).
    apply Z.leb_le in H.
    change (Z.pos (digits2_pos mx)) with (Zdigits2 (Z.pos mx)) in H.
    rewrite Zdigits2_log2 in H by lia.
    unfold Float32.add, SFadd. cbn [cond_Zopp].
    set (ez := Z.min e ex).
    pose proof (shl_align_spec mx ex ez) as (A & B).
    specialize (B ltac:(lia)). rewrite B in A.
    change (Z.pos (fst (shl_align m e ez)) + Z.pos (fst (shl_align mx ex ez)))
      with (Z.pos (fst (shl_align m e ez) + fst (shl_align mx ex ez))).
    cbn [binary_normalize]. apply binary_round_atLeast; [exact Ht | ].
    pose proof (Z.log2_le_mono (Z.pos (fst (shl_align mx ex ez)))
                  (Z.pos (fst (shl_align m e ez) + fst (shl_align mx ex ez)))
                  ltac:(lia)).
    lia.
Qed.

Lemma binary_round_aux_exact (s : bool) (m : positive) (e : Z) :
  Z.pos (digits2_pos m) = 24 -> -149 <= e <= 104 ->
  binary_round_aux Float32.prec Float32.emax s (Z.pos m) e loc_Exact
  = S754_finite s m e.
Proof.
  intros Hd He.
  assert (forall l, shr_fexp Float32.prec Float32.emax (Z.pos m) e l
                    = (shr_record_of_loc (Z.pos m) l, e)) as E.
  { intros l. unfold shr_fexp. cbn [Zdigits2]. rewrite Hd, fexp_eq.
    replace (Z.max (24 + e - 24) (-149) - e) with 0 by lia. reflexivity. }
  unfold binary_round_aux. rewrite E. cbn [shr_record_of_loc shr_m
    loc_of_shr_record round_nearest_even]. rewrite E. cbn [shr_record_of_loc shr_m].
  destruct (Z.leb_spec e (Float32.emax - Float32.prec)) as [ | H]; [reflexivity | ].
  unfold Float32.emax, Float32.prec in H. lia.
Qed.

Lemma pos_iter_xO (m d : positive) :
  Z.pos (Pos.iter xO m d) = Z.pos m * 2 ^ Z.pos d.
Proof.
  induction d as [ | d IH] using Pos.peano_ind.
  - cbn [Pos.iter]. lia.
  - rewrite Pos.iter_succ, Pos2Z.inj_succ, Z.pow_succ_r by lia.
    rewrite Pos2Z.inj_xO, IH. lia.
Qed.

Lemma ofInt_bits (p : positive) :
  Z.pos p < 2 ^ 24 ->
  exists m,
    Float32.ofInt (Z.pos p) = S754_finite false m (Z.log2 (Z.pos p) - 23)
    /\ Z.pos (digits2_pos m) = 24
    /\ Z.pos m = Z.pos p * 2 ^ (23 - Z.log2 (Z.pos p)).
Proof.
  intros Hp.
  assert (0 <= Z.log2 (Z.pos p) < 24) as Hl.
  { split; [apply Z.log2_nonneg | ]. apply Z.log2_lt_pow2; lia. }
  unfold Float32.ofInt. cbn [binary_normalize]. unfold binary_round.
  change (Z.pos (digits2_pos p)) with (Zdigits2 (Z.pos p)).
  rewrite Zdigits2_log2, fexp_eq by lia.
  replace (Z.max (Z.log2 (Z.pos p) + 1 + 0 - 24) (-149))
    with (Z.log2 (Z.pos p) - 23) by lia.
  unfold shl_align.
  destruct (Z.log2 (Z.pos p) - 23 - 0) as [ | d | d] eqn:E; try lia.
  - exists p.
    assert (Z.pos (digits2_pos p) = 24) as Hd.
    { change (Z.pos (digits2_pos p)) with (Zdigits2 (Z.pos p)).
      rewrite Zdigits2_log2 by lia. lia. }
    rewrite binary_round_aux_exact by (exact Hd || lia).
    replace (Z.log2 (Z.pos p) - 23) with 0 by lia.
    replace (23 - Z.log2 (Z.pos p)) with 0 by lia.
    split; [reflexivity | split; [exact Hd | lia]].
  - exists (Pos.iter xO p d).
    assert (Z.pos (digits2_pos (Pos.iter xO p d)) = 24) as Hd.
    { change (Z.pos (digits2_pos (Pos.iter xO p d)))
        with (Zdigits2 (Z.pos (Pos.iter xO p d))).
      rewrite Zdigits2_log2, log2_iter_xO by lia. lia. }
    rewrite binary_round_aux_exact by (exact Hd || lia).
    split; [reflexivity | split; [exact Hd | ]].
    rewrite pos_iter_xO. f_equal. f_equal. lia.
Qed.

Lemma div_pow2_24 (m : positive) (e : Z) :
  Z.pos (digits2_pos m) = 24 -> -100 <= e <= 100 ->
  Float32.div (S754_finite false m e) (Float32.ofInt (2 ^ 24))
  = S754_finite false m (e - 24).
Proof.
  intros Hd He.
  change (Float32.ofInt (2 ^ 24)) with (S754_finite false 8388608 1).
  unfold Float32.div, SFdiv, SFdiv_core_binary.
  cbn [Zdigits2]. rewrite Hd.
  change (Z.pos (digits2_pos 8388608)) with 24. rewrite fexp_eq.
  replace (Z.min (Z.max (24 + e - (24 + 1) - 24) (-149)) (e - 1))
    with (e - 25) by lia.
  replace (e - 1 - (e - 25)) with 24 by lia.
  cbv beta iota zeta. rewrite Z.shiftl_mul_pow2 by lia.
  assert (Z.div_eucl (Z.pos m * 2 ^ 24) 8388608 = (Z.pos m~0, 0)) as Q.
  { pose proof (Z.div_eucl_eq (Z.pos m * 2 ^ 24) 8388608 ltac:(lia)) as Q.
    pose proof (Z.mod_pos_bound (Z.pos m * 2 ^ 24) 8388608 ltac:(lia)) as R.
    unfold Z.modulo in R.
    destruct (Z.div_eucl (Z.pos m * 2 ^ 24) 8388608) as [q r].
    f_equal; lia. }
  rewrite Q. cbn [xorb]. change (new_location 8388608 0) with loc_Exact.
  unfold binary_round_aux.
  assert (shr_fexp Float32.prec Float32.emax (Z.pos m~0) (e - 25) loc_Exact
          = ({| shr_m := Z.pos m; shr_r := false; shr_s := false |}, e - 24))
    as E1.
  { unfold shr_fexp. cbn [Zdigits2 digits2_pos]. rewrite Pos2Z.inj_succ, Hd, fexp_eq.
    replace (Z.max (Z.succ 24 + (e - 25) - 24) (-149) - (e - 25)) with 1 by lia.
    cbn. f_equal. lia. }
  rewrite E1. cbn [shr_m loc_of_shr_record round_nearest_even].
  assert (shr_fexp Float32.prec Float32.emax (Z.pos m) (e - 24) loc_Exact
          = ({| shr_m := Z.pos m; shr_r := false; shr_s := false |}, e - 24))
    as E2.
  { unfold shr_fexp. cbn [Zdigits2]. rewrite Hd, fexp_eq.
    replace (Z.max (24 + (e - 24) - 24) (-149) - (e - 24)) with 0 by lia.
    reflexivity. }
  rewrite E2. cbn [shr_m].
  destruct (Z.leb_spec (e - 24) (Float32.emax - Float32.prec)) as [ | H];
    [reflexivity | ].
  unfold Float32.emax, Float32.prec in H. lia.
Qed.

(** The float of a 24-bit sample [k] is [k * 2^-24], normalised. *)
Lemma floatOfBits24_pos (k : Z) :
  0 < k < 2 ^ 24 ->
  exists m,
    Random.floatOfBits24 k = S754_finite false m (Z.log2 k - 47)
    /\ Z.pos m = k * 2 ^ (23 - Z.log2 k).
Proof.
  intros Hk. destruct k as [ | p | p]; try lia.
  destruct (ofInt_bits p ltac:(lia)) as (m & E & Hd & Hm).
  assert (0 <= Z.log2 (Z.pos p) < 24) as Hl.
  { split; [apply Z.log2_nonneg | ]. apply Z.log2_lt_pow2; lia. }
  exists m. unfold Random.floatOfBits24. rewrite E.
  rewrite div_pow2_24 by (exact Hd || lia).
  split; [f_equal; lia | exact Hm].
Qed.

(** Comparing a sample with a normal float between 2^-25 and 1. *)
Lemma ltb_floatOfBits24 (k : Z) (mc : positive) (ec : Z) :
  0 <= k < 2 ^ 24 -> 2 ^ 23 <= Z.pos mc < 2 ^ 24 -> -48 <= ec <= -24 ->
  Float32.ltb (Random.floatOfBits24 k) (S754_finite false mc ec)
  = (k * 2 ^ (-24 - ec) <? Z.pos mc).
Proof.
  intros Hk Hc He.
  destruct (Z.eq_dec k 0) as [-> | Hz].
  { cbn. symmetry. apply Z.ltb_lt. lia. }
  destruct (floatOfBits24_pos k ltac:(lia)) as (m & -> & Hm).
  assert (0 <= Z.log2 k < 24) as Hl.
  { split; [apply Z.log2_nonneg | ]. apply Z.log2_lt_pow2; lia. }
  destruct (Z.log2_spec k ltac:(lia)) as (Lo & Hi).
  unfold Float32.ltb, SFltb. cbn [SFcompare].
  destruct (Z.compare_spec (Z.log2 k - 47) ec) as [E | E | E].
  - replace (-24 - ec) with (23 - Z.log2 k) by lia. rewrite <- Hm.
    unfold Z.ltb. cbn [Z.compare]. rewrite Pos.compare_cont_spec.
    now destruct (m ?= mc)%positive.
  - symmetry. apply Z.ltb_lt.
    assert (k * 2 ^ (-24 - ec) < 2 ^ Z.succ (Z.log2 k) * 2 ^ (-24 - ec)) as A
        by (apply Z.mul_lt_mono_pos_r; [apply Z.pow_pos_nonneg; lia | lia]).
    rewrite <- Z.pow_add_r in A by lia.
    assert (2 ^ (Z.succ (Z.log2 k) + (-24 - ec)) <= 2 ^ 23) as B
        by (apply Z.pow_le_mono_r; lia).
    lia.
  - symmetry. apply Z.ltb_ge.
    assert (2 ^ Z.log2 k * 2 ^ (-24 - ec) <= k * 2 ^ (-24 - ec)) as A
        by (apply Z.mul_le_mono_nonneg_r; [apply Z.pow_nonneg; lia | lia]).
    rewrite <- Z.pow_add_r in A by lia.
    assert (2 ^ 24 <= 2 ^ (Z.log2 k + (-24 - ec))) as B
        by (apply Z.pow_le_mono_r; lia).
    lia.
Qed.

End Float32Facts.

Module ChanceFacts.

Import Float32Facts.

(** From level 32 on the sum is at least 1/4, above the cap. *)
Lemma chance_capped_high (level : Z) :
  32 <= level -> PowerUpType.chance level = PowerUpType.maxChance.
Proof.
  intros H. unfold PowerUpType.chance, Float32.mulInt.
  assert (5 <= Z.log2 level) as Hl.
  { change 5 with (Z.log2 32). apply Z.log2_le_mono. lia. }
  pose proof (ofInt_atLeast level 6 ltac:(lia) ltac:(lia) ltac:(lia)) as A.
  change PowerUpType.levelStep with (S754_finite false 10737418 (-30)).
  pose proof (mul_atLeast _ 6 10737418 (-30) A ltac:(cbn; lia)) as B.
  change (6 + Z.log2 (Z.pos 10737418) + -30) with (-1) in B.
  change PowerUpType.baseChance with (S754_finite false 13421773 (-28)).
  pose proof (add_atLeast _ (-1) 13421773 (-28) B ltac:(lia)) as C.
  destruct (Float32.add _ _) as [ | [ | ] | | [ | ] my ey]; try discriminate.
  - reflexivity.
  - cbn [atLeast] in C. apply andb_true_iff in C as (C1 & C2).
    apply Z.leb_le in C1, C2.
    unfold Float32.coerceAtMost, Float32.ltb, SFltb.
    change PowerUpType.maxChance with (S754_finite false 10066330 (-26)).
    cbn [SFcompare]. destruct (Z.compare_spec (-26) ey); try lia. reflexivity.
Qed.

Lemma chance_capped (level : Z) :
  11 <= level -> PowerUpType.chance level = PowerUpType.maxChance.
Proof.
  intros H. destruct (Z.le_gt_cases 32 level) as [Hh | Hh];
    [now apply chance_capped_high | ].
  assert (exists n : nat, (n < 21)%nat /\ level = 11 + Z.of_nat n) as (n & Hn & ->)
      by (exists (Z.to_nat (level - 11)); lia).
  do 21 (destruct n as [ | n]; [vm_compute; reflexivity | ]). lia.
Qed.

Lemma ltb_chance (k level : Z) :
  0 <= k < 2 ^ 24 -> 0 <= level ->
  Float32.ltb (Random.floatOfBits24 k) (PowerUpType.chance level)
  = if level =? 8 then k <? 2181038 else belowExactChance k level.
Proof.
  intros Hk Hl. unfold belowExactChance.
  destruct (Z.le_gt_cases 11 level) as [Hh | Hh].
  - rewrite chance_capped by exact Hh.
    change PowerUpType.maxChance with (S754_finite false 10066330 (-26)).
    rewrite ltb_floatOfBits24 by lia.
    destruct (Z.eqb_spec level 8); [lia | ].
    rewrite Z.min_r by lia. change (2 ^ (-24 - -26)) with 4.
    change (2 ^ 24) with 16777216 in *.
    destruct (Z.ltb_spec (k * 4) 10066330), (Z.ltb_spec (100 * k) (15 * 16777216));
      lia || reflexivity.
  - assert (exists n : nat, (n < 11)%nat /\ level = Z.of_nat n) as (n & Hn & ->)
        by (exists (Z.to_nat level); lia).
    do 11 (destruct n as [ | n];
           [ match goal with
             | |- Float32.ltb _ ?c = _ =>
                 let c' := eval vm_compute in c in change c with c'
             end;
             rewrite ltb_floatOfBits24 by lia;
             match goal with
             | |- (k * ?p <? _) = _ =>
                 let p' := eval vm_compute in p in change p with p'
             end;
             match goal with
             | |- _ = (if ?b then _ else _) =>
                 let b' := eval vm_compute in b in change b with b'
             end;
             cbv iota;
             try match goal with
             | |- _ = (_ <? ?t) =>
                 let t' := eval vm_compute in t in change t with t'
             end;
             change (2 ^ 24) with 16777216 in *;
             match goal with
             | |- (?a <? ?b) = (?c <? ?d) =>
                 destruct (Z.ltb_spec a b), (Z.ltb_spec c d); lia || reflexivity
             end
           | ]).
    lia.
Qed.

End ChanceFacts.

(** C9 (amended): for every level from 0 on, [shouldGeneratePowerUp] draws
    one 24-bit sample [k] and succeeds exactly when [k / 2^24] is below
    [min(0.05 + 0.01 * level, 0.15)], except at level 8, where the float
    sum is [2181038 / 2^24], just below 0.13, and the sample [k = 2181038]
    does not succeed; at level 1 it succeeds for the [1006633] samples
    below 6%, not 5%. *)
Theorem shouldGeneratePowerUp_threshold (level : Z) (w : World) :
  0 <= level ->
  PowerUpType.shouldGeneratePowerUp level w
  = (if level =? 8 then sampleOf w <? 2181038
     else belowExactChance (sampleOf w) level,
     snd (Random.next w))
  /\ (level = 1 ->
      fst (PowerUpType.shouldGeneratePowerUp level w)
      = (sampleOf w <? 1006633)).
Proof.
  intros Hl.
  assert (0 <= sampleOf w < 2 ^ 24) as Hk
      by (unfold sampleOf; apply Z.mod_pos_bound; lia).
  assert (PowerUpType.shouldGeneratePowerUp level w
          = (if level =? 8 then sampleOf w <? 2181038
             else belowExactChance (sampleOf w) level,
             snd (Random.next w))) as E.
  { unfold PowerUpType.shouldGeneratePowerUp, Random.nextFloat,
      Random.nextBits24, Random.next. cbn [fst snd].
    fold (sampleOf w). now rewrite ChanceFacts.ltb_chance. }
  split; [exact E | ]. intros ->. rewrite E. cbn [fst Z.eqb Pos.eqb].
  unfold belowExactChance. change (2 ^ 24) with 16777216 in *.
  change (Z.min (5 + 1) 15 * 16777216) with 100663296.
  destruct (Z.ltb_spec (100 * sampleOf w) 100663296),
           (Z.ltb_spec (sampleOf w) 1006633); lia || reflexivity.
Qed.

Lemma shouldGeneratePowerUp_threshold_witness :
  0 <= 1
  /\ PowerUpType.shouldGeneratePowerUp 1 (worldOf [900000] [])
     = (true, snd (Random.next (worldOf [900000] []))).
Proof.
  split; [lia | ].
  exact (proj1 (shouldGeneratePowerUp_threshold 1 (worldOf [900000] [])
                  ltac:(lia))).
Defined.

(** C9, counterexample: at level 1 the sample 900000, which is not below
    5% of 2^24, succeeds: the threshold is 1006633 / 2^24, 6%. At level 8
    the sample 2181038, below 13% of 2^24, does not succeed. *)
Lemma level_one_chance_above_five_percent :
  sampleOf (worldOf [900000] []) = 900000
  /\ 5 * 2 ^ 24 <= 100 * 900000
  /\ fst (PowerUpType.shouldGeneratePowerUp 1 (worldOf [900000] [])) = true
  /\ PowerUpType.chance 1 = S754_finite false 16106128 (-28)
  /\ 16 * 1006633 = 16106128
  /\ sampleOf (worldOf [2181038] []) = 2181038
  /\ belowExactChance 2181038 8 = true
  /\ fst (PowerUpType.shouldGeneratePowerUp 8 (worldOf [2181038] [])) = false.
Proof. repeat split; vm_compute; congruence. Qed.

(** Below level 0, which no session reaches, the float sum at level -5 is
    not zero: the sample 0 succeeds. *)
Example chance_at_level_minus_five :
  fst (PowerUpType.shouldGeneratePowerUp (-5) (worldOf [0] [])) = true
  /\ belowExactChance (sampleOf (worldOf [0] [])) (-5) = false
  /\ PowerUpType.chance (-5) = S754_finite false 8388608 (-51).
Proof. repeat split; vm_compute; reflexivity. Qed.

Import Float32Facts.
Import ChanceFacts.

(** * Further properties of the code *)

(** ** Pieces and their blocks *)

Module TetriminoFacts.

Lemma wrap32_add_l (a b : Z) :
  Int32.wrap32 (Int32.wrap32 a + b) = Int32.wrap32 (a + b).
Proof.
  unfold Int32.wrap32. f_equal.
  replace ((a + 2 ^ 31) mod 2 ^ 32 - 2 ^ 31 + b + 2 ^ 31)
    with ((a + 2 ^ 31) mod 2 ^ 32 + b) by lia.
  rewrite Zplus_mod_idemp_l. f_equal. lia.
Qed.

Lemma add_add_comm (x a b : Z) :
  Int32.add (Int32.add x a) b = Int32.add (Int32.add x b) a.
Proof.
  unfold Int32.add. rewrite !wrap32_add_l. f_equal. lia.
Qed.

Lemma add_injective (x a b : Z) :
  - 2 ^ 31 < a - b < 2 ^ 31 -> Int32.add x a = Int32.add x b -> a = b.
Proof.
  unfold Int32.add, Int32.wrap32. intros Hab E.
  assert ((x + a + 2 ^ 31) mod 2 ^ 32 = (x + b + 2 ^ 31) mod 2 ^ 32) as E' by lia.
  assert ((a - b) mod 2 ^ 32 = 0) as D.
  { replace (a - b) with ((x + a + 2 ^ 31) - (x + b + 2 ^ 31)) by lia.
    rewrite Zminus_mod, E', Z.sub_diag. reflexivity. }
  apply Z.mod_divide in D; [ | lia]. destruct D as [k D]. lia.
Qed.

(** The blocks of a piece follow its anchor. *)
Lemma getBlocks_shift (ty : TetriminoType.t) (pos pos' : Position) (rot : Z)
      (pu pu' : option PowerUpType.t) (hx hy : Z -> Z) :
  (forall d, Int32.add (pos_x pos') d = hx (Int32.add (pos_x pos) d)) ->
  (forall d, Int32.add (pos_y pos') d = hy (Int32.add (pos_y pos) d)) ->
  Tetrimino.getBlocks (Tetrimino.mk ty pos' rot pu')
  = map (fun b => mkPosition (hx (pos_x b)) (hy (pos_y b)))
        (Tetrimino.getBlocks (Tetrimino.mk ty pos rot pu)).
Proof.
  intros Ex Ey.
  unfold Tetrimino.getBlocks, Tetrimino.shape.
  cbn [Tetrimino.type Tetrimino.rotation Tetrimino.position].
  generalize (TetriminoType.getShape ty rot). intros sh.
  unfold Tetrimino.indexed.
  rewrite !flat_map_concat_map, !concat_map, !map_map. f_equal.
  apply map_ext. intros [y row].
  rewrite !flat_map_concat_map, !concat_map, !map_map. f_equal.
  apply map_ext. intros [x c]. destruct (c =? 1); [ | reflexivity].
  cbn. now rewrite Ex, Ey.
Qed.

(** The four offsets of a shape are distinct. *)
Lemma getBlocks_four_distinct (p : Tetrimino.t) :
  exists d1 d2 d3 d4,
    Tetrimino.getBlocks p = map (blockAt p) [d1; d2; d3; d4]
    /\ Forall inBox [d1; d2; d3; d4]
    /\ NoDup [d1; d2; d3; d4].
Proof.
  destruct p as [ty [px py] rot pu].
  unfold Tetrimino.getBlocks, Tetrimino.shape, blockAt; cbn [Tetrimino.type
    Tetrimino.rotation Tetrimino.position pos_x pos_y].
  destruct ty; cbn [TetriminoType.getShape];
    repeat match goal with
           | |- context [if ?b then _ else _] => destruct b
           end;
    cbn;
    match goal with
    | |- exists d1 d2 d3 d4, [mkPosition (Int32.add _ ?a1) (Int32.add _ ?b1);
                              mkPosition (Int32.add _ ?a2) (Int32.add _ ?b2);
                              mkPosition (Int32.add _ ?a3) (Int32.add _ ?b3);
                              mkPosition (Int32.add _ ?a4) (Int32.add _ ?b4)]
                             = _ /\ _ =>
        exists (a1, b1), (a2, b2), (a3, b3), (a4, b4)
    end;
    (split;
     [ reflexivity
     | split;
       [ repeat (apply List.Forall_cons; [unfold inBox; cbn; lia | ]);
         apply List.Forall_nil
       | apply NoDup_ListNoDup; cbv; repeat constructor; cbn;
         intuition congruence ] ]).
Qed.

Lemma blockAt_injective (p : Tetrimino.t) (d d' : Z * Z) :
  inBox d -> inBox d' -> blockAt p d = blockAt p d' -> d = d'.
Proof.
  intros [Hx Hy] [Hx' Hy'] E. unfold blockAt in E. injection E as Ex Ey.
  apply add_injective in Ex; [ | lia]. apply add_injective in Ey; [ | lia].
  destruct d, d'; cbn in *; congruence.
Qed.

End TetriminoFacts.

Import TetriminoFacts.

(** X1. Every piece, whatever its type, rotation index and position, has
    exactly four blocks; they are distinct and lie at offsets 0..3 from the
    anchor in both directions. *)
Theorem tetrimino_has_four_distinct_blocks (p : Tetrimino.t) :
  length (Tetrimino.getBlocks p) = 4%nat
  /\ NoDup (Tetrimino.getBlocks p)
  /\ forall b, In b (Tetrimino.getBlocks p) ->
       exists dx dy, 0 <= dx <= 3 /\ 0 <= dy <= 3
                     /\ pos_x b = Int32.add (pos_x (Tetrimino.position p)) dx
                     /\ pos_y b = Int32.add (pos_y (Tetrimino.position p)) dy.
Proof.
  destruct (TetriminoFacts.getBlocks_four_distinct p)
    as (d1 & d2 & d3 & d4 & E & B & N).
  rewrite E. split; [reflexivity | ]. split.
  - apply NoDup_fmap_2_strong; [ | exact N].
    intros d d' Hd Hd' Eq. rewrite Forall_forall in B.
    apply (TetriminoFacts.blockAt_injective p); auto.
  - intros b Hb. apply in_map_iff in Hb as (d & <- & Hd).
    rewrite Forall_forall in B. apply list_elem_of_In in Hd.
    destruct (B d Hd) as [Hx Hy]. exists (fst d), (snd d). now repeat split.
Qed.

(** X2. A move translates every block by one cell and changes nothing else
    of the piece, in [Int] arithmetic. *)
Theorem moves_translate_blocks (p : Tetrimino.t) :
  Tetrimino.getBlocks (Tetrimino.moveLeft p)
  = map (fun b => mkPosition (Int32.sub (pos_x b) 1) (pos_y b))
        (Tetrimino.getBlocks p)
  /\ Tetrimino.getBlocks (Tetrimino.moveRight p)
     = map (fun b => mkPosition (Int32.add (pos_x b) 1) (pos_y b))
           (Tetrimino.getBlocks p)
  /\ Tetrimino.getBlocks (Tetrimino.moveDown p)
     = map (fun b => mkPosition (pos_x b) (Int32.add (pos_y b) 1))
           (Tetrimino.getBlocks p)
  /\ Tetrimino.shape (Tetrimino.moveLeft p) = Tetrimino.shape p
  /\ Tetrimino.shape (Tetrimino.moveRight p) = Tetrimino.shape p
  /\ Tetrimino.shape (Tetrimino.moveDown p) = Tetrimino.shape p.
Proof.
  destruct p as [ty pos rot pu].
  unfold Tetrimino.moveLeft, Tetrimino.moveRight, Tetrimino.moveDown.
  cbn [Tetrimino.type Tetrimino.position Tetrimino.rotation Tetrimino.powerUp].
  repeat split.
  - apply (TetriminoFacts.getBlocks_shift ty pos _ rot pu pu
             (fun v => Int32.sub v 1) (fun v => v)); cbn; intros d;
      [ | reflexivity].
    change (Int32.sub (pos_x pos) 1) with (Int32.add (pos_x pos) (-1)).
    change (Int32.sub (Int32.add (pos_x pos) d) 1)
      with (Int32.add (Int32.add (pos_x pos) d) (-1)).
    apply TetriminoFacts.add_add_comm.
  - apply (TetriminoFacts.getBlocks_shift ty pos _ rot pu pu
             (fun v => Int32.add v 1) (fun v => v)); cbn; intros d;
      [apply TetriminoFacts.add_add_comm | reflexivity].
  - apply (TetriminoFacts.getBlocks_shift ty pos _ rot pu pu
             (fun v => v) (fun v => Int32.add v 1)); cbn; intros d;
      [reflexivity | apply TetriminoFacts.add_add_comm].
Qed.

(** X3. With a rotation index of the shape table, four rotations give the
    piece back and keep the index in the table; an O piece has one
    orientation, and I, S and Z pieces have two. *)
Theorem rotate_orientations (p : Tetrimino.t) :
  rotationOk p ->
  rotationOk (Tetrimino.rotate p)
  /\ Tetrimino.rotate (Tetrimino.rotate (Tetrimino.rotate (Tetrimino.rotate p)))
     = p
  /\ Tetrimino.rotate p <> p
  /\ (Tetrimino.type p = TetriminoType.O ->
      Tetrimino.getBlocks (Tetrimino.rotate p) = Tetrimino.getBlocks p)
  /\ (Tetrimino.type p = TetriminoType.I \/ Tetrimino.type p = TetriminoType.S
      \/ Tetrimino.type p = TetriminoType.Z ->
      Tetrimino.getBlocks (Tetrimino.rotate (Tetrimino.rotate p))
      = Tetrimino.getBlocks p).
Proof.
  destruct p as [ty pos rot pu]. unfold rotationOk. cbn [Tetrimino.rotation].
  intros H.
  assert (rot = 0 \/ rot = 1 \/ rot = 2 \/ rot = 3) as [-> | [-> | [-> | ->]]]
      by lia;
    (split;
     [ unfold rotationOk, Tetrimino.rotate; cbn [Tetrimino.rotation];
       match goal with
       | |- 0 <= ?x <= 3 =>
           let v := eval vm_compute in x in change x with v
       end; lia
     | ]);
    (split; [reflexivity | ]);
    (split; [discriminate | ]);
    (split; [cbn [Tetrimino.type]; intros ->; reflexivity | ]);
    cbn [Tetrimino.type]; intros [-> | [-> | ->]]; reflexivity.
Qed.

Lemma rotate_orientations_witness :
  rotationOk verticalI
  /\ Tetrimino.getBlocks (Tetrimino.rotate (Tetrimino.rotate verticalI))
     = Tetrimino.getBlocks verticalI.
Proof.
  assert (rotationOk verticalI) as H by (unfold rotationOk; cbn; lia).
  split; [exact H | ].
  apply (rotate_orientations verticalI H). left. reflexivity.
Defined.

(** ** The rarity of orbs *)

(** X4. [Orb.createRandom] draws one sample [k / 2^24] and makes, at the
    given position, a SMALL orb for the 10066330 samples below 0.6f, a
    MEDIUM orb for the next 5033164 samples, below 0.9f, and a LARGE orb
    for the remaining 1677722; the multiplier of the orb is that of its
    type, 2, 3 or 5. *)
Theorem createRandom_rarity (position : Position) (w : World) :
  Orb.createRandom position w
  = (Orb.mk position
            (OrbType.multiplier (orbTypeOf (sampleOf w)))
            (orbTypeOf (sampleOf w)),
     snd (Random.next w))
  /\ Orb.multiplier (fst (Orb.createRandom position w))
     = match Orb.type (fst (Orb.createRandom position w)) with
       | OrbType.SMALL => 2
       | OrbType.MEDIUM => 3
       | OrbType.LARGE => 5
       end
  /\ 0 <= sampleOf w < 2 ^ 24.
Proof.
  assert (0 <= sampleOf w < 2 ^ 24) as Hk
      by (unfold sampleOf; apply Z.mod_pos_bound; lia).
  assert (Orb.createRandom position w
          = (Orb.mk position
               (OrbType.multiplier (orbTypeOf (sampleOf w)))
               (orbTypeOf (sampleOf w)),
             snd (Random.next w))) as E.
  { unfold Orb.createRandom, Random.nextFloat, Random.nextBits24, Random.next.
    cbn [fst snd]. fold (sampleOf w).
    change (Float32.literal 6 10) with (S754_finite false 10066330 (-24)).
    change (Float32.literal 9 10) with (S754_finite false 15099494 (-24)).
    rewrite !ltb_floatOfBits24 by lia.
    change (2 ^ (-24 - -24)) with 1. rewrite Z.mul_1_r. reflexivity. }
  split; [exact E | ]. split; [ | exact Hk].
  rewrite E. cbn [fst Orb.multiplier Orb.type].
  now destruct (orbTypeOf (sampleOf w)).
Qed.

(** ** [reset], and rows outside the grid *)

Module ResetFacts.

Lemma Forall_eq_replicate {A : Type} (l : list A) (x : A) :
  Forall (fun y => y = x) l -> l = replicate (length l) x.
Proof.
  induction 1 as [ | y l -> _ IH]; [reflexivity | ]. cbn. now f_equal.
Qed.

Lemma reset_create (g : Grid.t) :
  wellFormed g -> Grid.reset g = Ok (Grid.create (Grid.width g) (Grid.height g)).
Proof.
  intros WF. destruct (reset_ok g WF) as (c' & E & WF' & F). rewrite E.
  unfold Grid.create. do 2 f_equal.
  destruct WF' as (_ & _ & Hl & _). cbn in Hl. rewrite <- Hl.
  now apply Forall_eq_replicate.
Qed.

End ResetFacts.

Import ResetFacts.

(** X5. [reset] gives back the grid of the constructor: every cell 0, no
    colour, the first colour index 1, no orb. *)
Theorem reset_is_constructor (g : Grid.t) :
  wellFormed g -> Grid.reset g = Ok (Grid.create (Grid.width g) (Grid.height g)).
Proof.
  exact (ResetFacts.reset_create g).
Qed.

Lemma reset_is_constructor_witness :
  wellFormed smallGrid /\ Grid.reset smallGrid = Ok (Grid.create 2 2).
Proof.
  assert (wellFormed smallGrid) as WF.
  { unfold wellFormed. cbn. repeat split; try lia. repeat constructor. }
  split; [exact WF | exact (reset_is_constructor smallGrid WF)].
Defined.

Module BoundsFacts.

Lemma aget_out {A : Type} (a : list A) (i : Z) :
  i < 0 \/ Z.of_nat (length a) <= i -> aget a i = Err IndexOutOfBounds.
Proof.
  intros H. unfold aget. destruct (Z.ltb_spec i 0); [reflexivity | ].
  rewrite (lookup_ge_None_2 a (Z.to_nat i)) by lia. reflexivity.
Qed.

Lemma aget_err {A : Type} (a : list A) (i : Z) (f : fault) :
  aget a i = Err f -> f = IndexOutOfBounds.
Proof.
  unfold aget. destruct (i <? 0); [congruence | ].
  destruct (a !! Z.to_nat i); congruence.
Qed.

Lemma aset_out {A : Type} (a : list A) (i : Z) (v : A) :
  i < 0 \/ Z.of_nat (length a) <= i -> aset a i v = Err IndexOutOfBounds.
Proof.
  intros H. unfold aset.
  destruct (Z.leb_spec 0 i), (Z.ltb_spec i (Z.of_nat (length a)));
    cbn; reflexivity || lia.
Qed.

End BoundsFacts.

Import BoundsFacts.

(** X6. On a grid with the dimensions of its constructor, [clearLine] and
    [isLineComplete] raise for a row outside the grid, and so does
    [shiftLinesDown] for a row at or beyond the height; [clearCell],
    [isEmpty] and [getColorAt] are guarded: on a position outside the grid
    they change nothing and answer "not empty" and "no colour". *)
Theorem rows_outside_the_grid_raise (g : Grid.t) (y : Z) :
  wellFormed g ->
  y < 0 \/ Grid.height g <= y ->
  Grid.clearLine g y = Err IndexOutOfBounds
  /\ Grid.isLineComplete g y = Err IndexOutOfBounds
  /\ (Grid.height g <= y -> Grid.shiftLinesDown g y = Err IndexOutOfBounds)
  /\ forall x, Grid.clearCell g (mkPosition x y) = Ok g
               /\ Grid.isEmpty g (mkPosition x y) = false
               /\ Grid.getColorAt g (mkPosition x y) = Ok None.
Proof.
  intros WF Hy. pose proof WF as (Hw & Hh & Hl & Hr).
  assert (y < 0 \/ Z.of_nat (length (Grid.cells g)) <= y) as Hy' by lia.
  split; [ | split; [ | split]].
  - unfold Grid.clearLine. rewrite until_cons by lia. cbn [forEach].
    unfold Grid.setCell. now rewrite BoundsFacts.aget_out.
  - unfold Grid.isLineComplete. now rewrite BoundsFacts.aget_out.
  - intros Hge. unfold Grid.shiftLinesDown.
    destruct (Z.eq_dec y 0) as [-> | Hne].
    + unfold downTo. rewrite (until_nil 1 (0 + 1)) by lia.
      cbn [rev forEach res_bind]. unfold Grid.clearLine. rewrite until_cons by lia. cbn [forEach].
      unfold Grid.setCell. now rewrite BoundsFacts.aget_out.
    + rewrite downTo_cons by lia. cbn [forEach].
      destruct (aget (Grid.cells g) (y - 1)) as [row | f] eqn:E.
      * cbn [res_bind]. now rewrite BoundsFacts.aset_out by lia.
      * cbn [res_bind]. apply BoundsFacts.aget_err in E. now subst.
  - intros x.
    assert (Grid.isInBounds g (mkPosition x y) = false) as B.
    { apply not_true_is_false. rewrite isInBounds_true. cbn. lia. }
    unfold Grid.clearCell, Grid.isEmpty, Grid.getColorAt. now rewrite B.
Qed.

Lemma rows_outside_the_grid_raise_witness :
  wellFormed smallGrid
  /\ Grid.clearLine smallGrid 2 = Err IndexOutOfBounds
  /\ Grid.getColorAt smallGrid (mkPosition 0 2) = Ok None.
Proof.
  assert (wellFormed smallGrid) as WF.
  { unfold wellFormed. cbn. repeat split; try lia. repeat constructor. }
  destruct (rows_outside_the_grid_raise smallGrid 2 WF) as (E1 & _ & _ & K).
  - right. cbn. lia.
  - split; [exact WF | ]. split; [exact E1 | ]. apply (K 0).
Defined.

(** ** [place] *)

Module PlaceFacts.

Lemma placeBlocks_spec (ci : Z) (blocks : list Position) :
  forall g0 : Grid.t,
    wellFormed g0 ->
    exists c',
      forEach blocks (placeBlock ci) g0 = Ok (Grid.with_cells g0 c')
      /\ wellFormed (Grid.with_cells g0 c')
      /\ forall x y,
           0 <= x < Grid.width g0 -> 0 <= y < Grid.height g0 ->
           Grid.cell (Grid.with_cells g0 c') x y
           = if existsb (Position_eqb (mkPosition x y)) blocks
             then Ok ci else Grid.cell g0 x y.
Proof.
  induction blocks as [ | b blocks IH]; intros g0 WF.
  - exists (Grid.cells g0). rewrite with_cells_id. cbn. repeat split; auto;
      apply WF.
  - cbn [forEach existsb]. unfold placeBlock at 1.
    destruct (Grid.isInBounds g0 b) eqn:B.
    + apply isInBounds_true in B.
      destruct (setCell_spec g0 (pos_x b) (pos_y b) ci WF) as (c1 & E1 & WF1 & K1);
        [lia | lia | ].
      rewrite E1. cbn [res_bind].
      destruct (IH _ WF1) as (c2 & E2 & WF2 & K2).
      change (Grid.with_cells (Grid.with_cells g0 c1) c2)
        with (Grid.with_cells g0 c2) in *.
      change (Grid.width (Grid.with_cells g0 c1)) with (Grid.width g0) in K2.
      change (Grid.height (Grid.with_cells g0 c1)) with (Grid.height g0) in K2.
      exists c2. split; [exact E2 | ]. split; [exact WF2 | ].
      intros x y Hx Hy. rewrite (K2 x y Hx Hy), K1.
      unfold Position_eqb at 1. cbn [pos_x pos_y].
      destruct (existsb _ blocks); [now rewrite orb_true_r | ].
      now rewrite orb_false_r.
    + cbn [res_bind]. destruct (IH _ WF) as (c2 & E2 & WF2 & K2).
      exists c2. split; [exact E2 | ]. split; [exact WF2 | ].
      intros x y Hx Hy. rewrite (K2 x y Hx Hy).
      assert (Position_eqb (mkPosition x y) b = false) as ->; [ | reflexivity].
      apply not_true_is_false. intros H. unfold Position_eqb in H. cbn in H.
      apply andb_prop in H as [H1 H2]. apply Z.eqb_eq in H1, H2. subst.
      apply not_true_iff_false in B. apply B. apply isInBounds_true. lia.
Qed.

Lemma getColorIndex_frame (g : Grid.t) (color : Color) :
  let g1 := snd (Grid.getColorIndex g color) in
  Grid.width g1 = Grid.width g /\ Grid.height g1 = Grid.height g
  /\ Grid.cells g1 = Grid.cells g /\ Grid.orbs g1 = Grid.orbs g.
Proof.
  unfold Grid.getColorIndex. destruct (find _ _); cbn; auto.
Qed.

Lemma place_spec (g : Grid.t) (p : Tetrimino.t) :
  wellFormed g ->
  exists c',
    Grid.place g p
    = Ok (Grid.with_cells (snd (Grid.getColorIndex g (Tetrimino.color p))) c')
    /\ wellFormed
         (Grid.with_cells (snd (Grid.getColorIndex g (Tetrimino.color p))) c')
    /\ forall x y,
         0 <= x < Grid.width g -> 0 <= y < Grid.height g ->
         Grid.cell
           (Grid.with_cells (snd (Grid.getColorIndex g (Tetrimino.color p))) c')
           x y
         = if covers p x y
           then Ok (fst (Grid.getColorIndex g (Tetrimino.color p)))
           else Grid.cell g x y.
Proof.
  intros WF. unfold Grid.place.
  pose proof (getColorIndex_frame g (Tetrimino.color p)) as (Ew & Eh & Ec & Eo).
  destruct (Grid.getColorIndex g (Tetrimino.color p)) as [ci g1].
  cbn [fst snd] in *.
  assert (wellFormed g1) as WF1
      by (unfold wellFormed in *; now rewrite Ew, Eh, Ec).
  destruct (placeBlocks_spec ci (Tetrimino.getBlocks p) g1 WF1)
    as (c' & E & WF' & K).
  exists c'. split; [exact E | ]. split; [exact WF' | ].
  intros x y Hx Hy. rewrite K by lia. unfold covers.
  destruct (existsb _ _); [reflexivity | ].
  unfold Grid.cell. now rewrite Ec.
Qed.

End PlaceFacts.

Import PlaceFacts.

(** X7. [place] never raises on a grid with the dimensions of its
    constructor, wherever the piece is: it writes the colour index of the
    piece into the cells of the blocks that are on the grid, skips the
    others, and leaves every other cell, the dimensions and the orbs as
    they were. *)
Theorem place_writes_the_blocks_on_the_grid (g : Grid.t) (p : Tetrimino.t) :
  wellFormed g ->
  exists g',
    Grid.place g p = Ok g'
    /\ wellFormed g'
    /\ Grid.width g' = Grid.width g /\ Grid.height g' = Grid.height g
    /\ Grid.orbs g' = Grid.orbs g
    /\ forall x y,
         0 <= x < Grid.width g -> 0 <= y < Grid.height g ->
         Grid.cell g' x y
         = if covers p x y
           then Ok (fst (Grid.getColorIndex g (Tetrimino.color p)))
           else Grid.cell g x y.
Proof.
  intros WF. destruct (PlaceFacts.place_spec g p WF) as (c' & E & WF' & K).
  pose proof (PlaceFacts.getColorIndex_frame g (Tetrimino.color p))
    as (Ew & Eh & Ec & Eo).
  eexists. split; [exact E | ]. split; [exact WF' | ].
  cbn [Grid.width Grid.height Grid.orbs Grid.with_cells].
  repeat split; assumption.
Qed.

Lemma place_writes_the_blocks_on_the_grid_witness :
  exists g',
    Grid.place (Grid.create 10 20) verticalI = Ok g'
    /\ Grid.cell g' 6 0 = Ok 1 /\ Grid.cell g' 5 0 = Ok 0.
Proof.
  destruct (place_writes_the_blocks_on_the_grid (Grid.create 10 20) verticalI
              (proj1 create_engineOk))
    as (g' & E & _ & _ & _ & _ & K).
  exists g'. split; [exact E | ].
  split; [exact (K 6 0 ltac:(cbn; lia) ltac:(cbn; lia))
         | exact (K 5 0 ltac:(cbn; lia) ltac:(cbn; lia))].
Defined.

(** ** Colours *)

Module ColorFacts.

Lemma cell_lookup (g : Grid.t) (x y v : Z) :
  Grid.cell g x y = Ok v
  <-> 0 <= x /\ 0 <= y
      /\ exists row, Grid.cells g !! Z.to_nat y = Some row
                     /\ row !! Z.to_nat x = Some v.
Proof.
  unfold Grid.cell. split.
  - intros E. destruct (aget (Grid.cells g) y) as [row | ] eqn:Er; [ | discriminate].
    cbn [res_bind] in E. apply aget_inv in Er as [Hy Er].
    apply aget_inv in E as [Hx E]. eauto.
  - intros (Hx & Hy & row & Er & E).
    rewrite (aget_ok _ _ _ Hy Er). cbn [res_bind]. now apply aget_ok.
Qed.

(** A property of all cells, by rows or by coordinates. *)
Lemma cells_Forall (P : Z -> Prop) (g : Grid.t) :
  wellFormed g ->
  Forall (Forall P) (Grid.cells g)
  <-> forall x y v, 0 <= x < Grid.width g -> 0 <= y < Grid.height g ->
                    Grid.cell g x y = Ok v -> P v.
Proof.
  intros (Hw & Hh & Hl & Hr). split.
  - intros F x y v Hx Hy E. apply cell_lookup in E as (_ & _ & row & Er & E).
    rewrite Forall_lookup in F. specialize (F _ _ Er).
    rewrite Forall_lookup in F. exact (F _ _ E).
  - intros H. apply Forall_lookup. intros k row Er.
    apply Forall_lookup. intros j v E.
    rewrite Forall_lookup in Hr. pose proof (Hr _ _ Er) as Hrow.
    apply lookup_lt_Some in Er as Hk. apply lookup_lt_Some in E as Hj.
    apply (H (Z.of_nat j) (Z.of_nat k) v); [lia | lia | ].
    apply cell_lookup. split; [lia | ]. split; [lia | ].
    exists row. now rewrite !Nat2Z.id.
Qed.

Lemma colorOf_In (m : list (Z * Color)) (k : Z) (c : Color) :
  NoDup (map fst m) -> In (k, c) m -> Grid.colorOf m k = Some c.
Proof.
  unfold Grid.colorOf. induction m as [ | [k0 c0] m IH]; intros N H; [destruct H | ].
  cbn [find fst]. destruct (Z.eqb_spec k0 k) as [-> | Hne].
  - destruct H as [[= ->] | H]; [reflexivity | ].
    cbn in N. apply NoDup_cons in N as [N _]. exfalso. apply N.
    apply list_elem_of_In. apply in_map_iff. now exists (k, c).
  - destruct H as [[= -> _] | H]; [congruence | ].
    cbn in N. apply NoDup_cons in N as [_ N]. now apply IH.
Qed.

Lemma colorOf_snoc (m : list (Z * Color)) (k k' : Z) (c : Color) :
  k' <> k -> Grid.colorOf (m ++ [(k, c)]) k' = Grid.colorOf m k'.
Proof.
  intros Hne. unfold Grid.colorOf. induction m as [ | [k0 c0] m IH].
  - cbn. destruct (Z.eqb_spec k k'); [congruence | reflexivity].
  - cbn [app find fst]. destruct (k0 =? k'); [reflexivity | exact IH].
Qed.

Lemma put_fresh (m : list (Z * Color)) (k : Z) (c : Color) :
  ~ In k (map fst m) -> Grid.put m k c = m ++ [(k, c)].
Proof.
  induction m as [ | [k0 c0] m IH]; intros H; [reflexivity | ].
  cbn [Grid.put app]. destruct (Z.eqb_spec k0 k) as [-> | Hne].
  - exfalso. apply H. now left.
  - f_equal. apply IH. intros Hin. apply H. now right.
Qed.

Lemma find_color (m : list (Z * Color)) (color : Color) :
  match find (fun e => snd e =? color) m with
  | Some e => In e m /\ snd e = color
  | None => ~ In color (map snd m)
  end.
Proof.
  induction m as [ | [k0 c0] m IH]; [intros [] | ].
  cbn [find snd]. destruct (Z.eqb_spec c0 color) as [-> | Hne].
  - split; [now left | reflexivity].
  - destruct (find (fun e => snd e =? color) m) as [e | ].
    + destruct IH. split; [now right | assumption].
    + cbn. intros [H | H]; [congruence | now apply IH].
Qed.

Lemma keys_range (m : list (Z * Color)) (k : Z) :
  map fst m = map Z.of_nat (seq 1 (length m)) ->
  In k (map fst m) <-> 1 <= k <= Z.of_nat (length m).
Proof.
  intros ->. rewrite in_map_iff. split.
  - intros (n & <- & Hn). apply in_seq in Hn. lia.
  - intros H. exists (Z.to_nat k). split; [lia | ]. apply in_seq. lia.
Qed.

Lemma keys_NoDup (m : list (Z * Color)) :
  map fst m = map Z.of_nat (seq 1 (length m)) -> NoDup (map fst m).
Proof.
  intros ->. apply NoDup_fmap_2; [intros a b; lia | ]. apply NoDup_seq.
Qed.

Lemma colors_bound (m : list (Z * Color)) :
  NoDup (map snd m) -> Forall (fun c => In c pieceColors) (map snd m) ->
  (length m <= 7)%nat.
Proof.
  intros N F. rewrite <- (length_map snd m).
  change 7%nat with (length pieceColors).
  apply submseteq_length. apply NoDup_submseteq; [exact N | ].
  intros c Hc. rewrite Forall_forall in F. apply list_elem_of_In. now apply F.
Qed.

(** What [getColorIndex] answers and does to the map. *)
Lemma getColorIndex_ok (g : Grid.t) (color : Color) :
  colorMapOk g -> In color pieceColors ->
  let ci := fst (Grid.getColorIndex g color) in
  let g1 := snd (Grid.getColorIndex g color) in
  0 < ci < Grid.nextColorIndex g1
  /\ Grid.colorOf (Grid.colorMap g1) ci = Some color
  /\ (forall k, k < Grid.nextColorIndex g ->
                Grid.colorOf (Grid.colorMap g1) k
                = Grid.colorOf (Grid.colorMap g) k)
  /\ Grid.nextColorIndex g <= Grid.nextColorIndex g1
  /\ map fst (Grid.colorMap g1)
     = map Z.of_nat (seq 1 (length (Grid.colorMap g1)))
  /\ Grid.nextColorIndex g1 = Z.of_nat (length (Grid.colorMap g1)) + 1
  /\ NoDup (map snd (Grid.colorMap g1))
  /\ Forall (fun c => In c pieceColors) (map snd (Grid.colorMap g1)).
Proof.
  intros (K & Nx & N & F & _) Hc. unfold Grid.getColorIndex.
  pose proof (find_color (Grid.colorMap g) color) as Hf.
  destruct (find _ _) as [[k c] | ]; cbn [fst snd].
  - destruct Hf as [Hin Ec]. cbn in Ec. subst c.
    assert (In k (map fst (Grid.colorMap g))) as Hk
        by (apply in_map_iff; now exists (k, color)).
    apply (keys_range _ _ K) in Hk.
    split; [lia | ]. split; [apply colorOf_In; [now apply keys_NoDup | exact Hin] | ].
    split; [reflexivity | ]. split; [lia | ]. now repeat split.
  - pose proof (colors_bound _ N F) as Hlen.
    assert (~ In (Grid.nextColorIndex g) (map fst (Grid.colorMap g))) as Hfresh.
    { rewrite (keys_range _ _ K). lia. }
    rewrite put_fresh by exact Hfresh. cbn [Grid.colorMap Grid.nextColorIndex].
    rewrite Int32Facts.add_small
      by (unfold Int32.in_range, Int32.min_value, Int32.max_value; lia).
    split; [lia | ]. split.
    { apply colorOf_In.
      - rewrite map_app. cbn. apply NoDup_app. split; [now apply keys_NoDup | ].
        split; [ | apply NoDup_singleton].
        intros x Hx Hx'. apply list_elem_of_In in Hx. apply list_elem_of_singleton in Hx'.
        subst. contradiction.
      - apply in_or_app. right. now left. }
    split; [intros k Hk; apply colorOf_snoc; lia | ]. split; [lia | ].
    rewrite !length_app, !map_app. cbn [length map].
    split.
    { rewrite Nat.add_1_r, seq_S, map_app, K. cbn. do 2 f_equal. lia. }
    split; [lia | ]. split.
    + apply NoDup_app. split; [exact N | ]. split; [ | apply NoDup_singleton].
      intros x Hx Hx'. apply list_elem_of_In in Hx. apply list_elem_of_singleton in Hx'.
      subst. contradiction.
    + apply Forall_app. split; [exact F | ].
      apply List.Forall_cons; [exact Hc | apply List.Forall_nil].
Qed.

Lemma color_In_pieceColors (p : Tetrimino.t) :
  In (Tetrimino.color p) pieceColors.
Proof.
  unfold Tetrimino.color, pieceColors. apply in_map.
  destruct (Tetrimino.type p); cbn; tauto.
Qed.

Lemma getColorAt_in (g : Grid.t) (x y : Z) :
  0 <= x < Grid.width g -> 0 <= y < Grid.height g ->
  Grid.getColorAt g (mkPosition x y)
  = let* v := Grid.cell g x y in
    Ok (if 0 <? v then Grid.colorOf (Grid.colorMap g) v else None).
Proof.
  intros Hx Hy. unfold Grid.getColorAt.
  assert (Grid.isInBounds g (mkPosition x y) = true) as ->
      by (apply isInBounds_true; cbn; lia).
  reflexivity.
Qed.

Lemma place_colors (g : Grid.t) (p : Tetrimino.t) :
  wellFormed g -> colorMapOk g ->
  exists g',
    Grid.place g p = Ok g'
    /\ wellFormed g' /\ colorMapOk g'
    /\ Grid.width g' = Grid.width g /\ Grid.height g' = Grid.height g
    /\ Grid.orbs g' = Grid.orbs g
    /\ forall x y,
         0 <= x < Grid.width g -> 0 <= y < Grid.height g ->
         Grid.getColorAt g' (mkPosition x y)
         = if covers p x y then Ok (Some (Tetrimino.color p))
           else Grid.getColorAt g (mkPosition x y).
Proof.
  intros WF CM.
  destruct (place_spec g p WF) as (c' & E & WF' & K).
  pose proof (getColorIndex_frame g (Tetrimino.color p)) as (Ew & Eh & Ec & Eo).
  pose proof (getColorIndex_ok g (Tetrimino.color p) CM
                (color_In_pieceColors p))
    as (Hci & Hco & Hold & Hle & K1 & N1 & D1 & F1).
  set (ci := fst (Grid.getColorIndex g (Tetrimino.color p))) in *.
  set (g1 := snd (Grid.getColorIndex g (Tetrimino.color p))) in *.
  pose proof CM as (_ & _ & _ & _ & Hcells).
  rewrite (cells_Forall _ g WF) in Hcells.
  exists (Grid.with_cells g1 c'). split; [exact E | ]. split; [exact WF' | ].
  split; [ | split; [exact Ew | split; [exact Eh | split; [exact Eo | ]]]].
  - unfold colorMapOk. cbn [Grid.colorMap Grid.nextColorIndex Grid.with_cells].
    split; [exact K1 | ]. split; [exact N1 | ]. split; [exact D1 | ].
    split; [exact F1 | ].
    apply (cells_Forall
             (fun v => 0 <= v < Grid.nextColorIndex g1)
             (Grid.with_cells g1 c') WF').
    cbn [Grid.width Grid.height Grid.with_cells]. rewrite Ew, Eh.
    intros x y v Hx Hy Ev. rewrite K in Ev by assumption.
    destruct (covers p x y).
    + injection Ev as <-. lia.
    + specialize (Hcells x y v Hx Hy Ev). cbn beta in Hcells. lia.
  - intros x y Hx Hy.
    rewrite getColorAt_in
      by (cbn [Grid.width Grid.height Grid.with_cells]; lia).
    rewrite getColorAt_in by assumption.
    rewrite K by assumption. cbn [Grid.colorMap Grid.with_cells].
    destruct (covers p x y).
    + cbn [res_bind]. destruct (Z.ltb_spec 0 ci); [ | lia]. now rewrite Hco.
    + destruct (Grid.cell g x y) as [v | f] eqn:Ev; [ | reflexivity].
      cbn [res_bind]. destruct (Z.ltb_spec 0 v); [ | reflexivity].
      rewrite Hold; [reflexivity | ].
      specialize (Hcells x y v Hx Hy Ev). cbn beta in Hcells. lia.
Qed.

Lemma create_colorMapOk : colorMapOk (Grid.create 10 20).
Proof.
  unfold colorMapOk.
  cbn [Grid.colorMap Grid.nextColorIndex Grid.create length map seq Grid.cells].
  split; [reflexivity | ]. split; [reflexivity | ].
  split; [constructor | ]. split; [constructor | ].
  apply Forall_replicate, Forall_replicate. lia.
Qed.

End ColorFacts.

Import ColorFacts.

(** X8. On a grid whose colour map is as [getColorIndex] builds it, [place]
    keeps it so, and afterwards [getColorAt] gives the colour of the piece
    on every cell the piece covers and what it gave before on every other
    cell of the grid. *)
Theorem place_then_getColorAt (g : Grid.t) (p : Tetrimino.t) :
  wellFormed g -> colorMapOk g ->
  exists g',
    Grid.place g p = Ok g'
    /\ wellFormed g' /\ colorMapOk g'
    /\ forall x y,
         0 <= x < Grid.width g -> 0 <= y < Grid.height g ->
         Grid.getColorAt g' (mkPosition x y)
         = if covers p x y then Ok (Some (Tetrimino.color p))
           else Grid.getColorAt g (mkPosition x y).
Proof.
  intros WF CM.
  destruct (ColorFacts.place_colors g p WF CM)
    as (g' & E & WF' & CM' & _ & _ & _ & K).
  exists g'. split; [exact E | ]. split; [exact WF' | ].
  split; [exact CM' | exact K].
Qed.

Lemma place_then_getColorAt_witness :
  exists g',
    Grid.place (Grid.create 10 20) verticalI = Ok g'
    /\ Grid.getColorAt g' (mkPosition 6 0) = Ok (Some Theme.IBlockColor)
    /\ Grid.getColorAt g' (mkPosition 5 0) = Ok None.
Proof.
  destruct (place_then_getColorAt (Grid.create 10 20) verticalI
              (proj1 create_engineOk) ColorFacts.create_colorMapOk)
    as (g' & E & _ & _ & K).
  exists g'. split; [exact E | ].
  split; [exact (K 6 0 ltac:(cbn; lia) ltac:(cbn; lia))
         | exact (K 5 0 ltac:(cbn; lia) ltac:(cbn; lia))].
Defined.

(** ** What [clearLines] leaves *)

Module ScanFacts.

Lemma completeRows_cons (row : list Z) (c : list (list Z)) :
  completeRows (row :: c)
  = ((if rowComplete row then 1 else 0) + completeRows c)%nat.
Proof. unfold completeRows. cbn. now destruct (rowComplete row). Qed.

Lemma incompleteRows_cons (row : list Z) (c : list (list Z)) :
  incompleteRows (row :: c)
  = if rowComplete row then incompleteRows c else row :: incompleteRows c.
Proof. unfold incompleteRows. cbn. now destruct (rowComplete row). Qed.

Lemma incompleteRows_not_complete (c : list (list Z)) (row : list Z) :
  In row (incompleteRows c) -> rowComplete row = false.
Proof.
  unfold incompleteRows. intros H. apply List.filter_In in H as [_ H].
  now apply negb_true_iff.
Qed.

Lemma delete_at {A : Type} (l1 l2 : list A) (x : A) (n : nat) :
  n = length l1 -> delete n (l1 ++ x :: l2) = l1 ++ l2.
Proof. intros ->. apply delete_middle. Qed.

Lemma split_last {A : Type} (l : list A) :
  l <> [] -> exists l' a, l = l' ++ [a].
Proof.
  intros H. destruct (exists_last H) as (l' & a & ->). eauto.
Qed.

Lemma scanned_skip (g : Grid.t) (n : nat) (s : Grid.scan) (row : list Z) :
  scanned g (S n) s ->
  Grid.cells (Grid.sc_grid s) !! n = Some row ->
  rowComplete row = false ->
  scanned g n s.
Proof.
  intros (Ew & Eh & Em & Ei & top0 & bot0 & Ec & Es & El & Hn & Ht) Er Hr.
  repeat (split; [assumption | ]).
  destruct top0 as [ | t0 top0'] eqn:Et.
  - exists [], bot0. repeat split; try assumption; try lia.
  - rewrite <- Et in *.
    assert (S n = (completeRows bot0 + length top0)%nat) as En.
    { destruct (Nat.eq_dec (S n) (completeRows bot0 + length top0)%nat);
      [assumption | ].
      rewrite Ht in Et by lia. discriminate. }
    destruct (split_last top0 ltac:(rewrite Et; discriminate)) as (top1 & r & E1).
    rewrite E1 in *. rewrite length_app in En. cbn in En.
    assert (r = row) as ->.
    { rewrite Es in Er. rewrite lookup_app_r in Er by (rewrite length_replicate; lia).
      rewrite length_replicate in Er.
      rewrite <- app_assoc in Er.
      rewrite lookup_app_r in Er by lia.
      replace (n - completeRows bot0 - length top1)%nat with 0%nat in Er by lia.
      cbn in Er. now injection Er. }
    exists top1, (row :: bot0).
    rewrite completeRows_cons, incompleteRows_cons, Hr. cbn [Nat.add].
    split; [now rewrite Ec, <- app_assoc | ].
    split; [now rewrite Es, <- !app_assoc | ].
    split; [exact El | ]. split; lia.
Qed.

Lemma scanned_clear (g : Grid.t) (n : nat) (s s' : Grid.scan) (row : list Z) :
  0 < Grid.width g -> Z.of_nat (length (Grid.cells g)) < Int32.max_value ->
  scanned g (S n) s ->
  Grid.cells (Grid.sc_grid s) !! n = Some row ->
  rowComplete row = true ->
  afterClear (Z.of_nat n) s s' ->
  scanned g (S n) s'.
Proof.
  intros Hw Hmax (Ew & Eh & Em & Ei & top0 & bot0 & Ec & Es & El & Hn & Ht)
         Er Hr (l' & _ & ->).
  cbn [Grid.sc_grid Grid.width Grid.height Grid.colorMap Grid.nextColorIndex
       Grid.cells Grid.sc_linesCleared].
  repeat (split; [assumption | ]).
  destruct top0 as [ | t0 top0'] eqn:Et.
  - exfalso. rewrite Es in Er. cbn [app] in Er.
    destruct (Nat.lt_ge_cases n (completeRows bot0)) as [Hlt | Hge].
    + rewrite lookup_app_l in Er by (rewrite length_replicate; lia).
      apply lookup_replicate in Er as [-> _].
      rewrite emptyRow_not_complete in Hr by exact Hw. discriminate.
    + cbn in Hn. lia.
  - rewrite <- Et in *.
    assert (S n = (completeRows bot0 + length top0)%nat) as En.
    { destruct (Nat.eq_dec (S n) (completeRows bot0 + length top0)%nat);
      [assumption | ].
      rewrite Ht in Et by lia. discriminate. }
    destruct (split_last top0 ltac:(rewrite Et; discriminate)) as (top1 & r & E1).
    rewrite E1 in *. rewrite length_app in En. cbn in En.
    assert (r = row) as ->.
    { rewrite Es in Er. rewrite lookup_app_r in Er by (rewrite length_replicate; lia).
      rewrite length_replicate in Er.
      rewrite <- app_assoc in Er.
      rewrite lookup_app_r in Er by lia.
      replace (n - completeRows bot0 - length top1)%nat with 0%nat in Er by lia.
      cbn in Er. now injection Er. }
    assert (delete n (Grid.cells (Grid.sc_grid s))
            = replicate (completeRows bot0) (emptyRow g)
              ++ top1 ++ incompleteRows bot0) as Hdel.
    { rewrite Es, <- app_assoc. cbn [app]. rewrite app_assoc.
      rewrite (delete_at _ _ _ n); [now rewrite <- app_assoc | ].
      rewrite length_app, length_replicate. lia. }
    exists top1, (row :: bot0).
    rewrite completeRows_cons, incompleteRows_cons, Hr. cbn [Nat.add].
    split; [now rewrite Ec, <- app_assoc | ].
    split.
    { unfold dropRow. replace (emptyRow (Grid.sc_grid s)) with (emptyRow g)
        by (unfold emptyRow; now rewrite Ew).
      rewrite Nat2Z.id, Hdel. reflexivity. }
    split.
    { rewrite El. assert (completeRows bot0 <= length bot0)%nat by apply completeRows_le.
      rewrite Ec, !length_app in Hmax. cbn [length] in Hmax.
      rewrite Int32Facts.add_small
        by (unfold Int32.in_range, Int32.min_value, Int32.max_value in *; lia).
      cbn [Grid.sc_linesCleared]. lia. }
    split; lia.
Qed.

Lemma clearLines_spec (g : Grid.t) (w : World) :
  wellFormed g -> Grid.height g < Int32.max_value ->
  exists linesCleared totalMultiplier g' w',
    Grid.clearLines g w = Ok (linesCleared, totalMultiplier, g', w')
    /\ linesCleared = Z.of_nat (completeRows (Grid.cells g))
    /\ Grid.cells g'
       = replicate (completeRows (Grid.cells g)) (emptyRow g)
         ++ incompleteRows (Grid.cells g)
    /\ Grid.width g' = Grid.width g /\ Grid.height g' = Grid.height g
    /\ Grid.colorMap g' = Grid.colorMap g
    /\ Grid.nextColorIndex g' = Grid.nextColorIndex g
    /\ (Z.of_nat (length (Grid.orbs g)) <= Grid.maxOrbs ->
        Z.of_nat (length (Grid.orbs g')) <= Grid.maxOrbs).
Proof.
  intros WF Hmax. pose proof WF as (Hw & Hh & Hl & Hr).
  destruct (clearLines_inv
              (fun n s => scanned g n s
                          /\ length (Grid.orbs (Grid.sc_grid s))
                             = length (Grid.orbs g)))
    with (g := g) (w := w)
    as (s & g' & w' & E & WFs & NC & [J Lo] & Sp).
  - intros n s row [J Lo] Er Hc. split; [ | exact Lo].
    exact (scanned_skip g n s row J Er Hc).
  - intros n s s' row [J Lo] _ Er Hc A. split.
    + apply (scanned_clear g n s s' row); try assumption. lia.
    + destruct A as (l' & Pl & ->). cbn [Grid.sc_grid Grid.orbs].
      rewrite Pl, length_map. exact Lo.
  - exact WF.
  - split; [ | reflexivity].
    unfold scanned. cbn [Grid.sc_grid Grid.sc_linesCleared].
    repeat (split; [reflexivity | ]).
    exists (Grid.cells g), []. cbn. rewrite !app_nil_r.
    repeat split; try lia.
  - destruct J as (Ew & Eh & Em & Ei & top0 & bot0 & Ec & Es & El & _ & Ht).
    assert (top0 = []) as ->.
    { destruct top0 as [ | t top0]; [reflexivity | ]. apply Ht. cbn. lia. }
    cbn [app] in Ec, Es. subst bot0.
    exists (Grid.sc_linesCleared s), (Grid.sc_totalMultiplier s), g', w'.
    split; [exact E | ]. split; [exact El | ].
    assert (Grid.cells g' = Grid.cells (Grid.sc_grid s)
            /\ Grid.width g' = Grid.width (Grid.sc_grid s)
            /\ Grid.height g' = Grid.height (Grid.sc_grid s)
            /\ Grid.colorMap g' = Grid.colorMap (Grid.sc_grid s)
            /\ Grid.nextColorIndex g' = Grid.nextColorIndex (Grid.sc_grid s))
      as (Gc & Gw & Gh & Gm & Gi).
    { destruct Sp as [-> | (orb & -> & _)]; cbn; now repeat split. }
    rewrite Gc, Gw, Gh, Gm, Gi.
    repeat (split; [assumption | ]).
    intros Hle.
    assert (length (Grid.removeAll (Grid.orbs (Grid.sc_grid s))
                                   (Grid.sc_orbsToRemove s))
            <= length (Grid.orbs g))%nat as Hrem.
    { rewrite <- Lo. unfold Grid.removeAll. apply List.filter_length_le. }
    destruct Sp as [-> | (orb & -> & _ & Hlt)];
      cbn [Grid.orbs Grid.with_orbs] in *.
    + lia.
    + rewrite length_app. cbn [length]. lia.
Qed.

End ScanFacts.

Import ScanFacts.

(** X9. [clearLines] clears exactly the complete rows: it returns their
    number, and leaves the other rows in their order at the bottom, under as
    many empty rows; dimensions and colours are unchanged. *)
Theorem clearLines_keeps_the_incomplete_rows (g : Grid.t) (w : World) :
  wellFormed g -> Grid.height g < Int32.max_value ->
  exists linesCleared totalMultiplier g' w',
    Grid.clearLines g w = Ok (linesCleared, totalMultiplier, g', w')
    /\ linesCleared = Z.of_nat (completeRows (Grid.cells g))
    /\ Grid.cells g'
       = replicate (completeRows (Grid.cells g)) (emptyRow g)
         ++ incompleteRows (Grid.cells g)
    /\ Grid.width g' = Grid.width g /\ Grid.height g' = Grid.height g
    /\ Grid.colorMap g' = Grid.colorMap g
    /\ Grid.nextColorIndex g' = Grid.nextColorIndex g.
Proof.
  intros WF Hmax.
  destruct (ScanFacts.clearLines_spec g w WF Hmax)
    as (lines & mult & g' & w' & E & El & Ec & Ew & Eh & Em & Ei & _).
  exists lines, mult, g', w'. now repeat split.
Qed.

Lemma clearLines_keeps_the_incomplete_rows_witness :
  exists totalMultiplier g' w',
    Grid.clearLines twoFullRows (worldOf [] [])
    = Ok (2, totalMultiplier, g', w')
    /\ Grid.cells g' = replicate 20 (replicate 10 0).
Proof.
  destruct (clearLines_keeps_the_incomplete_rows twoFullRows (worldOf [] [])
              twoFullRows_wellFormed)
    as (lines & mult & g' & w' & E & El & Ec & _).
  - vm_compute. reflexivity.
  - exists mult, g', w'. rewrite El in E. split; [exact E | exact Ec].
Defined.

(** ** The steps of the engine *)

Module StepFacts.

Lemma with_current_same (e : GameEngine.t) (p : Tetrimino.t) :
  GameEngine.currentTetrimino e = Some p ->
  GameEngine.with_current e (Some p) = e.
Proof. destruct e. cbn. now intros ->. Qed.

(** What [spawnTetrimino] returns. *)
Lemma spawnTetrimino_inv (e e' : GameEngine.t) (w w' : World) :
  GameEngine.spawnTetrimino e w = Ok (e', w') ->
  exists c n ghost,
    e' = spawnedEngine e c n (Tetrimino.position ghost)
    /\ landing (GameEngine.grid e) c = Ok ghost
    /\ atSpawn n
    /\ (GameEngine.nextTetrimino e = Some c
        \/ GameEngine.nextTetrimino e = None /\ atSpawn c).
Proof.
  unfold GameEngine.spawnTetrimino.
  assert (exists c w1,
             match GameEngine.nextTetrimino e with
             | Some n => (n, w)
             | None => GameEngine.generateRandomTetrimino e w
             end = (c, w1)
             /\ (GameEngine.nextTetrimino e = Some c
                 \/ GameEngine.nextTetrimino e = None /\ atSpawn c))
    as (c & w1 & -> & Hc).
  { destruct (GameEngine.nextTetrimino e) as [n | ].
    - exists n, w. auto.
    - pose proof (generateRandomTetrimino_atSpawn e w) as A.
      destruct (GameEngine.generateRandomTetrimino e w) as [c w1].
      exists c, w1. auto. }
  pose proof (generateRandomTetrimino_atSpawn
                (GameEngine.with_current e (Some c)) w1) as An.
  destruct (GameEngine.generateRandomTetrimino _ w1) as [n w2].
  cbn [fst] in An. unfold GameEngine.updateGhostPosition.
  cbn [GameEngine.currentTetrimino GameEngine.with_next GameEngine.with_current
       GameEngine.grid].
  destruct (GameEngine.descend _ _ c) as [ghost | ] eqn:D; [ | discriminate].
  cbn [res_bind]. intros E. exists c, n, ghost.
  split; [ | split; [exact D | split; [exact An | exact Hc]]].
  unfold spawnedEngine.
  cbn [GameEngine.grid GameEngine.with_ghost GameEngine.with_next
       GameEngine.with_current] in E.
  destruct (Grid.canPlace (GameEngine.grid e) c); cbn [negb] in E;
    injection E as <- _; reflexivity.
Qed.

Lemma effect_frame (e e1 : GameEngine.t) (p : Tetrimino.t) :
  match Tetrimino.powerUp p with
  | Some PowerUpType.BOMB => GameEngine.applyBombEffect e p
  | Some PowerUpType.LINE_CLEAR => GameEngine.applyLineClearEffect e p
  | _ => let* g := Grid.place (GameEngine.grid e) p in
         Ok (GameEngine.with_grid e g)
  end = Ok e1 ->
  exists g s, e1 = GameEngine.with_score (GameEngine.with_grid e g) s.
Proof.
  destruct (Tetrimino.powerUp p) as [[ | | ] | ].
  - unfold GameEngine.applyBombEffect.
    destruct (Tetrimino.getBlocks p).
    + intros [= <-]. exists (GameEngine.grid e), (GameEngine.score e). now destruct e.
    + cbv zeta. destruct (forEach _ _ _); [ | discriminate].
      intros [= <-]. eauto.
  - unfold GameEngine.applyLineClearEffect.
    destruct (forEach _ _ _); [ | discriminate]. intros [= <-]. eauto.
  - destruct (Grid.place _ p) as [g | ]; [ | discriminate]. intros [= <-].
    exists g, (GameEngine.score e). now destruct e.
  - destruct (Grid.place _ p) as [g | ]; [ | discriminate]. intros [= <-].
    exists g, (GameEngine.score e). now destruct e.
Qed.

(** What the rest of a lock does: the scan of the grid, then a spawn on
    the scanned grid with the next piece and the game state untouched. *)
Lemma lockTail_inv (e1 e' : GameEngine.t) (w w' : World) :
  lockTail e1 w = Ok (e', w') ->
  exists linesCleared orbMultiplier g w1 e5 w3,
    Grid.clearLines (GameEngine.grid e1) w
    = Ok (linesCleared, orbMultiplier, g, w1)
    /\ GameEngine.spawnTetrimino e5 w3 = Ok (e', w')
    /\ GameEngine.grid e5 = g
    /\ GameEngine.nextTetrimino e5 = GameEngine.nextTetrimino e1
    /\ GameEngine.gameState e5 = GameEngine.gameState e1.
Proof.
  unfold lockTail.
  destruct (Grid.clearLines _ w) as [[[[lines mult] g] w1] | ]; [ | discriminate].
  cbn [res_bind].
  set (e2 := GameEngine.with_grid e1 g).
  set (r3 := if (0 <? lines) && (1 <? mult)
             then GameEngine.applyMultiplier e2 mult w1 else (e2, w1)).
  assert (GameEngine.grid (fst r3) = g
          /\ GameEngine.nextTetrimino (fst r3) = GameEngine.nextTetrimino e1
          /\ GameEngine.gameState (fst r3) = GameEngine.gameState e1)
    as (G3 & N3 & S3).
  { subst r3. destruct (_ && _); [ | now repeat split].
    unfold GameEngine.applyMultiplier.
    destruct (System.currentTimeMillis w1). now repeat split. }
  destruct r3 as [e3 w2]. cbn [fst] in G3, N3, S3.
  assert (GameEngine.grid (fst (GameEngine.updateScore e3 lines w2)) = g
          /\ GameEngine.nextTetrimino (fst (GameEngine.updateScore e3 lines w2))
             = GameEngine.nextTetrimino e1
          /\ GameEngine.gameState (fst (GameEngine.updateScore e3 lines w2))
             = GameEngine.gameState e1) as (G4 & N4 & S4).
  { unfold GameEngine.updateScore, GameEngine.checkMultiplierExpiration.
    cbn [GameEngine.multiplierEndTime GameEngine.with_score].
    destruct (0 <? _); [ | now repeat split].
    destruct (System.currentTimeMillis w2).
    destruct (_ <? _); now repeat split. }
  destruct (GameEngine.updateScore e3 lines w2) as [e4 w3]. cbn [fst] in G4, N4, S4.
  intros E. exists lines, mult, g, w1, (GameEngine.checkLevelUp e4), w3.
  split; [reflexivity | ]. split; [exact E | ].
  unfold GameEngine.checkLevelUp. destruct (_ <? _); now repeat split.
Qed.

Lemma lockTetrimino_inv (e e' : GameEngine.t) (w w' : World) (p : Tetrimino.t) :
  GameEngine.currentTetrimino e = Some p ->
  GameEngine.lockTetrimino e w = Ok (e', w') ->
  exists e1 linesCleared orbMultiplier g w1 e5 w3,
    match Tetrimino.powerUp p with
    | Some PowerUpType.BOMB => GameEngine.applyBombEffect e p
    | Some PowerUpType.LINE_CLEAR => GameEngine.applyLineClearEffect e p
    | _ => let* g := Grid.place (GameEngine.grid e) p in
           Ok (GameEngine.with_grid e g)
    end = Ok e1
    /\ Grid.clearLines (GameEngine.grid e1) w
       = Ok (linesCleared, orbMultiplier, g, w1)
    /\ GameEngine.spawnTetrimino e5 w3 = Ok (e', w')
    /\ GameEngine.grid e5 = g
    /\ GameEngine.nextTetrimino e5 = GameEngine.nextTetrimino e
    /\ GameEngine.gameState e5 = GameEngine.gameState e.
Proof.
  intros Hp. rewrite (lockTetrimino_unfold e w p Hp).
  destruct (match Tetrimino.powerUp p with
            | Some PowerUpType.BOMB => _ | Some PowerUpType.LINE_CLEAR => _
            | _ => _ end) as [e1 | ] eqn:E1; [ | discriminate].
  cbn [res_bind]. intros E.
  destruct (lockTail_inv _ _ _ _ E)
    as (lines & mult & g & w1 & e5 & w3 & Ec & Es & Eg & En & Est).
  destruct (effect_frame e e1 p E1) as (g1 & s1 & ->).
  exists (GameEngine.with_score (GameEngine.with_grid e g1) s1),
         lines, mult, g, w1, e5, w3.
  repeat split; assumption.
Qed.

Lemma tryMove_inv (c : GameEngine.command) (f : Tetrimino.t -> Tetrimino.t)
      (e e' : GameEngine.t) (w : World) :
  transformOf c = Some f ->
  GameEngine.tryMove f e = Ok e' -> runs c e w e' w.
Proof.
  intros Hf. unfold GameEngine.tryMove.
  destruct (GameEngine.currentTetrimino e) as [p | ] eqn:Hp.
  - destruct (GameEngine.isValidMove _ (f p)) eqn:V.
    + unfold GameEngine.updateGhostPosition.
      cbn [GameEngine.currentTetrimino GameEngine.with_current GameEngine.grid].
      destruct (GameEngine.descend _ _ (f p)) as [ghost | ] eqn:D; [ | discriminate].
      cbn [res_bind]. intros [= <-]. now apply (runs_move c f e w p ghost).
    + intros [= <-]. constructor.
      destruct c; cbn in Hf; try discriminate; injection Hf as <-;
        intros f' p' [= <-] Hp'; rewrite Hp in Hp'; injection Hp' as <-;
        exact V.
  - intros [= <-]. constructor.
    destruct c; cbn in Hf; try discriminate;
      intros f' p' _ Hp'; rewrite Hp in Hp'; discriminate.
Qed.

(** Every command that returns does one of the things of [runs]. *)
Lemma run_inv (c : GameEngine.command) (e e' : GameEngine.t) (w w' : World) :
  GameEngine.run c e w = Ok (e', w') -> runs c e w e' w'.
Proof.
  destruct c; cbn [GameEngine.run]; intros E.
  - unfold GameEngine.startGame in E.
    destruct (Grid.reset _) as [g0 | ] eqn:Er; [ | discriminate].
    cbn [res_bind] in E.
    destruct (GameEngine.spawnTetrimino _ w) as [[e2 w2] | ] eqn:Es; [ | discriminate].
    cbn [res_bind] in E. injection E as <- <-.
    now apply (runs_start e e2 w w2 g0).
  - injection E as <- <-. unfold GameEngine.pauseGame.
    destruct (GameEngine.gameState e) eqn:S;
      try (apply runs_nothing; cbn; rewrite S; discriminate). now apply runs_pause.
  - injection E as <- <-. unfold GameEngine.resumeGame.
    destruct (GameEngine.gameState e) eqn:S;
      try (apply runs_nothing; cbn; rewrite S; discriminate). now apply runs_resume.
  - unfold GameEngine.moveLeft in E.
    destruct (GameEngine.tryMove _ e) as [e1 | ] eqn:E1; [ | discriminate].
    injection E as <- <-. eapply tryMove_inv; [reflexivity | exact E1].
  - unfold GameEngine.moveRight in E.
    destruct (GameEngine.tryMove _ e) as [e1 | ] eqn:E1; [ | discriminate].
    injection E as <- <-. eapply tryMove_inv; [reflexivity | exact E1].
  - unfold GameEngine.moveDown in E.
    destruct (GameEngine.currentTetrimino e) as [p | ] eqn:Hp.
    + destruct (GameEngine.isValidMove _ (Tetrimino.moveDown p)) eqn:V.
      * injection E as <- <-. now apply runs_softDrop.
      * destruct (GameEngine.lockTetrimino e w) as [[e1 w1] | ] eqn:El;
          [ | discriminate].
        injection E as <- <-.
        destruct (lockTetrimino_inv e e1 w w1 p Hp El)
          as (e0 & lines & mult & g & w0 & e5 & w3 & _ & _ & Es & _ & En & Est).
        apply (runs_lock GameEngine.MoveDown e e5 e1 w w3 w1 p p); auto.
        now rewrite with_current_same.
    + injection E as <- <-. constructor. exact Hp.
  - unfold GameEngine.rotate in E.
    destruct (GameEngine.tryMove _ e) as [e1 | ] eqn:E1; [ | discriminate].
    injection E as <- <-. eapply tryMove_inv; [reflexivity | exact E1].
  - unfold GameEngine.hardDrop in E.
    destruct (GameEngine.currentTetrimino e) as [p | ] eqn:Hp.
    + destruct (GameEngine.descend _ _ p) as [q | ] eqn:D; [ | discriminate].
      cbn [res_bind] in E.
      destruct (lockTetrimino_inv (GameEngine.with_current e (Some q))
                                  e' w w' q eq_refl E)
        as (e0 & lines & mult & g & w0 & e5 & w3 & _ & _ & Es & _ & En & Est).
      cbn in En, Est.
      apply (runs_lock GameEngine.HardDrop e e5 e' w w3 w' p q); auto.
    + injection E as <- <-. constructor. exact Hp.
Qed.

End StepFacts.

Import StepFacts.

(** ** The pieces of a session *)

Module PieceFacts.

Lemma rotate_rotationOk (p : Tetrimino.t) :
  rotationOk p -> rotationOk (Tetrimino.rotate p).
Proof.
  unfold rotationOk, Tetrimino.rotate. cbn [Tetrimino.rotation]. intros H.
  assert (Tetrimino.rotation p = 0 \/ Tetrimino.rotation p = 1
          \/ Tetrimino.rotation p = 2 \/ Tetrimino.rotation p = 3)
    as [-> | [-> | [-> | ->]]] by lia; vm_compute; split; discriminate.
Qed.

Lemma atSpawn_rotationOk (p : Tetrimino.t) : atSpawn p -> rotationOk p.
Proof. intros [_ H]. unfold rotationOk. rewrite H. lia. Qed.

(** A soft drop does not change where the piece lands. *)
Lemma landing_moveDown (g : Grid.t) (p : Tetrimino.t) :
  Grid.height g + 4 <= Int32.max_value -> pieceOk g p ->
  GameEngine.isValidMove g (Tetrimino.moveDown p) = true ->
  landing g (Tetrimino.moveDown p) = landing g p.
Proof.
  intros Hh OK V. pose proof OK as (Hy & _ & _).
  pose proof (moveDown_pieceOk g p Hh OK V) as (Hy' & _ & _).
  assert (pos_y (Tetrimino.position (Tetrimino.moveDown p))
          = pos_y (Tetrimino.position p) + 1) as Ey
      by (apply DescentFacts.moveDown_y; unfold Int32.min_value; lia).
  pose proof (DescentFacts.isValidMove_anchor g (Tetrimino.moveDown p)) as A.
  rewrite Ey in A.
  specialize (A ltac:(unfold Int32.min_value; lia) ltac:(lia) V).
  unfold landing, GameEngine.descend_fuel. rewrite Ey.
  replace (Z.to_nat (Grid.height g - pos_y (Tetrimino.position p)))
    with (S (Z.to_nat (Grid.height g - (pos_y (Tetrimino.position p) + 1))))
    by lia.
  cbn [GameEngine.descend]. now rewrite V.
Qed.

Lemma spawned_piecesOk (e5 e' : GameEngine.t) (w3 w' : World) :
  (forall n, GameEngine.nextTetrimino e5 = Some n -> atSpawn n) ->
  GameEngine.spawnTetrimino e5 w3 = Ok (e', w') ->
  ghostAccurate e'
  /\ exists c n,
       GameEngine.currentTetrimino e' = Some c /\ rotationOk c
       /\ GameEngine.nextTetrimino e' = Some n /\ atSpawn n
       /\ (GameEngine.gameState e' = GameEngine.gameState e5
           \/ GameEngine.gameState e' = GameState.GameOver).
Proof.
  intros Hnext E.
  destruct (spawnTetrimino_inv _ _ _ _ E) as (c & n & ghost & -> & L & An & Hc).
  split.
  - unfold ghostAccurate, spawnedEngine. cbn. eauto.
  - exists c, n. unfold spawnedEngine. cbn.
    split; [reflexivity | ]. split.
    { apply atSpawn_rotationOk. destruct Hc as [Hc | [_ Hc]]; auto. }
    split; [reflexivity | ]. split; [exact An | ].
    destruct (Grid.canPlace _ c); auto.
Qed.

Lemma create_piecesOk : piecesOk GameEngine.create.
Proof. unfold piecesOk, ghostAccurate. cbn. auto. Qed.

Lemma run_piecesOk (c : GameEngine.command) (e e' : GameEngine.t)
      (w w' : World) :
  engineOk e -> piecesOk e ->
  GameEngine.run c e w = Ok (e', w') -> piecesOk e'.
Proof.
  intros OK (G & P) E. pose proof OK as (WF & Ew & Eh & NC & OB & Hcur & Hnext).
  assert (Grid.height (GameEngine.grid e) + 4 <= Int32.max_value) as Hmax
      by (rewrite Eh; unfold Int32.max_value; lia).
  apply run_inv in E.
  destruct E as [c e w Hc | e w S | e w S | c f e w p ghost Hf Hp V L
                | e w p Hp V | c e e5 e' w w3 w' p q Hp Hq El Es En Est
                | e e2 w w' g0 Er Es].
  - now split.
  - unfold piecesOk, ghostAccurate in *. simpl_engine.
    destruct (GameEngine.currentTetrimino e); [ | rewrite S in P; destruct P; discriminate].
    split; [exact G | ]. destruct P as (R & N & _).
    split; [exact R | split; [exact N | discriminate]].
  - unfold piecesOk, ghostAccurate in *. simpl_engine.
    destruct (GameEngine.currentTetrimino e); [ | rewrite S in P; destruct P; discriminate].
    split; [exact G | ]. destruct P as (R & N & _).
    split; [exact R | split; [exact N | discriminate]].
  - unfold piecesOk, ghostAccurate in *. simpl_engine. rewrite Hp in P, G.
    destruct P as (R & N & S).
    split; [exists ghost; split; [exact L | reflexivity] | ].
    split; [ | split; [exact N | exact S]].
    destruct c; cbn in Hf; try discriminate; injection Hf as <-;
      try exact R. now apply rotate_rotationOk.
  - unfold piecesOk, ghostAccurate in *. simpl_engine. rewrite Hp in P, G.
    destruct P as (R & N & S). destruct G as (q & L & Gq).
    split; [ | split; [exact R | split; [exact N | exact S]]].
    exists q. split; [ | exact Gq].
    rewrite landing_moveDown; auto.
  - rewrite Hp in P. destruct P as (R & N & S).
    destruct (spawned_piecesOk e5 e' w3 w') as (G' & c' & n' & Hc' & R' & Hn' & A' & St');
      [intros n Hn; apply Hnext; now rewrite <- En | exact Es | ].
    split; [exact G' | ]. rewrite Hc'. split; [exact R' | ].
    split; [eauto | ]. destruct St' as [-> | ->]; [now rewrite Est | discriminate].
  - match type of Es with
    | GameEngine.spawnTetrimino ?e1 _ = _ =>
        destruct (spawned_piecesOk e1 e2 w w')
          as (G' & c' & n' & Hc' & R' & Hn' & A' & St');
          [intros n Hn; cbn in Hn; now apply Hnext | exact Es | ]
    end.
    unfold piecesOk, ghostAccurate in *. simpl_engine. rewrite Hc' in *.
    split; [exact G' | ]. split; [exact R' | ]. split; [eauto | discriminate].
Qed.

Lemma reachable_piecesOk (e : GameEngine.t) :
  GameEngine.reachable e -> piecesOk e.
Proof.
  induction 1 as [ | c e e' w w' R IH E]; [apply create_piecesOk | ].
  eapply run_piecesOk; [ | exact IH | exact E]. now apply reachable_engineOk.
Qed.

End PieceFacts.

Import PieceFacts.

(** X10. In every state of a session every command returns: no array access
    is out of bounds and no loop runs out of fuel; and the state it returns
    is again a state of the session, with the 10x20 grid and no complete
    row. *)
Theorem session_commands_always_return
    (e : GameEngine.t) (c : GameEngine.command) (w : World) :
  GameEngine.reachable e ->
  exists e' w',
    GameEngine.run c e w = Ok (e', w')
    /\ GameEngine.reachable e'
    /\ Grid.width (GameEngine.grid e') = 10
    /\ Grid.height (GameEngine.grid e') = 20
    /\ wellFormed (GameEngine.grid e')
    /\ noCompleteRow (GameEngine.grid e').
Proof.
  intros R.
  destruct (run_ok c e w (reachable_engineOk e R)) as (e' & w' & E & OK).
  exists e', w'. split; [exact E | ].
  split; [eapply GameEngine.reachable_run; eauto | ].
  destruct OK as (WF & Ew & Eh & NC & _).
  split; [exact Ew | ]. split; [exact Eh | ]. split; [exact WF | exact NC].
Qed.

Lemma session_commands_always_return_witness :
  exists e' w',
    GameEngine.run GameEngine.HardDrop ledgeState ledgeWorld = Ok (e', w')
    /\ Grid.height (GameEngine.grid e') = 20.
Proof.
  destruct (session_commands_always_return ledgeState GameEngine.HardDrop
              ledgeWorld ledgeState_reachable)
    as (e' & w' & E & _ & _ & Eh & _).
  exists e', w'. split; [exact E | exact Eh].
Defined.

(** X11. In every state of a session the ghost position is the position at
    which the descent loop leaves the current piece, that is, the position
    at which a hard drop locks it. *)
Theorem ghost_is_where_hardDrop_locks (e : GameEngine.t) (p : Tetrimino.t) :
  GameEngine.reachable e ->
  GameEngine.currentTetrimino e = Some p ->
  exists (k : nat) (q : Tetrimino.t),
    landing (GameEngine.grid e) p = Ok q
    /\ q = Nat.iter k Tetrimino.moveDown p
    /\ GameEngine.isValidMove (GameEngine.grid e) (Tetrimino.moveDown q) = false
    /\ GameEngine.ghostPosition e = Some (Tetrimino.position q)
    /\ forall w,
         GameEngine.hardDrop e w
         = GameEngine.lockTetrimino (GameEngine.with_current e (Some q)) w.
Proof.
  intros R Hp. destruct (reachable_piecesOk e R) as (G & _).
  pose proof (reachable_engineOk e R) as (WF & Ew & Eh & NC & OB & Hcur & Hnext).
  unfold ghostAccurate in G. rewrite Hp in G. destruct G as (q & L & Gq).
  destruct (Hcur p Hp) as (Hy & _ & _).
  destruct (DescentFacts.descend_stops
              (GameEngine.descend_fuel (GameEngine.grid e) p)
              (GameEngine.grid e) p) as (k & q' & D & Eq & _ & V);
    [unfold Int32.min_value; lia | rewrite Eh in Hy; unfold Int32.max_value; lia
    | rewrite Eh; unfold Int32.max_value; lia
    | unfold GameEngine.descend_fuel; lia | ].
  unfold landing in L. rewrite D in L. injection L as <-.
  exists k, q'. split; [exact D | ]. split; [exact Eq | ].
  split; [exact V | ]. split; [exact Gq | ].
  intros w. unfold GameEngine.hardDrop. rewrite Hp, D. reflexivity.
Qed.

Lemma ghost_is_where_hardDrop_locks_witness :
  exists (k : nat) (q : Tetrimino.t),
    landing (GameEngine.grid ledgeState)
            (Tetrimino.spawn TetriminoType.I (Some PowerUpType.LINE_CLEAR))
    = Ok q
    /\ GameEngine.ghostPosition ledgeState = Some (Tetrimino.position q).
Proof.
  destruct (ghost_is_where_hardDrop_locks ledgeState
              (Tetrimino.spawn TetriminoType.I (Some PowerUpType.LINE_CLEAR))
              ledgeState_reachable eq_refl)
    as (k & q & L & _ & _ & G & _).
  exists k, q. split; [exact L | exact G].
Defined.

(** X12. Before the first start of a session there is neither a current nor
    a next piece nor a ghost, and the state is [NotStarted]; from the first
    start on there is always a current piece, with all its blocks on the
    grid and a rotation index of the shape table, and a next piece, at the
    spawn position with rotation 0, and the state is never [NotStarted]
    again. *)
Theorem session_pieces (e : GameEngine.t) :
  GameEngine.reachable e ->
  match GameEngine.currentTetrimino e with
  | Some p =>
      rotationOk p
      /\ Forall (fun b => Grid.isInBounds (GameEngine.grid e) b = true)
                (Tetrimino.getBlocks p)
      /\ (exists n, GameEngine.nextTetrimino e = Some n
                    /\ Tetrimino.position n = mkPosition 4 0
                    /\ Tetrimino.rotation n = 0)
      /\ GameEngine.gameState e <> GameState.NotStarted
  | None =>
      GameEngine.nextTetrimino e = None
      /\ GameEngine.ghostPosition e = None
      /\ GameEngine.gameState e = GameState.NotStarted
  end.
Proof.
  intros R. destruct (reachable_piecesOk e R) as (G & P).
  pose proof (reachable_engineOk e R) as (_ & _ & _ & _ & _ & Hcur & _).
  unfold ghostAccurate in G.
  destruct (GameEngine.currentTetrimino e) as [p | ].
  - destruct P as (Rp & (n & Hn & An) & S). split; [exact Rp | ].
    split; [apply (Hcur p eq_refl) | ]. split; [ | exact S].
    exists n. destruct An. now repeat split.
  - destruct P as (N & S). now repeat split.
Qed.

(** X13. The game state changes as follows: [startGame] always ends in
    [Running]; [pauseGame] turns [Running] into [Paused] and [resumeGame]
    [Paused] into [Running], and change no other state; moves and rotations
    keep the state; a soft or hard drop keeps it or ends in [GameOver]. So
    only [startGame] leaves [GameOver], and nothing leads back to
    [NotStarted]. *)
Theorem game_state_transitions
    (c : GameEngine.command) (e e' : GameEngine.t) (w w' : World) :
  GameEngine.run c e w = Ok (e', w') ->
  match c with
  | GameEngine.StartGame => GameEngine.gameState e' = GameState.Running
  | GameEngine.PauseGame =>
      GameEngine.gameState e'
      = match GameEngine.gameState e with
        | GameState.Running => GameState.Paused
        | s => s
        end
  | GameEngine.ResumeGame =>
      GameEngine.gameState e'
      = match GameEngine.gameState e with
        | GameState.Paused => GameState.Running
        | s => s
        end
  | GameEngine.MoveLeft | GameEngine.MoveRight | GameEngine.Rotate =>
      GameEngine.gameState e' = GameEngine.gameState e
  | GameEngine.MoveDown | GameEngine.HardDrop =>
      GameEngine.gameState e' = GameEngine.gameState e
      \/ GameEngine.gameState e' = GameState.GameOver
  end
  /\ (c <> GameEngine.StartGame ->
      GameEngine.gameState e = GameState.GameOver ->
      GameEngine.gameState e' = GameState.GameOver)
  /\ (GameEngine.gameState e' = GameState.NotStarted ->
      GameEngine.gameState e = GameState.NotStarted).
Proof.
  intros E. apply run_inv in E.
  destruct E as [c e w Hc | e w S | e w S | c f e w p ghost Hf Hp V L
                | e w p Hp V | c e e5 e' w w3 w' p q Hp Hq El Es En Est
                | e e2 w w' g0 Er Es].
  - split; [ | now split].
    destruct c; cbn in Hc; try reflexivity; try (now left);
      try contradiction; destruct (GameEngine.gameState e); congruence.
  - cbn. rewrite S. repeat split; congruence.
  - cbn. rewrite S. repeat split; congruence.
  - cbn. split; [ | now split].
    destruct c; cbn in Hf; try discriminate; reflexivity.
  - cbn. split; [now left | now split].
  - destruct (spawnTetrimino_inv _ _ _ _ Es) as (c' & n & ghost & -> & _).
    unfold spawnedEngine. cbn [GameEngine.gameState]. rewrite Est.
    assert ((if Grid.canPlace (GameEngine.grid e5) c'
             then GameEngine.gameState e else GameState.GameOver)
            = GameEngine.gameState e
            \/ (if Grid.canPlace (GameEngine.grid e5) c'
                then GameEngine.gameState e else GameState.GameOver)
               = GameState.GameOver) as H
        by (destruct (Grid.canPlace _ c'); auto).
    split.
    + destruct Hq as [(-> & _) | (-> & _)]; exact H.
    + split; [intros _ S; destruct H as [-> | ->]; auto | ].
      destruct H as [-> | ->]; [auto | discriminate].
  - cbn. repeat split; congruence.
Qed.

Lemma session_pieces_witness :
  rotationOk (Tetrimino.spawn TetriminoType.I (Some PowerUpType.LINE_CLEAR))
  /\ GameEngine.gameState ledgeState <> GameState.NotStarted.
Proof.
  pose proof (session_pieces ledgeState ledgeState_reachable) as H.
  change (GameEngine.currentTetrimino ledgeState)
    with (Some (Tetrimino.spawn TetriminoType.I (Some PowerUpType.LINE_CLEAR)))
    in H.
  destruct H as (Hr & _ & _ & Hs). split; [exact Hr | exact Hs].
Defined.

Lemma game_state_transitions_witness :
  GameEngine.gameState (GameEngine.pauseGame ledgeState) = GameState.Paused.
Proof.
  exact (proj1 (game_state_transitions GameEngine.PauseGame ledgeState
                  (GameEngine.pauseGame ledgeState) ledgeWorld ledgeWorld
                  eq_refl)).
Defined.

(** ** Landing and handover *)

Module LandFacts.

Lemma forallb_false {A : Type} (f : A -> bool) (l : list A) :
  forallb f l = false -> exists x, In x l /\ f x = false.
Proof.
  induction l as [ | a l IH]; [discriminate | ]. cbn.
  destruct (f a) eqn:Fa; cbn.
  - intros H. destruct (IH H) as (x & Hx & Fx). eauto.
  - intros _. eauto.
Qed.

Lemma getBlocks_moveDown (p : Tetrimino.t) :
  Tetrimino.getBlocks (Tetrimino.moveDown p)
  = map (fun b => mkPosition (pos_x b) (Int32.add (pos_y b) 1))
        (Tetrimino.getBlocks p).
Proof.
  destruct p as [ty pos rot pu]. unfold Tetrimino.moveDown.
  cbn [Tetrimino.type Tetrimino.position Tetrimino.rotation Tetrimino.powerUp].
  apply (getBlocks_shift ty pos _ rot pu pu (fun v => v)
           (fun v => Int32.add v 1)); cbn; intros d;
    [reflexivity | apply add_add_comm].
Qed.

(** Why a piece on the grid cannot move down: one of its blocks is in the
    bottom row or, for a piece that is no GHOST, above a filled cell. *)
Lemma blocked_below (g : Grid.t) (q : Tetrimino.t) :
  wellFormed g -> Grid.height g + 4 <= Int32.max_value -> pieceOk g q ->
  GameEngine.isValidMove g (Tetrimino.moveDown q) = false ->
  exists b,
    In b (Tetrimino.getBlocks q)
    /\ (pos_y b = Grid.height g - 1
        \/ Tetrimino.powerUp q <> Some PowerUpType.GHOST
           /\ exists v, Grid.cell g (pos_x b) (pos_y b + 1) = Ok v /\ v <> 0).
Proof.
  intros WF Hh (Hy & Hx & B) V. unfold GameEngine.isValidMove in V.
  change (Tetrimino.powerUp (Tetrimino.moveDown q)) with (Tetrimino.powerUp q) in V.
  rewrite getBlocks_moveDown in V. rewrite Forall_forall in B.
  assert (forall b, In b (Tetrimino.getBlocks q) ->
                    0 <= pos_x b < Grid.width g
                    /\ 0 <= pos_y b < Grid.height g
                    /\ Int32.add (pos_y b) 1 = pos_y b + 1) as Hb.
  { intros b Hin. apply list_elem_of_In in Hin. specialize (B b Hin).
    apply isInBounds_true in B. split; [lia | ]. split; [lia | ].
    apply Int32Facts.add_small.
    unfold Int32.in_range, Int32.min_value, Int32.max_value in *. lia. }
  destruct (Tetrimino.powerUp q) as [[ | | ] | ] eqn:Hpu;
    apply forallb_false in V as (b' & Hin & F);
    apply in_map_iff in Hin as (b & <- & Hin);
    destruct (Hb b Hin) as (Bx & By_ & Ea); cbn [pos_x pos_y] in F;
    rewrite Ea in F; exists b; (split; [exact Hin | ]).
  3:{ left. destruct (Z.ltb_spec (pos_y b + 1) (Grid.height g)),
              (Z.leb_spec 0 (pos_x b)),
              (Z.ltb_spec (pos_x b) (Grid.width g)); cbn in F;
        try discriminate; lia. }
  all: destruct (Z.ltb_spec (pos_y b + 1) (Grid.height g)) as [Hlt | Hge];
    [right | left; lia];
    (split; [discriminate | ]);
    destruct (Z.leb_spec 0 (pos_x b)); [ | lia];
    destruct (Z.ltb_spec (pos_x b) (Grid.width g)); [ | lia];
    destruct (Z.ltb_spec (pos_y b + 1) 0); [lia | ];
    cbn [andb orb] in F; unfold Grid.isEmpty in F;
    assert (Grid.isInBounds g (mkPosition (pos_x b) (pos_y b + 1)) = true) as E
        by (apply isInBounds_true; cbn; lia);
    rewrite E in F; cbn [pos_x pos_y] in F;
    destruct (cell_defined g (pos_x b) (pos_y b + 1) WF ltac:(lia) ltac:(lia))
      as (v & Ev & _);
    rewrite Ev in F; exists v; (split; [exact Ev | ]);
    apply Z.eqb_neq; exact F.
Qed.

Lemma ledgeCleared_run :
  GameEngine.run GameEngine.HardDrop ledgeState ledgeWorld
  = Ok (ledgeCleared, ledgeClearedWorld).
Proof. vm_compute. reflexivity. Qed.

End LandFacts.

Import LandFacts.

(** X14. The descent loop of [hardDrop] and of the ghost leaves a piece that
    is on the grid at a resting place: the piece is still on the grid, it
    was only moved down, and one of its blocks is in the bottom row or, if
    the piece is no GHOST, directly above a filled cell. A GHOST piece
    always comes to rest on the bottom row. *)
Theorem landing_is_a_resting_place (g : Grid.t) (p : Tetrimino.t) :
  wellFormed g -> Grid.height g + 4 <= Int32.max_value -> pieceOk g p ->
  exists (k : nat) (q : Tetrimino.t),
    landing g p = Ok q
    /\ q = Nat.iter k Tetrimino.moveDown p
    /\ pieceOk g q
    /\ exists b,
         In b (Tetrimino.getBlocks q)
         /\ (pos_y b = Grid.height g - 1
             \/ Tetrimino.powerUp p <> Some PowerUpType.GHOST
                /\ exists v, Grid.cell g (pos_x b) (pos_y b + 1) = Ok v
                             /\ v <> 0).
Proof.
  intros WF Hh OK. pose proof OK as (Hy & _ & _).
  destruct (DescentFacts.descend_stops (GameEngine.descend_fuel g p) g p)
    as (k & q & D & Eq & _ & V);
    [unfold Int32.min_value; lia | lia | exact Hh
    | unfold GameEngine.descend_fuel; lia | ].
  exists k, q. split; [exact D | ]. split; [exact Eq | ].
  pose proof (descend_pieceOk g _ Hh p q OK D) as OKq.
  split; [exact OKq | ].
  destruct (LandFacts.blocked_below g q WF Hh OKq V) as (b & Hin & H).
  exists b. split; [exact Hin | ].
  replace (Tetrimino.powerUp p) with (Tetrimino.powerUp q); [exact H | ].
  rewrite Eq. clear. induction k as [ | k IH]; [reflexivity | exact IH].
Qed.

Lemma landing_is_a_resting_place_witness :
  exists q,
    landing (Grid.create 10 20) verticalI = Ok q
    /\ Tetrimino.position q = mkPosition 4 16.
Proof.
  destruct (landing_is_a_resting_place (Grid.create 10 20) verticalI
              (proj1 create_engineOk))
    as (k & q & E & _).
  - vm_compute. discriminate.
  - unfold pieceOk. cbn.
    split; [lia | ].
    split; [unfold Int32.in_range, Int32.min_value, Int32.max_value; lia | ].
    repeat constructor.
  - exists q. split; [exact E | ].
    vm_compute in E. now injection E as <-.
Defined.

(** X15. A lock hands the next piece over: after a hard drop,
    or a soft drop of a piece that cannot move down, the current piece is
    the piece that was shown as next, and a new next piece was generated at
    the spawn position. *)
Theorem lock_hands_over_the_next_piece
    (c : GameEngine.command) (e e' : GameEngine.t) (w w' : World)
    (p n : Tetrimino.t) :
  GameEngine.currentTetrimino e = Some p ->
  GameEngine.nextTetrimino e = Some n ->
  c = GameEngine.HardDrop
  \/ c = GameEngine.MoveDown
     /\ GameEngine.isValidMove (GameEngine.grid e) (Tetrimino.moveDown p)
        = false ->
  GameEngine.run c e w = Ok (e', w') ->
  GameEngine.currentTetrimino e' = Some n
  /\ exists n', GameEngine.nextTetrimino e' = Some n'
                /\ Tetrimino.position n' = mkPosition 4 0
                /\ Tetrimino.rotation n' = 0.
Proof.
  intros Hp Hn Hc E. apply run_inv in E.
  destruct E as [c e w Hi | e w S | e w S | c f e w p0 ghost Hf Hp0 V L
                | e w p0 Hp0 V | c e e5 e' w w3 w' p0 q Hp0 Hq El Es En Est
                | e e2 w w' g0 Er Es].
  - destruct Hc as [-> | [-> _]]; cbn in Hi; congruence.
  - destruct Hc as [[=] | [[=] _]].
  - destruct Hc as [[=] | [[=] _]].
  - destruct Hc as [-> | [-> _]]; discriminate.
  - destruct Hc as [[=] | [_ V']]. rewrite Hp in Hp0. injection Hp0 as <-.
    congruence.
  - destruct (spawnTetrimino_inv _ _ _ _ Es) as (c' & n' & ghost & -> & _ & An & Hc').
    rewrite En, Hn in Hc'. destruct Hc' as [[= <-] | [[=] _]].
    unfold spawnedEngine. cbn. split; [reflexivity | ].
    exists n'. destruct An. now repeat split.
  - destruct Hc as [[=] | [[=] _]].
Qed.

Lemma lock_hands_over_the_next_piece_witness :
  GameEngine.currentTetrimino ledgeCleared
  = Some (Tetrimino.spawn TetriminoType.I None).
Proof.
  exact (proj1 (lock_hands_over_the_next_piece GameEngine.HardDrop
                  ledgeState ledgeCleared ledgeWorld ledgeClearedWorld
                  (Tetrimino.spawn TetriminoType.I
                                   (Some PowerUpType.LINE_CLEAR))
                  (Tetrimino.spawn TetriminoType.I None)
                  eq_refl eq_refl (or_introl eq_refl)
                  LandFacts.ledgeCleared_run)).
Defined.

(** ** The grid over a lock *)

Module LockFacts.

Lemma colorMapOk_cells (g g' : Grid.t) :
  colorMapOk g ->
  Grid.colorMap g' = Grid.colorMap g ->
  Grid.nextColorIndex g' = Grid.nextColorIndex g ->
  Forall (Forall (fun v => 0 <= v < Grid.nextColorIndex g)) (Grid.cells g') ->
  colorMapOk g'.
Proof.
  intros (K & Nx & N & F & _) Em Ei Hc. unfold colorMapOk.
  rewrite Em, Ei. now repeat split.
Qed.

Lemma Forall_dropRow (P : Z -> Prop) (g : Grid.t) (y : Z) (c : list (list Z)) :
  P 0 -> Forall (Forall P) c -> Forall (Forall P) (dropRow g y c).
Proof.
  intros H0 Hc. unfold dropRow, emptyRow.
  apply List.Forall_cons; [now apply Forall_replicate | now apply Forall_delete].
Qed.

Lemma Forall_fold_dropRow (P : Z -> Prop) (g : Grid.t) (rows : list Z) :
  P 0 ->
  forall c, Forall (Forall P) c ->
            Forall (Forall P) (fold_left (fun c y => dropRow g y c) rows c).
Proof.
  intros H0. induction rows as [ | y rows IH]; intros c Hc; [exact Hc | ].
  cbn [fold_left]. apply IH. now apply Forall_dropRow.
Qed.

Lemma completeRows_app (c1 c2 : list (list Z)) :
  completeRows (c1 ++ c2) = (completeRows c1 + completeRows c2)%nat.
Proof. unfold completeRows. now rewrite List.filter_app, length_app. Qed.

Lemma completeRows_insert (c : list (list Z)) (k : nat) (r : list Z) :
  (completeRows (<[k := r]> c) <= S (completeRows c))%nat.
Proof.
  destruct (c !! k) as [old | ] eqn:E.
  - rewrite <- (take_drop_middle c k old E) at 2.
    rewrite insert_take_drop by (eapply lookup_lt_Some; eauto).
    rewrite !completeRows_app.
    change (r :: drop (S k) c) with ([r] ++ drop (S k) c).
    change (old :: drop (S k) c) with ([old] ++ drop (S k) c).
    rewrite !completeRows_app. unfold completeRows at 2 5. cbn.
    destruct (rowComplete r), (rowComplete old); cbn; lia.
  - rewrite list_insert_ge by (now apply lookup_ge_None). lia.
Qed.

Lemma noCompleteRow_completeRows (g : Grid.t) :
  noCompleteRow g <-> completeRows (Grid.cells g) = 0%nat.
Proof.
  unfold noCompleteRow, completeRows.
  induction (Grid.cells g) as [ | row c IH]; [split; [reflexivity | constructor] | ].
  cbn. split.
  - intros H. apply Forall_cons in H as [Hr Hc]. rewrite Hr. now apply IH.
  - destruct (rowComplete row) eqn:Hr; [discriminate | ].
    intros H. constructor; [exact Hr | now apply IH].
Qed.

(** Each block written completes at most one more row. *)
Lemma placeBlocks_completeRows (ci : Z) (blocks : list Position) :
  forall g0 : Grid.t,
    wellFormed g0 ->
    exists c',
      forEach blocks (placeBlock ci) g0 = Ok (Grid.with_cells g0 c')
      /\ (completeRows c' <= completeRows (Grid.cells g0) + length blocks)%nat.
Proof.
  induction blocks as [ | b blocks IH]; intros g0 WF.
  - exists (Grid.cells g0). rewrite with_cells_id. split; [reflexivity | lia].
  - cbn [forEach]. unfold placeBlock at 1.
    destruct (Grid.isInBounds g0 b) eqn:B.
    + apply isInBounds_true in B.
      destruct (wellFormed_row g0 (pos_y b) WF ltac:(lia)) as (row & Er & Lr).
      rewrite (setCell_ok g0 (pos_x b) (pos_y b) ci row Er) by lia.
      cbn [res_bind].
      destruct (setCell_spec g0 (pos_x b) (pos_y b) ci WF ltac:(lia) ltac:(lia))
        as (c1 & E1 & WF1 & _).
      rewrite (setCell_ok g0 (pos_x b) (pos_y b) ci row Er) in E1 by lia.
      injection E1 as E1. rewrite <- E1 in WF1.
      destruct (IH _ WF1) as (c2 & E2 & L2).
      exists c2. split; [exact E2 | ].
      cbn [Grid.cells Grid.with_cells] in L2.
      pose proof (completeRows_insert (Grid.cells g0) (Z.to_nat (pos_y b))
                    (<[Z.to_nat (pos_x b) := ci]> row)).
      cbn [length]. lia.
    + cbn [res_bind]. destruct (IH _ WF) as (c2 & E2 & L2).
      exists c2. split; [exact E2 | ]. cbn [length]. lia.
Qed.

Lemma place_completeRows (g : Grid.t) (p : Tetrimino.t) :
  wellFormed g ->
  exists g',
    Grid.place g p = Ok g' /\ wellFormed g'
    /\ Grid.height g' = Grid.height g
    /\ (completeRows (Grid.cells g') <= completeRows (Grid.cells g) + 4)%nat.
Proof.
  intros WF. destruct (place_spec g p WF) as (c' & E & WF' & _).
  pose proof (getColorIndex_frame g (Tetrimino.color p)) as (Ew & Eh & Ec & Eo).
  unfold Grid.place in *.
  destruct (Grid.getColorIndex g (Tetrimino.color p)) as [ci g1].
  cbn [fst snd] in *.
  assert (wellFormed g1) as WF1
      by (unfold wellFormed in *; now rewrite Ew, Eh, Ec).
  destruct (placeBlocks_completeRows ci (Tetrimino.getBlocks p) g1 WF1)
    as (c2 & E2 & L2).
  change (forEach (Tetrimino.getBlocks p) (placeBlock ci) g1
          = Ok (Grid.with_cells g1 c')) in E.
  rewrite E in E2. injection E2 as <-.
  eexists. split; [exact E | ]. split; [exact WF' | ].
  split; [exact Eh | ].
  rewrite ShapeFacts.getBlocks_length, Ec in L2. exact L2.
Qed.

(** The grid after the first step of [lockTetrimino]: the placement, or
    the effect of the power-up. *)
Lemma effect_grid (e e1 : GameEngine.t) (p : Tetrimino.t) :
  engineOk e ->
  GameEngine.currentTetrimino e = Some p ->
  match Tetrimino.powerUp p with
  | Some PowerUpType.BOMB => GameEngine.applyBombEffect e p
  | Some PowerUpType.LINE_CLEAR => GameEngine.applyLineClearEffect e p
  | _ => let* g := Grid.place (GameEngine.grid e) p in
         Ok (GameEngine.with_grid e g)
  end = Ok e1 ->
  wellFormed (GameEngine.grid e1)
  /\ Grid.width (GameEngine.grid e1) = 10
  /\ Grid.height (GameEngine.grid e1) = 20
  /\ (completeRows (Grid.cells (GameEngine.grid e1)) <= 4)%nat
  /\ (Tetrimino.powerUp p = Some PowerUpType.BOMB
      \/ Tetrimino.powerUp p = Some PowerUpType.LINE_CLEAR ->
      noCompleteRow (GameEngine.grid e1))
  /\ (gridOk (GameEngine.grid e) -> gridOk (GameEngine.grid e1)).
Proof.
  intros (WF & Ew & Eh & NC & OB & Hcur & Hnext) Hp E1.
  destruct (Hcur p Hp) as (_ & _ & B).
  assert (forall e1,
             (let* g := Grid.place (GameEngine.grid e) p in
              Ok (GameEngine.with_grid e g)) = Ok e1 ->
             wellFormed (GameEngine.grid e1)
             /\ Grid.width (GameEngine.grid e1) = 10
             /\ Grid.height (GameEngine.grid e1) = 20
             /\ (completeRows (Grid.cells (GameEngine.grid e1)) <= 4)%nat
             /\ (gridOk (GameEngine.grid e) -> gridOk (GameEngine.grid e1)))
    as Hplace.
  { intros e0 E0.
    destruct (place_completeRows (GameEngine.grid e) p WF)
      as (g' & Eg & WF' & Hh' & L').
    pose proof E0 as E0'.
    rewrite Eg in E0. cbn [res_bind] in E0. injection E0 as <-.
    cbn [GameEngine.grid GameEngine.with_grid].
    apply noCompleteRow_completeRows in NC.
    split; [exact WF' | ].
    split; [destruct WF' as (_ & _ & _ & _); 
            destruct (place_spec (GameEngine.grid e) p WF) as (c' & Ec & _);
            rewrite Eg in Ec; injection Ec as ->; cbn;
            now rewrite (proj1 (getColorIndex_frame (GameEngine.grid e)
                                                    (Tetrimino.color p))) | ].
    split; [congruence | ]. split; [lia | ].
    intros [Ho CM].
    destruct (place_colors (GameEngine.grid e) p WF CM)
      as (g2 & E2 & _ & CM2 & _ & _ & Eo & _).
    rewrite Eg in E2. injection E2 as <-.
    split; [now rewrite Eo | exact CM2]. }
  destruct (Tetrimino.powerUp p) as [[ | | ] | ] eqn:Hpu.
  - destruct (applyBombEffect_ok e p WF) as (c' & E & WF' & K);
      [rewrite Ew; unfold Int32.max_value; lia
      | rewrite Eh; unfold Int32.max_value; lia | exact B | ].
    rewrite E in E1. injection E1 as <-.
    cbn [GameEngine.grid GameEngine.with_score GameEngine.with_grid].
    assert (noCompleteRow (Grid.with_cells (GameEngine.grid e) c')) as NC'.
    { apply noCompleteRow_emptied; [exact WF | exact WF' | | exact NC].
      intros x y v Hx Hy Ev. rewrite K by assumption.
      destruct (inBlast _ _ x y); [now right | now left]. }
    split; [exact WF' | ]. split; [exact Ew | ]. split; [exact Eh | ].
    split; [apply noCompleteRow_completeRows in NC'; lia | ].
    split; [intros _; exact NC' | ].
    intros [Ho CM]. split; [exact Ho | ].
    apply (colorMapOk_cells (GameEngine.grid e)); [exact CM | reflexivity.. | ].
    pose proof CM as (_ & Nx & _ & _ & Hcells).
    rewrite (cells_Forall _ _ WF) in Hcells.
    apply (cells_Forall
             (fun v => 0 <= v < Grid.nextColorIndex (GameEngine.grid e))
             (Grid.with_cells (GameEngine.grid e) c') WF').
    cbn [Grid.width Grid.height Grid.with_cells].
    intros x y v Hx Hy Ev. rewrite K in Ev by assumption.
    destruct (inBlast _ _ x y).
    + injection Ev as <-. lia.
    + exact (Hcells x y v Hx Hy Ev).
  - pose proof (occupied_rows_on_grid (GameEngine.grid e) p) as Hrows.
    destruct (applyLineClearEffect_ok
                (fun l => Z.of_nat (length (Grid.orbs (GameEngine.grid e)))
                          <= Grid.maxOrbs ->
                          Z.of_nat (length l) <= Grid.maxOrbs) e p)
      as (l' & E & Ho');
      [intros y l l0 _ Hl Pl Hle; rewrite Pl, length_map; now apply Hl
      | exact WF | exact B | tauto | ].
    rewrite E in E1. injection E1 as <-.
    cbn [GameEngine.grid GameEngine.with_score GameEngine.with_grid].
    pose proof WF as (Hw & Hh & Hl & Hr).
    destruct (fold_dropRow_shape (GameEngine.grid e)
                (distinct (map pos_y (Tetrimino.getBlocks p)))
                (Grid.cells (GameEngine.grid e)) Hw) as (L1 & L2 & L3);
      [intros y Hy; specialize (Hrows y B Hy); lia | exact Hr | exact NC | ].
    match goal with
    | |- wellFormed ?g1 /\ _ =>
        assert (noCompleteRow g1) as NC' by exact L3;
        assert (wellFormed g1) as WF'
            by (unfold wellFormed; cbn; repeat split; try assumption;
                congruence)
    end.
    split; [exact WF' | ]. split; [exact Ew | ]. split; [exact Eh | ].
    split; [apply noCompleteRow_completeRows in NC'; lia | ].
    split; [intros _; exact NC' | ].
    intros [Ho CM]. split; [now apply Ho' | ].
    apply (colorMapOk_cells (GameEngine.grid e)); [exact CM | reflexivity.. | ].
    cbn [Grid.cells].
    pose proof CM as (_ & Nx & _ & _ & Hcells).
    apply Forall_fold_dropRow; [lia | exact Hcells].
  - destruct (Hplace e1 E1) as (A1 & A2 & A3 & A4 & A5).
    repeat (split; [assumption | ]).
    split; [ | exact A5]. intros [H | H]; discriminate.
  - destruct (Hplace e1 E1) as (A1 & A2 & A3 & A4 & A5).
    repeat (split; [assumption | ]).
    split; [ | exact A5]. intros [H | H]; discriminate.
Qed.

(** The grid of a session keeps [gridOk] over a lock. *)
Lemma lockTetrimino_gridOk (e e' : GameEngine.t) (w w' : World)
      (p : Tetrimino.t) :
  engineOk e -> gridOk (GameEngine.grid e) ->
  GameEngine.currentTetrimino e = Some p ->
  GameEngine.lockTetrimino e w = Ok (e', w') ->
  gridOk (GameEngine.grid e').
Proof.
  intros OK GO Hp El.
  destruct (lockTetrimino_inv e e' w w' p Hp El)
    as (e1 & lines & mult & g & w1 & e5 & w3 & E1 & Ec & Es & Eg & _).
  destruct (effect_grid e e1 p OK Hp E1) as (WF1 & W1 & H1 & _ & _ & G1).
  destruct (G1 GO) as [Ho CM].
  destruct (clearLines_spec (GameEngine.grid e1) w WF1)
    as (lines' & mult' & g' & w1' & Ec' & _ & Ecells & _ & _ & Em & Ei & Hle);
    [rewrite H1; unfold Int32.max_value; lia | ].
  rewrite Ec in Ec'. injection Ec' as <- <- <- <-.
  apply spawnTetrimino_inv in Es as (c & n & ghost & -> & _).
  cbn [GameEngine.grid spawnedEngine]. rewrite Eg.
  split; [now apply Hle | ].
  apply (colorMapOk_cells (GameEngine.grid e1)); [exact CM | exact Em | exact Ei | ].
  rewrite Ecells. pose proof CM as (_ & Nx & _ & _ & Hcells).
  apply Forall_app. split.
  - apply Forall_replicate. unfold emptyRow. apply Forall_replicate. lia.
  - unfold incompleteRows. rewrite Forall_forall in Hcells.
    apply Forall_forall. intros row Hrow. apply Hcells.
    apply list_elem_of_In in Hrow. apply filter_In in Hrow as [Hrow _].
    now apply list_elem_of_In.
Qed.

End LockFacts.

Import LockFacts.

(** X16. In a session a lock clears at most four lines, so the table of
    [updateScore] is never left; and the scan that follows a BOMB or a
    LINE_CLEAR effect clears no line and returns the multiplier 1. *)
Theorem lock_clears_at_most_four_lines
    (e : GameEngine.t) (w : World) (p : Tetrimino.t) :
  GameEngine.reachable e ->
  GameEngine.currentTetrimino e = Some p ->
  exists e1 linesCleared orbMultiplier g w1,
    match Tetrimino.powerUp p with
    | Some PowerUpType.BOMB => GameEngine.applyBombEffect e p
    | Some PowerUpType.LINE_CLEAR => GameEngine.applyLineClearEffect e p
    | _ => let* g := Grid.place (GameEngine.grid e) p in
           Ok (GameEngine.with_grid e g)
    end = Ok e1
    /\ Grid.clearLines (GameEngine.grid e1) w
       = Ok (linesCleared, orbMultiplier, g, w1)
    /\ linesCleared = Z.of_nat (completeRows (Grid.cells (GameEngine.grid e1)))
    /\ 0 <= linesCleared <= 4
    /\ (Tetrimino.powerUp p = Some PowerUpType.BOMB
        \/ Tetrimino.powerUp p = Some PowerUpType.LINE_CLEAR ->
        linesCleared = 0 /\ orbMultiplier = 1).
Proof.
  intros R Hp.
  pose proof (reachable_engineOk e R) as OK.
  destruct (lockTetrimino_ok e w OK) as (e' & w' & El & _).
  destruct (lockTetrimino_inv e e' w w' p Hp El)
    as (e1 & lines & mult & g & w1 & e5 & w3 & E1 & Ec & _).
  exists e1, lines, mult, g, w1. split; [exact E1 | ]. split; [exact Ec | ].
  destruct (LockFacts.effect_grid e e1 p OK Hp E1)
    as (WF1 & _ & H1 & C1 & N1 & _).
  destruct (clearLines_spec (GameEngine.grid e1) w WF1)
    as (lines' & mult' & g' & w1' & Ec' & El' & _);
    [rewrite H1; unfold Int32.max_value; lia | ].
  rewrite Ec in Ec'. injection Ec' as <- <- <- <-.
  split; [exact El' | ]. split; [lia | ].
  intros Hpu. specialize (N1 Hpu).
  destruct (clearLines_nothing_to_clear (GameEngine.grid e1) w WF1 N1)
    as (g2 & w2 & E2 & _).
  rewrite Ec in E2. now injection E2 as -> ->.
Qed.

Lemma lock_clears_at_most_four_lines_witness :
  exists e1 g w1,
    Grid.clearLines (GameEngine.grid e1) ledgeWorld = Ok (0, 1, g, w1).
Proof.
  destruct (lock_clears_at_most_four_lines ledgeState ledgeWorld
              (Tetrimino.spawn TetriminoType.I (Some PowerUpType.LINE_CLEAR))
              ledgeState_reachable eq_refl)
    as (e1 & lines & mult & g & w1 & _ & Ec & _ & _ & H).
  destruct (H (or_intror eq_refl)) as [-> ->].
  exists e1, g, w1. exact Ec.
Defined.

(** ** Orbs and colours of a session *)

Module PaletteFacts.

Lemma create_gridOk : gridOk (Grid.create 10 20).
Proof.
  split; [vm_compute; discriminate | exact create_colorMapOk].
Qed.

Lemma reset_gridOk (g g0 : Grid.t) :
  wellFormed g -> Grid.reset g = Ok g0 -> gridOk g0.
Proof.
  intros WF E. destruct (reset_ok g WF) as (c' & E' & _ & Z0).
  rewrite E in E'. injection E' as ->. split; [cbn; unfold Grid.maxOrbs; lia | ].
  unfold colorMapOk. cbn [Grid.colorMap Grid.nextColorIndex Grid.cells length map seq].
  split; [reflexivity | ]. split; [reflexivity | ].
  split; [constructor | ]. split; [constructor | ].
  eapply Forall_impl; [exact Z0 | ].
  intros row ->. apply Forall_replicate. lia.
Qed.

Lemma run_gridOk (c : GameEngine.command) (e e' : GameEngine.t) (w w' : World) :
  engineOk e -> gridOk (GameEngine.grid e) ->
  GameEngine.run c e w = Ok (e', w') ->
  gridOk (GameEngine.grid e').
Proof.
  intros OK GO E. apply run_inv in E.
  destruct E as [c e w _ | e w _ | e w _ | c f e w p ghost _ _ _ _
                 | e w p _ _ | c e e5 e' w w3 w' p q Hp Hq El _ _ _
                 | e e2 w w' g0 Er Es]; try exact GO.
  - pose proof OK as (WF & Ew & Eh & NC & OB & Hcur & Hnext).
    assert (pieceOk (GameEngine.grid e) q) as Pq.
    { destruct Hq as [(_ & -> & _) | (_ & Hl)]; [now apply Hcur | ].
      eapply descend_pieceOk; [ | apply (Hcur p Hp) | exact Hl].
      rewrite Eh. unfold Int32.max_value. lia. }
    apply (lockTetrimino_gridOk (GameEngine.with_current e (Some q)) e' w w' q);
      [now apply engineOk_with_current | exact GO | reflexivity | exact El].
  - apply spawnTetrimino_inv in Es as (c & n & ghost & -> & _).
    cbn [GameEngine.grid spawnedEngine GameEngine.with_gameState].
    apply (reset_gridOk (GameEngine.grid e)); [apply OK | exact Er].
Qed.

Lemma reachable_gridOk (e : GameEngine.t) :
  GameEngine.reachable e -> gridOk (GameEngine.grid e).
Proof.
  induction 1 as [ | c e e' w w' R IH E]; [exact create_gridOk | ].
  exact (run_gridOk c e e' w w' (reachable_engineOk e R) IH E).
Qed.

End PaletteFacts.

Import PaletteFacts.

(** X17. In no state of a session does the grid hold more orbs than
    [MAX_ORBS]. *)
Theorem session_never_exceeds_max_orbs (e : GameEngine.t) :
  GameEngine.reachable e ->
  Z.of_nat (length (Grid.orbs (GameEngine.grid e))) <= Grid.maxOrbs.
Proof. intros R. apply (PaletteFacts.reachable_gridOk e R). Qed.

Lemma session_never_exceeds_max_orbs_witness :
  Z.of_nat (length (Grid.orbs (GameEngine.grid ledgeState))) <= Grid.maxOrbs.
Proof.
  exact (session_never_exceeds_max_orbs ledgeState ledgeState_reachable).
Defined.

(** X18. In every state of a session the colour map of the grid holds at
    most the seven tetrimino colours, under the indices 1, 2, ...; every
    cell of the grid holds 0 or one of these indices, and [getColorAt]
    answers with no colour for the first and with the tetrimino colour of
    that index for the second. *)
Theorem session_cells_have_piece_colours (e : GameEngine.t) (x y : Z) :
  GameEngine.reachable e ->
  0 <= x < 10 -> 0 <= y < 20 ->
  (length (Grid.colorMap (GameEngine.grid e)) <= 7)%nat
  /\ exists v,
       Grid.cell (GameEngine.grid e) x y = Ok v
       /\ 0 <= v <= Z.of_nat (length (Grid.colorMap (GameEngine.grid e)))
       /\ if v =? 0
          then Grid.getColorAt (GameEngine.grid e) (mkPosition x y) = Ok None
          else exists color,
                 Grid.getColorAt (GameEngine.grid e) (mkPosition x y)
                 = Ok (Some color)
                 /\ In (v, color) (Grid.colorMap (GameEngine.grid e))
                 /\ In color pieceColors.
Proof.
  intros R Hx Hy.
  pose proof (reachable_engineOk e R) as (WF & Ew & Eh & _).
  destruct (PaletteFacts.reachable_gridOk e R) as [_ CM].
  pose proof CM as (K & Nx & N & F & Hcells).
  split; [now apply colors_bound | ].
  destruct (cell_defined (GameEngine.grid e) x y WF) as (v & Ev & _);
    [lia | lia | ].
  rewrite (cells_Forall _ _ WF) in Hcells.
  specialize (Hcells x y v ltac:(lia) ltac:(lia) Ev). cbn beta in Hcells.
  exists v. split; [exact Ev | ]. split; [lia | ].
  rewrite getColorAt_in by lia. rewrite Ev. cbn [res_bind].
  destruct (Z.eqb_spec v 0) as [-> | Hv]; [reflexivity | ].
  destruct (Z.ltb_spec 0 v); [ | lia].
  assert (In v (map fst (Grid.colorMap (GameEngine.grid e)))) as Hin
      by (apply (keys_range _ _ K); lia).
  apply in_map_iff in Hin as ([k color] & Ek & Hin). cbn in Ek. subst k.
  exists color. split; [ | split; [exact Hin | ]].
  - f_equal. apply colorOf_In; [now apply keys_NoDup | exact Hin].
  - rewrite Forall_forall in F. apply F. apply list_elem_of_In.
    apply in_map_iff. now exists (v, color).
Qed.

Lemma session_cells_have_piece_colours_witness :
  exists v,
    Grid.cell (GameEngine.grid ledgeState) 0 19 = Ok v
    /\ 0 <= v <= Z.of_nat (length (Grid.colorMap (GameEngine.grid ledgeState))).
Proof.
  destruct (session_cells_have_piece_colours ledgeState 0 19
              ledgeState_reachable)
    as (_ & v & Ev & Hv & _).
  - lia.
  - lia.
  - exists v. split; [exact Ev | exact Hv].
Defined.

(** ** A new game, the multiplier clock and the drop interval *)

Module ScoreFacts.

Lemma wrap64_id (z : Z) : - 2 ^ 63 <= z < 2 ^ 63 -> Int64.wrap64 z = z.
Proof.
  intros H. unfold Int64.wrap64.
  rewrite Z.mod_small by lia. lia.
Qed.

(** The level of a session stays far below the range of [Int]. *)
Lemma reachable_level_le (e : GameEngine.t) :
  GameEngine.reachable e -> GameEngine.level e <= 1073742.
Proof.
  assert (forall s, Int32.in_range s -> newLevel s <= 1073742) as Hn.
  { intros s Hs. rewrite newLevel_quot by exact Hs.
    unfold Int32.in_range, Int32.min_value, Int32.max_value in Hs.
    assert (Z.quot s 2000 <= Z.quot 2147483647 2000)
      by (apply Z.quot_le_mono; lia).
    change (Z.quot 2147483647 2000) with 1073741 in *. lia. }
  induction 1 as [ | c e e' w w' _ IH E]; [cbn; lia | ].
  assert (c = GameEngine.StartGame \/ c <> GameEngine.StartGame) as [-> | Hc]
    by (destruct c; (now left) || (right; discriminate)).
  - cbn in E. apply startGame_level in E as (_ & ->). lia.
  - destruct (run_level c e e' w w' Hc E) as [(_ & ->) | (Hr & ->)];
      [exact IH | ].
    specialize (Hn _ Hr). lia.
Qed.

End ScoreFacts.

Import ScoreFacts.

(** X19. [startGame] starts afresh in every state of a session: the grid is
    the grid of the constructor, the score 0, the multiplier 1 and expired,
    the level 1, the state Running. The next piece is not reset: what the
    preview showed before is the first piece of the new game. *)
Theorem startGame_starts_afresh (e : GameEngine.t) (w : World) :
  GameEngine.reachable e ->
  exists e' w',
    GameEngine.startGame e w = Ok (e', w')
    /\ GameEngine.grid e' = Grid.create 10 20
    /\ GameEngine.score e' = 0
    /\ GameEngine.multiplier e' = 1
    /\ GameEngine.multiplierEndTime e' = 0
    /\ GameEngine.level e' = 1
    /\ GameEngine.gameState e' = GameState.Running
    /\ match GameEngine.nextTetrimino e with
       | Some n => GameEngine.currentTetrimino e' = Some n
       | None => exists c, GameEngine.currentTetrimino e' = Some c /\ atSpawn c
       end.
Proof.
  intros R. pose proof (reachable_engineOk e R) as OK.
  destruct (startGame_ok e w OK) as (e' & w' & E & _).
  exists e', w'. split; [exact E | ].
  pose proof OK as (WF & Ew & Eh & _).
  unfold GameEngine.startGame in E.
  rewrite (reset_create _ WF), Ew, Eh in E. cbn [res_bind] in E.
  destruct (GameEngine.spawnTetrimino _ w) as [[e2 w2] | ] eqn:Es;
    [ | discriminate].
  cbn [res_bind] in E. injection E as <- <-.
  apply spawnTetrimino_inv in Es as (c & n & ghost & -> & _ & _ & Hc).
  cbn [GameEngine.nextTetrimino] in Hc.
  cbn [GameEngine.grid GameEngine.score GameEngine.multiplier
       GameEngine.multiplierEndTime GameEngine.level GameEngine.gameState
       GameEngine.currentTetrimino GameEngine.with_gameState spawnedEngine].
  repeat (split; [reflexivity | ]).
  destruct Hc as [-> | [-> Hc]]; [reflexivity | ]. now exists c.
Qed.

Lemma startGame_starts_afresh_witness :
  exists e' w',
    GameEngine.startGame ledgeState ledgeWorld = Ok (e', w')
    /\ GameEngine.grid e' = Grid.create 10 20
    /\ GameEngine.score e' = 0.
Proof.
  destruct (startGame_starts_afresh ledgeState ledgeWorld ledgeState_reachable)
    as (e' & w' & E & Eg & Es & _).
  exists e', w'. split; [exact E | ]. split; [exact Eg | exact Es].
Defined.

(** X20. A multiplier lasts ten seconds on a clock that does not run
    backwards: set at the time [t1] and read at the time [t2], the time
    remaining is [t1 + 10000 - t2], or 0 from the time [t1 + 10000] on.
    The expiration check is one millisecond behind: at [t1 + 10000] itself
    nothing remains, and the multiplier is still kept. *)
Theorem multiplier_lasts_ten_seconds
    (e : GameEngine.t) (orbMultiplier t1 t2 : Z) (w : World) :
  clock_feed w (clock_cursor w) = t1 ->
  clock_feed w (S (clock_cursor w)) = t2 ->
  0 <= t1 <= t2 -> t2 < 2 ^ 63 - 10000 ->
  let e1 := fst (GameEngine.applyMultiplier e orbMultiplier w) in
  let w1 := snd (GameEngine.applyMultiplier e orbMultiplier w) in
  GameEngine.multiplier e1 = Int32.mul (GameEngine.multiplier e) orbMultiplier
  /\ fst (GameEngine.getMultiplierTimeRemaining e1 w1)
     = Z.max 0 (t1 + 10000 - t2)
  /\ fst (GameEngine.checkMultiplierExpiration e1 w1)
     = (if t1 + 10000 <? t2 then GameEngine.with_multiplier e1 1 0 else e1)
  /\ snd (GameEngine.getMultiplierTimeRemaining e1 w1)
     = snd (GameEngine.checkMultiplierExpiration e1 w1).
Proof.
  intros H1 H2 Ht Hmax. cbv zeta.
  unfold GameEngine.applyMultiplier, System.currentTimeMillis.
  cbn [fst snd GameEngine.multiplier GameEngine.with_multiplier].
  unfold GameEngine.getMultiplierTimeRemaining,
    GameEngine.checkMultiplierExpiration, System.currentTimeMillis.
  cbn [GameEngine.multiplierEndTime GameEngine.with_multiplier
       clock_feed clock_cursor].
  rewrite H1, H2. unfold GameEngine.multiplierDuration, Int64.add, Int64.sub.
  rewrite (ScoreFacts.wrap64_id t1) by lia.
  rewrite (ScoreFacts.wrap64_id t2) by lia.
  rewrite (ScoreFacts.wrap64_id (t1 + 10000)) by lia.
  rewrite (ScoreFacts.wrap64_id (t1 + 10000 - t2)) by lia.
  destruct (Z.leb_spec (t1 + 10000) 0); [lia | ].
  destruct (Z.ltb_spec 0 (t1 + 10000)); [ | lia].
  cbn [fst snd]. split; [reflexivity | ].
  split; [destruct (Z.ltb_spec 0 (t1 + 10000 - t2)); lia | ].
  split; [ | destruct (t1 + 10000 <? t2); reflexivity].
  destruct (t1 + 10000 <? t2); reflexivity.
Qed.

Lemma multiplier_lasts_ten_seconds_witness :
  fst (GameEngine.getMultiplierTimeRemaining
         (fst (GameEngine.applyMultiplier GameEngine.create 3 twoReadings))
         (snd (GameEngine.applyMultiplier GameEngine.create 3 twoReadings)))
  = 3000.
Proof.
  refine (proj1 (proj2 (multiplier_lasts_ten_seconds GameEngine.create 3
                          5000 12000 twoReadings eq_refl eq_refl _ _))).
  - lia.
  - lia.
Defined.

(** X21. The drop interval the view-model computes for the level of a
    session: 800 ms at level 1, 50 ms less with every level, and 200 ms
    from level 13 on. The arithmetic does not wrap around for any level a
    session reaches. *)
Theorem drop_speed_of_session_levels (e : GameEngine.t) :
  GameEngine.reachable e ->
  GameViewModel.speedForLevel (GameEngine.level e)
  = Z.max 200 (800 - 50 * (GameEngine.level e - 1))
  /\ 200 <= GameViewModel.speedForLevel (GameEngine.level e) <= 800
  /\ (13 <= GameEngine.level e ->
      GameViewModel.speedForLevel (GameEngine.level e) = 200).
Proof.
  intros R. pose proof (reachable_level_positive e R) as H1.
  pose proof (ScoreFacts.reachable_level_le e R) as H2.
  assert (GameViewModel.speedForLevel (GameEngine.level e)
          = Z.max 200 (800 - 50 * (GameEngine.level e - 1))) as E.
  { unfold GameViewModel.speedForLevel.
    unfold Int32.sub, Int32.mul.
    rewrite (Int32Facts.wrap32_id (GameEngine.level e - 1))
      by (unfold Int32.in_range, Int32.min_value, Int32.max_value; lia).
    rewrite (Int32Facts.wrap32_id ((GameEngine.level e - 1) * 50))
      by (unfold Int32.in_range, Int32.min_value, Int32.max_value; lia).
    rewrite Int32Facts.wrap32_id
      by (unfold Int32.in_range, Int32.min_value, Int32.max_value; lia).
    cbv zeta.
    destruct (Z.ltb_spec (800 - (GameEngine.level e - 1) * 50) 200); lia. }
  rewrite E. split; [reflexivity | ]. split; lia.
Qed.

Lemma drop_speed_of_session_levels_witness :
  GameViewModel.speedForLevel (GameEngine.level ledgeState) = 800.
Proof.
  rewrite (proj1 (drop_speed_of_session_levels ledgeState ledgeState_reachable)).
  reflexivity.
Defined.

(** ** The view-model *)

Module ViewModelFacts.

Lemma handle_whenRunning (i : GameViewModel.input) (vm : GameViewModel.t)
      (w : World) :
  GameViewModel.handle i vm w
  = GameViewModel.whenRunning vm w (GameEngine.run (commandOf i)).
Proof. destruct i; reflexivity. Qed.

Lemma handle_not_running (i : GameViewModel.input) (vm : GameViewModel.t)
      (w : World) :
  GameEngine.gameState (GameViewModel.gameEngine vm) <> GameState.Running ->
  GameViewModel.handle i vm w = Ok (vm, w).
Proof.
  intros H. rewrite handle_whenRunning. unfold GameViewModel.whenRunning.
  destruct (GameEngine.gameState (GameViewModel.gameEngine vm));
    congruence.
Qed.

Lemma handleAll_not_running (inputs : list GameViewModel.input)
      (vm : GameViewModel.t) (w : World) :
  GameEngine.gameState (GameViewModel.gameEngine vm) <> GameState.Running ->
  GameViewModel.handleAll inputs vm w = Ok (vm, w).
Proof.
  intros H. induction inputs as [ | i inputs IH]; [reflexivity | ].
  cbn [GameViewModel.handleAll]. rewrite handle_not_running by exact H.
  exact IH.
Qed.

End ViewModelFacts.

Import ViewModelFacts.

(** X22. Every input of the view-model returns when its engine is in a
    state of a session, and leaves the engine in such a state: in the
    state the engine command of the input gives when the game is running,
    and in the same state, with no random number and no clock reading
    consumed, when it is not. *)
Theorem view_model_inputs_stay_in_session
    (i : GameViewModel.input) (vm : GameViewModel.t) (w : World) :
  GameEngine.reachable (GameViewModel.gameEngine vm) ->
  exists vm' w',
    GameViewModel.handle i vm w = Ok (vm', w')
    /\ GameEngine.reachable (GameViewModel.gameEngine vm')
    /\ (GameEngine.gameState (GameViewModel.gameEngine vm) = GameState.Running ->
        exists w1,
          GameEngine.run (commandOf i) (GameViewModel.gameEngine vm) w
          = Ok (GameViewModel.gameEngine vm', w1)
          /\ (GameViewModel.multiplierTimeRemaining vm', w')
             = GameEngine.getMultiplierTimeRemaining
                 (GameViewModel.gameEngine vm') w1)
    /\ (GameEngine.gameState (GameViewModel.gameEngine vm) <> GameState.Running ->
        vm' = vm /\ w' = w).
Proof.
  intros R. rewrite ViewModelFacts.handle_whenRunning.
  unfold GameViewModel.whenRunning.
  destruct (GameEngine.gameState (GameViewModel.gameEngine vm)) eqn:S;
    try (exists vm, w; split; [reflexivity | ]; split; [exact R | ];
         split; [discriminate | now split]).
  destruct (reachable_run_returns (commandOf i) _ w R) as (e' & w1 & E).
  rewrite E. cbn [res_bind]. unfold GameViewModel.updateUIState.
  cbn [GameViewModel.gameEngine GameViewModel.with_engine
       GameViewModel.dropSpeed].
  destruct (GameEngine.getMultiplierTimeRemaining e' w1) as [r w'] eqn:Er.
  eexists. eexists. split; [reflexivity | ].
  cbn [GameViewModel.gameEngine GameViewModel.dropSpeed
       GameViewModel.multiplierTimeRemaining].
  split; [eapply GameEngine.reachable_run; eauto | ].
  split; [ | congruence].
  intros _. exists w1. split; [reflexivity | now rewrite Er].
Qed.

Lemma view_model_inputs_stay_in_session_witness :
  exists vm' w',
    GameViewModel.handle GameViewModel.HardDrop startedViewModel ledgeWorld
    = Ok (vm', w')
    /\ GameEngine.reachable (GameViewModel.gameEngine vm').
Proof.
  destruct (view_model_inputs_stay_in_session GameViewModel.HardDrop
              startedViewModel ledgeWorld ledgeState_reachable)
    as (vm' & w' & E & R & _).
  exists vm', w'. split; [exact E | exact R].
Defined.

(** X23. A pause holds the game: paused from a running game, the view-model
    ignores every input and every turn of the game loop, consuming no
    random number and no clock reading, and [resumeGame] gives back
    exactly the engine state of before the pause. *)
Theorem pause_holds_the_game
    (inputs : list GameViewModel.input) (vm : GameViewModel.t) (w : World) :
  GameEngine.gameState (GameViewModel.gameEngine vm) = GameState.Running ->
  GameViewModel.handleAll inputs (GameViewModel.pauseGame vm) w
  = Ok (GameViewModel.pauseGame vm, w)
  /\ GameEngine.gameState
       (GameViewModel.gameEngine (GameViewModel.pauseGame vm))
     = GameState.Paused
  /\ GameViewModel.gameEngine
       (GameViewModel.resumeGame (GameViewModel.pauseGame vm))
     = GameViewModel.gameEngine vm.
Proof.
  intros S.
  assert (GameEngine.gameState
            (GameViewModel.gameEngine (GameViewModel.pauseGame vm))
          = GameState.Paused) as P.
  { cbn. unfold GameEngine.pauseGame. now rewrite S. }
  split; [apply ViewModelFacts.handleAll_not_running; congruence | ].
  split; [exact P | ].
  destruct vm as [e r d]. cbn in S.
  unfold GameViewModel.resumeGame, GameViewModel.pauseGame,
    GameViewModel.with_engine, GameEngine.resumeGame, GameEngine.pauseGame.
  cbn [GameViewModel.gameEngine GameViewModel.multiplierTimeRemaining
       GameViewModel.dropSpeed].
  rewrite S. cbn. destruct e. cbn in S. subst. reflexivity.
Qed.

Lemma pause_holds_the_game_witness :
  GameViewModel.handleAll
    [GameViewModel.MoveLeft; GameViewModel.Tick; GameViewModel.HardDrop]
    (GameViewModel.pauseGame startedViewModel) ledgeWorld
  = Ok (GameViewModel.pauseGame startedViewModel, ledgeWorld)
  /\ GameViewModel.gameEngine
       (GameViewModel.resumeGame (GameViewModel.pauseGame startedViewModel))
     = ledgeState.
Proof.
  destruct (pause_holds_the_game
              [GameViewModel.MoveLeft; GameViewModel.Tick;
               GameViewModel.HardDrop]
              startedViewModel ledgeWorld eq_refl) as (E & _ & Er).
  split; [exact E | exact Er].
Defined.

(** ** Volumes and orb lookups *)

Module VolumeFacts.

Lemma SFcompare_antisym (a b : spec_float) :
  SFcompare a b = option_map CompOpp (SFcompare b a).
Proof.
  destruct a as [sa | sa | | sa ma ea], b as [sb | sb | | sb mb eb];
    try destruct sa; try destruct sb; try reflexivity;
    cbn [SFcompare option_map]; f_equal;
    rewrite (Z.compare_antisym ea eb);
    destruct (ea ?= eb) eqn:E; cbn [CompOpp]; try reflexivity;
    rewrite (Pos.compare_cont_antisym _ _ Eq); cbn [CompOpp];
    try reflexivity; now rewrite CompOpp_involutive.
Qed.

(** Of two floats that are numbers, one is below the other or they are
    in order. *)
Lemma not_ltb_leb (a b : spec_float) :
  a <> S754_nan -> b <> S754_nan -> SFltb a b = false -> SFleb b a = true.
Proof.
  intros Ha Hb. unfold SFltb, SFleb. rewrite (SFcompare_antisym b a).
  destruct (SFcompare a b) as [[ | | ] | ] eqn:E; cbn; try easy.
  destruct a, b; try congruence; discriminate.
Qed.

Lemma coerceIn_unit (v : spec_float) :
  let v' := Float32.coerceIn v (Float32.ofInt 0) (Float32.ofInt 1) in
  (v <> S754_nan ->
   SFleb (Float32.ofInt 0) v' = true /\ SFleb v' (Float32.ofInt 1) = true)
  /\ (SFleb (Float32.ofInt 0) v = true -> SFleb v (Float32.ofInt 1) = true ->
      v' = v)
  /\ (v = S754_nan -> v' = S754_nan).
Proof.
  cbv zeta. unfold Float32.coerceIn, Float32.ltb.
  change (Float32.ofInt 0) with (S754_zero false).
  change (Float32.ofInt 1) with (S754_finite false 8388608 (-23)).
  split; [ | split].
  - intros Hv.
    destruct (SFltb v (S754_zero false)) eqn:E0; [now split | ].
    destruct (SFltb (S754_finite false 8388608 (-23)) v) eqn:E1; [now split | ].
    split.
    + apply not_ltb_leb; [exact Hv | discriminate | exact E0].
    + apply not_ltb_leb; [discriminate | exact Hv | exact E1].
  - intros H0 H1.
    assert (SFltb v (S754_zero false) = false) as ->.
    { unfold SFltb, SFleb in *. rewrite (SFcompare_antisym v _).
      destruct (SFcompare (S754_zero false) v) as [[ | | ] | ];
        cbn in *; congruence. }
    assert (SFltb (S754_finite false 8388608 (-23)) v = false) as ->.
    { unfold SFltb, SFleb in *. rewrite (SFcompare_antisym _ v).
      destruct (SFcompare v (S754_finite false 8388608 (-23))) as [[ | | ] | ];
        cbn in *; congruence. }
    reflexivity.
  - now intros ->.
Qed.

End VolumeFacts.

Import VolumeFacts.

(** X24. [setSoundVolume] and [setMusicVolume] store a volume between 0 and 1
    whenever they are given a number, the number itself when it lies there;
    they touch no other setting. A NaN is not a number below 0 or above 1:
    it is stored as it is. *)
Theorem volume_is_clamped (s : SoundManager.t) (volume : Float32.float) :
  let stored :=
    Float32.coerceIn volume (Float32.ofInt 0) (Float32.ofInt 1) in
  SoundManager.setSoundVolume s volume
  = SoundManager.mk (SoundManager.soundEnabled s) (SoundManager.musicEnabled s)
                    stored (SoundManager.musicVolume s)
  /\ SoundManager.setMusicVolume s volume
     = SoundManager.mk (SoundManager.soundEnabled s)
                       (SoundManager.musicEnabled s)
                       (SoundManager.soundVolume s) stored
  /\ (volume <> S754_nan ->
      SFleb (Float32.ofInt 0) stored = true
      /\ SFleb stored (Float32.ofInt 1) = true)
  /\ (SFleb (Float32.ofInt 0) volume = true ->
      SFleb volume (Float32.ofInt 1) = true -> stored = volume)
  /\ (volume = S754_nan -> stored = S754_nan).
Proof.
  cbv zeta. split; [reflexivity | ]. split; [reflexivity | ].
  exact (VolumeFacts.coerceIn_unit volume).
Qed.

Module SpawnFacts.

Lemma getOrbAt_isOrbAt (g : Grid.t) (p : Position) :
  Grid.isOrbAt g p = false <-> Grid.getOrbAt g p = None.
Proof.
  unfold Grid.isOrbAt, Grid.getOrbAt.
  induction (Grid.orbs g) as [ | o l IH]; [easy | ].
  cbn [existsb find].
  destruct ((pos_x (Orb.position o) =? pos_x p)
            && (pos_y (Orb.position o) =? pos_y p)); [easy | exact IH].
Qed.

Lemma find_snoc {A : Type} (f : A -> bool) (l : list A) (x : A) :
  find f (l ++ [x])
  = match find f l with
    | Some y => Some y
    | None => if f x then Some x else None
    end.
Proof.
  induction l as [ | a l IH]; [reflexivity | ].
  cbn [app find]. destruct (f a); [reflexivity | exact IH].
Qed.

Lemma at_position (o : Orb.t) (q : Position) :
  (pos_x (Orb.position o) =? pos_x q) && (pos_y (Orb.position o) =? pos_y q)
  = true
  <-> q = Orb.position o.
Proof.
  destruct (Orb.position o) as [x y], q as [x' y']. cbn.
  rewrite andb_true_iff, !Z.eqb_eq. split; [intros [-> ->] | intros [= -> ->]];
    easy.
Qed.

End SpawnFacts.

Import SpawnFacts.

(** X25. [trySpawnOrb] always returns. With [MAX_ORBS] orbs on the grid it
    changes nothing and draws no random number; otherwise it leaves the
    grid as it is or adds one orb at the end of the list, on a cell where
    [getOrbAt] found no orb before and finds the new orb afterwards; on
    every other cell [getOrbAt] answers as before. *)
Theorem trySpawnOrb_then_getOrbAt (g : Grid.t) (w : World) :
  exists g' w',
    Grid.trySpawnOrb g w = Ok (g', w')
    /\ (Grid.maxOrbs <= Z.of_nat (length (Grid.orbs g)) -> g' = g /\ w' = w)
    /\ (g' = g
        \/ exists orb,
             g' = Grid.with_orbs g (Grid.orbs g ++ [orb])
             /\ Z.of_nat (length (Grid.orbs g)) < Grid.maxOrbs
             /\ Grid.getOrbAt g (Orb.position orb) = None
             /\ Grid.getOrbAt g' (Orb.position orb) = Some orb
             /\ Grid.isOrbAt g' (Orb.position orb) = true
             /\ forall q, q <> Orb.position orb ->
                          Grid.getOrbAt g' q = Grid.getOrbAt g q).
Proof.
  destruct (trySpawnOrb_ok g w) as (g' & w' & E & Sp).
  exists g', w'. split; [exact E | ]. split.
  - intros Hfull. unfold Grid.trySpawnOrb in E.
    destruct (Z.leb_spec Grid.maxOrbs (Z.of_nat (length (Grid.orbs g))));
      [ | lia].
    now injection E as <- <-.
  - destruct Sp as [-> | (orb & -> & Hin & Hroom)]; [now left | right].
    apply spawnCandidates_spec in Hin as (_ & _ & _ & Ho).
    apply SpawnFacts.getOrbAt_isOrbAt in Ho.
    assert ((pos_x (Orb.position orb) =? pos_x (Orb.position orb))
            && (pos_y (Orb.position orb) =? pos_y (Orb.position orb)) = true)
      as Hself by (now apply SpawnFacts.at_position).
    exists orb. split; [reflexivity | ]. split; [exact Hroom | ].
    split; [exact Ho | ].
    unfold Grid.getOrbAt in *. cbn [Grid.orbs Grid.with_orbs].
    split; [ | split].
    + rewrite SpawnFacts.find_snoc, Ho. now rewrite Hself.
    + unfold Grid.isOrbAt. cbn [Grid.orbs Grid.with_orbs].
      rewrite existsb_app. cbn [existsb]. rewrite Hself.
      now rewrite orb_true_r.
    + intros q Hq. rewrite SpawnFacts.find_snoc.
      match goal with
      | |- match ?f with _ => _ end = _ => destruct f; [reflexivity | ]
      end.
      destruct ((pos_x (Orb.position orb) =? pos_x q)
                && (pos_y (Orb.position orb) =? pos_y q)) eqn:Eq;
        [ | reflexivity].
      apply SpawnFacts.at_position in Eq. contradiction.
Qed.

(** ** The top row and the halves of the grid *)

Module TopRowFacts.

(** The answer of [isGameOver], by coordinates. *)
Lemma isGameOver_spec (g : Grid.t) :
  wellFormed g -> 0 < Grid.height g ->
  exists b,
    Grid.isGameOver g = Ok b
    /\ (b = true
        <-> exists x v, 0 <= x < Grid.width g
                        /\ Grid.cell g x 0 = Ok v /\ 0 < v).
Proof.
  intros WF Hh. pose proof WF as (Hw & _ & Hl & Hr).
  destruct (wellFormed_row g 0 WF ltac:(lia)) as (row & Er & Lr).
  unfold Grid.isGameOver. rewrite (aget_ok (Grid.cells g) 0 row (Z.le_refl 0) Er).
  cbn [res_bind]. eexists. split; [reflexivity | ].
  rewrite existsb_exists. split.
  - intros (v & Hin & Hv). apply Z.ltb_lt in Hv.
    apply list_elem_of_In, list_elem_of_lookup in Hin as (i & Ei).
    apply lookup_lt_Some in Ei as Hi.
    exists (Z.of_nat i), v. split; [lia | ]. split; [ | exact Hv].
    apply cell_lookup. split; [lia | ]. split; [lia | ].
    exists row. now rewrite Nat2Z.id.
  - intros (x & v & Hx & Ev & Hv).
    apply cell_lookup in Ev as (_ & _ & row' & Er' & Ev).
    change (Z.to_nat 0) with 0%nat in *. rewrite Er in Er'.
    injection Er' as <-. exists v. split; [ | now apply Z.ltb_lt].
    apply list_elem_of_In. eapply list_elem_of_lookup_2; eauto.
Qed.

Lemma covers_top (g : Grid.t) (p : Tetrimino.t) :
  reachesTop g p = true
  <-> exists x, 0 <= x < Grid.width g /\ covers p x 0 = true.
Proof.
  unfold reachesTop, covers. rewrite existsb_exists. split.
  - intros ([x y] & Hin & H). cbn in H.
    apply andb_true_iff in H as [H Hx2]. apply andb_true_iff in H as [Hy Hx1].
    apply Z.eqb_eq in Hy. subst y. exists x. split; [lia | ].
    apply existsb_exists. exists (mkPosition x 0). split; [exact Hin | ].
    unfold Position_eqb. cbn [pos_x pos_y]. now rewrite Z.eqb_refl.
  - intros (x & Hx & H). apply existsb_exists in H as ([x' y'] & Hin & H).
    unfold Position_eqb in H. cbn [pos_x pos_y] in H.
    apply andb_true_iff in H as [H1 H2].
    apply Z.eqb_eq in H1, H2. subst x' y'.
    exists (mkPosition x 0). split; [exact Hin | ]. cbn.
    destruct (Z.leb_spec 0 x); [ | lia]. destruct (Z.ltb_spec x (Grid.width g));
      [reflexivity | lia].
Qed.

End TopRowFacts.

Import TopRowFacts.

(** X26. [isGameOver] needs a grid with a row: on a grid of height 0 it
    raises. On a grid with a colour map as [getColorIndex] builds it, it
    answers true after a [place] if and only if it did before or the piece
    has a block in the top row of the grid. *)
Theorem place_then_isGameOver (g : Grid.t) (p : Tetrimino.t) :
  wellFormed g -> colorMapOk g ->
  (Grid.height g = 0 -> Grid.isGameOver g = Err IndexOutOfBounds)
  /\ (0 < Grid.height g ->
      exists g' before,
        Grid.place g p = Ok g'
        /\ Grid.isGameOver g = Ok before
        /\ Grid.isGameOver g' = Ok (before || reachesTop g p)).
Proof.
  intros WF CM. split.
  - intros Hh. destruct WF as (_ & _ & Hl & _). rewrite Hh in Hl.
    unfold Grid.isGameOver. destruct (Grid.cells g); [reflexivity | discriminate].
  - intros Hh.
    destruct (place_spec g p WF) as (c' & E & WF' & K).
    pose proof (getColorIndex_frame g (Tetrimino.color p)) as (Ew & Eh & _).
    pose proof (getColorIndex_ok g (Tetrimino.color p) CM
                  (color_In_pieceColors p)) as (Hci & _).
    set (ci := fst (Grid.getColorIndex g (Tetrimino.color p))) in *.
    set (g1 := snd (Grid.getColorIndex g (Tetrimino.color p))) in *.
    destruct (TopRowFacts.isGameOver_spec g WF Hh) as (b & Eb & Hb).
    destruct (TopRowFacts.isGameOver_spec (Grid.with_cells g1 c') WF')
      as (b' & Eb' & Hb');
      [cbn [Grid.height Grid.with_cells]; lia | ].
    exists (Grid.with_cells g1 c'), b. split; [exact E | ].
    split; [exact Eb | ]. rewrite Eb'. f_equal.
    apply eq_iff_eq_true. rewrite Hb', orb_true_iff, Hb,
      (TopRowFacts.covers_top g p).
    cbn [Grid.width Grid.with_cells]. rewrite Ew. split.
    + intros (x & v & Hx & Ev & Hv). rewrite K in Ev by lia.
      destruct (covers p x 0) eqn:C; [right; now exists x | left].
      now exists x, v.
    + intros [(x & v & Hx & Ev & Hv) | (x & Hx & C)].
      * destruct (covers p x 0) eqn:C.
        -- exists x, ci. rewrite K, C by lia. split; [lia | ]. split; [reflexivity | lia].
        -- exists x, v. rewrite K, C by lia. now repeat split.
      * exists x, ci. rewrite K, C by lia. split; [lia | ]. split; [reflexivity | lia].
Qed.

Lemma place_then_isGameOver_witness :
  exists g',
    Grid.place (Grid.create 10 20) verticalI = Ok g'
    /\ Grid.isGameOver (Grid.create 10 20) = Ok false
    /\ Grid.isGameOver g' = Ok true.
Proof.
  destruct (proj2 (place_then_isGameOver (Grid.create 10 20) verticalI
                     (proj1 create_engineOk) create_colorMapOk))
    as (g' & before & E & Eb & Eb'); [cbn; lia | ].
  exists g'. split; [exact E | ].
  assert (before = false) as -> by (vm_compute in Eb; congruence).
  split; [reflexivity | exact Eb'].
Defined.

(** X27. With room for an orb and free cells in both halves of the grid,
    [trySpawnOrb] adds an orb, in the lower half (from the midpoint row
    down) for 12582912 of the 16777216 samples of [nextFloat], those below
    0.75f, and in the upper half for the others. *)
Theorem trySpawnOrb_prefers_the_lower_half (g : Grid.t) (w : World) :
  Z.of_nat (length (Grid.orbs g)) < Grid.maxOrbs ->
  (exists p, In p (Grid.spawnCandidates g) /\ pos_y p < midpointOf g) ->
  (exists p, In p (Grid.spawnCandidates g) /\ midpointOf g <= pos_y p) ->
  exists orb w',
    Grid.trySpawnOrb g w
    = Ok (Grid.with_orbs g (Grid.orbs g ++ [orb]), w')
    /\ In (Orb.position orb) (Grid.spawnCandidates g)
    /\ (midpointOf g <= pos_y (Orb.position orb) <-> sampleOf w < 12582912).
Proof.
  intros Hroom (pu & Hpu & Hyu) (pl & Hpl & Hyl).
  assert (0 <= sampleOf w < 2 ^ 24) as Hk
      by (unfold sampleOf; apply Z.mod_pos_bound; lia).
  unfold Grid.trySpawnOrb.
  destruct (Z.leb_spec Grid.maxOrbs (Z.of_nat (length (Grid.orbs g))));
    [lia | ].
  change (Int32.div (Int32.add (Grid.height g) 4) 2) with (midpointOf g).
  cbv zeta.
  set (upper := List.filter (fun p => pos_y p <? midpointOf g) _).
  set (lower := List.filter (fun p => negb (pos_y p <? midpointOf g)) _).
  assert (forall p, In p upper ->
                    In p (Grid.spawnCandidates g) /\ pos_y p < midpointOf g)
    as Hu.
  { intros p Hp. apply List.filter_In in Hp as [Hp Hy].
    apply Z.ltb_lt in Hy. now split. }
  assert (forall p, In p lower ->
                    In p (Grid.spawnCandidates g) /\ midpointOf g <= pos_y p)
    as Hlo.
  { intros p Hp. apply List.filter_In in Hp as [Hp Hy].
    apply negb_true_iff, Z.ltb_ge in Hy. now split. }
  assert (upper <> []) as Nu.
  { intros Eu. assert (In pu upper) as Hin
        by (apply List.filter_In; split; [exact Hpu | now apply Z.ltb_lt]).
    rewrite Eu in Hin. destruct Hin. }
  assert (lower <> []) as Nl.
  { intros El. assert (In pl lower) as Hin
        by (apply List.filter_In; split;
            [exact Hpl | now apply negb_true_iff, Z.ltb_ge]).
    rewrite El in Hin. destruct Hin. }
  assert (forall l w0,
             l <> [] ->
             exists p orb w',
               (let* (position, w1) :=
                  (let* (p, w') := Grid.pick l w0 in Ok (Some p, w')) in
                match position with
                | None => Ok (g, w1)
                | Some it =>
                    let '(orb, w2) := Orb.createRandom it w1 in
                    Ok (Grid.with_orbs g (Grid.orbs g ++ [orb]), w2)
                end) = Ok (Grid.with_orbs g (Grid.orbs g ++ [orb]), w')
               /\ In p l /\ Orb.position orb = p) as Hpick.
  { intros l w0 Hne. destruct (pick_ok l w0 Hne) as (p & w' & E & Hp).
    rewrite E. cbn [res_bind].
    unfold Orb.createRandom. destruct (Random.nextFloat w') as [r w2].
    exists p. eexists. eexists. split; [reflexivity | ].
    split; [exact Hp | reflexivity]. }
  destruct lower as [ | l0 lower'] eqn:El; [congruence | ].
  destruct upper as [ | u0 upper'] eqn:Eu; [congruence | ].
  unfold Random.nextFloat, Random.nextBits24, Random.next.
  fold (sampleOf w).
  change (Float32.literal 75 100) with (S754_finite false 12582912 (-24)).
  rewrite ltb_floatOfBits24 by lia.
  change (2 ^ (-24 - -24)) with 1. rewrite Z.mul_1_r.
  destruct (Z.ltb_spec (sampleOf w) 12582912) as [Hs | Hs].
  - match goal with
    | |- context [Grid.pick ?l ?w0] =>
        destruct (Hpick l w0 Nl) as (p & orb & w' & E & Hp & Ep)
    end.
    exists orb, w'. split; [exact E | ]. rewrite Ep.
    destruct (Hlo p Hp) as [Hin Hy]. split; [exact Hin | ]. split; intros; lia.
  - match goal with
    | |- context [Grid.pick ?l ?w0] =>
        destruct (Hpick l w0 Nu) as (p & orb & w' & E & Hp & Ep)
    end.
    exists orb, w'. split; [exact E | ]. rewrite Ep.
    destruct (Hu p Hp) as [Hin Hy]. split; [exact Hin | ]. split; intros; lia.
Qed.

Lemma trySpawnOrb_prefers_the_lower_half_witness :
  exists orb w',
    Grid.trySpawnOrb (Grid.create 10 20) (worldOf [0; 0; 0] [])
    = Ok (Grid.with_orbs (Grid.create 10 20) [orb], w')
    /\ 12 <= pos_y (Orb.position orb).
Proof.
  destruct (trySpawnOrb_prefers_the_lower_half (Grid.create 10 20)
              (worldOf [0; 0; 0] []))
    as (orb & w' & E & _ & Hy).
  - vm_compute. reflexivity.
  - exists (mkPosition 0 4). split; [vm_compute; tauto | vm_compute; reflexivity].
  - exists (mkPosition 0 12). split; [vm_compute; tauto | vm_compute; discriminate].
  - exists orb, w'. split; [exact E | ].
    change 12 with (midpointOf (Grid.create 10 20)). apply Hy.
    vm_compute. reflexivity.
Defined.

(** ** Placing and moving *)

(** X28. A piece that [canPlace] accepts is a valid move, with any power-up.
    For a piece without the GHOST power-up that has no block above the
    grid the two tests agree. *)
Theorem canPlace_and_isValidMove (g : Grid.t) (p : Tetrimino.t) :
  (Grid.canPlace g p = true -> GameEngine.isValidMove g p = true)
  /\ (Tetrimino.powerUp p <> Some PowerUpType.GHOST ->
      Forall (fun b => 0 <= pos_y b) (Tetrimino.getBlocks p) ->
      GameEngine.isValidMove g p = Grid.canPlace g p).
Proof.
  assert (forall b, Grid.isEmpty g b = true ->
                    0 <= pos_x b < Grid.width g /\ 0 <= pos_y b < Grid.height g)
    as Hemp.
  { intros b H. unfold Grid.isEmpty in H.
    destruct (Grid.isInBounds g b) eqn:B; [ | discriminate].
    apply isInBounds_true in B. lia. }
  split.
  - intros H. unfold Grid.canPlace in H. rewrite forallb_forall in H.
    unfold GameEngine.isValidMove.
    destruct (Tetrimino.powerUp p) as [[ | | ] | ];
      apply forallb_forall; intros b Hb; specialize (H b Hb);
      destruct (Hemp b H) as [Hx Hy];
      (destruct (Z.ltb_spec (pos_y b) (Grid.height g)); [ | lia]);
      (destruct (Z.leb_spec 0 (pos_x b)); [ | lia]);
      (destruct (Z.ltb_spec (pos_x b) (Grid.width g)); [ | lia]);
      try reflexivity; cbn [andb]; rewrite H; apply orb_true_r.
  - intros Hpu Hy. unfold GameEngine.isValidMove, Grid.canPlace.
    assert (forall l,
               Forall (fun b => 0 <= pos_y b) l ->
               forallb
                 (fun position =>
                    (pos_y position <? Grid.height g)
                    && (0 <=? pos_x position) && (pos_x position <? Grid.width g)
                    && ((pos_y position <? 0) || Grid.isEmpty g position)) l
               = forallb (Grid.isEmpty g) l) as Hall.
    { induction 1 as [ | b l Hb _ IH]; [reflexivity | ].
      cbn [forallb]. rewrite IH. f_equal.
      destruct (Z.ltb_spec (pos_y b) 0); [lia | ]. cbn [orb].
      destruct (Grid.isEmpty g b) eqn:E; [ | apply andb_false_r].
      destruct (Hemp b E) as [Hx Hyb].
      destruct (Z.ltb_spec (pos_y b) (Grid.height g)); [ | lia].
      destruct (Z.leb_spec 0 (pos_x b)); [ | lia].
      destruct (Z.ltb_spec (pos_x b) (Grid.width g)); [reflexivity | lia]. }
    destruct (Tetrimino.powerUp p) as [[ | | ] | ];
      try congruence; now apply Hall.
Qed.
